(** * Prisma model-usage analyzers: a shallow embedding and its properties

    The development follows the two analyzer scripts of the repository:
    the comprehensive analyzer (class [ComprehensivePrismaAnalyzer]) and
    the strict one (class [EnhancedPrismaUsageAnalyzer]).

    Text is a list of characters; a character stands for a string code
    unit below 256.  Counters and confidence scores are natural numbers
    (the source adds small non-negative integers only). *)

From Stdlib Require Import String Ascii Bool Arith Lia List.
From Stdlib Require Import Permutation Sorted.
Import ListNotations.
Open Scope string_scope.
Open Scope list_scope.
Open Scope nat_scope.

(** ** Regular expressions, as the scripts use them *)

Module Regex.

Abbreviation text := (list ascii).

Definition code (c : ascii) : nat := nat_of_ascii c.

Definition between (lo hi : nat) (c : ascii) : bool :=
  (lo <=? code c) && (code c <=? hi).

(** [\w] : letters, digits and the underscore. *)
Definition is_word (c : ascii) : bool :=
  between 65 90 c || between 97 122 c || between 48 57 c || (code c =? 95).

(** [\s] : white space and line terminators (below 256). *)
Definition is_space (c : ascii) : bool :=
  between 9 13 c || (code c =? 32) || (code c =? 160).

(** Line terminators: [.] refuses them and [$] (flag m) stops before them. *)
Definition is_line_terminator (c : ascii) : bool :=
  (code c =? 10) || (code c =? 13).

(** Canonicalisation under flag i: upper case of the letters a-z. *)
Definition upper (c : ascii) : ascii :=
  if between 97 122 c then ascii_of_nat (code c - 32) else c.

(** [toLowerCase], on the characters a model name is made of. *)
Definition lower (c : ascii) : ascii :=
  if between 65 90 c then ascii_of_nat (code c + 32) else c.

Definition toLowerCase (s : text) : text := map lower s.

Record flags := { ignoreCase : bool; multiline : bool }.

(** Every pattern of the scripts carries the flag g. *)
Definition g : flags := {| ignoreCase := false; multiline := false |}.
Definition gi : flags := {| ignoreCase := true; multiline := false |}.
Definition gm : flags := {| ignoreCase := false; multiline := true |}.

Definition chr_eq (f : flags) (a b : ascii) : bool :=
  if ignoreCase f then Ascii.eqb (upper a) (upper b) else Ascii.eqb a b.

(** Members of a character class. *)
Inductive catom : Type :=
| CChar (c : ascii)
| CSpace
| CNotSpace
| CWord.

Definition in_atom (f : flags) (x : ascii) (a : catom) : bool :=
  match a with
  | CChar c => chr_eq f c x
  | CSpace => is_space x
  | CNotSpace => negb (is_space x)
  | CWord => is_word x
  end.

Definition in_class (f : flags) (l : list catom) (x : ascii) : bool :=
  existsb (in_atom f x) l.

Inductive re : Type :=
| Lit (s : text)                 (* a run of literal characters *)
| Any                            (* .  *)
| Cls (neg : bool) (l : list catom)  (* [...] and [^...], \s, \w *)
| Seq (a b : re)
| Alt (a b : re)
| Star (greedy : bool) (a : re)  (* a* and a*? *)
| Eol                            (* $ *)
| Wordb.                         (* \b *)

(** A position in the subject: the character before it and what follows. *)
Definition pos := (option ascii * text)%type.

Definition one_char (ok : ascii -> bool) (p : pos) : list pos :=
  match snd p with
  | x :: t => if ok x then [(Some x, t)] else []
  | [] => []
  end.

Fixpoint mt_lit (f : flags) (l : text) (p : pos) : list pos :=
  match l with
  | [] => [p]
  | c :: l' =>
      match snd p with
      | x :: t => if chr_eq f c x then mt_lit f l' (Some x, t) else []
      | [] => []
      end
  end.

Definition word_before (p : pos) : bool :=
  match fst p with Some c => is_word c | None => false end.

Definition word_after (p : pos) : bool :=
  match snd p with c :: _ => is_word c | [] => false end.

Definition at_eol (f : flags) (p : pos) : bool :=
  match snd p with
  | [] => true
  | c :: _ => multiline f && is_line_terminator c
  end.

(** The iterations of a star from [p]: [step] is one match of the body;
    an iteration that consumes nothing is refused.  A greedy star tries
    one more iteration before stopping, a lazy one stops first.  [n]
    bounds the number of iterations; the length of the rest is enough,
    each iteration consuming a character. *)
Fixpoint iterate (greedy : bool) (step : pos -> list pos) (n : nat) (p : pos)
  {struct n} : list pos :=
  match n with
  | 0 => [p]
  | S n' =>
      let more :=
        flat_map
          (fun q =>
             if length (snd q) <? length (snd p)
             then iterate greedy step n' q else [])
          (step p) in
      if greedy then more ++ [p] else p :: more
  end.

(** Backtracking matcher: all the ways [r] matches at [p], as the
    positions reached, in the order the engine tries them.  The head of
    the list is the match the engine reports. *)
Fixpoint mt (f : flags) (r : re) (p : pos) : list pos :=
  match r with
  | Lit s => mt_lit f s p
  | Any => one_char (fun x => negb (is_line_terminator x)) p
  | Cls neg l => one_char (fun x => xorb neg (in_class f l x)) p
  | Seq a b => flat_map (mt f b) (mt f a p)
  | Alt a b => mt f a p ++ mt f b p
  | Star greedy a => iterate greedy (mt f a) (length (snd p)) p
  | Eol => if at_eol f p then [p] else []
  | Wordb => if xorb (word_before p) (word_after p) then [p] else []
  end.

(** One attempt at a position: the end of the first match, if any. *)
Definition exec_at (f : flags) (r : re) (p : pos) : option text :=
  match mt f r p with
  | q :: _ => Some (snd q)
  | [] => None
  end.

(** The subject cut by a global scan: characters outside matches and the
    matches themselves, left to right. *)
Inductive piece : Type :=
| Keep (c : ascii)
| Hit (m : text).

(** The loop of a global [replace] / [matchAll]: try at the current
    index, on success jump past the match (past one character when the
    match is empty), on failure move one character on.  [skip] counts the
    characters still covered by the last match. *)
Fixpoint scan (f : flags) (r : re) (prev : option ascii) (s : text)
  (skip : nat) {struct s} : list piece :=
  match skip with
  | S k =>
      match s with
      | [] => []
      | c :: t => scan f r (Some c) t k
      end
  | 0 =>
      match exec_at f r (prev, s) with
      | Some s' =>
          let m := firstn (length s - length s') s in
          Hit m ::
            match s with
            | [] => []
            | c :: t =>
                match m with
                | [] => Keep c :: scan f r (Some c) t 0
                | _ :: m' => scan f r (Some c) t (length m')
                end
            end
      | None =>
          match s with
          | [] => []
          | c :: t => Keep c :: scan f r (Some c) t 0
          end
      end
  end.

Definition hits (l : list piece) : list text :=
  flat_map (fun p => match p with Hit m => [m] | Keep _ => [] end) l.

(** [[...s.matchAll(pattern)]] : the matched substrings. *)
Definition matchAll (f : flags) (r : re) (s : text) : list text :=
  hits (scan f r None s 0).

(** [s.replace(pattern, by)] for a global pattern and a replacement
    without dollar signs. *)
Definition replace (f : flags) (r : re) (by_ : text) (s : text) : text :=
  flat_map (fun p => match p with Hit _ => by_ | Keep c => [c] end)
           (scan f r None s 0).

End Regex.

Import Regex.

(** ** Writing patterns *)

Definition T (s : string) : text := list_ascii_of_string s.

Definition quote : ascii := ascii_of_nat 39.
Definition dquote : ascii := ascii_of_nat 34.
Definition backtick : ascii := ascii_of_nat 96.

Definition L (s : string) : re := Lit (T s).
Definition star (r : re) : re := Star true r.
Definition lazy (r : re) : re := Star false r.
Definition plus (r : re) : re := Seq r (Star true r).
Definition ws : re := Cls false [CSpace].
Definition wd : re := Cls false [CWord].
Definition oneOf (s : string) : re := Cls false (map CChar (T s)).
Definition noneOf (s : string) : re := Cls true (map CChar (T s)).
Definition quoteChars : list catom := [CChar quote; CChar dquote; CChar backtick].
Definition aQuote : re := Cls false quoteChars.
Definition noQuote : re := Cls true quoteChars.

Fixpoint words (w : string) (l : list string) : re :=
  match l with
  | [] => L w
  | w' :: l' => Alt (L w) (words w' l')
  end.

Declare Scope re_scope.
Delimit Scope re_scope with re.
Bind Scope re_scope with re.
Notation "a ;; b" := (Seq a b) (at level 60, right associativity) : re_scope.

(** A pattern: the expression and its flags ([new RegExp(source, flags)]). *)
Record pattern := { source : re; pflags : flags }.

Definition rx (f : flags) (r : re) : pattern := {| source := r; pflags := f |}.

Definition allMatches (p : pattern) (s : text) : list text :=
  matchAll (pflags p) (source p) s.

(** ** Maps with insertion order ([Map]) and sets ([Set]) *)

Fixpoint text_eqb (a b : text) : bool :=
  match a, b with
  | [], [] => true
  | x :: a', y :: b' => Ascii.eqb x y && text_eqb a' b'
  | _, _ => false
  end.

Fixpoint startsWith (s prefix : text) : bool :=
  match prefix, s with
  | [], _ => true
  | x :: p', y :: s' => Ascii.eqb x y && startsWith s' p'
  | _ :: _, [] => false
  end.

Section JsMap.
Variable V : Type.

Definition jsmap := list (text * V).

Fixpoint map_get (k : text) (m : jsmap) : option V :=
  match m with
  | [] => None
  | (k', v) :: m' => if text_eqb k k' then Some v else map_get k m'
  end.

Definition map_has (k : text) (m : jsmap) : bool :=
  match map_get k m with Some _ => true | None => false end.

(** [m.set(k, v)]: a known key keeps its place, a new one goes last. *)
Fixpoint map_set (k : text) (v : V) (m : jsmap) : jsmap :=
  match m with
  | [] => [(k, v)]
  | (k', v') :: m' =>
      if text_eqb k k' then (k, v) :: m' else (k', v') :: map_set k v m'
  end.

Definition keys (m : jsmap) : list text := map fst m.
End JsMap.

Arguments map_get {V}.
Arguments map_has {V}.
Arguments map_set {V}.
Arguments keys {V}.

Inductive usageType : Type :=
| DATABASE_OPERATION
| API_ENDPOINT
| TYPE_DEFINITION
| BUSINESS_LOGIC
| CLIENT_OPERATION
| SCHEMA_REFERENCE
| WEAK_INDICATOR.

Definition usageType_eqb (a b : usageType) : bool :=
  match a, b with
  | DATABASE_OPERATION, DATABASE_OPERATION
  | API_ENDPOINT, API_ENDPOINT
  | TYPE_DEFINITION, TYPE_DEFINITION
  | BUSINESS_LOGIC, BUSINESS_LOGIC
  | CLIENT_OPERATION, CLIENT_OPERATION
  | SCHEMA_REFERENCE, SCHEMA_REFERENCE
  | WEAK_INDICATOR, WEAK_INDICATOR => true
  | _, _ => false
  end.

(** A [Set] of usage types, in insertion order. *)
Definition has (s : list usageType) (t : usageType) : bool :=
  existsb (usageType_eqb t) s.

Definition add (s : list usageType) (t : usageType) : list usageType :=
  if has s t then s else s ++ [t].

(** ** Paths ([path.relative]) *)

Module Path.

Definition sep : ascii := ascii_of_nat 47.

(** The segments of a path: the runs of characters between separators,
    [cur] being the run at hand. *)
Fixpoint segmentsFrom (cur s : text) : list text :=
  match s with
  | [] => match cur with [] => [] | _ :: _ => [cur] end
  | c :: t =>
      if Ascii.eqb c sep
      then match cur with
           | [] => segmentsFrom [] t
           | _ :: _ => cur :: segmentsFrom [] t
           end
      else segmentsFrom (cur ++ [c]) t
  end.

Definition segments (s : text) : list text := segmentsFrom [] s.

(** What is left of two lists of segments after their common start. *)
Fixpoint difference (from to : list text) : list text * list text :=
  match from, to with
  | x :: from', y :: to' =>
      if text_eqb x y then difference from' to' else (from, to)
  | _, _ => (from, to)
  end.

Fixpoint joinSegments (l : list text) : text :=
  match l with
  | [] => []
  | x :: l' =>
      match l' with
      | [] => x
      | _ :: _ => x ++ sep :: joinSegments l'
      end
  end.

(** [path.relative(from, to)] on POSIX paths as [path.resolve] and
    [path.join] leave them (absolute, no empty segment, no [.] and no
    [..]), where resolving them again changes nothing: the segments the
    two paths start with in common are dropped, each segment left of
    [from] gives [..], and the segments left of [to] follow. *)
Definition relative (from to : text) : text :=
  let '(up, down) := difference (segments from) (segments to) in
  joinSegments (map (fun _ => T "..") up ++ down).

End Path.

(** ** The comprehensive analyzer *)

Module Comprehensive.

(** *** Patterns of [analyzeModelUsage]

    [modelName] is spliced into each pattern as it stands; names come
    from the schema as [\w+], so no character of a name is a pattern
    operator and the splice is a literal run. *)

Section Patterns.
Variable modelName : text.

Let name : re := Lit modelName.
Let lname : re := Lit (toLowerCase modelName).

Definition crud13 : re :=
  words "create" ["createMany"; "findFirst"; "findUnique"; "findMany";
                  "update"; "updateMany"; "upsert"; "delete"; "deleteMany";
                  "count"; "aggregate"; "groupBy"].

Definition crud9 : re :=
  words "create" ["findFirst"; "findUnique"; "findMany"; "update";
                  "updateMany"; "upsert"; "delete"; "deleteMany"].

Definition httpVerb : re := words "get" ["post"; "put"; "delete"; "patch"].

Definition prismaPatterns : list pattern :=
  [ (* prisma\.<lower>\.(create|...|groupBy)\s*\(   gi *)
    rx gi (L "prisma." ;; lname ;; L "." ;; crud13 ;; star ws ;; L "(");
    (* prisma\.<name>\.(create|...|groupBy)\s*\(    g *)
    rx g (L "prisma." ;; name ;; L "." ;; crud13 ;; star ws ;; L "(");
    (* tx\.<lower>\.(create|...|deleteMany)         gi *)
    rx gi (L "tx." ;; lname ;; L "." ;; crud9);
    (* tx\.<name>\.(create|...|deleteMany)          g *)
    rx g (L "tx." ;; name ;; L "." ;; crud9);
    (* \$queryRaw.*<name>                           gi *)
    rx gi (L "$queryRaw" ;; star Any ;; name);
    (* \$executeRaw.*<name>                         gi *)
    rx gi (L "$executeRaw" ;; star Any ;; name);
    (* include:\s*\{[^}]*<lower>[^}]*\}             gi *)
    rx gi (L "include:" ;; star ws ;; L "{" ;; star (noneOf "}") ;; lname
           ;; star (noneOf "}") ;; L "}");
    (* include:\s*\{[^}]*<name>[^}]*\}              g *)
    rx g (L "include:" ;; star ws ;; L "{" ;; star (noneOf "}") ;; name
          ;; star (noneOf "}") ;; L "}") ].

(** [['"`][^'"`]*<n>[^'"`]*['"`]] : a quoted run that holds [n]. *)
Definition quotedWith (n : re) : re :=
  aQuote ;; star noQuote ;; n ;; star noQuote ;; aQuote.

Definition apiPatterns : list pattern :=
  [ (* \.(get|post|put|delete|patch)\s*\([^)]*['"`][^'"`]*<lower>[^'"`]*['"`]  gi *)
    rx gi (L "." ;; httpVerb ;; star ws ;; L "(" ;; star (noneOf ")")
           ;; quotedWith lname);
    (* the same with <name>                                                    g *)
    rx g (L "." ;; httpVerb ;; star ws ;; L "(" ;; star (noneOf ")")
          ;; quotedWith name);
    (* req\.(params|body|query)\.\w*<lower>   gi *)
    rx gi (L "req." ;; words "params" ["body"; "query"] ;; L "." ;; star wd
           ;; lname);
    (* req\.(params|body|query)\.\w*<name>    g *)
    rx g (L "req." ;; words "params" ["body"; "query"] ;; L "." ;; star wd
          ;; name);
    (* ['"`]/api/[^'"`]*<lower>[^'"`]*['"`]   gi *)
    rx gi (aQuote ;; L "/api/" ;; star noQuote ;; lname ;; star noQuote
           ;; aQuote);
    (* ['"`]/[^'"`]*<lower>[^'"`]*['"`]       gi *)
    rx gi (aQuote ;; L "/" ;; star noQuote ;; lname ;; star noQuote
           ;; aQuote);
    (* (axios|fetch)\s*\([^)]*['"`][^'"`]*<lower>[^'"`]*['"`]   gi *)
    rx gi (words "axios" ["fetch"] ;; star ws ;; L "(" ;; star (noneOf ")")
           ;; quotedWith lname);
    (* (get|post|put|delete|patch)\s*\([^)]*['"`][^'"`]*<lower>[^'"`]*['"`]   gi *)
    rx gi (httpVerb ;; star ws ;; L "(" ;; star (noneOf ")")
           ;; quotedWith lname) ].

Definition typePatterns : list pattern :=
  [ (* interface\s+\w*<name>\w*\s*\{    gi *)
    rx gi (L "interface" ;; plus ws ;; star wd ;; name ;; star wd ;; star ws
           ;; L "{");
    (* type\s+\w*<name>\w*\s*=          gi *)
    rx gi (L "type" ;; plus ws ;; star wd ;; name ;; star wd ;; star ws
           ;; L "=");
    (* :\s*<name>\s*[\[\]]*\s*[=,\)\}]  g *)
    rx g (L ":" ;; star ws ;; name ;; star ws ;; star (oneOf "[]") ;; star ws
          ;; oneOf "=,)}");
    (* :\s*<name>\[\]                   g *)
    rx g (L ":" ;; star ws ;; name ;; L "[]");
    (* <[^>]*<name>[^>]*>               g *)
    rx g (L "<" ;; star (noneOf ">") ;; name ;; star (noneOf ">") ;; L ">");
    (* (const|let|var)\s+\w+\s*:\s*<name>   g *)
    rx g (words "const" ["let"; "var"] ;; plus ws ;; plus wd ;; star ws
          ;; L ":" ;; star ws ;; name) ].

Definition businessLogicPatterns : list pattern :=
  [ (* \w*Service\.\w*<lower>      gi *)
    rx gi (star wd ;; L "Service." ;; star wd ;; lname);
    (* \w*Repository\.\w*<lower>   gi *)
    rx gi (star wd ;; L "Repository." ;; star wd ;; lname);
    (* \w*API\.\w*<lower>          gi *)
    rx gi (star wd ;; L "API." ;; star wd ;; lname);
    (* (function|const|let)\s+\w*<lower>\w*   gi *)
    rx gi (words "function" ["const"; "let"] ;; plus ws ;; star wd ;; lname
           ;; star wd);
    (* (function|const|let)\s+\w*<name>\w*    g *)
    rx g (words "function" ["const"; "let"] ;; plus ws ;; star wd ;; name
          ;; star wd);
    (* \.(get|create|update|delete|fetch|save|load)<name>    gi *)
    rx gi (L "." ;; words "get" ["create"; "update"; "delete"; "fetch";
                                 "save"; "load"] ;; name);
    (* \.(get|create|update|delete|fetch|save|load)<lower>   gi *)
    rx gi (L "." ;; words "get" ["create"; "update"; "delete"; "fetch";
                                 "save"; "load"] ;; lname);
    (* <lower>Slice   gi *)
    rx gi (lname ;; L "Slice");
    (* <name>Slice    g *)
    rx g (name ;; L "Slice");
    (* (set|update|delete|fetch|create)<name>   g *)
    rx g (words "set" ["update"; "delete"; "fetch"; "create"] ;; name) ].

Definition clientPatterns : list pattern :=
  [ (* use<name>         gi *)
    rx gi (L "use" ;; name);
    (* use\w*<name>\w*   gi *)
    rx gi (L "use" ;; star wd ;; name ;; star wd);
    (* <name>Props       gi *)
    rx gi (name ;; L "Props");
    (* <name>State       gi *)
    rx gi (name ;; L "State");
    (* <name>Data        gi *)
    rx gi (name ;; L "Data");
    (* state\.<lower>    gi *)
    rx gi (L "state." ;; lname);
    (* state\.<name>     g *)
    rx g (L "state." ;; name);
    (* useSelector.*<lower>   gi *)
    rx gi (L "useSelector" ;; star Any ;; lname);
    (* <name>Form        gi *)
    rx gi (name ;; L "Form");
    (* validate<name>    gi *)
    rx gi (L "validate" ;; name);
    (* navigate.*<lower>      gi *)
    rx gi (L "navigate" ;; star Any ;; lname);
    (* router.*<lower>        gi *)
    rx gi (L "router" ;; star Any ;; lname) ].

Definition configPatterns : list pattern :=
  [ (* @relation.*<name>      gi *)
    rx gi (L "@relation" ;; star Any ;; name);
    (* references.*<name>     gi *)
    rx gi (L "references" ;; star Any ;; name);
    (* CREATE TABLE.*<name>   gi *)
    rx gi (L "CREATE TABLE" ;; star Any ;; name);
    (* ALTER TABLE.*<name>    gi *)
    rx gi (L "ALTER TABLE" ;; star Any ;; name);
    (* DROP TABLE.*<name>     gi *)
    rx gi (L "DROP TABLE" ;; star Any ;; name);
    (* <lower>.*seed          gi *)
    rx gi (lname ;; star Any ;; L "seed");
    (* seed.*<lower>          gi *)
    rx gi (L "seed" ;; star Any ;; lname) ].

Definition weakPatterns : list pattern :=
  [ (* import.*<name>       gi *)
    rx gi (L "import" ;; star Any ;; name);
    (* from.*<name>         gi *)
    rx gi (L "from" ;; star Any ;; name);
    (* ['"`]<lower>['"`]    gi *)
    rx gi (aQuote ;; lname ;; aQuote);
    (* ['"`]<name>['"`]     g *)
    rx g (aQuote ;; name ;; aQuote);
    (* \b<name>\b           g *)
    rx g (Wordb ;; name ;; Wordb) ].
End Patterns.

(** *** Data *)

Record relationship := { field : text; model : text; isArray : bool }.

Record modelInfo := {
  name : text;
  fields : list (text * text);
  relationships : list relationship;
  rawBody : text
}.

Record fileContent := { raw : text; clean : text }.

Record detail := {
  type : usageType;
  dpattern : pattern;          (* [pattern.source] *)
  matches : nat;
  examples : option (list text)
}.

(** The per-file record. *)
Record usageAnalysis := {
  file : text;
  isClientFile : bool;
  usageTypes : list usageType;
  usageCount : nat;
  confidence : nat;
  details : list detail
}.

Inductive riskLevelT : Type :=
| UNKNOWN
| SAFE
| PROBABLY_SAFE
| SUSPICIOUS
| LIKELY_UNUSED
| DEFINITELY_UNUSED.

(** The per-model record ([modelUsage] of [analyzeAllModels]); its
    usage-type set is [allUsageTypes] here. *)
Record modelUsageT := {
  usedModel : modelInfo;
  totalFiles : nat;
  serverFiles : nat;
  clientFiles : nat;
  totalConfidence : nat;
  allUsageTypes : list usageType;
  fileAnalyses : list usageAnalysis;
  isReallyUsed : bool;
  riskLevel : riskLevelT
}.

(** The analyzer object.  [reads] is the trace of the paths handed to
    [fs.readFileSync] by [getFileContent]. *)
Record analyzer := {
  serverPath : text;
  clientPath : text;
  models : jsmap modelInfo;
  modelUsage : jsmap modelUsageT;
  fileCache : jsmap fileContent;
  reads : list text
}.

(** The file system: the text of a file, or nothing when reading throws. *)
Definition filesystem := text -> option text.

(** *** [getFileContent] *)

Definition space : text := T " ".

Definition blockComment : re := L "/*" ;; lazy (Cls false [CSpace; CNotSpace]) ;; L "*/".
Definition lineComment : re := L "//" ;; star Any ;; Eol.
Definition htmlComment : re := L "<!--" ;; lazy (Cls false [CSpace; CNotSpace]) ;; L "-->".
Definition shellComment : re := L "#" ;; star Any ;; Eol.
Definition singleQuoted : re := Lit [quote] ;; star (Cls true [CChar quote]) ;; Lit [quote].
Definition doubleQuoted : re := Lit [dquote] ;; star (Cls true [CChar dquote]) ;; Lit [dquote].
Definition templateLiteral : re := Lit [backtick] ;; star (Cls true [CChar backtick]) ;; Lit [backtick].

(** The seven steps, in the order of the source. *)
Definition cleanSteps : list pattern :=
  [ rx g blockComment; rx gm lineComment; rx g htmlComment; rx gm shellComment;
    rx g singleQuoted; rx g doubleQuoted; rx g templateLiteral ].

Definition replaceBy (by_ : text) (s : text) (p : pattern) : text :=
  replace (pflags p) (source p) by_ s.

Definition cleanContent (content : text) : text :=
  fold_left (replaceBy space) cleanSteps content.

Definition setCache (st : analyzer) (c : jsmap fileContent) : analyzer :=
  {| serverPath := serverPath st; clientPath := clientPath st;
     models := models st; modelUsage := modelUsage st;
     fileCache := c; reads := reads st |}.

Definition logRead (st : analyzer) (p : text) : analyzer :=
  {| serverPath := serverPath st; clientPath := clientPath st;
     models := models st; modelUsage := modelUsage st;
     fileCache := fileCache st; reads := reads st ++ [p] |}.

Definition getFileContent (fs : filesystem) (st : analyzer) (filePath : text)
  : fileContent * analyzer :=
  match map_get filePath (fileCache st) with
  | Some c => (c, st)
  | None =>
      let st' := logRead st filePath in
      match fs filePath with
      | Some content =>
          let c := {| raw := content; clean := cleanContent content |} in
          (c, setCache st' (map_set filePath c (fileCache st')))
      | None => ({| raw := []; clean := [] |}, st')
      end
  end.

(** *** [analyzeModelUsage] *)

(** One [patterns.forEach] loop: [ty] is the tag pushed, [weight] the
    confidence added, [nex] the number of examples kept (tiers 1 and 2). *)
Definition tierStep (ty : usageType) (weight : nat) (nex : option nat)
  (content : text) (ua : usageAnalysis) (p : pattern) : usageAnalysis :=
  let ms := allMatches p content in
  if 0 <? length ms then
    {| file := file ua; isClientFile := isClientFile ua;
       usageTypes := add (usageTypes ua) ty;
       usageCount := usageCount ua + length ms;
       confidence := confidence ua + weight;
       details := details ua ++
                  [ {| type := ty; dpattern := p; matches := length ms;
                       examples := option_map (fun k => firstn k ms) nex |} ] |}
  else ua.

Definition forEachPattern (ty : usageType) (weight : nat) (nex : option nat)
  (content : text) (patterns : list pattern) (ua : usageAnalysis)
  : usageAnalysis :=
  fold_left (tierStep ty weight nex content) patterns ua.

(** [file] of the record: the path relative to the client root for a
    client file, to the server root for any other. *)
Definition fileOf (serverPath clientPath filePath : text) : text :=
  let relativePath := Path.relative serverPath filePath in
  if startsWith filePath clientPath
  then Path.relative clientPath filePath
  else relativePath.

(** The seven loops of [analyzeModelUsage], once the content is at hand,
    on the record that starts with [file] and the client flag. *)
Definition runTiers (modelName file : text) (isClient : bool)
  (c : fileContent) : usageAnalysis :=
  let ua0 := {| file := file; isClientFile := isClient; usageTypes := [];
                usageCount := 0; confidence := 0; details := [] |} in
  let ua1 := if negb isClient
             then forEachPattern DATABASE_OPERATION 40 (Some 3) (clean c)
                    (prismaPatterns modelName) ua0
             else ua0 in
  let ua2 := forEachPattern API_ENDPOINT 35 (Some 2) (clean c)
               (apiPatterns modelName) ua1 in
  let ua3 := forEachPattern TYPE_DEFINITION 25 None (clean c)
               (typePatterns modelName) ua2 in
  let ua4 := forEachPattern BUSINESS_LOGIC 20 None (clean c)
               (businessLogicPatterns modelName) ua3 in
  let ua5 := if isClient
             then forEachPattern CLIENT_OPERATION 20 None (clean c)
                    (clientPatterns modelName) ua4
             else ua4 in
  let ua6 := forEachPattern SCHEMA_REFERENCE 15 None (raw c)
               (configPatterns modelName) ua5 in
  forEachPattern WEAK_INDICATOR 2 None (clean c) (weakPatterns modelName) ua6.

(** The last line: the record, or [null] when nothing was counted. *)
Definition analyzeContent (modelName file : text) (isClient : bool)
  (c : fileContent) : option usageAnalysis :=
  let usageAnalysis := runTiers modelName file isClient c in
  if 0 <? usageCount usageAnalysis then Some usageAnalysis else None.

Definition analyzeModelUsage (fs : filesystem) (st : analyzer)
  (modelName filePath : text) : option usageAnalysis * analyzer :=
  let '(c, st') := getFileContent fs st filePath in
  (analyzeContent modelName
     (fileOf (serverPath st) (clientPath st) filePath)
     (startsWith filePath (clientPath st)) c,
   st').

(** *** [analyzeAllModels] *)

Definition newModelUsage (modelInfo : modelInfo) : modelUsageT :=
  {| usedModel := modelInfo; totalFiles := 0; serverFiles := 0;
     clientFiles := 0; totalConfidence := 0; allUsageTypes := [];
     fileAnalyses := []; isReallyUsed := false; riskLevel := UNKNOWN |}.

(** What the loop over the files does with one non-null analysis. *)
Definition addAnalysis (mu : modelUsageT) (a : usageAnalysis) : modelUsageT :=
  {| usedModel := usedModel mu;
     totalFiles := S (totalFiles mu);
     serverFiles := if isClientFile a then serverFiles mu
                    else S (serverFiles mu);
     clientFiles := if isClientFile a then S (clientFiles mu)
                    else clientFiles mu;
     totalConfidence := totalConfidence mu + confidence a;
     allUsageTypes := fold_left add (usageTypes a) (allUsageTypes mu);
     fileAnalyses := fileAnalyses mu ++ [a];
     isReallyUsed := isReallyUsed mu;
     riskLevel := riskLevel mu |}.

Definition fileStep (fs : filesystem) (modelName : text)
  (acc : modelUsageT * analyzer) (filePath : text) : modelUsageT * analyzer :=
  let '(analysis, st') := analyzeModelUsage fs (snd acc) modelName filePath in
  match analysis with
  | Some a => (addAnalysis (fst acc) a, st')
  | None => (fst acc, st')
  end.

Definition setRisk (mu : modelUsageT) (used : bool) (r : riskLevelT)
  : modelUsageT :=
  {| usedModel := usedModel mu; totalFiles := totalFiles mu;
     serverFiles := serverFiles mu; clientFiles := clientFiles mu;
     totalConfidence := totalConfidence mu;
     allUsageTypes := allUsageTypes mu; fileAnalyses := fileAnalyses mu;
     isReallyUsed := used; riskLevel := r |}.

(** The risk assessment, branch for branch. *)
Definition assessRisk (mu : modelUsageT) : modelUsageT :=
  let hasStrongUsage :=
    has (allUsageTypes mu) DATABASE_OPERATION
    || has (allUsageTypes mu) API_ENDPOINT in
  let hasMediumUsage :=
    has (allUsageTypes mu) TYPE_DEFINITION
    || has (allUsageTypes mu) BUSINESS_LOGIC
    || has (allUsageTypes mu) CLIENT_OPERATION in
  let hasWeakUsage :=
    has (allUsageTypes mu) WEAK_INDICATOR
    || has (allUsageTypes mu) SCHEMA_REFERENCE in
  if hasStrongUsage then setRisk mu true SAFE
  else if hasMediumUsage && (30 <=? totalConfidence mu)
       then setRisk mu true PROBABLY_SAFE
  else if hasMediumUsage || (hasWeakUsage && (20 <=? totalConfidence mu))
       then setRisk mu false SUSPICIOUS
  else if hasWeakUsage then setRisk mu false LIKELY_UNUSED
  else setRisk mu false DEFINITELY_UNUSED.

(** [fileAnalyses.sort((a, b) => b.confidence - a.confidence)], in place
    and stable; the logging of the top files leaves the stored list so. *)
Fixpoint insertByConfidence (x : usageAnalysis) (l : list usageAnalysis)
  : list usageAnalysis :=
  match l with
  | [] => [x]
  | y :: t =>
      if confidence y <? confidence x then x :: y :: t
      else y :: insertByConfidence x t
  end.

Definition sortByConfidence (l : list usageAnalysis) : list usageAnalysis :=
  fold_left (fun acc x => insertByConfidence x acc) l [].

Definition sortAnalyses (mu : modelUsageT) : modelUsageT :=
  {| usedModel := usedModel mu; totalFiles := totalFiles mu;
     serverFiles := serverFiles mu; clientFiles := clientFiles mu;
     totalConfidence := totalConfidence mu;
     allUsageTypes := allUsageTypes mu;
     fileAnalyses := sortByConfidence (fileAnalyses mu);
     isReallyUsed := isReallyUsed mu; riskLevel := riskLevel mu |}.

Definition setModelUsage (st : analyzer) (m : jsmap modelUsageT) : analyzer :=
  {| serverPath := serverPath st; clientPath := clientPath st;
     models := models st; modelUsage := m;
     fileCache := fileCache st; reads := reads st |}.

(** The usage record of one model over the files, before the assessment. *)
Definition scanFiles (fs : filesystem) (allFiles : list text) (st : analyzer)
  (modelName : text) (modelInfo : modelInfo) : modelUsageT * analyzer :=
  fold_left (fileStep fs modelName) allFiles (newModelUsage modelInfo, st).

Definition modelStep (fs : filesystem) (allFiles : list text) (st : analyzer)
  (entry : text * modelInfo) : analyzer :=
  let '(mu, st') := scanFiles fs allFiles st (fst entry) (snd entry) in
  setModelUsage st'
    (map_set (fst entry) (sortAnalyses (assessRisk mu)) (modelUsage st')).

(** [allFiles] is what the walk over the search paths returned. *)
Definition analyzeAllModels (fs : filesystem) (allFiles : list text)
  (st : analyzer) : analyzer :=
  fold_left (modelStep fs allFiles) (models st) st.

(** *** The constructor and the schema *)

Definition create (serverPath clientPath : text) : analyzer :=
  {| serverPath := serverPath; clientPath := clientPath; models := [];
     modelUsage := []; fileCache := []; reads := [] |}.

Definition setModels (st : analyzer) (m : jsmap modelInfo) : analyzer :=
  {| serverPath := serverPath st; clientPath := clientPath st;
     models := m; modelUsage := modelUsage st;
     fileCache := fileCache st; reads := reads st |}.

(** [parsePrismaSchema] from the model blocks already cut out of the
    schema, in their order: each is stored under its name. *)
Definition parsePrismaSchema (parsed : list modelInfo) (st : analyzer)
  : analyzer :=
  fold_left (fun st m => setModels st (map_set (name m) m (models st)))
            parsed st.

(** *** The report: grouping by risk and [analyzeRelationships] *)

Record modelsByRiskT := {
  bySAFE : list (text * modelUsageT);
  byPROBABLY_SAFE : list (text * modelUsageT);
  bySUSPICIOUS : list (text * modelUsageT);
  byLIKELY_UNUSED : list (text * modelUsageT);
  byDEFINITELY_UNUSED : list (text * modelUsageT)
}.

Definition noModels : modelsByRiskT :=
  {| bySAFE := []; byPROBABLY_SAFE := []; bySUSPICIOUS := [];
     byLIKELY_UNUSED := []; byDEFINITELY_UNUSED := [] |}.

(** [modelsByRisk[usage.riskLevel].push(...)]; there is no list for
    [UNKNOWN], where the push throws. *)
Definition pushByRisk (b : modelsByRiskT) (e : text * modelUsageT)
  : option modelsByRiskT :=
  match riskLevel (snd e) with
  | UNKNOWN => None
  | SAFE =>
      Some {| bySAFE := bySAFE b ++ [e];
              byPROBABLY_SAFE := byPROBABLY_SAFE b;
              bySUSPICIOUS := bySUSPICIOUS b;
              byLIKELY_UNUSED := byLIKELY_UNUSED b;
              byDEFINITELY_UNUSED := byDEFINITELY_UNUSED b |}
  | PROBABLY_SAFE =>
      Some {| bySAFE := bySAFE b;
              byPROBABLY_SAFE := byPROBABLY_SAFE b ++ [e];
              bySUSPICIOUS := bySUSPICIOUS b;
              byLIKELY_UNUSED := byLIKELY_UNUSED b;
              byDEFINITELY_UNUSED := byDEFINITELY_UNUSED b |}
  | SUSPICIOUS =>
      Some {| bySAFE := bySAFE b;
              byPROBABLY_SAFE := byPROBABLY_SAFE b;
              bySUSPICIOUS := bySUSPICIOUS b ++ [e];
              byLIKELY_UNUSED := byLIKELY_UNUSED b;
              byDEFINITELY_UNUSED := byDEFINITELY_UNUSED b |}
  | LIKELY_UNUSED =>
      Some {| bySAFE := bySAFE b;
              byPROBABLY_SAFE := byPROBABLY_SAFE b;
              bySUSPICIOUS := bySUSPICIOUS b;
              byLIKELY_UNUSED := byLIKELY_UNUSED b ++ [e];
              byDEFINITELY_UNUSED := byDEFINITELY_UNUSED b |}
  | DEFINITELY_UNUSED =>
      Some {| bySAFE := bySAFE b;
              byPROBABLY_SAFE := byPROBABLY_SAFE b;
              bySUSPICIOUS := bySUSPICIOUS b;
              byLIKELY_UNUSED := byLIKELY_UNUSED b;
              byDEFINITELY_UNUSED := byDEFINITELY_UNUSED b ++ [e] |}
  end.

Fixpoint groupFrom (b : modelsByRiskT) (m : jsmap modelUsageT)
  : option modelsByRiskT :=
  match m with
  | [] => Some b
  | e :: m' =>
      match pushByRisk b e with
      | Some b' => groupFrom b' m'
      | None => None
      end
  end.

Definition groupByRisk (st : analyzer) : option modelsByRiskT :=
  groupFrom noModels (modelUsage st).

(** A [Set] of names, asked with [has] only. *)
Definition inNames (s : list text) (n : text) : bool :=
  existsb (text_eqb n) s.

(** What one turn of the outer loop prints: the line "is referenced
    by" with [referencedBy], and the line "DANGER" with [safeRelations]
    when that list is not empty. *)
Record relationAudit := {
  audited : text;
  auditedUnused : bool;        (* "UNUSED" or "RISKY" *)
  referencedBy : list text;
  safeRelations : list text
}.

Definition danger (a : relationAudit) : bool := 0 <? length (safeRelations a).

Definition referencing (ms : jsmap modelInfo) (modelName : text) : list text :=
  flat_map
    (fun other : text * modelInfo =>
       if negb (text_eqb (fst other) modelName)
       then if existsb (fun rel => text_eqb (model rel) modelName)
                       (relationships (snd other))
            then [fst other] else []
       else [])
    ms.

Definition analyzeRelationships (st : analyzer) (modelsByRisk : modelsByRiskT)
  : list relationAudit :=
  let unusedModels := map fst (byDEFINITELY_UNUSED modelsByRisk) in
  let riskyModels :=
    map fst (bySUSPICIOUS modelsByRisk)
    ++ map fst (byLIKELY_UNUSED modelsByRisk) in
  flat_map
    (fun entry : text * modelInfo =>
       let modelName := fst entry in
       if inNames unusedModels modelName || inNames riskyModels modelName
       then
         let relatedModels := referencing (models st) modelName in
         if 0 <? length relatedModels then
           [ {| audited := modelName;
                auditedUnused := inNames unusedModels modelName;
                referencedBy := relatedModels;
                safeRelations :=
                  filter (fun rel => negb (inNames unusedModels rel)
                                     && negb (inNames riskyModels rel))
                         relatedModels |} ]
         else []
       else [])
    (models st).

(** [analyze]: the schema, the analysis, the report.  The grouping
    throws on a level without a list; the run then ends without report. *)
Definition analyze (serverPath clientPath : text) (fs : filesystem)
  (parsed : list modelInfo) (allFiles : list text)
  : option (analyzer * list relationAudit) :=
  let st := analyzeAllModels fs allFiles
              (parsePrismaSchema parsed (create serverPath clientPath)) in
  match groupByRisk st with
  | Some modelsByRisk => Some (st, analyzeRelationships st modelsByRisk)
  | None => None
  end.

End Comprehensive.

(** ** The strict analyzer *)

Module Strict.

Section Patterns.
Variable modelName : text.

Let name : re := Lit modelName.
Let lname : re := Lit (toLowerCase modelName).

Definition dbOperations : list pattern :=
  [ (* prisma\.<lower>\.(create|...|groupBy)\s*\(   gi *)
    rx gi (L "prisma." ;; lname ;; L "." ;; Comprehensive.crud13 ;; star ws
           ;; L "(");
    (* prisma\.<name>\.(create|...|groupBy)\s*\(    g *)
    rx g (L "prisma." ;; name ;; L "." ;; Comprehensive.crud13 ;; star ws
          ;; L "(");
    (* \$queryRaw.*<name>       gi *)
    rx gi (L "$queryRaw" ;; star Any ;; name);
    (* \$executeRaw.*<name>     gi *)
    rx gi (L "$executeRaw" ;; star Any ;; name);
    (* \.(<lower>|<name>)\.(create|...|deleteMany)   gi *)
    rx gi (L "." ;; Alt lname name ;; L "." ;; Comprehensive.crud9) ].

Definition quotedWith (n : re) : re :=
  aQuote ;; star noQuote ;; n ;; star noQuote ;; aQuote.

Definition httpVerb : re := words "get" ["post"; "put"; "delete"; "patch"].

Definition apiPatterns : list pattern :=
  [ (* \.(get|post|put|delete|patch)\s*\(\s*['"`][^'"`]*<lower>[^'"`]*['"`]  gi *)
    rx gi (L "." ;; httpVerb ;; star ws ;; L "(" ;; star ws
           ;; quotedWith lname);
    (* the same with <name>                                                  g *)
    rx g (L "." ;; httpVerb ;; star ws ;; L "(" ;; star ws
          ;; quotedWith name);
    (* req\.params\.\w*<lower>   gi *)
    rx gi (L "req.params." ;; star wd ;; lname);
    (* req\.body\.\w*<lower>     gi *)
    rx gi (L "req.body." ;; star wd ;; lname);
    (* (axios|fetch)\s*\([^)]*['"`][^'"`]*<lower>[^'"`]*['"`]   gi *)
    rx gi (words "axios" ["fetch"] ;; star ws ;; L "(" ;; star (noneOf ")")
           ;; quotedWith lname);
    (* (get|post|put|delete|patch)\s*\([^)]*['"`][^'"`]*<lower>[^'"`]*['"`]   gi *)
    rx gi (httpVerb ;; star ws ;; L "(" ;; star (noneOf ")")
           ;; quotedWith lname);
    (* ['"`]/api/[^'"`]*<lower>[^'"`]*['"`]   gi *)
    rx gi (aQuote ;; L "/api/" ;; star noQuote ;; lname ;; star noQuote
           ;; aQuote);
    (* ['"`]/[^'"`]*<lower>[^'"`]*['"`]       gi *)
    rx gi (aQuote ;; L "/" ;; star noQuote ;; lname ;; star noQuote
           ;; aQuote);
    (* <name>\s*:\s*\{[^}]*resolver   gi *)
    rx gi (name ;; star ws ;; L ":" ;; star ws ;; L "{" ;; star (noneOf "}")
           ;; L "resolver");
    (* Query\.<lower>      gi *)
    rx gi (L "Query." ;; lname);
    (* Mutation\.<lower>   gi *)
    rx gi (L "Mutation." ;; lname) ].

Definition clientPatterns : list pattern :=
  [ rx gi (lname ;; L "Slice");                 (* <lower>Slice      gi *)
    rx g (name ;; L "Slice");                   (* <name>Slice       g *)
    rx g (L "set" ;; name);                     (* set<name>         g *)
    rx g (L "update" ;; name);                  (* update<name>      g *)
    rx g (L "delete" ;; name);                  (* delete<name>      g *)
    rx g (L "fetch" ;; name);                   (* fetch<name>       g *)
    rx g (L "create" ;; name);                  (* create<name>      g *)
    rx gi (L "state." ;; lname);                (* state\.<lower>    gi *)
    rx g (L "state." ;; name);                  (* state\.<name>     g *)
    rx gi (L "useSelector" ;; star Any ;; lname);  (* useSelector.*<lower>  gi *)
    rx g (L "useSelector" ;; star Any ;; name);    (* useSelector.*<name>   g *)
    rx gi (name ;; L "Props");                  (* <name>Props       gi *)
    rx gi (name ;; L "State");                  (* <name>State       gi *)
    rx gi (name ;; L "Data");                   (* <name>Data        gi *)
    (* (get|create|update|delete|fetch)<name>   gi *)
    rx gi (words "get" ["create"; "update"; "delete"; "fetch"] ;; name);
    rx gi (lname ;; L "Service");               (* <lower>Service    gi *)
    rx g (name ;; L "Service");                 (* <name>Service     g *)
    rx gi (name ;; L "Form");                   (* <name>Form        gi *)
    rx gi (L "validate" ;; name);               (* validate<name>    gi *)
    rx gi (L "use" ;; name);                    (* use<name>         gi *)
    rx gi (L "transform" ;; name);              (* transform<name>   gi *)
    rx gi (L "serialize" ;; name);              (* serialize<name>   gi *)
    rx gi (L "deserialize" ;; name) ].          (* deserialize<name> gi *)

Definition businessLogicPatterns : list pattern :=
  [ (* :\s*<name>\s*[\[\]]*\s*[=,\)\}]   g *)
    rx g (L ":" ;; star ws ;; name ;; star ws ;; star (oneOf "[]") ;; star ws
          ;; oneOf "=,)}");
    (* :\s*<name>\s*\[\s*\]              g *)
    rx g (L ":" ;; star ws ;; name ;; star ws ;; L "[" ;; star ws ;; L "]");
    (* (const|let|var)\s+\w+\s*:\s*<name>   g *)
    rx g (words "const" ["let"; "var"] ;; plus ws ;; plus wd ;; star ws
          ;; L ":" ;; star ws ;; name);
    (* \w*Service\.\w*<lower>      gi *)
    rx gi (star wd ;; L "Service." ;; star wd ;; lname);
    (* \w*Repository\.\w*<lower>   gi *)
    rx gi (star wd ;; L "Repository." ;; star wd ;; lname);
    rx gi (L "validate" ;; name);               (* validate<name>    gi *)
    rx gi (L "transform" ;; name);              (* transform<name>   gi *)
    rx gi (L "serialize" ;; name) ].            (* serialize<name>   gi *)

Definition weakPatterns : list pattern :=
  [ rx gi (L "import" ;; star Any ;; name);     (* import.*<name>    gi *)
    rx gi (L "from" ;; star Any ;; name);       (* from.*<name>      gi *)
    rx gi (aQuote ;; lname ;; aQuote);          (* ['"`]<lower>['"`] gi *)
    rx g (aQuote ;; name ;; aQuote);            (* ['"`]<name>['"`]  g *)
    rx g (Wordb ;; name ;; Wordb) ].            (* \b<name>\b        g *)
End Patterns.

(** *** Data *)

Record usage := { type : usageType; upattern : pattern; count : nat }.

Record usageDetails := {
  file : text;
  isClientFile : bool;
  usages : list usage;
  isRealUsage : bool
}.

Record modelUsageT := {
  realUsages : list usageDetails;
  suspiciousUsages : list usageDetails;
  serverUsages : list usageDetails;
  clientUsages : list usageDetails;
  totalFiles : nat;
  isReallyUsed : bool
}.

Record analyzer := {
  serverPath : text;
  clientPath : text;
  models : list text;                      (* a [Set], in insertion order *)
  usedModels : jsmap modelUsageT;
  unusedModels : list text;                (* a [Set] *)
  suspiciousModels : jsmap modelUsageT
}.

Definition filesystem := text -> option text.

(** *** [analyzeModelUsageInFile] *)

(** The four removals, in the order of the source; each match is
    replaced by the empty string. *)
Definition commentSteps : list pattern :=
  [ rx g Comprehensive.blockComment; rx gm Comprehensive.lineComment;
    rx g Comprehensive.htmlComment; rx gm Comprehensive.shellComment ].

Definition contentWithoutComments (content : text) : text :=
  fold_left (Comprehensive.replaceBy []) commentSteps content.

Definition pushUsage (ud : usageDetails) (ty : usageType) (p : pattern)
  (n : nat) (real : bool) : usageDetails :=
  {| file := file ud; isClientFile := isClientFile ud;
     usages := usages ud ++ [ {| type := ty; upattern := p; count := n |} ];
     isRealUsage := real |}.

(** The loops of the strong tiers: a match marks real usage. *)
Definition strongStep (ty : usageType) (content : text) (ud : usageDetails)
  (p : pattern) : usageDetails :=
  let n := length (allMatches p content) in
  if 0 <? n then pushUsage ud ty p n true else ud.

(** The loop of the business-logic tier: the usage is pushed from the
    first match, real usage asks for two matches of the pattern. *)
Definition businessStep (content : text) (ud : usageDetails) (p : pattern)
  : usageDetails :=
  let n := length (allMatches p content) in
  if 0 <? n
  then pushUsage ud BUSINESS_LOGIC p n
         (if 2 <=? n then true else isRealUsage ud)
  else ud.

(** The loop of the weak tier: the flag is left alone. *)
Definition weakStep (content : text) (ud : usageDetails) (p : pattern)
  : usageDetails :=
  let n := length (allMatches p content) in
  if 0 <? n then pushUsage ud WEAK_INDICATOR p n (isRealUsage ud) else ud.

(** The five loops of [analyzeModelUsageInFile], on the text read and
    on the record that starts with [file] and the client flag. *)
Definition runTiers (modelName file : text) (isClient : bool)
  (content : text) : usageDetails :=
  let text := contentWithoutComments content in
  let ud0 := {| file := file; isClientFile := isClient; usages := [];
                isRealUsage := false |} in
  let ud1 := if negb isClient
             then fold_left (strongStep DATABASE_OPERATION text)
                    (dbOperations modelName) ud0
             else ud0 in
  let ud2 := fold_left (strongStep API_ENDPOINT text)
               (apiPatterns modelName) ud1 in
  let ud3 := if isClient
             then fold_left (strongStep CLIENT_OPERATION text)
                    (clientPatterns modelName) ud2
             else ud2 in
  let ud4 := fold_left (businessStep text)
               (businessLogicPatterns modelName) ud3 in
  fold_left (weakStep text) (weakPatterns modelName) ud4.

Definition analyzeText (modelName file : text) (isClient : bool)
  (content : text) : option usageDetails :=
  let usageDetails := runTiers modelName file isClient content in
  if 0 <? length (usages usageDetails) then Some usageDetails else None.

(** A read that throws lands in the [catch]: a warning and [null]. *)
Definition analyzeModelUsageInFile (fs : filesystem) (st : analyzer)
  (filePath modelName : text) : option usageDetails :=
  match fs filePath with
  | Some content =>
      analyzeText modelName
        (Comprehensive.fileOf (serverPath st) (clientPath st) filePath)
        (startsWith filePath (clientPath st)) content
  | None => None
  end.

(** *** [analyzeUsage] *)

Definition newModelUsage : modelUsageT :=
  {| realUsages := []; suspiciousUsages := []; serverUsages := [];
     clientUsages := []; totalFiles := 0; isReallyUsed := false |}.

Definition addUsage (mu : modelUsageT) (u : usageDetails) : modelUsageT :=
  {| realUsages := if isRealUsage u then realUsages mu ++ [u]
                   else realUsages mu;
     suspiciousUsages := if isRealUsage u then suspiciousUsages mu
                         else suspiciousUsages mu ++ [u];
     serverUsages := if isClientFile u then serverUsages mu
                     else serverUsages mu ++ [u];
     clientUsages := if isClientFile u then clientUsages mu ++ [u]
                     else clientUsages mu;
     totalFiles := S (totalFiles mu);
     isReallyUsed := if isRealUsage u then true else isReallyUsed mu |}.

Definition fileStep (fs : filesystem) (st : analyzer) (model : text)
  (mu : modelUsageT) (filePath : text) : modelUsageT :=
  match analyzeModelUsageInFile fs st filePath model with
  | Some u => addUsage mu u
  | None => mu
  end.

Definition scanFiles (fs : filesystem) (allFiles : list text) (st : analyzer)
  (model : text) : modelUsageT :=
  fold_left (fileStep fs st model) allFiles newModelUsage.

Definition addName (s : list text) (n : text) : list text :=
  if existsb (text_eqb n) s then s else s ++ [n].

Definition modelStep (fs : filesystem) (allFiles : list text) (st : analyzer)
  (model : text) : analyzer :=
  let mu := scanFiles fs allFiles st model in
  if isReallyUsed mu then
    {| serverPath := serverPath st; clientPath := clientPath st;
       models := models st;
       usedModels := map_set model mu (usedModels st);
       unusedModels := unusedModels st;
       suspiciousModels := suspiciousModels st |}
  else if 0 <? totalFiles mu then
    {| serverPath := serverPath st; clientPath := clientPath st;
       models := models st;
       usedModels := usedModels st;
       unusedModels := unusedModels st;
       suspiciousModels := map_set model mu (suspiciousModels st) |}
  else
    {| serverPath := serverPath st; clientPath := clientPath st;
       models := models st;
       usedModels := usedModels st;
       unusedModels := addName (unusedModels st) model;
       suspiciousModels := suspiciousModels st |}.

Definition analyzeUsage (fs : filesystem) (allFiles : list text)
  (st : analyzer) : analyzer :=
  fold_left (modelStep fs allFiles) (models st) st.

End Strict.


Import Comprehensive.

(** ** Notions used by the statements *)

(** [r] needs at least one character to match. *)
Fixpoint consumes (r : re) : bool :=
  match r with
  | Lit s => match s with [] => false | _ :: _ => true end
  | Any | Cls _ _ => true
  | Seq a b => consumes a || consumes b
  | Alt a b => consumes a && consumes b
  | Star _ _ | Eol | Wordb => false
  end.

(** [n] starts [s], letter case apart. *)
Fixpoint prefix_ci (n s : text) : bool :=
  match n, s with
  | [], _ => true
  | c :: n', x :: s' => Ascii.eqb (upper c) (upper x) && prefix_ci n' s'
  | _ :: _, [] => false
  end.

(** [n] occurs in [s], letter case apart. *)
Fixpoint occurs_ci (n s : text) : bool :=
  prefix_ci n s || match s with [] => false | _ :: s' => occurs_ci n s' end.


Definition matched (s : text) (p : pattern) : bool :=
  0 <? length (allMatches p s).

(** How many patterns of a list match [s]. *)
Definition matching (ps : list pattern) (s : text) : nat :=
  length (filter (matched s) ps).

(** The character before the position reached after [w]. *)
Definition lastc (prev : option ascii) (w : text) : option ascii :=
  fold_left (fun _ c => Some c) w prev.

(** [Replaced by_ f r prev s s']: [s'] is [s] where, from left to right,
    every match of [r] has given way to [by_] and every other character
    stays.  A character is kept only where [r] does not match; where [r]
    matches, the match the engine reports (the first way to match, one
    character at least) is replaced and the scan goes on behind it; at
    the end of the text [r] does not match. *)
Inductive Replaced (by_ : text) (f : flags) (r : re)
  : option ascii -> text -> text -> Prop :=
| Replaced_nil prev :
    mt f r (prev, []) = [] ->
    Replaced by_ f r prev [] []
| Replaced_keep prev c s s' :
    mt f r (prev, c :: s) = [] ->
    Replaced by_ f r (Some c) s s' ->
    Replaced by_ f r prev (c :: s) (c :: s')
| Replaced_hit prev c m s s' q others :
    mt f r (prev, (c :: m) ++ s) = q :: others -> snd q = s ->
    Replaced by_ f r (lastc prev (c :: m)) s s' ->
    Replaced by_ f r prev ((c :: m) ++ s) (by_ ++ s').

(** The steps of a list applied one after the other. *)
Inductive Chain (by_ : text) : list pattern -> text -> text -> Prop :=
| Chain_nil s : Chain by_ [] s s
| Chain_step p ps s s' s'' :
    Replaced by_ (pflags p) (source p) None s s' ->
    Chain by_ ps s' s'' ->
    Chain by_ (p :: ps) s s''.

(** The flat weight of each tier. *)
Definition tierWeight (t : usageType) : nat :=
  match t with
  | DATABASE_OPERATION => 40
  | API_ENDPOINT => 35
  | TYPE_DEFINITION => 25
  | BUSINESS_LOGIC => 20
  | CLIENT_OPERATION => 20
  | SCHEMA_REFERENCE => 15
  | WEAK_INDICATOR => 2
  end.

(** The confidence of a file if each tier that fired counted once. *)
Definition oncePerTier (types : list usageType) : nat :=
  list_sum (map tierWeight types).

Definition containsAny (types l : list usageType) : bool :=
  existsb (has types) l.

(** The decision rule in the words of the specification: the first rule
    that applies gives the level. *)
Definition decision_rule (types : list usageType) (total : nat) : riskLevelT :=
  if containsAny types [DATABASE_OPERATION; API_ENDPOINT] then SAFE
  else if containsAny types [TYPE_DEFINITION; BUSINESS_LOGIC; CLIENT_OPERATION]
          && (30 <=? total)
       then PROBABLY_SAFE
  else if containsAny types [TYPE_DEFINITION; BUSINESS_LOGIC; CLIENT_OPERATION]
          || (containsAny types [WEAK_INDICATOR; SCHEMA_REFERENCE]
              && (20 <=? total))
       then SUSPICIOUS
  else if containsAny types [WEAK_INDICATOR; SCHEMA_REFERENCE]
       then LIKELY_UNUSED
  else DEFINITELY_UNUSED.

Definition fiveLevels (r : riskLevelT) : Prop :=
  r = SAFE \/ r = PROBABLY_SAFE \/ r = SUSPICIOUS \/ r = LIKELY_UNUSED
  \/ r = DEFINITELY_UNUSED.

Definition atRisk (r : riskLevelT) : Prop :=
  r = SUSPICIOUS \/ r = LIKELY_UNUSED \/ r = DEFINITELY_UNUSED.

(** What a file holds for the analyzer: its text and the clean text, or
    the empty pair when the read fails. *)
Definition contentOf (fs : filesystem) (filePath : text) : fileContent :=
  match fs filePath with
  | Some content => {| raw := content; clean := cleanContent content |}
  | None => {| raw := []; clean := [] |}
  end.

(** The cache holds nothing but what the file system holds. *)
Definition cacheOk (fs : filesystem) (st : analyzer) : Prop :=
  forall p c, map_get p (fileCache st) = Some c ->
              fs p <> None /\ c = contentOf fs p.

(** The analysis of one file for one model, read from the file system. *)
Definition analysisOf (fs : filesystem)
  (serverPath clientPath modelName filePath : text) : option usageAnalysis :=
  analyzeContent modelName (fileOf serverPath clientPath filePath)
    (startsWith filePath clientPath) (contentOf fs filePath).

(** The analyses of the files that mention the model, in file order. *)
Definition analysesOf (fs : filesystem)
  (serverPath clientPath modelName : text) (files : list text)
  : list usageAnalysis :=
  flat_map
    (fun p => match analysisOf fs serverPath clientPath modelName p with
              | Some a => [a]
              | None => []
              end)
    files.

Definition usageOver (modelInfo : modelInfo) (l : list usageAnalysis)
  : modelUsageT :=
  fold_left addAnalysis l (newModelUsage modelInfo).

(** The record stored for a model. *)
Definition entryOf (fs : filesystem) (serverPath clientPath : text)
  (files : list text) (entry : text * modelInfo) : modelUsageT :=
  sortAnalyses
    (assessRisk
       (usageOver (snd entry)
          (analysesOf fs serverPath clientPath (fst entry) files))).

(** [m.set(k, g (k, v))] for the entries of [l] in turn. *)
Definition setAll {A V : Type} (g : text * A -> V) (l : list (text * A))
  (m : jsmap V) : jsmap V :=
  fold_left (fun m e => map_set (fst e) (g e) m) l m.

(** The analyzer after the schema and the analysis of a fresh run. *)
Definition analysed (serverPath clientPath : text) (fs : filesystem)
  (parsed : list modelInfo) (allFiles : list text) : analyzer :=
  analyzeAllModels fs allFiles
    (parsePrismaSchema parsed (create serverPath clientPath)).

(** Reading files leaves the paths, the models and the usage map alone. *)
Definition sameButCache (st st' : analyzer) : Prop :=
  serverPath st' = serverPath st /\ clientPath st' = clientPath st /\
  models st' = models st /\ modelUsage st' = modelUsage st.

(** The detail a matching pattern leaves. *)
Definition detailOf (ty : usageType) (nex : option nat) (content : text)
  (p : pattern) : detail :=
  {| type := ty; dpattern := p; matches := length (allMatches p content);
     examples := option_map (fun k => firstn k (allMatches p content)) nex |}.

(** The patterns the analyzer tries on the clean text of a file. *)
Definition cleanTextPatterns (modelName : text) (isClient : bool)
  : list pattern :=
  (if isClient then [] else prismaPatterns modelName)
  ++ apiPatterns modelName ++ typePatterns modelName
  ++ businessLogicPatterns modelName
  ++ (if isClient then clientPatterns modelName else [])
  ++ weakPatterns modelName.

Definition weightOfDetail (d : detail) : nat := tierWeight (type d).

(** The strict analyzer: the patterns whose match alone marks real
    usage, and the usage a business-logic pattern leaves. *)
Definition strongPatterns (modelName : text) (isClient : bool)
  : list pattern :=
  (if isClient then [] else Strict.dbOperations modelName)
  ++ Strict.apiPatterns modelName
  ++ (if isClient then Strict.clientPatterns modelName else []).

Definition usageOf (ty : usageType) (s : text) (p : pattern) : Strict.usage :=
  {| Strict.type := ty; Strict.upattern := p;
     Strict.count := length (allMatches p s) |}.

Definition twice (s : text) (p : pattern) : bool :=
  2 <=? length (allMatches p s).

(** The list of the report for a level. *)
Definition bucket (r : riskLevelT) (b : modelsByRiskT)
  : list (text * modelUsageT) :=
  match r with
  | UNKNOWN => []
  | SAFE => bySAFE b
  | PROBABLY_SAFE => byPROBABLY_SAFE b
  | SUSPICIOUS => bySUSPICIOUS b
  | LIKELY_UNUSED => byLIKELY_UNUSED b
  | DEFINITELY_UNUSED => byDEFINITELY_UNUSED b
  end.

(** Every pattern the comprehensive analyzer builds for a name. *)
Definition allPatterns (modelName : text) : list pattern :=
  prismaPatterns modelName ++ apiPatterns modelName
  ++ typePatterns modelName ++ businessLogicPatterns modelName
  ++ clientPatterns modelName ++ configPatterns modelName
  ++ weakPatterns modelName.

Definition emptyContent : fileContent := {| raw := []; clean := [] |}.

Definition notTerminator (c : ascii) : bool := negb (is_line_terminator c).

Definition slash : ascii := ascii_of_nat 47.
Definition asterisk : ascii := ascii_of_nat 42.

(** What a global replacement writes for a piece of the scan. *)
Definition written (by_ : text) (p : piece) : text :=
  match p with Hit _ => by_ | Keep c => [c] end.

(** The levels in order, from unused to safe. *)
Definition rank (r : riskLevelT) : nat :=
  match r with
  | UNKNOWN => 0
  | DEFINITELY_UNUSED => 1
  | LIKELY_UNUSED => 2
  | SUSPICIOUS => 3
  | PROBABLY_SAFE => 4
  | SAFE => 5
  end.

Definition strongType (t : usageType) : bool :=
  match t with DATABASE_OPERATION | API_ENDPOINT => true | _ => false end.

Definition weakType (t : usageType) : bool :=
  match t with WEAK_INDICATOR | SCHEMA_REFERENCE => true | _ => false end.

Definition moreConfident (a b : usageAnalysis) : Prop :=
  confidence b <= confidence a.

Definition withConfidence (c : nat) (a : usageAnalysis) : bool :=
  confidence a =? c.

(** A detail counts a match at least; the examples kept, if any, are
    one to three of the matches. *)
Definition goodDetail (d : detail) : Prop :=
  1 <= matches d /\
  forall ex, examples d = Some ex ->
             1 <= length ex /\ length ex <= 3 /\ length ex <= matches d.

Definition detailOfType (t : usageType) (d : detail) : bool :=
  usageType_eqb t (type d).

(** The details agree with the counters and the usage types. *)
Definition consistent (ua : usageAnalysis) : Prop :=
  NoDup (usageTypes ua) /\
  (forall t, has (usageTypes ua) t = existsb (detailOfType t) (details ua)) /\
  usageCount ua = list_sum (map matches (details ua)) /\
  Forall goodDetail (details ua).

(** A text without the space character. *)
Definition noSpace (n : text) : bool :=
  forallb (fun c => negb (Ascii.eqb c (ascii_of_nat 32))) n.



(** ** The summary, the export and the recommendations *)

Definition level_eqb (a b : riskLevelT) : bool :=
  match a, b with
  | UNKNOWN, UNKNOWN
  | SAFE, SAFE
  | PROBABLY_SAFE, PROBABLY_SAFE
  | SUSPICIOUS, SUSPICIOUS
  | LIKELY_UNUSED, LIKELY_UNUSED
  | DEFINITELY_UNUSED, DEFINITELY_UNUSED => true
  | _, _ => false
  end.

(** The entries of the usage map with a given level. *)
Definition ofLevel (r : riskLevelT) (e : text * modelUsageT) : bool :=
  level_eqb (riskLevel (snd e)) r.

Module Results.

Record summaryT := {
  totalModels : nat;
  safeModels : nat;
  riskyModels : nat;
  unusedModels : nat
}.

(** The counts [generateComprehensiveReport] prints, from its lists. *)
Definition reportSummary (st : analyzer) (modelsByRisk : modelsByRiskT)
  : summaryT :=
  {| totalModels := length (models st);
     safeModels := length (bySAFE modelsByRisk)
                   + length (byPROBABLY_SAFE modelsByRisk);
     riskyModels := length (bySUSPICIOUS modelsByRisk)
                    + length (byLIKELY_UNUSED modelsByRisk);
     unusedModels := length (byDEFINITELY_UNUSED modelsByRisk) |}.

(** The summary of [exportResults], from the values of the usage map. *)
Definition summary (st : analyzer) : summaryT :=
  let values := map snd (modelUsage st) in
  {| totalModels := length (models st);
     safeModels :=
       length (filter (fun u => level_eqb (riskLevel u) SAFE
                                || level_eqb (riskLevel u) PROBABLY_SAFE)
                      values);
     riskyModels :=
       length (filter (fun u => level_eqb (riskLevel u) SUSPICIOUS
                                || level_eqb (riskLevel u) LIKELY_UNUSED)
                      values);
     unusedModels :=
       length (filter (fun u => level_eqb (riskLevel u) DEFINITELY_UNUSED)
                      values) |}.

Record topUsageFile := {
  topFile : text;
  topConfidence : nat;
  topUsageTypes : list usageType
}.

Definition topOf (analysis : usageAnalysis) : topUsageFile :=
  {| topFile := file analysis; topConfidence := confidence analysis;
     topUsageTypes := usageTypes analysis |}.

Record exportedModel := {
  eRiskLevel : riskLevelT;
  eConfidence : nat;
  eTotalFiles : nat;
  eServerFiles : nat;
  eClientFiles : nat;
  eUsageTypes : list usageType;
  eRelationships : list text;
  topUsageFiles : list topUsageFile
}.

(** The entry of a model in the exported report.  The sort is in place:
    the stored analyses are left in the order of the confidence. *)
Definition exportModel (usage : modelUsageT) : exportedModel * modelUsageT :=
  let usage' := sortAnalyses usage in
  ({| eRiskLevel := riskLevel usage;
      eConfidence := totalConfidence usage;
      eTotalFiles := totalFiles usage;
      eServerFiles := serverFiles usage;
      eClientFiles := clientFiles usage;
      eUsageTypes := allUsageTypes usage;
      eRelationships := map model (relationships (usedModel usage));
      topUsageFiles := map topOf (firstn 5 (fileAnalyses usage')) |},
   usage').

Record recommendation := {
  recModel : text;
  action : text;
  priority : text;
  reason : text;
  recConfidence : text
}.

(** The [switch] of [generateRecommendations]: a level without a case
    pushes nothing. *)
Definition recommend (e : text * modelUsageT) : list recommendation :=
  match riskLevel (snd e) with
  | DEFINITELY_UNUSED =>
      [ {| recModel := fst e; action := T "REMOVE"; priority := T "HIGH";
           reason := T "No usage found in codebase";
           recConfidence := T "VERY_HIGH" |} ]
  | LIKELY_UNUSED =>
      [ {| recModel := fst e; action := T "REVIEW_AND_LIKELY_REMOVE";
           priority := T "MEDIUM";
           reason := T "Only weak usage indicators found";
           recConfidence := T "HIGH" |} ]
  | SUSPICIOUS =>
      [ {| recModel := fst e; action := T "MANUAL_REVIEW"; priority := T "LOW";
           reason := T "Mixed usage signals - needs human verification";
           recConfidence := T "MEDIUM" |} ]
  | _ => []
  end.

Definition generateRecommendations (st : analyzer) : list recommendation :=
  flat_map recommend (modelUsage st).

(** The report written by [exportResults], without its time stamp and
    the two constants of the summary; the models are looked up by name. *)
Record report := {
  rSummary : summaryT;
  rModels : jsmap exportedModel;
  recommendations : list recommendation
}.

Definition exportResults (st : analyzer) : report * analyzer :=
  let exported := map (fun e => (fst e, exportModel (snd e))) (modelUsage st) in
  ({| rSummary := summary st;
      rModels := map (fun e => (fst e, fst (snd e))) exported;
      recommendations := generateRecommendations st |},
   setModelUsage st (map (fun e => (fst e, snd (snd e))) exported)).

End Results.

(** ** The strict analyzer over a project *)

(** The usages the strict analyzer finds for a model, in file order. *)
Definition strictUsagesOf (fs : Strict.filesystem) (st : Strict.analyzer)
  (model : text) (files : list text) : list Strict.usageDetails :=
  flat_map
    (fun p => match Strict.analyzeModelUsageInFile fs st p model with
              | Some u => [u]
              | None => []
              end)
    files.

(** The strict analyzer after its constructor and the names found in the
    schema, added to the set of models in their order. *)
Definition strictParsed (serverPath clientPath : text) (names : list text)
  : Strict.analyzer :=
  {| Strict.serverPath := serverPath; Strict.clientPath := clientPath;
     Strict.models := fold_left Strict.addName names [];
     Strict.usedModels := []; Strict.unusedModels := [];
     Strict.suspiciousModels := [] |}.

Definition strictAnalysed (serverPath clientPath : text)
  (fs : Strict.filesystem) (names : list text) (files : list text)
  : Strict.analyzer :=
  Strict.analyzeUsage fs files (strictParsed serverPath clientPath names).

(** The three outcomes of the strict analyzer for a record. *)
Definition strictUsed (mu : Strict.modelUsageT) : bool :=
  Strict.isReallyUsed mu.

Definition strictSuspicious (mu : Strict.modelUsageT) : bool :=
  negb (Strict.isReallyUsed mu) && (0 <? Strict.totalFiles mu).

Definition strictUnused (mu : Strict.modelUsageT) : bool :=
  negb (Strict.isReallyUsed mu) && negb (0 <? Strict.totalFiles mu).

(** ** Counting the reads *)

Definition countOf (p : text) (l : list text) : nat :=
  length (filter (text_eqb p) l).

Definition readable (fs : filesystem) (p : text) : bool :=
  match fs p with Some _ => true | None => false end.

Definition cached (st : analyzer) (p : text) : bool :=
  map_has p (fileCache st).

(** ** Walking the directories ([getAllFiles]) *)

Module Walk.

(** What [fs.statSync] and [fs.readdirSync] find at a path: something
    that is not a directory, a directory with its entries in the order
    [readdirSync] gives them, a directory that [readdirSync] refuses to
    list, or an entry on which [statSync] throws. *)
#[warnings="-register-all"] Inductive node : Type :=
| File
| Dir (items : list (text * node))
| Locked
| NoStat.

(** The induction principle that goes through the entries. *)
Fixpoint node_induction (P : node -> Prop)
  (HFile : P File) (HLocked : P Locked) (HNoStat : P NoStat)
  (HDir : forall items, Forall (fun e => P (snd e)) items -> P (Dir items))
  (n : node) {struct n} : P n :=
  match n with
  | File => HFile
  | Locked => HLocked
  | NoStat => HNoStat
  | Dir items =>
      HDir items
        ((fix all (l : list (text * node)) : Forall (fun e => P (snd e)) l :=
            match l with
            | [] => Forall_nil _
            | e :: l' =>
                Forall_cons e
                  (node_induction P HFile HLocked HNoStat HDir (snd e))
                  (all l')
            end) items)
  end.

Definition endsWith (s suffix : text) : bool :=
  startsWith (rev s) (rev suffix).

(** [path.join(dirPath, item)] for a resolved [dirPath] and the name of
    an entry: one separator between the two. *)
Definition join (dirPath item : text) : text :=
  dirPath ++ (if endsWith dirPath (T "/") then [] else T "/") ++ item.

Definition includes (l : list text) (x : text) : bool :=
  existsb (text_eqb x) l.

(** Both results of a step, or the exception of one of them. *)
Definition both (a b : option (list text)) : option (list text) :=
  match a, b with
  | Some x, Some y => Some (x ++ y)
  | _, _ => None
  end.

Section GetAllFiles.
Variables (excluded fileExtensions : list text).

(** [getAllFiles(dirPath, fileExtensions)] on what is found at
    [dirPath]; [None] when [readdirSync] throws, here or below. *)
Fixpoint getAllFiles (dirPath : text) (n : node) {struct n}
  : option (list text) :=
  match n with
  | NoStat => Some []
  | File | Locked => None
  | Dir items =>
      (fix loop (items : list (text * node)) : option (list text) :=
         match items with
         | [] => Some []
         | (item, child) :: rest =>
             let fullPath := join dirPath item in
             both
               match child with
               | NoStat => Some []
               | Dir _ | Locked =>
                   if includes excluded item then Some []
                   else getAllFiles fullPath child
               | File =>
                   if existsb (endsWith item) fileExtensions
                   then Some [fullPath] else Some []
               end
               (loop rest)
         end) items
  end.

(** One turn of the loop over the entries, and the loop. *)
Definition visit (dirPath : text) (e : text * node) : option (list text) :=
  match snd e with
  | NoStat => Some []
  | Dir _ | Locked =>
      if includes excluded (fst e) then Some []
      else getAllFiles (join dirPath (fst e)) (snd e)
  | File =>
      if existsb (endsWith (fst e)) fileExtensions
      then Some [join dirPath (fst e)] else Some []
  end.

Fixpoint visitAll (dirPath : text) (items : list (text * node))
  : option (list text) :=
  match items with
  | [] => Some []
  | e :: rest => both (visit dirPath e) (visitAll dirPath rest)
  end.

(** A file found below a directory: the directories gone through, none
    of them skipped, and the name of the file, with a wanted ending. *)
Inductive listed : node -> list text -> text -> Prop :=
| listed_here (items : list (text * node)) (item : text) :
    In (item, File) items ->
    existsb (endsWith item) fileExtensions = true ->
    listed (Dir items) [] item
| listed_below (items : list (text * node)) (dir : text) (child : node)
    (dirs : list text) (item : text) :
    In (dir, child) items ->
    includes excluded dir = false ->
    listed child dirs item ->
    listed (Dir items) (dir :: dirs) item.

(** A directory that cannot be listed, reached without going through a
    skipped one. *)
Inductive blocked : node -> Prop :=
| blocked_here : blocked Locked
| blocked_file : blocked File
| blocked_below (items : list (text * node)) (dir : text) (child : node) :
    In (dir, child) items ->
    includes excluded dir = false ->
    child <> File -> blocked child ->
    blocked (Dir items).
End GetAllFiles.

(** The file system at the paths the analyzers start from; [None] where
    [fs.existsSync] is false. *)
Definition world := text -> option node.

Definition existsSync (w : world) (p : text) : bool :=
  match w p with
  | Some NoStat | None => false
  | Some _ => true
  end.

Definition getAllFilesAt (excluded fileExtensions : list text) (w : world)
  (dirPath : text) : option (list text) :=
  match w dirPath with
  | Some n => getAllFiles excluded fileExtensions dirPath n
  | None => Some []
  end.

(** *** The comprehensive analyzer *)

Definition excludedDirs : list text :=
  map T [ "node_modules"; ".git"; "dist"; "build"; "coverage"; ".next";
          "public"; ".expo"; "android"; "ios"; "web-build"; ".vscode" ].

Definition fileExtensions : list text :=
  map T [ ".js"; ".ts"; ".jsx"; ".tsx"; ".json"; ".sql" ].

Definition serverSearchPaths (serverPath : text) : list text :=
  map (fun d => join serverPath (T d))
      [ "src"; "routes"; "services"; "controllers"; "middleware"; "utils";
        "lib"; "types"; "prisma" ].

Definition clientSearchPaths (clientPath : text) : list text :=
  map (fun d => join clientPath (T d))
      [ "src"; "app"; "components"; "hooks"; "utils"; "types"; "store" ].

Definition getAllFilesOf : world -> text -> option (list text) :=
  getAllFilesAt excludedDirs fileExtensions.

(** The loops that fill [allFiles] in [analyzeAllModels]. *)
Definition pushFrom (w : world) (allFiles : option (list text))
  (searchPath : text) : option (list text) :=
  match allFiles with
  | Some files =>
      if existsSync w searchPath
      then both (Some files) (getAllFilesOf w searchPath)
      else Some files
  | None => None
  end.

Definition gather (w : world) (searchPaths : list text)
  : option (list text) :=
  fold_left (pushFrom w) searchPaths (Some []).

Definition allFiles (w : world) (st : analyzer) : option (list text) :=
  fold_left (pushFrom w) (clientSearchPaths (clientPath st))
    (fold_left (pushFrom w) (serverSearchPaths (serverPath st)) (Some [])).

(** [analyzeAllModels] with its walk; [None] when the walk throws. *)
Definition analyzeAllModels (w : world) (fs : filesystem) (st : analyzer)
  : option analyzer :=
  match allFiles w st with
  | Some files => Some (Comprehensive.analyzeAllModels fs files st)
  | None => None
  end.

(** *** The strict analyzer *)

Definition strictExcludedDirs : list text :=
  map T [ "node_modules"; ".git"; "dist"; "build"; "coverage"; ".next";
          "public" ].

Definition strictFileExtensions : list text :=
  map T [ ".js"; ".ts"; ".jsx"; ".tsx"; ".json" ].

Definition strictGetAllFiles : world -> text -> option (list text) :=
  getAllFilesAt strictExcludedDirs strictFileExtensions.

Definition srcPath (st : Strict.analyzer) : text :=
  join (Strict.serverPath st) (T "src").

(** [routesPath], [servicesPath], ... : the five directories below
    [src] that are walked again. *)
Definition subPaths (st : Strict.analyzer) : list text :=
  map (fun d => join (srcPath st) (T d))
      [ "routes"; "services"; "controllers"; "middleware"; "utils" ].

Definition clientSrcPath (st : Strict.analyzer) : text :=
  join (Strict.clientPath st) (T "src").

Definition clientStorePath (st : Strict.analyzer) : text :=
  join (clientSrcPath st) (T "store").

Definition keyClientFiles (st : Strict.analyzer) : list text :=
  join (join (clientSrcPath st) (T "services")) (T "api.ts")
  :: map (fun f => join (clientStorePath st) (T f))
         [ "authSlice.ts"; "authSlice.js"; "mealSlice.ts"; "mealSlice.js";
           "calendarSlice.ts"; "calendarSlice.js";
           "questionnaireSlice.ts"; "questionnaireSlice.js" ].

(** [[...new Set(l)]]: the first place of each path. *)
Definition unique (l : list text) : list text :=
  fold_left Strict.addName l [].

Definition concatAll (l : list (option (list text))) : option (list text) :=
  fold_right both (Some []) l.

Record gathered := {
  serverFiles : list text;
  clientFiles : list text;
  clientSpecificFiles : list text;
  scanned : list text            (* [allFiles] *)
}.

(** The first part of [analyzeUsage]: the lists of files. *)
Definition strictFiles (w : world) (st : Strict.analyzer) : option gathered :=
  match concatAll (map (strictGetAllFiles w) (srcPath st :: subPaths st)) with
  | Some serverFiles =>
      match (if existsSync w (Strict.clientPath st)
             then strictGetAllFiles w (clientSrcPath st)
             else Some []) with
      | Some clientFiles =>
          let clientSpecificFiles :=
            if existsSync w (Strict.clientPath st)
            then filter (fun filePath =>
                           existsSync w filePath
                           && negb (includes clientFiles filePath))
                        (keyClientFiles st)
            else [] in
          Some {| serverFiles := serverFiles; clientFiles := clientFiles;
                  clientSpecificFiles := clientSpecificFiles;
                  scanned := unique (serverFiles ++ clientFiles
                                     ++ clientSpecificFiles) |}
      | None => None
      end
  | None => None
  end.

(** The directories walked again are the entries of those names in the
    directory [src]. *)
Definition nested (w : world) (st : Strict.analyzer) : Prop :=
  forall d child,
    In d [ "routes"; "services"; "controllers"; "middleware"; "utils" ] ->
    w (join (srcPath st) (T d)) = Some child ->
    exists items,
      w (srcPath st) = Some (Dir items) /\ In (T d, child) items.

End Walk.

(** A project tree for the examples. *)
Module SampleTree.

Definition routes : Walk.node :=
  Walk.Dir [ (T "orders.route.ts", Walk.File);
             (T "node_modules", Walk.Dir [ (T "index.js", Walk.File) ]);
             (T "notes.md", Walk.File) ].

Definition serverSrc : Walk.node :=
  Walk.Dir [ (T "orders.ts", Walk.File); (T "legacy.ts", Walk.File);
             (T "routes", routes); (T "broken", Walk.NoStat) ].

Definition clientSrc : Walk.node :=
  Walk.Dir [ (T "lost.tsx", Walk.File);
             (T "store", Walk.Dir [ (T "authSlice.ts", Walk.File) ]) ].

Definition w : Walk.world :=
  fun p =>
    if text_eqb p (T "/app/server/src") then Some serverSrc
    else if text_eqb p (T "/app/server/src/routes") then Some routes
    else if text_eqb p (T "/app/client")
         then Some (Walk.Dir [ (T "src", clientSrc) ])
    else if text_eqb p (T "/app/client/src") then Some clientSrc
    else if text_eqb p (T "/app/client/src/store/authSlice.ts")
         then Some Walk.File
    else None.

Definition st : analyzer := create (T "/app/server") (T "/app/client").

Definition sst : Strict.analyzer :=
  strictParsed (T "/app/server") (T "/app/client") [T "OrderItem"].

End SampleTree.

(** ** Reading the schema ([parsePrismaSchema]) *)

Module Schema.

(** [^] : the start of the subject, or of a line under flag m. *)
Definition at_bol (f : flags) (p : pos) : bool :=
  match fst p with
  | None => true
  | Some c => multiline f && is_line_terminator c
  end.

(** The parts of a sequence matched one after the other: the positions
    reached after each part, for each way the sequence matches, in the
    order the engine tries them. *)
Fixpoint mt_parts (f : flags) (rs : list re) (p : pos) : list (list pos) :=
  match rs with
  | [] => [[]]
  | r :: rs' => flat_map (fun q => map (cons q) (mt_parts f rs' q)) (mt f r p)
  end.

(** One attempt of [^ r1 r2 ...] at a position. *)
Definition exec_parts (f : flags) (rs : list re) (p : pos)
  : option (list pos) :=
  if at_bol f p then hd_error (mt_parts f rs p) else None.

(** The text between two positions of the same subject. *)
Definition taken (p q : pos) : text :=
  firstn (length (snd p) - length (snd q)) (snd p).

(** What each part has matched. *)
Fixpoint spans (p : pos) (ends : list pos) : list text :=
  match ends with
  | [] => []
  | q :: ends' => taken p q :: spans q ends'
  end.

(** [while ((match = regex.exec(s)) !== null)] for a global pattern with
    [^] in front: the parts of each match, left to right.  The next
    attempt starts where the match ended; after an empty match it would
    start at the same place for ever, and there is no result. *)
Fixpoint execAll (f : flags) (rs : list re) (prev : option ascii) (s : text)
  (skip : nat) {struct s} : option (list (list text)) :=
  match skip with
  | S k =>
      match s with
      | [] => Some []
      | c :: t => execAll f rs (Some c) t k
      end
  | 0 =>
      match exec_parts f rs (prev, s) with
      | Some ends =>
          match length s - length (snd (last ends (prev, s))) with
          | 0 => None
          | S k =>
              option_map (cons (spans (prev, s) ends))
                match s with
                | [] => Some []
                | c :: t => execAll f rs (Some c) t k
                end
          end
      | None =>
          match s with
          | [] => Some []
          | c :: t => execAll f rs (Some c) t 0
          end
      end
  end.

Definition group (n : nat) (m : list text) : text := nth n m [].

Definition newline : ascii := ascii_of_nat 10.
Definition closing : ascii := ascii_of_nat 125.
Definition anyChar : re := Cls false [CSpace; CNotSpace].
Definition notSpace : re := Cls true [CSpace].

(** [/^model\s+(\w+)\s*\{([\s\S]*?)\n\}/gm]: the name is part 2, the
    body part 5. *)
Definition modelRegex : list re :=
  [ L "model"; plus ws; plus wd; star ws; L "{"; lazy anyChar;
    Lit [newline; closing] ].

(** [/^\s*(\w+)\s+([^\s]+).*$/gm]: parts 1 and 3. *)
Definition fieldRegex : list re :=
  [ star ws; plus wd; plus ws; plus notSpace; star Any; Eol ].

(** [/^\s*(\w+)\s+(\w+)(\[\])?\s+@relation/gm]: parts 1, 3 and 4. *)
Definition relationRegex : list re :=
  [ star ws; plus wd; plus ws; plus wd; Alt (L "[]") (Lit []); plus ws;
    L "@relation" ].

Definition fieldOf (m : list text) : list (text * text) :=
  if negb (startsWith (group 1 m) (T "//"))
     && negb (startsWith (group 1 m) (T "@@"))
  then [ (group 1 m, group 3 m) ] else [].

Definition relationOf (m : list text) : relationship :=
  {| field := group 1 m; model := group 3 m;
     isArray := match group 4 m with [] => false | _ :: _ => true end |}.

Definition parseFields (modelBody : text) : option (list (text * text)) :=
  option_map (flat_map fieldOf) (execAll gm fieldRegex None modelBody 0).

Definition parseRelations (modelBody : text) : option (list relationship) :=
  option_map (map relationOf) (execAll gm relationRegex None modelBody 0).

(** The body of the outer loop, for one match of [modelRegex]. *)
Definition parseModel (m : list text) : option modelInfo :=
  let modelName := group 2 m in
  let modelBody := group 5 m in
  match parseFields modelBody, parseRelations modelBody with
  | Some fields, Some relationships =>
      Some {| name := modelName; fields := fields;
              relationships := relationships; rawBody := modelBody |}
  | _, _ => None
  end.

Fixpoint parseModels (ms : list (list text)) : option (list modelInfo) :=
  match ms with
  | [] => Some []
  | m :: ms' =>
      match parseModel m, parseModels ms' with
      | Some info, Some infos => Some (info :: infos)
      | _, _ => None
      end
  end.

(** The model blocks of a schema, in their order. *)
Definition schemaModels (schemaContent : text) : option (list modelInfo) :=
  match execAll gm modelRegex None schemaContent 0 with
  | Some ms => parseModels ms
  | None => None
  end.

(** How [parsePrismaSchema] ends. *)
Inductive outcome (A : Type) : Type :=
| Done (a : A)
| Exits                      (* [process.exit(1)] of the [catch] *)
| Loops.                     (* a loop that does not end *)

Arguments Done {A}.
Arguments Exits {A}.
Arguments Loops {A}.

Definition prismaSchemaPath (serverPath : text) : text :=
  Walk.join (Walk.join serverPath (T "prisma")) (T "schema.prisma").

Definition parsePrismaSchema (fs : filesystem) (st : analyzer)
  : outcome analyzer :=
  match fs (prismaSchemaPath (serverPath st)) with
  | Some schemaContent =>
      match schemaModels schemaContent with
      | Some parsed => Done (Comprehensive.parsePrismaSchema parsed st)
      | None => Loops
      end
  | None => Exits
  end.

(** *** The strict analyzer: [/^model\s+(\w+)\s*{/gm] *)

Definition strictModelRegex : list re :=
  [ L "model"; plus ws; plus wd; star ws; L "{" ].

Definition schemaNames (schemaContent : text) : option (list text) :=
  option_map (map (group 2)) (execAll gm strictModelRegex None schemaContent 0).

Definition addModels (st : Strict.analyzer) (names : list text)
  : Strict.analyzer :=
  {| Strict.serverPath := Strict.serverPath st;
     Strict.clientPath := Strict.clientPath st;
     Strict.models := fold_left Strict.addName names (Strict.models st);
     Strict.usedModels := Strict.usedModels st;
     Strict.unusedModels := Strict.unusedModels st;
     Strict.suspiciousModels := Strict.suspiciousModels st |}.

Definition strictParsePrismaSchema (fs : Strict.filesystem)
  (st : Strict.analyzer) : outcome Strict.analyzer :=
  match fs (prismaSchemaPath (Strict.serverPath st)) with
  | Some schemaContent =>
      match schemaNames schemaContent with
      | Some names => Done (addModels st names)
      | None => Loops
      end
  | None => Exits
  end.

(** The way a list of parts is matched: each end is reached by its part
    from the end before. *)
Fixpoint follows (f : flags) (p : pos) (rs : list re) (ends : list pos)
  : Prop :=
  match rs, ends with
  | [], [] => True
  | r :: rs', q :: ends' => In q (mt f r p) /\ follows f q rs' ends'
  | _, _ => False
  end.

(** The positions of a subject, from left to right. *)
Fixpoint positions (prev : option ascii) (s : text) : list pos :=
  (prev, s) ::
    match s with
    | [] => []
    | c :: t => positions (Some c) t
    end.

(** A word: one character of [\w] at least, and no other. *)
Definition word (w : text) : Prop := w <> [] /\ forallb is_word w = true.

(** [part] occurs in [s]. *)
Definition occursIn (part s : text) : Prop :=
  exists a b, s = a ++ part ++ b.

End Schema.

(** ** How a relationship is written *)

(** A line starts behind [before]: nothing, or a line terminator, stands
    last in it. *)
Definition lineStart (before : text) : bool :=
  match lastc None before with
  | None => true
  | Some c => is_line_terminator c
  end.

(** How a relationship is written: white space or nothing, a word (the
    field), white space, a word (the model), the two brackets or
    nothing, and white space; the attribute follows. *)
Definition relationShape (lead fld gap mdl brackets gap' : text) : Prop :=
  forallb is_space lead = true /\
  Schema.word fld /\
  gap <> [] /\ forallb is_space gap = true /\
  Schema.word mdl /\
  (brackets = T "[]" \/ brackets = []) /\
  gap' <> [] /\ forallb is_space gap' = true.

Definition relationText (lead fld gap mdl brackets gap' : text) : text :=
  lead ++ fld ++ gap ++ mdl ++ brackets ++ gap' ++ T "@relation".

Definition relationRead (fld mdl brackets : text) : relationship :=
  {| field := fld; model := mdl;
     isArray := match brackets with [] => false | _ :: _ => true end |}.

(** What stops a run of characters: the end, or a character outside. *)
Definition stops (ok : ascii -> bool) (rest : text) : Prop :=
  match rest with
  | [] => True
  | c :: _ => ok c = false
  end.


(** A line terminator stands last in [x]. *)
Definition endsLine (x : text) : Prop :=
  exists x' t, x = x' ++ [t] /\ is_line_terminator t = true.

(** ** Openings of patterns *)

(** The literal a pattern starts with, when it starts with one. *)
Definition opening (r : re) : text :=
  match r with
  | Lit l => l
  | Seq (Lit l) _ => l
  | _ => []
  end.

(** A pattern that needs a character and tells the letter cases apart. *)
Definition plain (p : pattern) : Prop :=
  consumes (source p) = true /\ ignoreCase (pflags p) = false.

(** ** The whole run ([analyze]) *)

Module Run.

Record output := {
  final : analyzer;
  relations : list relationAudit;
  exported : Results.report
}.

(** [analyze] of the comprehensive analyzer: the schema, the analysis,
    the report and the export.  An exception lands in the [catch], which
    exits as a failed read of the schema does; a failed write of the
    export is only reported. *)
Definition analyze (w : Walk.world) (fs : filesystem)
  (serverPath clientPath : text) : Schema.outcome output :=
  match Schema.parsePrismaSchema fs (create serverPath clientPath) with
  | Schema.Done st1 =>
      match Walk.analyzeAllModels w fs st1 with
      | Some st2 =>
          match groupByRisk st2 with
          | Some modelsByRisk =>
              Schema.Done
                {| final := snd (Results.exportResults st2);
                   relations := analyzeRelationships st2 modelsByRisk;
                   exported := fst (Results.exportResults st2) |}
          | None => Schema.Exits
          end
      | None => Schema.Exits
      end
  | Schema.Exits => Schema.Exits
  | Schema.Loops => Schema.Loops
  end.

Definition strictCreate (serverPath clientPath : text) : Strict.analyzer :=
  {| Strict.serverPath := serverPath; Strict.clientPath := clientPath;
     Strict.models := []; Strict.usedModels := [];
     Strict.unusedModels := []; Strict.suspiciousModels := [] |}.

(** [analyze] of the strict analyzer, up to its report. *)
Definition strictAnalyze (w : Walk.world) (fs : Strict.filesystem)
  (serverPath clientPath : text) : Schema.outcome Strict.analyzer :=
  match Schema.strictParsePrismaSchema fs (strictCreate serverPath clientPath)
  with
  | Schema.Done st1 =>
      match Walk.strictFiles w st1 with
      | Some files => Schema.Done (Strict.analyzeUsage fs (Walk.scanned files) st1)
      | None => Schema.Exits
      end
  | Schema.Exits => Schema.Exits
  | Schema.Loops => Schema.Loops
  end.

(** The directories the strict analyzer walks. *)
Definition strictWalked (w : Walk.world) (st : Strict.analyzer) : list text :=
  (Walk.srcPath st :: Walk.subPaths st)
  ++ (if Walk.existsSync w (Strict.clientPath st)
      then [Walk.clientSrcPath st] else []).

(** A walk from [dirPath] throws. *)
Definition throwsAt (excluded : list text) (w : Walk.world) (dirPath : text)
  : Prop :=
  exists n, w dirPath = Some n /\ Walk.blocked excluded n.

End Run.

(** ** The test runner *)

Module TestRunner.

Record test := { name : text; script : text; args : list text }.

Definition testSequence : list test :=
  [ {| name := T "Database Tests"; script := T "test-database.js";
       args := [T "../server"] |};
    {| name := T "Server Tests"; script := T "test-server.js";
       args := [T "http://localhost:5000"] |};
    {| name := T "Client Tests"; script := T "test-client.js";
       args := [T "../client"] |};
    {| name := T "Prisma Analysis"; script := T "enhanced-prisma-analyzer.js";
       args := [T "../server"; T "../client"] |};
    {| name := T "Integration Tests"; script := T "test-integration.js";
       args := [T "http://localhost:5000"; T "../client"] |} ].

(** What [runScript] returns, without the output or the message. *)
Record result := { success : bool }.

(** [this.results]: each key holds [null] or a result. *)
Definition resultsT := jsmap (option result).

Definition initial : resultsT :=
  [ (T "server", None); (T "client", None); (T "database", None);
    (T "integration", None); (T "prismaAnalysis", None) ].

(** [s.replace(" ", "")]: the first space goes. *)
Fixpoint dropFirstSpace (s : text) : text :=
  match s with
  | [] => []
  | c :: t => if Ascii.eqb c " " then t else c :: dropFirstSpace t
  end.

Definition key (t : test) : text := dropFirstSpace (toLowerCase (name t)).

Record state := { results : resultsT; totalPassed : nat; totalFailed : nat }.

(** The command succeeds or throws: [runs script args]. *)
Definition runScript (runs : text -> list text -> bool) (t : test) : result :=
  {| success := runs (script t) (args t) |}.

Definition step (runs : text -> list text -> bool) (st : state) (t : test)
  : state :=
  let r := runScript runs t in
  {| results := map_set (key t) (Some r) (results st);
     totalPassed := if success r then S (totalPassed st) else totalPassed st;
     totalFailed := if success r then totalFailed st
                    else S (totalFailed st) |}.

Definition runAllTests (runs : text -> list text -> bool) : state :=
  fold_left (step runs) testSequence
    {| results := initial; totalPassed := 0; totalFailed := 0 |}.

Inductive assessmentT : Type :=
| EXCELLENT
| GOOD
| NEEDS_ATTENTION
| CRITICAL.

(** The overall assessment of [printFinalResults]. *)
Definition assessment (failed : nat) : assessmentT :=
  if failed =? 0 then EXCELLENT
  else if failed <=? 1 then GOOD
  else if failed <=? 2 then NEEDS_ATTENTION
  else CRITICAL.

(** The individual results printed: the keys that hold a result. *)
Definition individual (rs : resultsT) : list (text * bool) :=
  flat_map (fun e => match snd e with
                     | Some r => [(fst e, success r)]
                     | None => []
                     end) rs.

End TestRunner.

(** ** The export of the strict analyzer *)

Module StrictResults.

(** The order of [Array.prototype.sort] without a comparator: by the
    codes of the characters, a prefix first. *)
Fixpoint text_leb (a b : text) : bool :=
  match a, b with
  | [], _ => true
  | _ :: _, [] => false
  | x :: a', y :: b' =>
      if code x <? code y then true
      else if code y <? code x then false
      else text_leb a' b'
  end.

Fixpoint insert (x : text) (l : list text) : list text :=
  match l with
  | [] => [x]
  | y :: t => if text_leb x y then x :: y :: t else y :: insert x t
  end.

Definition sort (l : list text) : list text := fold_right insert [] l.

Record summaryT := {
  totalModels : nat;
  activelyUsedModels : nat;
  suspiciousModels : nat;
  completelyUnusedModels : nat;
  canLikelyBeRemoved : nat
}.

Record usageFile := { ufFile : text; ufUsageTypes : list usageType }.

Record usedEntry := {
  filesWithRealUsage : nat;
  totalFilesMentioned : nat;
  usageFiles : list usageFile
}.

Record suspiciousEntry := {
  suspiciousFilesMentioned : nat;
  mentionedInFiles : list text
}.

Record report := {
  summary : summaryT;
  all : list text;
  activelyUsed : list text;
  suspicious : list text;
  completelyUnused : list text;
  detailedUsed : jsmap usedEntry;
  detailedSuspicious : jsmap suspiciousEntry
}.

Definition notWeak (us : Strict.usage) : bool :=
  negb (usageType_eqb (Strict.type us) WEAK_INDICATOR).

Definition usageFileOf (u : Strict.usageDetails) : usageFile :=
  {| ufFile := Strict.file u;
     ufUsageTypes := map Strict.type (filter notWeak (Strict.usages u)) |}.

Definition usedEntryOf (usage : Strict.modelUsageT) : usedEntry :=
  {| filesWithRealUsage := length (Strict.realUsages usage);
     totalFilesMentioned := Strict.totalFiles usage;
     usageFiles := map usageFileOf (Strict.realUsages usage) |}.

Definition suspiciousEntryOf (usage : Strict.modelUsageT) : suspiciousEntry :=
  {| suspiciousFilesMentioned := Strict.totalFiles usage;
     mentionedInFiles := map Strict.file (Strict.suspiciousUsages usage) |}.

(** The report of [exportResults], without its time stamp, the rate and
    the constant reason. *)
Definition exportResults (st : Strict.analyzer) : report :=
  {| summary :=
       {| totalModels := length (Strict.models st);
          activelyUsedModels := length (Strict.usedModels st);
          suspiciousModels := length (Strict.suspiciousModels st);
          completelyUnusedModels := length (Strict.unusedModels st);
          canLikelyBeRemoved := length (Strict.suspiciousModels st)
                                + length (Strict.unusedModels st) |};
     all := sort (Strict.models st);
     activelyUsed := sort (keys (Strict.usedModels st));
     suspicious := sort (keys (Strict.suspiciousModels st));
     completelyUnused := sort (Strict.unusedModels st);
     detailedUsed :=
       map (fun e => (fst e, usedEntryOf (snd e))) (Strict.usedModels st);
     detailedSuspicious :=
       map (fun e => (fst e, suspiciousEntryOf (snd e)))
           (Strict.suspiciousModels st) |}.

Definition text_le (a b : text) : Prop := text_leb a b = true.

End StrictResults.

(** ** A sample project, for the examples *)

Module Sample.

Definition server : text := T "/app/server".
Definition client : text := T "/app/client".

Definition ordersFile : text := T "/app/server/src/orders.ts".
Definition legacyFile : text := T "/app/server/src/legacy.ts".
Definition lostFile : text := T "/app/client/src/lost.tsx".

(** [lostFile] cannot be read. *)
Definition fs : filesystem :=
  fun p =>
    if text_eqb p ordersFile
    then Some (T "const rows = await prisma.orderItem.findMany({ take: 5 });")
    else if text_eqb p legacyFile
    then Some (T "// uses Widget for legacy support")
    else None.

Definition Order : modelInfo :=
  {| name := T "Order";
     fields := [(T "id", T "Int")];
     relationships := [];
     rawBody := [] |}.

Definition OrderItem : modelInfo :=
  {| name := T "OrderItem";
     fields := [(T "id", T "Int"); (T "order", T "Order")];
     relationships :=
       [ {| field := T "order"; model := T "Order"; isArray := false |} ];
     rawBody := [] |}.

Definition Widget : modelInfo :=
  {| name := T "Widget";
     fields := [(T "id", T "Int")];
     relationships := [];
     rawBody := [] |}.

Definition schema : list modelInfo := [Order; OrderItem; Widget].

Definition files : list text := [ordersFile; legacyFile; lostFile].

Definition result : analyzer := analysed server client fs schema files.

Definition widgetCall : fileContent :=
  {| raw := T "prisma.Widget.findMany(";
     clean := cleanContent (T "prisma.Widget.findMany(") |}.

Definition widgetFile : text := T "/app/server/src/widgets.ts".

(** The same project with another comment in [legacyFile]. *)
Definition fsReferences : filesystem :=
  fun p =>
    if text_eqb p legacyFile
    then Some (T "// references Widget for legacy support")
    else fs p.

End Sample.

(** A schema for the examples. *)
Module SampleSchema.

Definition nl : string := String Schema.newline EmptyString.

Definition content : text :=
  T ("// orders" ++ nl ++
     "model Order {" ++ nl ++
     "  id    Int @id" ++ nl ++
     "  items OrderItem[] @relation(" ++ nl ++
     "}" ++ nl ++ nl ++
     "model OrderItem {" ++ nl ++
     "  id    Int" ++ nl ++
     "  // the order" ++ nl ++
     "  order Order @relation(fields: [orderId])" ++ nl ++
     "  @@index([orderId])" ++ nl ++
     "}" ++ nl).

Definition fs : filesystem :=
  fun p =>
    if text_eqb p (T "/app/server/prisma/schema.prisma") then Some content
    else Sample.fs p.

Definition st : analyzer := create Sample.server Sample.client.

End SampleSchema.

(** A second project: three files mention Widget, [lostFile] cannot be
    read, and Gadget is mentioned in a comment of [notesFile] only. *)
Module SampleStore.

Definition server : text := T "/app/server".
Definition client : text := T "/app/client".

Definition notesFile : text := T "/app/server/src/notes.ts".
Definition lostFile : text := T "/app/server/src/lost.ts".
Definition widgetsFile : text := T "/app/server/src/widgets.ts".
Definition moreFile : text := T "/app/server/src/more.ts".

Definition notes : text :=
  T ("let w: Widget = load(); // Gadget was here" ++ SampleSchema.nl ++
     "let n = 1;").

Definition fs : filesystem :=
  fun p =>
    if text_eqb p notesFile then Some notes
    else if text_eqb p widgetsFile
    then Some (T "const all = await prisma.widget.findMany({});")
    else if text_eqb p moreFile
    then Some (T "let v: Widget = load();")
    else None.

Definition Widget : modelInfo :=
  {| name := T "Widget";
     fields := [(T "id", T "Int")];
     relationships := [];
     rawBody := [] |}.

Definition Gadget : modelInfo :=
  {| name := T "Gadget";
     fields := [(T "id", T "Int")];
     relationships := [];
     rawBody := [] |}.

Definition schema : list modelInfo := [Widget; Gadget].

Definition files : list text := [widgetsFile; lostFile; notesFile; moreFile].


End SampleStore.

(** ** The matcher *)

Section Matcher.
Variable f : flags.

Lemma text_eqb_eq (a b : text) : text_eqb a b = true <-> a = b.
Proof.
  revert b; induction a as [|x a IH]; intros [|y b]; simpl;
    try (split; [discriminate | discriminate]); try tauto.
  rewrite andb_true_iff, Ascii.eqb_eq, IH.
  split; [intros [-> ->]; reflexivity | intros H; inversion H; auto].
Qed.

Lemma text_eqb_refl (a : text) : text_eqb a a = true.
Proof. apply text_eqb_eq; reflexivity. Qed.

Lemma text_eqb_neq (a b : text) : text_eqb a b = false <-> a <> b.
Proof.
  split.
  - intros H E. apply text_eqb_eq in E. congruence.
  - intros H. destruct (text_eqb a b) eqn:E; [|reflexivity].
    apply text_eqb_eq in E. contradiction.
Qed.

(** What a run of literals matched. *)
Lemma mt_lit_spec (l : text) (p q : pos) :
  In q (mt_lit f l p) ->
  exists w, snd p = w ++ snd q /\
            Forall2 (fun c x => chr_eq f c x = true) l w.
Proof.
  revert p; induction l as [|c l IH]; intros [pv s] H; simpl in *.
  - destruct H as [<-|[]]. exists []. split; [reflexivity | constructor].
  - destruct s as [|x t]; [contradiction|].
    destruct (chr_eq f c x) eqn:E; [|contradiction].
    destruct (IH _ H) as (w & Hw & Hall). simpl in Hw.
    exists (x :: w). split; [simpl; congruence | constructor; assumption].
Qed.

Lemma one_char_spec (ok : ascii -> bool) (p q : pos) :
  In q (one_char ok p) -> exists x, snd p = x :: snd q /\ ok x = true.
Proof.
  unfold one_char. destruct (snd p) as [|x t]; [contradiction|].
  destruct (ok x) eqn:E; [|contradiction].
  intros [<-|[]]. exists x. auto.
Qed.

(** A star reaches what its body reaches, step after step. *)
Lemma iterate_ind (R : pos -> pos -> Prop) (greedy : bool)
  (step : pos -> list pos) :
  (forall p, R p p) ->
  (forall p q r, In q (step p) -> R q r -> R p r) ->
  forall n p q, In q (iterate greedy step n p) -> R p q.
Proof.
  intros Hrefl Htrans. induction n as [|n IH]; intros p q H; simpl in H.
  - destruct H as [<-|[]]. apply Hrefl.
  - assert (Hmore :
      In q (flat_map
              (fun q0 => if length (snd q0) <? length (snd p)
                         then iterate greedy step n q0 else [])
              (step p)) -> R p q).
    { intros Hin. apply in_flat_map in Hin. destruct Hin as (q0 & Hq0 & Hq).
      destruct (length (snd q0) <? length (snd p)); [|contradiction].
      eapply Htrans; eauto. }
    destruct greedy.
    + apply in_app_or in H. destruct H as [H|[<-|[]]]; auto.
    + destruct H as [<-|H]; auto.
Qed.

(** The bound on the iterations of a star is never the reason to stop:
    any bound from the length of the rest on gives the same result. *)
Lemma iterate_enough (greedy : bool) (step : pos -> list pos) :
  forall n m p, length (snd p) <= n -> length (snd p) <= m ->
  iterate greedy step n p = iterate greedy step m p.
Proof.
  assert (Hend : forall k p, length (snd p) = 0 ->
            iterate greedy step k p = [p]).
  { intros [|k] p Hp; cbn [iterate]; [reflexivity|].
    rewrite Hp.
    assert (Hnone : forall l : list pos,
              flat_map (fun q => if length (snd q) <? 0
                                 then iterate greedy step k q else [])
                       l = []).
    { induction l as [|q l IHl]; [reflexivity|]. simpl. exact IHl. }
    rewrite Hnone. destruct greedy; reflexivity. }
  induction n as [|n IH]; intros m p Hn Hm.
  - rewrite (Hend m p) by lia. apply Hend. lia.
  - destruct m as [|m]; [rewrite (Hend 0 p) by lia; apply Hend; lia|].
    cbn [iterate].
    assert (Hsame :
      flat_map (fun q => if length (snd q) <? length (snd p)
                         then iterate greedy step n q else []) (step p)
      = flat_map (fun q => if length (snd q) <? length (snd p)
                           then iterate greedy step m q else []) (step p)).
    { apply flat_map_ext. intros q.
      destruct (length (snd q) <? length (snd p)) eqn:E; [|reflexivity].
      apply Nat.ltb_lt in E. apply IH; lia. }
    rewrite Hsame. reflexivity.
Qed.

(** The matcher moves forward: what is left is a suffix. *)
Lemma mt_suffix (r : re) (p q : pos) :
  In q (mt f r p) -> exists w, snd p = w ++ snd q.
Proof.
  revert p q; induction r as [l| |neg l|a IHa b IHb|a IHa b IHb|gr a IHa| |];
    intros p q H; simpl in H.
  - destruct (mt_lit_spec _ _ _ H) as (w & Hw & _). eauto.
  - destruct (one_char_spec _ _ _ H) as (x & Hx & _). exists [x]. assumption.
  - destruct (one_char_spec _ _ _ H) as (x & Hx & _). exists [x]. assumption.
  - apply in_flat_map in H. destruct H as (q1 & H1 & H2).
    destruct (IHa _ _ H1) as (w1 & E1). destruct (IHb _ _ H2) as (w2 & E2).
    exists (w1 ++ w2). rewrite <- app_assoc. congruence.
  - apply in_app_or in H. destruct H; eauto.
  - revert H. apply iterate_ind with (R := fun p q => exists w, snd p = w ++ snd q).
    + intros p0. exists []. reflexivity.
    + intros p0 q0 r0 H1 (w2 & E2). destruct (IHa _ _ H1) as (w1 & E1).
      exists (w1 ++ w2). simpl. rewrite <- app_assoc, <- E2. exact E1.
  - destruct (at_eol f p); [|contradiction]. destruct H as [<-|[]].
    exists []. reflexivity.
  - destruct (xorb _ _); [|contradiction]. destruct H as [<-|[]].
    exists []. reflexivity.
Qed.

Lemma mt_length (r : re) (p q : pos) :
  In q (mt f r p) -> length (snd q) <= length (snd p).
Proof.
  intros H. destruct (mt_suffix _ _ _ H) as (w & ->).
  rewrite length_app. lia.
Qed.

(** A pattern that needs a character leaves a shorter rest. *)
Lemma mt_consumes (r : re) (p q : pos) :
  consumes r = true -> In q (mt f r p) -> length (snd q) < length (snd p).
Proof.
  revert p q; induction r as [l| |neg l|a IHa b IHb|a IHa b IHb|gr a IHa| |];
    intros p q Hc H; simpl in *; try discriminate.
  - destruct (mt_lit_spec _ _ _ H) as (w & Hw & Hall).
    rewrite Hw, length_app. destruct l; [discriminate|].
    inversion Hall; subst. simpl. lia.
  - destruct (one_char_spec _ _ _ H) as (x & -> & _). simpl. lia.
  - destruct (one_char_spec _ _ _ H) as (x & -> & _). simpl. lia.
  - apply in_flat_map in H. destruct H as (q1 & H1 & H2).
    pose proof (mt_length _ _ _ H1). pose proof (mt_length _ _ _ H2).
    apply orb_true_iff in Hc. destruct Hc as [Hc|Hc].
    + specialize (IHa _ _ Hc H1). lia.
    + specialize (IHb _ _ Hc H2). lia.
  - apply andb_true_iff in Hc. destruct Hc.
    apply in_app_or in H. destruct H; eauto.
Qed.
End Matcher.

(** ** Names inside matches *)





Lemma occurs_app_r (n s t : text) :
  occurs_ci n t = true -> occurs_ci n (s ++ t) = true.
Proof.
  induction s as [|x s IH]; simpl; intros H; [assumption|].
  rewrite (IH H). apply orb_true_r.
Qed.



Lemma prefix_occurs (n w : text) : prefix_ci n w = true -> occurs_ci n w = true.
Proof. destruct w; simpl; intros ->; reflexivity. Qed.


(** ** The global scan *)

Section Scan.
Variables (f : flags) (r : re).

Lemma exec_at_spec (pv : option ascii) (s s' : text) :
  exec_at f r (pv, s) = Some s' ->
  exists q w, In q (mt f r (pv, s)) /\ snd q = s' /\ s = w ++ s' /\
              firstn (length s - length s') s = w.
Proof.
  unfold exec_at. destruct (mt f r (pv, s)) as [|q l] eqn:E; [discriminate|].
  intros H. injection H as <-.
  assert (Hin : In q (mt f r (pv, s))) by (rewrite E; left; reflexivity).
  destruct (mt_suffix _ _ _ _ Hin) as (w & Hw). simpl in Hw.
  exists q, w. split; [left; reflexivity|]. split; [reflexivity|].
  split; [exact Hw|].
  rewrite Hw, length_app, Nat.add_sub, firstn_app, firstn_all, Nat.sub_diag.
  simpl. apply app_nil_r.
Qed.

Lemma exec_at_none (pv : option ascii) (s : text) :
  exec_at f r (pv, s) = None -> mt f r (pv, s) = [].
Proof.
  unfold exec_at. destruct (mt f r (pv, s)); [reflexivity | discriminate].
Qed.

Lemma scan_skip (w s : text) (prev : option ascii) :
  scan f r prev (w ++ s) (length w) = scan f r (lastc prev w) s 0.
Proof.
  revert prev; induction w as [|c w IH]; intros prev; simpl.
  - destruct s; reflexivity.
  - apply IH.
Qed.

Lemma scan_miss (prev : option ascii) (c : ascii) (t : text) :
  exec_at f r (prev, c :: t) = None ->
  scan f r prev (c :: t) 0 = Keep c :: scan f r (Some c) t 0.
Proof. intros H. cbn [scan]. rewrite H. reflexivity. Qed.

Lemma scan_hit (prev : option ascii) (c : ascii) (m s' : text) :
  exec_at f r (prev, (c :: m) ++ s') = Some s' ->
  scan f r prev ((c :: m) ++ s') 0
  = Hit (c :: m) :: scan f r (lastc prev (c :: m)) s' 0.
Proof.
  intros H. destruct (exec_at_spec _ _ _ H) as (q & w & _ & _ & Hw & Hf).
  apply app_inv_tail in Hw. subst w.
  change ((c :: m) ++ s') with (c :: (m ++ s')) in *.
  cbn [scan]. rewrite H, Hf. f_equal. exact (scan_skip m s' (Some c)).
Qed.



(** With matches of one character at least, the global replacement
    puts [by_] in the place of each match and keeps the rest. *)
Lemma replace_Replaced (by_ : text) :
  consumes r = true ->
  forall s, Replaced by_ f r None s (replace f r by_ s).
Proof.
  intros Hc. unfold replace.
  assert (G : forall n s prev, length s <= n ->
    Replaced by_ f r prev s
      (flat_map (fun p => match p with Hit _ => by_ | Keep c => [c] end)
                (scan f r prev s 0))).
  { induction n as [|n IH]; intros s prev Hn.
    - destruct s; [|simpl in Hn; lia]. simpl.
      destruct (exec_at f r (prev, [])) as [s'|] eqn:E.
      + destruct (exec_at_spec _ _ _ E) as (q & w & Hin & _).
        apply (mt_consumes _ _ _ _ Hc) in Hin. simpl in Hin. lia.
      + constructor. apply exec_at_none. exact E.
    - destruct s as [|c t]; [apply (IH [] prev); simpl; lia|].
      destruct (exec_at f r (prev, c :: t)) as [s'|] eqn:E.
      + destruct (exec_at_spec _ _ _ E) as (q & w & Hin & Hq & Hw & Hf).
        pose proof (mt_consumes _ _ _ _ Hc Hin) as Hlt. simpl in Hlt.
        destruct w as [|x m].
        { simpl in Hw. rewrite Hq, <- Hw in Hlt. simpl in Hlt. lia. }
        simpl in Hw. injection Hw as <- Ht. subst t.
        change (c :: m ++ s') with ((c :: m) ++ s') in *.
        rewrite (scan_hit _ _ _ _ E). cbn [flat_map].
        unfold exec_at in E.
        destruct (mt f r (prev, (c :: m) ++ s')) as [|q0 others] eqn:Em;
          [discriminate E|].
        injection E as Eq0.
        eapply Replaced_hit; [exact Em | exact Eq0 |].
        apply IH. simpl in Hn. rewrite length_app in Hn. lia.
      + rewrite (scan_miss _ _ _ E). cbn [flat_map]. simpl app.
        apply Replaced_keep; [apply exec_at_none; exact E|].
        apply IH. simpl in Hn. lia. }
  intros s. apply (G (length s)). lia.
Qed.
End Scan.


(** ** Maps *)

Section MapLemmas.
Context {V : Type}.

Lemma map_get_set (k k' : text) (v : V) (m : jsmap V) :
  map_get k' (map_set k v m)
  = if text_eqb k' k then Some v else map_get k' m.
Proof.
  induction m as [|[k0 v0] m IH]; simpl; [reflexivity|].
  destruct (text_eqb k k0) eqn:E; simpl.
  - apply text_eqb_eq in E. subst k0.
    destruct (text_eqb k' k); reflexivity.
  - rewrite IH. destruct (text_eqb k' k0) eqn:E0; [|reflexivity].
    apply text_eqb_eq in E0. subst k0.
    destruct (text_eqb k' k) eqn:E1; [|reflexivity].
    apply text_eqb_eq in E1. subst k'. rewrite text_eqb_refl in E.
    discriminate.
Qed.

Lemma map_set_same (k : text) (v : V) (m : jsmap V) :
  map_get k m = Some v -> map_set k v m = m.
Proof.
  induction m as [|[k0 v0] m IH]; simpl; [discriminate|].
  destruct (text_eqb k k0) eqn:E.
  - apply text_eqb_eq in E. subst k0. intros H. injection H as ->.
    reflexivity.
  - intros H. rewrite (IH H). reflexivity.
Qed.

Lemma map_get_none (k : text) (m : jsmap V) :
  map_get k m = None <-> ~ In k (keys m).
Proof.
  induction m as [|[k0 v0] m IH]; simpl; [tauto|].
  destruct (text_eqb k k0) eqn:E.
  - apply text_eqb_eq in E. subst k0. split; [discriminate|].
    intros H. exfalso. apply H. left. reflexivity.
  - apply text_eqb_neq in E. rewrite IH. split.
    + intros H [H1|H1]; [congruence | contradiction].
    + intros H H1. apply H. right. assumption.
Qed.

Lemma map_get_in (k : text) (v : V) (m : jsmap V) :
  map_get k m = Some v -> In (k, v) m.
Proof.
  induction m as [|[k0 v0] m IH]; simpl; [discriminate|].
  destruct (text_eqb k k0) eqn:E.
  - apply text_eqb_eq in E. subst k0. intros H. injection H as ->.
    left. reflexivity.
  - intros H. right. auto.
Qed.

Lemma in_map_get (k : text) (v : V) (m : jsmap V) :
  NoDup (keys m) -> In (k, v) m -> map_get k m = Some v.
Proof.
  induction m as [|[k0 v0] m IH]; simpl; [contradiction|].
  intros Hnd [H|H].
  - injection H as -> ->. rewrite text_eqb_refl. reflexivity.
  - inversion Hnd as [|? ? Hnot Hnd']; subst.
    destruct (text_eqb k k0) eqn:E.
    + apply text_eqb_eq in E. subst k0. exfalso. apply Hnot.
      apply (in_map fst) in H. exact H.
    + auto.
Qed.

Lemma map_set_new (k : text) (v : V) (m : jsmap V) :
  ~ In k (keys m) -> map_set k v m = m ++ [(k, v)].
Proof.
  induction m as [|[k0 v0] m IH]; simpl; [reflexivity|].
  intros H. destruct (text_eqb k k0) eqn:E.
  - apply text_eqb_eq in E. subst k0. exfalso. apply H. left. reflexivity.
  - rewrite IH; [reflexivity|]. intros H1. apply H. right. assumption.
Qed.

Lemma keys_map_set (k : text) (v : V) (m : jsmap V) :
  keys (map_set k v m) = if map_has k m then keys m else keys m ++ [k].
Proof.
  unfold map_has. induction m as [|[k0 v0] m IH]; simpl; [reflexivity|].
  destruct (text_eqb k k0) eqn:E; simpl.
  - apply text_eqb_eq in E. subst k0. reflexivity.
  - rewrite IH. destruct (map_get k m); reflexivity.
Qed.

Lemma NoDup_keys_map_set (k : text) (v : V) (m : jsmap V) :
  NoDup (keys m) -> NoDup (keys (map_set k v m)).
Proof.
  intros H. rewrite keys_map_set. unfold map_has.
  destruct (map_get k m) eqn:E; [assumption|].
  apply map_get_none in E.
  apply NoDup_app; [assumption | repeat constructor; intros [] |].
  intros x Hx [<-|[]]. contradiction.
Qed.

Lemma in_keys_map_set (k k' : text) (v : V) (m : jsmap V) :
  In k' (keys (map_set k v m)) <-> k' = k \/ In k' (keys m).
Proof.
  rewrite keys_map_set. unfold map_has.
  destruct (map_get k m) eqn:E.
  - split; [auto|]. intros [->|H]; [|assumption].
    apply map_get_in in E. apply (in_map fst) in E. exact E.
  - rewrite in_app_iff. simpl. intuition congruence.
Qed.

Context {A : Type}.
Variable g : text * A -> V.

Lemma setAll_cons (e : text * A) (l : list (text * A)) (m : jsmap V) :
  setAll g (e :: l) m = setAll g l (map_set (fst e) (g e) m).
Proof. reflexivity. Qed.

(** Setting entries that are there already changes nothing. *)
Lemma setAll_same (l : list (text * A)) (m : jsmap V) :
  (forall e, In e l -> map_get (fst e) m = Some (g e)) -> setAll g l m = m.
Proof.
  induction l as [|e l IH]; intros H; [reflexivity|].
  rewrite setAll_cons, map_set_same by (apply H; left; reflexivity).
  apply IH. intros e' He'. apply H. right. assumption.
Qed.

(** From an empty map and distinct keys: one entry per key, in order. *)
Lemma setAll_fresh (l : list (text * A)) (m : jsmap V) :
  NoDup (keys m ++ keys l) ->
  setAll g l m = m ++ map (fun e => (fst e, g e)) l.
Proof.
  revert m; induction l as [|e l IH]; intros m H.
  - simpl. symmetry. apply app_nil_r.
  - rewrite setAll_cons. simpl in H.
    assert (Hnew : ~ In (fst e) (keys m)).
    { intros Hin. apply NoDup_remove_2 in H. apply H.
      apply in_or_app. left. assumption. }
    rewrite map_set_new by assumption.
    rewrite IH.
    + rewrite <- app_assoc. reflexivity.
    + unfold keys in *. rewrite map_app. simpl. rewrite <- app_assoc.
      simpl. apply NoDup_app_remove_l with (l := []). simpl.
      apply NoDup_Add with (a := fst e) (l := map fst m ++ map fst l).
      * clear. induction (map fst m); simpl; constructor; assumption.
      * split.
        { apply NoDup_remove_1 in H. exact H. }
        { apply NoDup_remove_2 in H. exact H. }
Qed.

Lemma setAll_get (l : list (text * A)) (m : jsmap V) (e : text * A) :
  NoDup (keys l) -> In e l -> map_get (fst e) (setAll g l m) = Some (g e).
Proof.
  revert m; induction l as [|e0 l IH]; intros m Hnd Hin; [contradiction|].
  rewrite setAll_cons. inversion Hnd as [|? ? Hnot Hnd']; subst.
  destruct Hin as [->|Hin]; [|auto].
  clear IH. revert m. induction l as [|e1 l IH]; intros m.
  - simpl. rewrite map_get_set, text_eqb_refl. reflexivity.
  - rewrite setAll_cons.
    assert (Hne : text_eqb (fst e) (fst e1) = false).
    { apply text_eqb_neq. intros Heq. apply Hnot. left. auto. }
    assert (Hsw : forall m0, map_get (fst e) m0 = Some (g e) ->
              map_get (fst e) (setAll g l (map_set (fst e1) (g e1) m0))
              = Some (g e)).
    { intros m0 H0.
      assert (Hgen : forall l0 m1, ~ In (fst e) (keys l0) ->
                map_get (fst e) m1 = Some (g e) ->
                map_get (fst e) (setAll g l0 m1) = Some (g e)).
      { induction l0 as [|e2 l0 IH0]; intros m1 Hn H1; [exact H1|].
        rewrite setAll_cons. apply IH0.
        - intros Hc. apply Hn. right. assumption.
        - rewrite map_get_set.
          destruct (text_eqb (fst e) (fst e2)) eqn:E2; [|exact H1].
          apply text_eqb_eq in E2. exfalso. apply Hn. left. auto. }
      apply Hgen.
      - intros Hc. apply Hnot. right. assumption.
      - rewrite map_get_set, Hne. exact H0. }
    apply Hsw. rewrite map_get_set, text_eqb_refl. reflexivity.
Qed.
End MapLemmas.

(** ** The cache and the analyses *)

Section Cache.
Variable fs : filesystem.

Lemma sameButCache_refl (st : analyzer) : sameButCache st st.
Proof. repeat split. Qed.

Lemma sameButCache_trans (a b c : analyzer) :
  sameButCache a b -> sameButCache b c -> sameButCache a c.
Proof.
  unfold sameButCache. intros (A1 & A2 & A3 & A4) (B1 & B2 & B3 & B4).
  repeat split; congruence.
Qed.

Lemma getFileContent_ok (st : analyzer) (p : text) :
  cacheOk fs st ->
  fst (getFileContent fs st p) = contentOf fs p /\
  cacheOk fs (snd (getFileContent fs st p)) /\
  sameButCache st (snd (getFileContent fs st p)).
Proof.
  intros Hok. unfold getFileContent.
  destruct (map_get p (fileCache st)) as [c|] eqn:E.
  - destruct (Hok _ _ E) as [_ ->]. simpl.
    split; [reflexivity|]. split; [assumption | apply sameButCache_refl].
  - unfold contentOf. destruct (fs p) as [content|] eqn:F; simpl.
    + split; [reflexivity|]. split; [|repeat split].
      intros p' c' H. simpl in H. rewrite map_get_set in H.
      destruct (text_eqb p' p) eqn:E'.
      * apply text_eqb_eq in E'. subst p'. injection H as <-.
        unfold contentOf. rewrite F. split; [discriminate | reflexivity].
      * apply Hok. exact H.
    + split; [reflexivity|]. split; [|repeat split].
      intros p' c' H. apply Hok. exact H.
Qed.

Lemma analyzeModelUsage_ok (st : analyzer) (modelName p : text) :
  cacheOk fs st ->
  fst (analyzeModelUsage fs st modelName p)
  = analysisOf fs (serverPath st) (clientPath st) modelName p /\
  cacheOk fs (snd (analyzeModelUsage fs st modelName p)) /\
  sameButCache st (snd (analyzeModelUsage fs st modelName p)).
Proof.
  intros Hok. unfold analyzeModelUsage.
  destruct (getFileContent_ok st p Hok) as (Hc & Hok' & Hsame).
  destruct (getFileContent fs st p) as [c st']. simpl in *.
  subst c. auto.
Qed.

Lemma fileStep_ok (modelName : text) (mu : modelUsageT) (st : analyzer)
  (p : text) :
  cacheOk fs st ->
  exists st',
    fileStep fs modelName (mu, st) p
    = (match analysisOf fs (serverPath st) (clientPath st) modelName p with
       | Some a => addAnalysis mu a
       | None => mu
       end, st') /\
    cacheOk fs st' /\ sameButCache st st'.
Proof.
  intros Hok.
  destruct (analyzeModelUsage_ok st modelName p Hok) as (Ha & Hok' & Hs).
  unfold fileStep. simpl.
  destruct (analyzeModelUsage fs st modelName p) as [an st'].
  simpl in Ha, Hok', Hs. subst an. exists st'.
  split; [|split; assumption].
  destruct (analysisOf fs (serverPath st) (clientPath st) modelName p);
    reflexivity.
Qed.

Lemma fold_fileStep_ok (modelName : text) (files : list text) :
  forall (mu : modelUsageT) (st : analyzer),
  cacheOk fs st ->
  let res := fold_left (fileStep fs modelName) files (mu, st) in
  fst res
  = fold_left addAnalysis
      (analysesOf fs (serverPath st) (clientPath st) modelName files) mu
  /\ cacheOk fs (snd res) /\ sameButCache st (snd res).
Proof.
  induction files as [|p files IH]; intros mu st Hok; simpl.
  - split; [reflexivity|]. split; [assumption | apply sameButCache_refl].
  - destruct (fileStep_ok modelName mu st p Hok) as (st' & -> & Hok' & Hs).
    assert (Hcp : clientPath st' = clientPath st) by apply Hs.
    assert (Hsp : serverPath st' = serverPath st) by apply Hs.
    destruct (IH (match analysisOf fs (serverPath st) (clientPath st)
                         modelName p with
                  | Some a => addAnalysis mu a
                  | None => mu
                  end) st' Hok') as (H1 & H2 & H3).
    rewrite Hcp, Hsp in H1. split; [|split].
    + rewrite H1.
      destruct (analysisOf fs (serverPath st) (clientPath st) modelName p);
        [rewrite fold_left_app|]; reflexivity.
    + exact H2.
    + eapply sameButCache_trans; eauto.
Qed.

Lemma scanFiles_ok (files : list text) (st : analyzer)
  (modelName : text) (info : modelInfo) :
  cacheOk fs st ->
  fst (scanFiles fs files st modelName info)
  = usageOver info
      (analysesOf fs (serverPath st) (clientPath st) modelName files) /\
  cacheOk fs (snd (scanFiles fs files st modelName info)) /\
  sameButCache st (snd (scanFiles fs files st modelName info)).
Proof. intros Hok. apply (fold_fileStep_ok modelName files _ st Hok). Qed.

Lemma modelStep_ok (files : list text) (st : analyzer)
  (e : text * modelInfo) :
  cacheOk fs st ->
  let st' := modelStep fs files st e in
  modelUsage st'
  = map_set (fst e) (entryOf fs (serverPath st) (clientPath st) files e)
      (modelUsage st) /\
  cacheOk fs st' /\ models st' = models st /\
  clientPath st' = clientPath st /\ serverPath st' = serverPath st.
Proof.
  intros Hok. unfold modelStep.
  destruct (scanFiles_ok files st (fst e) (snd e) Hok)
    as (Hmu & Hok' & Hs1 & Hs2 & Hs3 & Hs4).
  destruct (scanFiles fs files st (fst e) (snd e)) as [mu st'].
  simpl in *. subst mu. rewrite Hs4.
  split; [reflexivity|]. split; [exact Hok'|]. auto.
Qed.

Lemma fold_modelStep_ok (files : list text) (l : list (text * modelInfo)) :
  forall st, cacheOk fs st ->
  let st' := fold_left (modelStep fs files) l st in
  modelUsage st'
  = setAll (entryOf fs (serverPath st) (clientPath st) files) l
      (modelUsage st)
  /\ cacheOk fs st' /\ models st' = models st /\
  clientPath st' = clientPath st /\ serverPath st' = serverPath st.
Proof.
  induction l as [|e l IH]; intros st Hok; simpl.
  - split; [reflexivity|]. split; [assumption|]. auto.
  - destruct (modelStep_ok files st e Hok) as (H1 & H2 & H3 & H4 & H5).
    destruct (IH _ H2) as (K1 & K2 & K3 & K4 & K5).
    rewrite K1, H1, H4, H5. unfold setAll. simpl.
    split; [reflexivity|]. split; [exact K2|].
    repeat split; congruence.
Qed.

(** The usage map after [analyzeAllModels]: each model set in turn to
    the record its files give. *)
Lemma analyzeAllModels_ok (files : list text) (st : analyzer) :
  cacheOk fs st ->
  let st' := analyzeAllModels fs files st in
  modelUsage st'
  = setAll (entryOf fs (serverPath st) (clientPath st) files) (models st)
      (modelUsage st)
  /\ cacheOk fs st' /\ models st' = models st /\
  clientPath st' = clientPath st /\ serverPath st' = serverPath st.
Proof. intros Hok. apply fold_modelStep_ok. exact Hok. Qed.
End Cache.

(** ** A fresh run *)

Section FreshRun.
Variables (sp cp : text) (fs : filesystem).

Lemma parsePrismaSchema_ok (parsed : list modelInfo) :
  forall st, NoDup (keys (models st)) ->
  let st' := parsePrismaSchema parsed st in
  NoDup (keys (models st')) /\
  (forall k, In k (keys (models st')) <->
             In k (map name parsed) \/ In k (keys (models st))) /\
  fileCache st' = fileCache st /\ modelUsage st' = modelUsage st /\
  clientPath st' = clientPath st.
Proof.
  unfold parsePrismaSchema.
  induction parsed as [|m parsed IH]; intros st Hnd; simpl.
  - split; [assumption|]. split; [tauto|]. auto.
  - destruct (IH (setModels st (map_set (name m) m (models st))))
      as (H1 & H2 & H3 & H4 & H5).
    { simpl. apply NoDup_keys_map_set. assumption. }
    split; [exact H1|]. split; [|auto].
    intros k. rewrite H2. simpl. rewrite in_keys_map_set.
    intuition congruence.
Qed.

Lemma parsePrismaSchema_serverPath (parsed : list modelInfo) :
  forall st, serverPath (parsePrismaSchema parsed st) = serverPath st.
Proof.
  unfold parsePrismaSchema.
  induction parsed as [|m parsed IH]; intros st; simpl; [reflexivity|].
  rewrite IH. reflexivity.
Qed.

Lemma cacheOk_create (parsed : list modelInfo) :
  cacheOk fs (parsePrismaSchema parsed (create sp cp)).
Proof.
  destruct (parsePrismaSchema_ok parsed (create sp cp)) as (_ & _ & H & _).
  { constructor. }
  intros p c Hc. rewrite H in Hc. discriminate.
Qed.

(** After a fresh run the usage map has one record per model of the
    schema, in the order of the models. *)
Lemma analysed_usage (parsed : list modelInfo) (files : list text) :
  let st0 := parsePrismaSchema parsed (create sp cp) in
  modelUsage (analysed sp cp fs parsed files)
  = map (fun e => (fst e, entryOf fs sp cp files e)) (models st0) /\
  models (analysed sp cp fs parsed files) = models st0 /\
  NoDup (keys (models st0)) /\
  (forall m, In m parsed -> In (name m) (keys (models st0))).
Proof.
  intros st0.
  destruct (parsePrismaSchema_ok parsed (create sp cp))
    as (Hnd & Hin & Hc & Hu & Hcp); [constructor|].
  destruct (analyzeAllModels_ok fs files st0 (cacheOk_create parsed))
    as (H1 & _ & H3 & _).
  pose proof (parsePrismaSchema_serverPath parsed (create sp cp)) as Hsp.
  fold st0 in Hnd, Hin, Hu, Hcp, Hsp. unfold analysed. fold st0.
  simpl in Hu, Hcp, Hsp. rewrite H1, Hu, Hcp, Hsp.
  split; [|split; [exact H3|split; [exact Hnd|]]].
  - rewrite setAll_fresh; [reflexivity | exact Hnd].
  - intros m Hm. apply Hin. left. apply in_map. exact Hm.
Qed.

Lemma analysed_entry (parsed : list modelInfo) (files : list text)
  (k : text) (mu : modelUsageT) :
  map_get k (modelUsage (analysed sp cp fs parsed files)) = Some mu ->
  exists info,
    map_get k (models (analysed sp cp fs parsed files)) = Some info /\
    mu = entryOf fs sp cp files (k, info).
Proof.
  destruct (analysed_usage parsed files) as (Hu & Hm & Hnd & _).
  rewrite Hu, Hm. clear Hu Hm.
  induction (models (parsePrismaSchema parsed (create sp cp)))
    as [|[k0 i0] l IH]; simpl; [discriminate|].
  destruct (text_eqb k k0) eqn:E.
  - apply text_eqb_eq in E. subst k0. intros H. injection H as <-.
    exists i0. auto.
  - inversion Hnd; subst. auto.
Qed.

Lemma analysed_has_entry (parsed : list modelInfo) (files : list text)
  (k : text) (info : modelInfo) :
  map_get k (models (analysed sp cp fs parsed files)) = Some info ->
  map_get k (modelUsage (analysed sp cp fs parsed files))
  = Some (entryOf fs sp cp files (k, info)).
Proof.
  destruct (analysed_usage parsed files) as (Hu & Hm & Hnd & _).
  rewrite Hu, Hm. clear Hu Hm Hnd.
  induction (models (parsePrismaSchema parsed (create sp cp)))
    as [|[k0 i0] l IH]; simpl; [discriminate|].
  destruct (text_eqb k k0) eqn:E.
  - apply text_eqb_eq in E. subst k0. intros H. injection H as <-.
    reflexivity.
  - auto.
Qed.
End FreshRun.

(** ** The record of a model *)

Lemma has_add (s : list usageType) (t t' : usageType) :
  has (add s t') t = has s t || usageType_eqb t t'.
Proof.
  unfold add. destruct (has s t') eqn:E.
  - destruct (usageType_eqb t t') eqn:E'; [|symmetry; apply orb_false_r].
    assert (t = t') by (destruct t, t'; try discriminate; reflexivity).
    subst. rewrite E. reflexivity.
  - unfold has. rewrite existsb_app. simpl. rewrite orb_false_r. reflexivity.
Qed.

Lemma has_fold_add (l s : list usageType) (t : usageType) :
  has (fold_left add l s) t = has s t || has l t.
Proof.
  revert s; induction l as [|x l IH]; intros s; simpl.
  - symmetry. apply orb_false_r.
  - rewrite IH, has_add. rewrite <- orb_assoc. reflexivity.
Qed.

Lemma usageOver_totals (l : list usageAnalysis) :
  forall mu,
  totalConfidence (fold_left addAnalysis l mu)
  = totalConfidence mu + list_sum (map confidence l) /\
  (forall t, has (allUsageTypes (fold_left addAnalysis l mu)) t
             = has (allUsageTypes mu) t
               || existsb (fun a => has (usageTypes a) t) l) /\
  riskLevel (fold_left addAnalysis l mu) = riskLevel mu /\
  fileAnalyses (fold_left addAnalysis l mu) = fileAnalyses mu ++ l /\
  totalFiles (fold_left addAnalysis l mu) = totalFiles mu + length l.
Proof.
  induction l as [|a l IH]; intros mu; simpl.
  - rewrite Nat.add_0_r, app_nil_r. repeat split; auto.
    intros t. symmetry. apply orb_false_r.
  - destruct (IH (addAnalysis mu a)) as (H1 & H2 & H3 & H4 & H5).
    rewrite H1, H3, H4, H5. simpl. repeat split; try lia.
    + intros t. rewrite H2. simpl. rewrite has_fold_add, orb_assoc.
      reflexivity.
    + rewrite <- app_assoc. reflexivity.
Qed.

(** The assessment of the code is the rule of the specification. *)
Lemma assessRisk_rule (mu : modelUsageT) :
  riskLevel (assessRisk mu)
  = decision_rule (allUsageTypes mu) (totalConfidence mu) /\
  totalConfidence (assessRisk mu) = totalConfidence mu /\
  allUsageTypes (assessRisk mu) = allUsageTypes mu /\
  fileAnalyses (assessRisk mu) = fileAnalyses mu.
Proof.
  unfold assessRisk, decision_rule, containsAny, existsb.
  rewrite !orb_false_r.
  destruct (has (allUsageTypes mu) DATABASE_OPERATION),
           (has (allUsageTypes mu) API_ENDPOINT),
           (has (allUsageTypes mu) TYPE_DEFINITION),
           (has (allUsageTypes mu) BUSINESS_LOGIC),
           (has (allUsageTypes mu) CLIENT_OPERATION),
           (has (allUsageTypes mu) WEAK_INDICATOR),
           (has (allUsageTypes mu) SCHEMA_REFERENCE),
           (30 <=? totalConfidence mu), (20 <=? totalConfidence mu);
    simpl; auto.
Qed.

Lemma decision_rule_five (types : list usageType) (total : nat) :
  fiveLevels (decision_rule types total).
Proof.
  unfold decision_rule, fiveLevels.
  repeat match goal with
         | |- context [if ?b then _ else _] => destruct b
         end; auto.
Qed.

(** What the stored record of a model says, from the files. *)
Lemma entryOf_spec (fs : filesystem) (sp cp : text) (files : list text)
  (e : text * modelInfo) :
  let mu := entryOf fs sp cp files e in
  let l := analysesOf fs sp cp (fst e) files in
  riskLevel mu = decision_rule (allUsageTypes mu) (totalConfidence mu) /\
  totalConfidence mu = list_sum (map confidence l) /\
  (forall t, has (allUsageTypes mu) t
             = existsb (fun a => has (usageTypes a) t) l).
Proof.
  unfold entryOf, usageOver. simpl.
  destruct (assessRisk_rule
              (fold_left addAnalysis (analysesOf fs sp cp (fst e) files)
                         (newModelUsage (snd e)))) as (H1 & H2 & H3 & _).
  destruct (usageOver_totals (analysesOf fs sp cp (fst e) files)
                             (newModelUsage (snd e))) as (K1 & K2 & _).
  rewrite H1, H2, H3. split; [reflexivity|]. split; [exact K1|].
  intros t. rewrite K2. reflexivity.
Qed.

(** The records of a fresh run carry one of the five levels. *)
Lemma analysed_five_levels
  (sp cp : text) (fs : filesystem) (parsed : list modelInfo)
  (files : list text) (modelName : text) (mu : modelUsageT) :
  map_get modelName (modelUsage (analysed sp cp fs parsed files)) = Some mu ->
  fiveLevels (riskLevel mu) /\ riskLevel mu <> UNKNOWN.
Proof.
  intros H. apply analysed_entry in H. destruct H as (info & _ & ->).
  destruct (entryOf_spec fs sp cp files (modelName, info)) as (H1 & _).
  rewrite H1.
  pose proof (decision_rule_five
                (allUsageTypes (entryOf fs sp cp files (modelName, info)))
                (totalConfidence (entryOf fs sp cp files (modelName, info))))
    as H5.
  split; [exact H5|].
  destruct H5 as [E|[E|[E|[E|E]]]]; rewrite E; discriminate.
Qed.

(** ** The classification *)

(** C1.  For every model of the schema, the risk level stored by
    [analyzeAllModels] is the one the decision rule of the specification
    gives for the usage-type set and the total confidence of the record;
    the total is the sum of the confidences of the files that mention
    the model, the set is the union of their usage types. *)
Theorem C1_risk_level_is_decision_rule
  (sp cp : text) (fs : filesystem) (parsed : list modelInfo)
  (files : list text) (modelName : text) (mu : modelUsageT) :
  map_get modelName (modelUsage (analysed sp cp fs parsed files)) = Some mu ->
  riskLevel mu = decision_rule (allUsageTypes mu) (totalConfidence mu) /\
  totalConfidence mu
  = list_sum (map confidence (analysesOf fs sp cp modelName files)) /\
  (forall t, has (allUsageTypes mu) t
             = existsb (fun a => has (usageTypes a) t)
                       (analysesOf fs sp cp modelName files)).
Proof.
  intros H. apply analysed_entry in H. destruct H as (info & _ & ->).
  apply (entryOf_spec fs sp cp files (modelName, info)).
Qed.

Lemma C1_witness :
  exists mu,
    map_get (T "OrderItem") (modelUsage Sample.result) = Some mu /\
    riskLevel mu = decision_rule (allUsageTypes mu) (totalConfidence mu) /\
    riskLevel mu = SAFE.
Proof.
  eexists. split; [vm_compute; reflexivity|]. split.
  - apply (C1_risk_level_is_decision_rule Sample.server Sample.client
             Sample.fs Sample.schema Sample.files (T "OrderItem")).
    vm_compute. reflexivity.
  - reflexivity.
Defined.

Lemma count_key {A V : Type} (g : text * A -> V) (k : text)
  (l : list (text * A)) :
  NoDup (keys l) -> In k (keys l) ->
  length (filter (fun e => text_eqb (fst e) k)
                 (map (fun e => (fst e, g e)) l)) = 1.
Proof.
  induction l as [|e l IH]; simpl; [contradiction|].
  intros Hnd Hin. inversion Hnd as [|? ? Hnot Hnd']; subst.
  destruct (text_eqb (fst e) k) eqn:E.
  - apply text_eqb_eq in E. subst k. simpl. f_equal.
    clear IH Hin Hnd. induction l as [|e' l IHl]; simpl; [reflexivity|].
    destruct (text_eqb (fst e') (fst e)) eqn:E'.
    + apply text_eqb_eq in E'. exfalso. apply Hnot. left. assumption.
    + apply IHl.
      * intros Hc. apply Hnot. right. assumption.
      * inversion Hnd'. assumption.
  - apply text_eqb_neq in E. destruct Hin as [Hin|Hin]; [contradiction|].
    auto.
Qed.

(** C3.  Every model of the parsed schema has exactly one record in the
    usage map, with one of the five risk levels; a model that no file
    mentions has total confidence 0, no usage type and the level
    DEFINITELY_UNUSED. *)
Theorem C3_one_record_per_model
  (sp cp : text) (fs : filesystem) (parsed : list modelInfo)
  (files : list text) (m : modelInfo) :
  In m parsed ->
  let out := modelUsage (analysed sp cp fs parsed files) in
  length (filter (fun e => text_eqb (fst e) (name m)) out) = 1 /\
  exists mu,
    map_get (name m) out = Some mu /\
    fiveLevels (riskLevel mu) /\
    totalFiles mu = length (analysesOf fs sp cp (name m) files) /\
    (totalFiles mu = 0 ->
     totalConfidence mu = 0 /\ allUsageTypes mu = [] /\
     riskLevel mu = DEFINITELY_UNUSED).
Proof.
  intros Hm out.
  destruct (analysed_usage sp cp fs parsed files) as (Hu & Hmod & Hnd & Hin).
  specialize (Hin m Hm). split.
  - unfold out. rewrite Hu. apply count_key; assumption.
  - destruct (map_get (name m) (models (parsePrismaSchema parsed (create sp cp))))
      as [info|] eqn:E.
    2:{ apply map_get_none in E. contradiction. }
    rewrite <- Hmod in E. apply analysed_has_entry in E.
    exists (entryOf fs sp cp files (name m, info)). split; [exact E|].
    destruct (entryOf_spec fs sp cp files (name m, info)) as (H1 & _).
    split; [rewrite H1; apply decision_rule_five|].
    unfold entryOf, usageOver. simpl.
    destruct (usageOver_totals (analysesOf fs sp cp (name m) files)
                               (newModelUsage info)) as (_ & _ & _ & _ & K5).
    destruct (assessRisk_rule
                (fold_left addAnalysis (analysesOf fs sp cp (name m) files)
                           (newModelUsage info))) as (_ & _ & _ & K4).
    assert (Htf : totalFiles
                    (assessRisk
                       (fold_left addAnalysis
                          (analysesOf fs sp cp (name m) files)
                          (newModelUsage info)))
                  = length (analysesOf fs sp cp (name m) files)).
    { rewrite <- K5 at 1. simpl. unfold assessRisk.
      repeat match goal with
             | |- context [if ?b then _ else _] => destruct b
             end; reflexivity. }
    split; [exact Htf|].
    rewrite Htf. intros Hz. apply length_zero_iff_nil in Hz. rewrite Hz.
    simpl. repeat split.
Qed.

Lemma C3_witness :
  length (filter (fun e => text_eqb (fst e) (T "Widget"))
                 (modelUsage Sample.result)) = 1 /\
  exists mu,
    map_get (T "Widget") (modelUsage Sample.result) = Some mu /\
    fiveLevels (riskLevel mu) /\
    totalFiles mu
    = length (analysesOf Sample.fs Sample.server Sample.client (T "Widget") Sample.files) /\
    (totalFiles mu = 0 ->
     totalConfidence mu = 0 /\ allUsageTypes mu = [] /\
     riskLevel mu = DEFINITELY_UNUSED).
Proof.
  apply (C3_one_record_per_model Sample.server Sample.client Sample.fs
           Sample.schema Sample.files Sample.Widget).
  simpl. auto.
Defined.

(** C10.  Every record of the usage map carries one of the five risk
    levels: the placeholder UNKNOWN is always overwritten before the
    record is stored. *)
Theorem C10_no_unknown_level
  (sp cp : text) (fs : filesystem) (parsed : list modelInfo)
  (files : list text) (modelName : text) (mu : modelUsageT) :
  map_get modelName (modelUsage (analysed sp cp fs parsed files)) = Some mu ->
  fiveLevels (riskLevel mu) /\ riskLevel mu <> UNKNOWN.
Proof.
  intros H. apply analysed_entry in H. destruct H as (info & _ & ->).
  unfold entryOf. cbn [fst snd].
  set (u := usageOver info (analysesOf fs sp cp modelName files)).
  destruct (assessRisk_rule u) as (Hrule & _).
  assert (Hlevel : riskLevel (sortAnalyses (assessRisk u))
                   = decision_rule (allUsageTypes u) (totalConfidence u))
    by exact Hrule.
  rewrite Hlevel.
  pose proof (decision_rule_five (allUsageTypes u) (totalConfidence u)) as H5.
  split; [exact H5|].
  destruct H5 as [E|[E|[E|[E|E]]]]; rewrite E; discriminate.
Qed.

Lemma C10_witness :
  exists mu,
    map_get (T "Order") (modelUsage Sample.result) = Some mu /\
    fiveLevels (riskLevel mu) /\ riskLevel mu <> UNKNOWN.
Proof.
  eexists. split; [vm_compute; reflexivity|].
  apply (C10_no_unknown_level Sample.server Sample.client Sample.fs
           Sample.schema Sample.files (T "Order")).
  vm_compute. reflexivity.
Defined.

(** ** The per-file confidence *)

Section Tier.
Variables (ty : usageType) (weight : nat) (nex : option nat)
          (content : text).

Lemma tierStep_eq (ua : usageAnalysis) (p : pattern) :
  tierStep ty weight nex content ua p
  = if matched content p
    then {| file := file ua; isClientFile := isClientFile ua;
            usageTypes := add (usageTypes ua) ty;
            usageCount := usageCount ua + length (allMatches p content);
            confidence := confidence ua + weight;
            details := details ua ++ [detailOf ty nex content p] |}
    else ua.
Proof. reflexivity. Qed.

Lemma unmatched_length (p : pattern) :
  matched content p = false -> length (allMatches p content) = 0.
Proof. unfold matched. intros H. apply Nat.ltb_ge in H. lia. Qed.

(** One loop over the patterns of a tier. *)
Lemma forEachPattern_spec (ps : list pattern) :
  forall ua,
  let ua' := forEachPattern ty weight nex content ps ua in
  confidence ua' = confidence ua + weight * matching ps content /\
  details ua'
  = details ua ++ map (detailOf ty nex content)
                      (filter (matched content) ps) /\
  usageCount ua'
  = usageCount ua
    + list_sum (map (fun p => length (allMatches p content)) ps) /\
  (forall t, has (usageTypes ua') t
             = has (usageTypes ua) t
               || (usageType_eqb t ty && existsb (matched content) ps)) /\
  file ua' = file ua /\ isClientFile ua' = isClientFile ua.
Proof.
  unfold forEachPattern, matching.
  induction ps as [|p ps IH]; intros ua;
    cbn [fold_left filter map list_sum fold_right existsb length].
  - rewrite Nat.mul_0_r, !Nat.add_0_r, app_nil_r.
    repeat split; auto. intros t. rewrite andb_false_r, orb_false_r.
    reflexivity.
  - destruct (IH (tierStep ty weight nex content ua p))
      as (H1 & H2 & H3 & H4 & H5 & H6).
    rewrite H1, H2, H3, H5, H6. clear H1 H2 H3 H5 H6 IH.
    rewrite tierStep_eq in *.
    destruct (matched content p) eqn:E; unfold list_sum;
      cbn [confidence details usageCount file isClientFile usageTypes map
           length orb fold_right].
    + split; [lia|]. split; [rewrite <- app_assoc; reflexivity|].
      split; [lia|]. split; [|split; reflexivity].
      intros t. rewrite H4. cbn [usageTypes]. rewrite has_add.
      destruct (usageType_eqb t ty); cbn [andb];
        rewrite ?orb_false_r, ?orb_true_r; reflexivity.
    + rewrite (unmatched_length p E).
      split; [lia|]. split; [reflexivity|].
      split; [lia|]. split; [|split; reflexivity].
      intros t. rewrite H4. reflexivity.
Qed.
End Tier.

Section TierProjections.
Variables (ty : usageType) (weight : nat) (nex : option nat)
          (content : text) (ps : list pattern) (ua : usageAnalysis).

Lemma fe_confidence :
  confidence (forEachPattern ty weight nex content ps ua)
  = confidence ua + weight * matching ps content.
Proof. apply forEachPattern_spec. Qed.

Lemma fe_usageCount :
  usageCount (forEachPattern ty weight nex content ps ua)
  = usageCount ua
    + list_sum (map (fun p => length (allMatches p content)) ps).
Proof. apply forEachPattern_spec. Qed.

Lemma fe_has (t : usageType) :
  has (usageTypes (forEachPattern ty weight nex content ps ua)) t
  = has (usageTypes ua) t
    || (usageType_eqb t ty && existsb (matched content) ps).
Proof. apply forEachPattern_spec. Qed.

Lemma fe_weights :
  list_sum (map weightOfDetail
                (details (forEachPattern ty weight nex content ps ua)))
  = list_sum (map weightOfDetail (details ua))
    + tierWeight ty * matching ps content.
Proof.
  destruct (forEachPattern_spec ty weight nex content ps ua)
    as (_ & -> & _).
  rewrite map_app, list_sum_app. f_equal. unfold matching.
  induction (filter (matched content) ps) as [|x l IHl]; simpl; [lia|].
  rewrite IHl. unfold weightOfDetail at 1. simpl. lia.
Qed.
End TierProjections.

(** The seven loops together: the confidence. *)
Lemma runTiers_confidence (modelName filePath : text) (isClient : bool)
  (c : fileContent) :
  let ua := runTiers modelName filePath isClient c in
  confidence ua
  = 40 * (if isClient then 0
          else matching (prismaPatterns modelName) (clean c))
    + 35 * matching (apiPatterns modelName) (clean c)
    + 25 * matching (typePatterns modelName) (clean c)
    + 20 * matching (businessLogicPatterns modelName) (clean c)
    + 20 * (if isClient then matching (clientPatterns modelName) (clean c)
            else 0)
    + 15 * matching (configPatterns modelName) (raw c)
    + 2 * matching (weakPatterns modelName) (clean c) /\
  confidence ua = list_sum (map weightOfDetail (details ua)).
Proof.
  unfold runTiers.
  destruct isClient; cbn [negb]; rewrite !fe_confidence, !fe_weights;
    cbn [confidence details map list_sum fold_right tierWeight]; lia.
Qed.

(** The seven loops together: the matches counted. *)
Lemma runTiers_usageCount (modelName filePath : text) (isClient : bool)
  (c : fileContent) :
  usageCount (runTiers modelName filePath isClient c)
  = list_sum (map (fun p => length (allMatches p (clean c)))
                  (cleanTextPatterns modelName isClient))
    + list_sum (map (fun p => length (allMatches p (raw c)))
                    (configPatterns modelName)).
Proof.
  unfold runTiers, cleanTextPatterns.
  destruct isClient; cbn [negb]; rewrite !fe_usageCount;
    rewrite ?map_app, ?list_sum_app; cbn [usageCount map list_sum fold_right];
    lia.
Qed.

(** The seven loops together: the usage types. *)
Lemma runTiers_usageTypes (modelName filePath : text) (isClient : bool)
  (c : fileContent) (t : usageType) :
  has (usageTypes (runTiers modelName filePath isClient c)) t = true ->
  (t = SCHEMA_REFERENCE
   /\ existsb (matched (raw c)) (configPatterns modelName) = true)
  \/ existsb (matched (clean c)) (cleanTextPatterns modelName isClient)
     = true.
Proof.
  unfold runTiers, cleanTextPatterns.
  destruct isClient; cbn [negb]; rewrite !fe_has, !existsb_app;
    cbn [usageTypes has existsb app orb];
    destruct (existsb (matched (raw c)) (configPatterns modelName));
    repeat match goal with
           | |- context [existsb (matched (clean c)) ?l] =>
               destruct (existsb (matched (clean c)) l)
           end;
    rewrite ?andb_false_r, ?andb_true_r, ?orb_false_r, ?orb_true_r;
    cbn [orb]; intros H; try discriminate; auto;
    left; (split; [|reflexivity]); destruct t; try discriminate; reflexivity.
Qed.

(** C2, as stated, fails: for the model Widget and a server file that
    reads [prisma.Widget.findMany(], two patterns of the tier
    DATABASE_OPERATION match, and its weight 40 is added twice: the
    confidence is 82, not the 42 of one weight per tier. *)
Lemma C2_counterexample :
  exists a,
    analyzeContent (T "Widget") Sample.widgetFile false Sample.widgetCall
    = Some a /\
    usageTypes a = [DATABASE_OPERATION; WEAK_INDICATOR] /\
    map type (details a)
    = [DATABASE_OPERATION; DATABASE_OPERATION; WEAK_INDICATOR] /\
    confidence a = 82 /\
    oncePerTier (usageTypes a) = 42 /\
    confidence a <> oncePerTier (usageTypes a).
Proof.
  eexists. split; [vm_compute; reflexivity|].
  repeat split; discriminate.
Qed.

(** C2, amended.  For every model and file, the flat weight of a tier is
    added to the per-file confidence once for each pattern of the tier
    that matches, whatever the number of its matches: the confidence is
    the sum, over the tiers that apply to the file, of the weight times
    the number of matching patterns, and the sum of the weights of the
    details recorded. *)
Theorem C2_weight_once_per_matching_pattern
  (modelName filePath : text) (isClient : bool) (c : fileContent)
  (a : usageAnalysis) :
  analyzeContent modelName filePath isClient c = Some a ->
  confidence a
  = 40 * (if isClient then 0
          else matching (prismaPatterns modelName) (clean c))
    + 35 * matching (apiPatterns modelName) (clean c)
    + 25 * matching (typePatterns modelName) (clean c)
    + 20 * matching (businessLogicPatterns modelName) (clean c)
    + 20 * (if isClient then matching (clientPatterns modelName) (clean c)
            else 0)
    + 15 * matching (configPatterns modelName) (raw c)
    + 2 * matching (weakPatterns modelName) (clean c) /\
  confidence a = list_sum (map weightOfDetail (details a)).
Proof.
  unfold analyzeContent.
  destruct (0 <? usageCount (runTiers modelName filePath isClient c));
    [|discriminate].
  intros H. injection H as <-. apply runTiers_confidence.
Qed.

Lemma C2_witness :
  exists a,
    analyzeContent (T "Widget") Sample.widgetFile false Sample.widgetCall
    = Some a /\
    confidence a
    = 40 * matching (prismaPatterns (T "Widget")) (clean Sample.widgetCall)
      + 35 * matching (apiPatterns (T "Widget")) (clean Sample.widgetCall)
      + 25 * matching (typePatterns (T "Widget")) (clean Sample.widgetCall)
      + 20 * matching (businessLogicPatterns (T "Widget"))
                      (clean Sample.widgetCall)
      + 20 * 0
      + 15 * matching (configPatterns (T "Widget")) (raw Sample.widgetCall)
      + 2 * matching (weakPatterns (T "Widget")) (clean Sample.widgetCall) /\
    confidence a = list_sum (map weightOfDetail (details a)).
Proof.
  eexists. split; [vm_compute; reflexivity|].
  apply (C2_weight_once_per_matching_pattern (T "Widget") Sample.widgetFile
           false Sample.widgetCall).
  vm_compute. reflexivity.
Defined.

(** ** The strict analyzer: the business-logic gate *)

Section StrictLoops.
Variable s : text.

Lemma strongLoop_spec (ty : usageType) (ps : list pattern) :
  forall ud,
  let ud' := fold_left (Strict.strongStep ty s) ps ud in
  Strict.usages ud'
  = Strict.usages ud ++ map (usageOf ty s) (filter (matched s) ps) /\
  Strict.isRealUsage ud'
  = Strict.isRealUsage ud || existsb (matched s) ps.
Proof.
  induction ps as [|p ps IH]; intros ud; cbn [fold_left filter existsb].
  - rewrite app_nil_r, orb_false_r. auto.
  - destruct (IH (Strict.strongStep ty s ud p)) as (H1 & H2).
    rewrite H1, H2. unfold Strict.strongStep.
    change (0 <? length (allMatches p s)) with (matched s p).
    destruct (matched s p); cbn [Strict.usages Strict.isRealUsage
      Strict.pushUsage map orb].
    + rewrite <- app_assoc, orb_true_r. auto.
    + auto.
Qed.

Lemma businessLoop_spec (ps : list pattern) :
  forall ud,
  let ud' := fold_left (Strict.businessStep s) ps ud in
  Strict.usages ud'
  = Strict.usages ud
    ++ map (usageOf BUSINESS_LOGIC s) (filter (matched s) ps) /\
  Strict.isRealUsage ud'
  = Strict.isRealUsage ud || existsb (twice s) ps.
Proof.
  induction ps as [|p ps IH]; intros ud; cbn [fold_left filter existsb].
  - rewrite app_nil_r, orb_false_r. auto.
  - destruct (IH (Strict.businessStep s ud p)) as (H1 & H2).
    rewrite H1, H2. unfold Strict.businessStep.
    change (0 <? length (allMatches p s)) with (matched s p).
    change (2 <=? length (allMatches p s)) with (twice s p).
    destruct (matched s p) eqn:E; cbn [Strict.usages Strict.isRealUsage
      Strict.pushUsage map orb].
    + rewrite <- app_assoc. split; [reflexivity|].
      destruct (twice s p); [rewrite orb_true_r|]; reflexivity.
    + split; [reflexivity|].
      assert (Ht : twice s p = false).
      { unfold twice. unfold matched in E. apply Nat.ltb_ge in E.
        apply Nat.leb_gt. lia. }
      rewrite Ht. reflexivity.
Qed.

Lemma weakLoop_spec (ps : list pattern) :
  forall ud,
  let ud' := fold_left (Strict.weakStep s) ps ud in
  Strict.usages ud'
  = Strict.usages ud
    ++ map (usageOf WEAK_INDICATOR s) (filter (matched s) ps) /\
  Strict.isRealUsage ud' = Strict.isRealUsage ud.
Proof.
  induction ps as [|p ps IH]; intros ud; cbn [fold_left filter].
  - rewrite app_nil_r. auto.
  - destruct (IH (Strict.weakStep s ud p)) as (H1 & H2).
    rewrite H1, H2. unfold Strict.weakStep.
    change (0 <? length (allMatches p s)) with (matched s p).
    destruct (matched s p); cbn [Strict.usages Strict.isRealUsage
      Strict.pushUsage map].
    + rewrite <- app_assoc. auto.
    + auto.
Qed.
End StrictLoops.

Lemma strict_runTiers_spec (modelName filePath : text) (isClient : bool)
  (content : text) :
  let s := Strict.contentWithoutComments content in
  let ud := Strict.runTiers modelName filePath isClient content in
  Strict.isRealUsage ud
  = existsb (matched s) (strongPatterns modelName isClient)
    || existsb (twice s) (Strict.businessLogicPatterns modelName) /\
  exists before after,
    Strict.usages ud
    = before
      ++ map (usageOf BUSINESS_LOGIC s)
             (filter (matched s) (Strict.businessLogicPatterns modelName))
      ++ after.
Proof.
  unfold Strict.runTiers, strongPatterns.
  set (s := Strict.contentWithoutComments content).
  set (ud0 := {| Strict.file := filePath; Strict.isClientFile := isClient;
                 Strict.usages := []; Strict.isRealUsage := false |}).
  set (ud3 := if isClient then _ else _).
  destruct (weakLoop_spec s (Strict.weakPatterns modelName)
              (fold_left (Strict.businessStep s)
                         (Strict.businessLogicPatterns modelName) ud3))
    as (W1 & W2).
  destruct (businessLoop_spec s (Strict.businessLogicPatterns modelName) ud3)
    as (B1 & B2).
  cbv zeta. rewrite W2, B2, W1, B1. split.
  - f_equal. unfold ud3.
    destruct isClient; cbn [negb];
      repeat match goal with
             | |- context [fold_left (Strict.strongStep ?ty s) ?ps ?u] =>
                 rewrite (proj2 (strongLoop_spec s ty ps u))
             end;
      rewrite ?existsb_app; cbn [Strict.isRealUsage existsb app orb];
      rewrite ?orb_false_r; reflexivity.
  - eexists. eexists. rewrite <- app_assoc. reflexivity.
Qed.

(** C9.  In the strict analyzer, a business-logic pattern that matches
    leaves a BUSINESS_LOGIC usage from its first match on, and the
    real-usage flag of the file is set by this tier only when one of its
    patterns matches twice at least: with no match of a stronger tier
    and at most one match for each business-logic pattern, the flag is
    false. *)
Theorem C9_business_logic_gate
  (modelName filePath : text) (isClient : bool) (content : text)
  (u : Strict.usageDetails) :
  Strict.analyzeText modelName filePath isClient content = Some u ->
  let s := Strict.contentWithoutComments content in
  (forall p, In p (Strict.businessLogicPatterns modelName) ->
             1 <= length (allMatches p s) ->
             In (usageOf BUSINESS_LOGIC s p) (Strict.usages u)) /\
  Strict.isRealUsage u
  = existsb (matched s) (strongPatterns modelName isClient)
    || existsb (fun p => 2 <=? length (allMatches p s))
               (Strict.businessLogicPatterns modelName) /\
  (existsb (matched s) (strongPatterns modelName isClient) = false ->
   (forall p, In p (Strict.businessLogicPatterns modelName) ->
              length (allMatches p s) <= 1) ->
   Strict.isRealUsage u = false).
Proof.
  unfold Strict.analyzeText.
  destruct (0 <? length
                   (Strict.usages
                      (Strict.runTiers modelName filePath isClient content)));
    [|discriminate].
  intros H. injection H as <-.
  destruct (strict_runTiers_spec modelName filePath isClient content)
    as (Hreal & before & after & Hus).
  set (s := Strict.contentWithoutComments content) in *. split; [|split].
  - intros p Hp Hn. rewrite Hus. apply in_or_app. right.
    apply in_or_app. left. apply in_map. apply filter_In. split; [exact Hp|].
    unfold matched. apply Nat.ltb_lt. lia.
  - exact Hreal.
  - intros Hs Hone. rewrite Hreal, Hs. cbn [orb].
    apply not_true_is_false. intros E.
    apply existsb_exists in E. destruct E as (p & Hp & Ht).
    specialize (Hone p Hp). unfold twice in Ht. apply Nat.leb_le in Ht. lia.
Qed.

Lemma C9_witness :
  exists u,
    Strict.analyzeText (T "Widget") Sample.widgetFile false
      (T "x = validateWidget(y)") = Some u /\
    In (usageOf BUSINESS_LOGIC (T "x = validateWidget(y)")
          (rx gi (L "validate" ;; Lit (T "Widget"))))
       (Strict.usages u) /\
    Strict.isRealUsage u = false.
Proof.
  eexists. split; [vm_compute; reflexivity|].
  match goal with
  | |- In _ (Strict.usages ?u) /\ _ =>
      destruct (C9_business_logic_gate (T "Widget") Sample.widgetFile false
                  (T "x = validateWidget(y)") u)
        as (H1 & _ & H3); [vm_compute; reflexivity|]
  end.
  split.
  - apply (H1 (rx gi (L "validate" ;; Lit (T "Widget")))).
    + vm_compute. tauto.
    + vm_compute. lia.
  - apply H3; [vm_compute; reflexivity|].
    intros p Hp. cbv [Strict.businessLogicPatterns] in Hp.
    repeat (destruct Hp as [<-|Hp]; [vm_compute; lia|]).
    destruct Hp.
Defined.

(** ** The report *)

Lemma inNames_In (s : list text) (n : text) : inNames s n = true <-> In n s.
Proof.
  unfold inNames. rewrite existsb_exists. split.
  - intros (x & Hx & E). apply text_eqb_eq in E. subst. assumption.
  - intros H. exists n. split; [assumption | apply text_eqb_refl].
Qed.

Lemma referencing_spec (ms : jsmap modelInfo) (M R : text) :
  In R (referencing ms M) <->
  exists info, In (R, info) ms /\ R <> M /\
               exists rel, In rel (relationships info) /\ model rel = M.
Proof.
  unfold referencing. rewrite in_flat_map. split.
  - intros ([k info] & Hin & H). simpl in H.
    destruct (text_eqb k M) eqn:E; simpl in H; [contradiction|].
    destruct (existsb _ _) eqn:Ex; [|contradiction].
    destruct H as [<-|[]]. exists info. split; [assumption|].
    split; [apply text_eqb_neq; assumption|].
    apply existsb_exists in Ex. destruct Ex as (rel & Hrel & Eq).
    apply text_eqb_eq in Eq. eauto.
  - intros (info & Hin & Hne & rel & Hrel & Eq).
    exists (R, info). split; [assumption|]. simpl.
    apply text_eqb_neq in Hne. rewrite Hne. simpl.
    assert (Ex : existsb (fun rel0 => text_eqb (model rel0) M)
                         (relationships info) = true).
    { apply existsb_exists. exists rel. split; [assumption|].
      apply text_eqb_eq. assumption. }
    rewrite Ex. left. reflexivity.
Qed.

Lemma pushByRisk_spec (b : modelsByRiskT) (e : text * modelUsageT) :
  riskLevel (snd e) <> UNKNOWN ->
  exists b', pushByRisk b e = Some b' /\
    forall r x, In x (bucket r b') <->
                In x (bucket r b) \/ (x = e /\ riskLevel (snd e) = r
                                      /\ r <> UNKNOWN).
Proof.
  intros H. unfold pushByRisk.
  destruct (riskLevel (snd e)) eqn:E; [contradiction| | | | |];
    (eexists; split; [reflexivity|]);
    intros r x; destruct r; simpl; rewrite ?in_app_iff; simpl;
    intuition (try congruence; try discriminate).
Qed.

Lemma groupFrom_spec (m : jsmap modelUsageT) :
  forall b,
  (forall e, In e m -> riskLevel (snd e) <> UNKNOWN) ->
  exists b', groupFrom b m = Some b' /\
    forall r x, In x (bucket r b') <->
                In x (bucket r b) \/ (In x m /\ riskLevel (snd x) = r
                                      /\ r <> UNKNOWN).
Proof.
  induction m as [|e m IH]; intros b H; simpl.
  - exists b. split; [reflexivity|]. intros r x. tauto.
  - destruct (pushByRisk_spec b e) as (b1 & -> & H1).
    { apply H. left. reflexivity. }
    destruct (IH b1) as (b' & -> & H2).
    { intros e' He'. apply H. right. assumption. }
    exists b'. split; [reflexivity|]. intros r x. rewrite H2, H1.
    intuition (subst; auto).
Qed.

Section Report.
Variables (sp cp : text) (fs : filesystem) (parsed : list modelInfo)
          (files : list text).

Lemma analysed_models_NoDup :
  NoDup (keys (models (analysed sp cp fs parsed files))).
Proof.
  destruct (analysed_usage sp cp fs parsed files) as (_ & Hm & Hnd & _).
  rewrite Hm. exact Hnd.
Qed.

Lemma analysed_usage_NoDup :
  NoDup (keys (modelUsage (analysed sp cp fs parsed files))).
Proof.
  destruct (analysed_usage sp cp fs parsed files) as (Hu & _ & Hnd & _).
  rewrite Hu. unfold keys in *. rewrite map_map. exact Hnd.
Qed.

Lemma analysed_usage_known (e : text * modelUsageT) :
  In e (modelUsage (analysed sp cp fs parsed files)) ->
  riskLevel (snd e) <> UNKNOWN.
Proof.
  intros H. destruct e as [k mu].
  apply (in_map_get k mu _ analysed_usage_NoDup) in H.
  apply (analysed_five_levels sp cp fs parsed files k mu H).
Qed.

(** The names the report holds at risk are the models whose record
    has one of the three levels at risk. *)
Lemma analysed_groups :
  exists mbr,
    groupByRisk (analysed sp cp fs parsed files) = Some mbr /\
    forall k,
      inNames (map fst (byDEFINITELY_UNUSED mbr)) k
      || inNames (map fst (bySUSPICIOUS mbr)
                  ++ map fst (byLIKELY_UNUSED mbr)) k = true <->
      exists mu,
        map_get k (modelUsage (analysed sp cp fs parsed files)) = Some mu /\
        atRisk (riskLevel mu).
Proof.
  set (st := analysed sp cp fs parsed files).
  destruct (groupFrom_spec (modelUsage st) noModels analysed_usage_known)
    as (mbr & Hg & Hb).
  exists mbr. split; [exact Hg|]. intros k.
  assert (Hin : forall r, r <> UNKNOWN ->
            (In k (map fst (bucket r mbr)) <->
             exists mu, map_get k (modelUsage st) = Some mu /\
                        riskLevel mu = r)).
  { intros r Hr. rewrite in_map_iff. split.
    - intros ([k' mu] & Hk & Hx). simpl in Hk. subst k'.
      apply Hb in Hx. destruct Hx as [Hx|(Hx & Hl & _)].
      + destruct r; simpl in Hx; contradiction.
      + exists mu. split; [|exact Hl].
        apply in_map_get; [apply analysed_usage_NoDup | exact Hx].
    - intros (mu & Hget & Hl). exists (k, mu). split; [reflexivity|].
      apply Hb. right. split; [apply map_get_in; exact Hget|]. auto. }
  rewrite orb_true_iff, !inNames_In, in_app_iff.
  change (byDEFINITELY_UNUSED mbr) with (bucket DEFINITELY_UNUSED mbr).
  change (bySUSPICIOUS mbr) with (bucket SUSPICIOUS mbr).
  change (byLIKELY_UNUSED mbr) with (bucket LIKELY_UNUSED mbr).
  rewrite !Hin by discriminate. unfold atRisk. split.
  - intros [(mu & H1 & H2)|[(mu & H1 & H2)|(mu & H1 & H2)]]; exists mu; auto.
  - intros (mu & H1 & [H2|[H2|H2]]); eauto.
Qed.
End Report.

(** C6.  For every model M at risk (SUSPICIOUS, LIKELY_UNUSED or
    DEFINITELY_UNUSED), the relationship audit collects exactly the other
    models of the schema that declare a relationship whose target is M
    (one hop), and raises the danger flag for M if and only if one of
    these models is SAFE or PROBABLY_SAFE. *)
Theorem C6_relationship_audit
  (sp cp : text) (fs : filesystem) (parsed : list modelInfo)
  (files : list text) :
  exists audits,
    analyze sp cp fs parsed files
    = Some (analysed sp cp fs parsed files, audits) /\
    let st := analysed sp cp fs parsed files in
    forall M mu,
      map_get M (modelUsage st) = Some mu -> atRisk (riskLevel mu) ->
      (forall R, In R (referencing (models st) M) <->
                 R <> M /\
                 exists info rel, map_get R (models st) = Some info /\
                                  In rel (relationships info) /\
                                  model rel = M) /\
      (forall a, In a audits -> audited a = M ->
                 referencedBy a = referencing (models st) M) /\
      (referencing (models st) M <> [] ->
       exists a, In a audits /\ audited a = M) /\
      ((exists a, In a audits /\ audited a = M /\ danger a = true) <->
       (exists R u, In R (referencing (models st) M) /\
                    map_get R (modelUsage st) = Some u /\
                    (riskLevel u = SAFE \/ riskLevel u = PROBABLY_SAFE))).
Proof.
  destruct (analysed_groups sp cp fs parsed files) as (mbr & Hg & Hrisk).
  exists (analyzeRelationships (analysed sp cp fs parsed files) mbr).
  split.
  { unfold analyze. fold (analysed sp cp fs parsed files). rewrite Hg.
    reflexivity. }
  intros st M mu Hget Hat.
  pose proof (analysed_models_NoDup sp cp fs parsed files) as Hnd.
  fold st in Hnd, Hg, Hrisk.
  set (unused := map fst (byDEFINITELY_UNUSED mbr)) in *.
  set (risky := map fst (bySUSPICIOUS mbr) ++ map fst (byLIKELY_UNUSED mbr))
    in *.
  (* the audits, one by one *)
  assert (Haud : forall a,
            In a (analyzeRelationships st mbr) <->
            exists k, In k (keys (models st)) /\
                      inNames unused k || inNames risky k = true /\
                      referencing (models st) k <> [] /\
                      a = {| audited := k;
                             auditedUnused := inNames unused k;
                             referencedBy := referencing (models st) k;
                             safeRelations :=
                               filter (fun rel => negb (inNames unused rel)
                                                  && negb (inNames risky rel))
                                      (referencing (models st) k) |}).
  { intros a. unfold analyzeRelationships. fold unused. fold risky.
    rewrite in_flat_map. split.
    - intros ([k info] & Hin & Ha). cbn [fst] in Ha.
      destruct (inNames unused k || inNames risky k) eqn:E; [|contradiction].
      destruct (referencing (models st) k) as [|r0 rs] eqn:Er;
        [contradiction|].
      cbn in Ha. destruct Ha as [<-|[]].
      exists k. rewrite Er. split; [apply (in_map fst) in Hin; exact Hin|].
      split; [exact E|]. split; [discriminate | reflexivity].
    - intros (k & Hk & E & Hne & ->).
      apply in_map_iff in Hk. destruct Hk as ([k' info] & Hfst & Hin).
      simpl in Hfst. subst k'. exists (k, info). split; [exact Hin|].
      cbn [fst]. rewrite E.
      destruct (referencing (models st) k) as [|r0 rs]; [contradiction|].
      left. reflexivity. }
  (* a referencing model that is not at risk is SAFE or PROBABLY_SAFE *)
  assert (Hsafe : forall R,
            In R (referencing (models st) M) ->
            (negb (inNames unused R) && negb (inNames risky R) = true <->
             exists u, map_get R (modelUsage st) = Some u /\
                       (riskLevel u = SAFE \/ riskLevel u = PROBABLY_SAFE))).
  { intros R HR. apply referencing_spec in HR.
    destruct HR as (info & Hin & _).
    apply (in_map_get R info _ Hnd) in Hin.
    apply analysed_has_entry in Hin. fold st in Hin.
    rewrite <- negb_orb, negb_true_iff.
    destruct (analysed_five_levels sp cp fs parsed files R _ Hin)
      as (H5 & _).
    split.
    - intros Hn. eexists. split; [exact Hin|].
      destruct H5 as [E|[E|[E|[E|E]]]]; auto; exfalso;
        (assert (Hc : inNames unused R || inNames risky R = true);
         [apply Hrisk; eexists; split; [exact Hin|]; unfold atRisk; auto
         |congruence]).
    - intros (u & Hu & Hl). rewrite Hin in Hu. injection Hu as <-.
      apply not_true_is_false. intros Hc. apply Hrisk in Hc.
      destruct Hc as (u' & Hu' & Hr). rewrite Hin in Hu'.
      injection Hu' as <-. unfold atRisk in Hr.
      destruct Hl as [Hl|Hl]; rewrite Hl in Hr;
        destruct Hr as [Hr|[Hr|Hr]]; discriminate. }
  assert (HM : In M (keys (models st))).
  { apply analysed_entry in Hget. destruct Hget as (info & Hinfo & _).
    apply map_get_in in Hinfo. apply (in_map fst) in Hinfo. exact Hinfo. }
  assert (HMrisk : inNames unused M || inNames risky M = true).
  { apply Hrisk. eauto. }
  split; [|split; [|split]].
  - intros R. rewrite referencing_spec. split.
    + intros (info & Hin & Hne & rel & Hrel & Hm).
      split; [exact Hne|]. exists info, rel.
      split; [apply in_map_get; assumption|]. auto.
    + intros (Hne & info & rel & Hinfo & Hrel & Hm).
      exists info. split; [apply map_get_in; exact Hinfo|]. eauto.
  - intros a Ha HaM. apply Haud in Ha.
    destruct Ha as (k & _ & _ & _ & ->). simpl in HaM. subst k. reflexivity.
  - intros Hne. eexists. split; [apply Haud; exists M; eauto|]. reflexivity.
  - split.
    + intros (a & Ha & HaM & Hd). apply Haud in Ha.
      destruct Ha as (k & _ & _ & _ & ->). simpl in HaM. subst k.
      unfold danger in Hd. cbn [safeRelations] in Hd.
      apply Nat.ltb_lt in Hd.
      destruct (filter _ _) as [|R l] eqn:Ef; [simpl in Hd; lia|].
      assert (HR : In R (filter (fun rel => negb (inNames unused rel)
                                           && negb (inNames risky rel))
                                (referencing (models st) M)))
        by (rewrite Ef; left; reflexivity).
      apply filter_In in HR. destruct HR as (HR & Hc).
      apply (Hsafe R HR) in Hc. destruct Hc as (u & Hu & Hl).
      exists R, u. auto.
    + intros (R & u & HR & Hu & Hl).
      assert (Hne : referencing (models st) M <> []).
      { intros E. rewrite E in HR. destruct HR. }
      eexists. split; [apply Haud; exists M; eauto|].
      split; [reflexivity|].
      unfold danger. cbn [safeRelations]. apply Nat.ltb_lt.
      assert (HRf : In R (filter (fun rel => negb (inNames unused rel)
                                            && negb (inNames risky rel))
                                 (referencing (models st) M))).
      { apply filter_In. split; [exact HR|]. apply (Hsafe R HR). eauto. }
      destruct (filter _ _); [destruct HRf | simpl; lia].
Qed.

(** The example of the specification: Order, unused, is referenced by
    OrderItem, which is SAFE. *)
Lemma C6_witness :
  exists a audits,
    analyze Sample.server Sample.client Sample.fs Sample.schema Sample.files
    = Some (Sample.result, audits) /\
    In a audits /\ audited a = T "Order" /\
    referencedBy a = [T "OrderItem"] /\ danger a = true.
Proof.
  unfold Sample.result.
  destruct (C6_relationship_audit Sample.server Sample.client Sample.fs
              Sample.schema Sample.files) as (audits & Hrun & Haudit).
  cbv zeta in Haudit.
  assert (Hget : exists mu,
            map_get (T "Order")
              (modelUsage (analysed Sample.server Sample.client Sample.fs
                             Sample.schema Sample.files)) = Some mu /\
            riskLevel mu = DEFINITELY_UNUSED).
  { eexists. split; vm_compute; reflexivity. }
  destruct Hget as (mu & Hget & Hlevel).
  destruct (Haudit (T "Order") mu Hget) as (_ & Hrefs & _ & Hdanger).
  { right. right. exact Hlevel. }
  destruct (proj2 Hdanger) as (a & Ha & HaM & Hd).
  { exists (T "OrderItem"). eexists.
    split; [vm_compute; tauto|]. split; [vm_compute; reflexivity|].
    left. reflexivity. }
  exists a, audits. split; [exact Hrun|]. split; [exact Ha|].
  split; [exact HaM|]. split; [|exact Hd].
  rewrite (Hrefs a Ha HaM). vm_compute. reflexivity.
Defined.

(** ** Files that cannot be read *)

Lemma allMatches_empty (p : pattern) :
  consumes (source p) = true -> allMatches p [] = [].
Proof.
  intros Hc. unfold allMatches, matchAll. simpl.
  destruct (exec_at (pflags p) (source p) (None, [])) as [s'|] eqn:E;
    [|reflexivity].
  destruct (exec_at_spec _ _ _ _ _ E) as (q & w & Hin & _).
  apply (mt_consumes _ _ _ _ Hc) in Hin. simpl in Hin. lia.
Qed.

Ltac each_pattern H tac :=
  repeat (destruct H as [<-|H]; [tac|]); try destruct H.

(** No pattern of the analyzer matches the empty text. *)
Lemma allPatterns_empty (modelName : text) (p : pattern) :
  In p (allPatterns modelName) -> allMatches p [] = [].
Proof.
  intros H.
  cbv [allPatterns prismaPatterns apiPatterns typePatterns
       businessLogicPatterns clientPatterns configPatterns weakPatterns app]
    in H.
  destruct modelName as [|c n].
  - each_pattern H ltac:(vm_compute; reflexivity).
  - each_pattern H ltac:(apply allMatches_empty; reflexivity).
Qed.

Lemma list_sum_zero {A : Type} (h : A -> nat) (l : list A) :
  (forall x, In x l -> h x = 0) -> list_sum (map h l) = 0.
Proof.
  induction l as [|x l IH]; intros H; simpl; [reflexivity|].
  rewrite (H x) by (left; reflexivity). simpl. apply IH.
  intros y Hy. apply H. right. assumption.
Qed.

Lemma cleanTextPatterns_all (modelName : text) (isClient : bool)
  (p : pattern) :
  In p (cleanTextPatterns modelName isClient) ->
  In p (allPatterns modelName).
Proof.
  unfold cleanTextPatterns, allPatterns. rewrite !in_app_iff.
  destruct isClient; simpl; tauto.
Qed.

(** The empty content gives no analysis, for any model. *)
Lemma empty_content_no_analysis (modelName filePath : text)
  (isClient : bool) :
  analyzeContent modelName filePath isClient emptyContent = None.
Proof.
  unfold analyzeContent. rewrite runTiers_usageCount.
  rewrite !list_sum_zero; [reflexivity| |].
  - intros p Hp. simpl. rewrite (allPatterns_empty modelName p);
      [reflexivity|].
    unfold allPatterns. rewrite !in_app_iff. tauto.
  - intros p Hp. simpl. rewrite (allPatterns_empty modelName p);
      [reflexivity|].
    eapply cleanTextPatterns_all; eauto.
Qed.

Lemma setAll_ext {A V : Type} (g g' : text * A -> V) (l : list (text * A)) :
  (forall e, g e = g' e) -> forall m, setAll g l m = setAll g' l m.
Proof.
  intros H. unfold setAll. induction l as [|e l IH]; intros m; simpl;
    [reflexivity|].
  rewrite H. apply IH.
Qed.

Lemma fold_left_ext {A B : Type} (h h' : A -> B -> A) (l : list B) :
  (forall a b, h a b = h' a b) ->
  forall a, fold_left h l a = fold_left h' l a.
Proof.
  intros H. induction l as [|b l IH]; intros a; simpl; [reflexivity|].
  rewrite H. apply IH.
Qed.

Lemma analysesOf_skip (fs : filesystem) (sp cp modelName : text)
  (files1 files2 : list text) (p : text) :
  fs p = None ->
  analysesOf fs sp cp modelName (files1 ++ p :: files2)
  = analysesOf fs sp cp modelName (files1 ++ files2).
Proof.
  intros H. unfold analysesOf. rewrite !flat_map_app. f_equal. simpl.
  unfold analysisOf at 1. unfold contentOf. rewrite H.
  fold emptyContent. rewrite empty_content_no_analysis. reflexivity.
Qed.

(** ** The cache *)

(** Running the analysis again from the state it left gives the same
    usage map. *)
Lemma rerun_same (fs : filesystem) (files : list text) (st : analyzer) :
  cacheOk fs st -> NoDup (keys (models st)) ->
  modelUsage (analyzeAllModels fs files (analyzeAllModels fs files st))
  = modelUsage (analyzeAllModels fs files st).
Proof.
  intros Hok Hnd.
  destruct (analyzeAllModels_ok fs files st Hok)
    as (H1 & Hok1 & Hm1 & Hc1 & Hs1).
  destruct (analyzeAllModels_ok fs files _ Hok1) as (H2 & _).
  rewrite H2, Hm1, Hc1, Hs1. apply setAll_same.
  intros e He. rewrite H1. apply setAll_get; assumption.
Qed.

(** C7, as stated, fails for a path whose read failed: nothing is cached
    for it, and asking again reads the file system again. *)
Lemma C7_counterexample :
  let st0 := create Sample.server Sample.client in
  let r1 := getFileContent Sample.fs st0 Sample.lostFile in
  let r2 := getFileContent Sample.fs (snd r1) Sample.lostFile in
  map_get Sample.lostFile (fileCache (snd r1)) = None /\
  reads (snd r1) = [Sample.lostFile] /\
  reads (snd r2) = [Sample.lostFile; Sample.lostFile] /\
  reads (snd r2) <> reads (snd r1).
Proof. vm_compute. repeat split; discriminate. Qed.

(** C7, amended.  With a cache that holds what the file system holds:
    asking again for a path gives the same (raw, clean) pair; when the
    file can be read, the pair is in the cache after the first request
    and the second request reads nothing and changes nothing; when the
    read fails, the pair is the empty one, nothing is cached and the
    second request reads again; the analysis of a file for a model is
    the same before and after the request; and running
    [analyzeAllModels] a second time on the same files and schema leaves
    the usage map as the first run made it. *)
Theorem C7_cache_reuse_keeps_results
  (fs : filesystem) (st : analyzer) (p : text) :
  cacheOk fs st ->
  let r1 := getFileContent fs st p in
  let r2 := getFileContent fs (snd r1) p in
  fst r2 = fst r1 /\
  (fs p <> None ->
   map_get p (fileCache (snd r1)) = Some (fst r1) /\
   snd r2 = snd r1) /\
  (fs p = None ->
   fst r1 = emptyContent /\
   map_get p (fileCache (snd r1)) = None /\
   reads (snd r2) = reads (snd r1) ++ [p]) /\
  (forall modelName,
     fst (analyzeModelUsage fs (snd r1) modelName p)
     = fst (analyzeModelUsage fs st modelName p)) /\
  (forall files,
     NoDup (keys (models st)) ->
     modelUsage (analyzeAllModels fs files (analyzeAllModels fs files st))
     = modelUsage (analyzeAllModels fs files st)).
Proof.
  intros Hok r1 r2.
  destruct (getFileContent_ok fs st p Hok) as (Hc1 & Hok1 & Hs1).
  fold r1 in Hc1, Hok1, Hs1.
  destruct (getFileContent_ok fs (snd r1) p Hok1) as (Hc2 & _).
  fold r2 in Hc2.
  split; [congruence|]. split; [|split; [|split]].
  - intros Hread.
    assert (Hcached : map_get p (fileCache (snd r1)) = Some (fst r1)).
    { unfold r1, getFileContent.
      destruct (map_get p (fileCache st)) as [c|] eqn:E; [exact E|].
      destruct (fs p) as [content|]; [|contradiction].
      simpl. rewrite map_get_set, text_eqb_refl. reflexivity. }
    split; [exact Hcached|].
    unfold r2, getFileContent. rewrite Hcached. reflexivity.
  - intros Hfail.
    assert (Hnc : map_get p (fileCache st) = None).
    { destruct (map_get p (fileCache st)) as [c|] eqn:E; [|reflexivity].
      destruct (Hok _ _ E) as [Hno _]. contradiction. }
    assert (E1 : r1 = (emptyContent, logRead st p)).
    { unfold r1, getFileContent. rewrite Hnc, Hfail. reflexivity. }
    unfold r2. rewrite E1. cbn [fst snd]. unfold getFileContent.
    cbn [fileCache logRead]. rewrite Hnc, Hfail. cbn [snd reads logRead].
    auto.
  - intros modelName.
    destruct (analyzeModelUsage_ok fs st modelName p Hok) as (-> & _).
    destruct (analyzeModelUsage_ok fs (snd r1) modelName p Hok1) as (-> & _).
    destruct Hs1 as (-> & -> & _). reflexivity.
  - intros files Hnd. apply rerun_same; assumption.
Qed.

Lemma C7_witness :
  let st := parsePrismaSchema Sample.schema
              (create Sample.server Sample.client) in
  let r1 := getFileContent Sample.fs st Sample.ordersFile in
  let r2 := getFileContent Sample.fs (snd r1) Sample.ordersFile in
  fst r2 = fst r1 /\ snd r2 = snd r1 /\
  modelUsage (analyzeAllModels Sample.fs Sample.files
                (analyzeAllModels Sample.fs Sample.files st))
  = modelUsage (analyzeAllModels Sample.fs Sample.files st).
Proof.
  intros st r1 r2.
  assert (Hok : cacheOk Sample.fs st).
  { intros p c H. vm_compute in H. discriminate. }
  destruct (C7_cache_reuse_keeps_results Sample.fs st Sample.ordersFile Hok)
    as (H1 & H2 & _ & _ & H4).
  split; [exact H1|]. split.
  - apply H2. vm_compute. discriminate.
  - apply H4. vm_compute.
    repeat constructor; simpl; intuition discriminate.
Defined.

(** ** Names absent from the clean text *)



(** ** Line comments *)

Lemma written_keeps (P : ascii -> Prop) (f : flags) (r : re) (by_ : text) :
  Forall P by_ ->
  forall s prev k, Forall P s ->
  Forall P (flat_map (written by_) (scan f r prev s k)).
Proof.
  intros Hby. induction s as [|c t IH]; intros prev k Hs.
  - destruct k; simpl; [|constructor].
    destruct (exec_at f r (prev, [])); simpl; [|constructor].
    rewrite app_nil_r. exact Hby.
  - inversion Hs as [|? ? Hc Ht]; subst. destruct k as [|k].
    + cbn [scan]. destruct (exec_at f r (prev, c :: t)) as [s'|].
      * cbn [flat_map written]. apply Forall_app. split; [exact Hby|].
        destruct (firstn _ _); [|apply IH; exact Ht].
        cbn [flat_map written]. constructor; [exact Hc|]. apply IH. exact Ht.
      * cbn [flat_map written]. constructor; [exact Hc|]. apply IH. exact Ht.
    + cbn [scan]. apply IH. exact Ht.
Qed.

Lemma mt_seq (f : flags) (a b : re) (p : pos) :
  mt f (Seq a b) p = flat_map (mt f b) (mt f a p).
Proof. reflexivity. Qed.

Lemma mt_star (f : flags) (greedy : bool) (a : re) (p : pos) :
  mt f (Star greedy a) p = iterate greedy (mt f a) (length (snd p)) p.
Proof. reflexivity. Qed.

(** A greedy [.*] first runs to the end of a text without terminators. *)
Lemma star_any_to_end (f : flags) (R : text) :
  forall n prev, forallb notTerminator R = true -> length R <= n ->
  exists l, iterate true (mt f Any) n (prev, R) = (lastc prev R, []) :: l.
Proof.
  induction R as [|x R IH]; intros n prev HR Hn.
  - destruct n; simpl; eauto.
  - destruct n as [|n]; [simpl in Hn; lia|].
    simpl in HR. apply andb_true_iff in HR. destruct HR as [Hx HR].
    destruct (IH n (Some x) HR) as (l & Hl); [simpl in Hn; lia|].
    set (step := mt f Any) in *.
    assert (Hs : step (prev, x :: R) = [(Some x, R)]).
    { unfold step. cbn [mt one_char snd]. unfold notTerminator in Hx.
      rewrite Hx. reflexivity. }
    assert (Hlt : (length R <? length (x :: R)) = true)
      by (apply Nat.ltb_lt; simpl; lia).
    cbn [iterate]. rewrite Hs. cbn [flat_map snd]. rewrite Hlt, Hl.
    simpl. eauto.
Qed.

(** The step of the line comments turns a line that starts with two
    slashes into one space. *)
Lemma lineComment_whole_line (R : text) :
  forallb notTerminator R = true ->
  replace gm lineComment space (slash :: slash :: R) = space.
Proof.
  intros HR. unfold replace.
  assert (E : exec_at gm lineComment (None, (slash :: slash :: R) ++ [])
              = Some []).
  { rewrite app_nil_r. unfold exec_at, lineComment, L, star.
    rewrite mt_seq.
    change (mt gm (Lit (T "//")) (None, slash :: slash :: R))
      with [(Some slash, R)].
    cbn [flat_map]. rewrite app_nil_r, mt_seq, mt_star. cbn [snd].
    destruct (star_any_to_end gm R (length R) (Some slash) HR (le_n _))
      as (l & ->).
    reflexivity. }
  pose proof (scan_hit gm lineComment None slash (slash :: R) [] E) as Hs.
  rewrite app_nil_r in Hs. rewrite Hs. reflexivity.
Qed.

(** The step of the block comments leaves the two slashes of a line
    comment whose text does not begin with an asterisk. *)
Lemma blockComment_keeps_slashes (c : text) :
  hd_error c <> Some asterisk ->
  replace g blockComment space (slash :: slash :: c)
  = slash :: slash
    :: flat_map (written space) (scan g blockComment (Some slash) c 0).
Proof.
  intros Hc. unfold replace.
  rewrite scan_miss by reflexivity.
  rewrite scan_miss; [reflexivity|].
  destruct c as [|x c]; [reflexivity|].
  unfold exec_at, blockComment, L. rewrite mt_seq.
  change (mt g (Lit (T "/*")) (Some slash, slash :: x :: c))
    with (if Ascii.eqb asterisk x then [(Some x, c)] else []).
  destruct (Ascii.eqb asterisk x) eqn:E; [|reflexivity].
  apply Ascii.eqb_eq in E. subst x. exfalso. apply Hc. reflexivity.
Qed.

(** A file that is one line comment: the clean text is one space. *)
Lemma line_comment_cleaned (c : text) :
  forallb notTerminator c = true -> hd_error c <> Some asterisk ->
  cleanContent (slash :: slash :: c) = space.
Proof.
  intros Hc Hstar. unfold cleanContent, cleanSteps.
  cbn [fold_left]. unfold replaceBy at 7. cbn [pflags source rx].
  rewrite blockComment_keeps_slashes by exact Hstar.
  unfold replaceBy at 6. cbn [pflags source rx].
  rewrite lineComment_whole_line; [reflexivity|].
  apply forallb_forall. apply Forall_forall.
  apply written_keeps.
  - repeat constructor.
  - apply Forall_forall. apply forallb_forall. exact Hc.
Qed.





(** ** The clean transform *)

(** C5, as stated, fails in the strict analyzer: its transform has the
    four comment steps only and puts nothing in the place of a match, so
    that [foo] and [bar] on the two sides of a comment are joined; the
    comprehensive analyzer leaves a space between them. *)
Lemma C5_counterexample :
  Strict.contentWithoutComments (T "foo/* c */bar") = T "foobar" /\
  cleanContent (T "foo/* c */bar") = T "foo bar" /\
  length Strict.commentSteps = 4.
Proof. vm_compute. auto. Qed.


(** * Further properties of the analyzers *)

(** ** The stored record *)

Lemma insertByConfidence_perm (x : usageAnalysis) (l : list usageAnalysis) :
  Permutation (insertByConfidence x l) (x :: l).
Proof.
  induction l as [|y l IH]; simpl; [apply Permutation_refl|].
  destruct (confidence y <? confidence x); [apply Permutation_refl|].
  eapply perm_trans; [apply perm_skip; exact IH | apply perm_swap].
Qed.

Lemma sortByConfidence_perm (l : list usageAnalysis) :
  Permutation (sortByConfidence l) l.
Proof.
  unfold sortByConfidence.
  assert (G : forall acc, Permutation (fold_left (fun acc x =>
                insertByConfidence x acc) l acc) (acc ++ l)).
  { induction l as [|x l IH]; intros acc; simpl.
    - rewrite app_nil_r. apply Permutation_refl.
    - eapply perm_trans; [apply IH|].
      eapply perm_trans;
        [apply Permutation_app_tail; apply insertByConfidence_perm|].
      simpl. apply Permutation_middle. }
  apply (G []).
Qed.

Lemma insertByConfidence_sorted (x : usageAnalysis)
  (l : list usageAnalysis) :
  StronglySorted moreConfident l ->
  StronglySorted moreConfident (insertByConfidence x l).
Proof.
  induction 1 as [|y l Hs IH Hy]; simpl.
  - constructor; constructor.
  - destruct (confidence y <? confidence x) eqn:E.
    + apply Nat.ltb_lt in E. constructor; [constructor; assumption|].
      constructor; [unfold moreConfident; lia|].
      rewrite Forall_forall in *. intros z Hz. specialize (Hy z Hz).
      unfold moreConfident in *. lia.
    + apply Nat.ltb_ge in E. constructor; [exact IH|].
      rewrite Forall_forall in *. intros z Hz.
      apply (Permutation_in _ (insertByConfidence_perm x l)) in Hz.
      destruct Hz as [<-|Hz]; [exact E | auto].
Qed.

Lemma sortByConfidence_sorted (l : list usageAnalysis) :
  StronglySorted moreConfident (sortByConfidence l).
Proof.
  unfold sortByConfidence.
  assert (G : forall acc, StronglySorted moreConfident acc ->
            StronglySorted moreConfident
              (fold_left (fun acc x => insertByConfidence x acc) l acc)).
  { induction l as [|x l IH]; intros acc Hacc; simpl; [exact Hacc|].
    apply IH. apply insertByConfidence_sorted. exact Hacc. }
  apply G. constructor.
Qed.

(** Inserting keeps the order of the analyses of equal confidence. *)
Lemma insertByConfidence_stable (c : nat) (x : usageAnalysis)
  (l : list usageAnalysis) :
  StronglySorted moreConfident l ->
  filter (withConfidence c) (insertByConfidence x l)
  = filter (withConfidence c) l ++ filter (withConfidence c) [x].
Proof.
  induction 1 as [|y l Hs IH Hy]; [reflexivity|].
  cbn [insertByConfidence].
  destruct (confidence y <? confidence x) eqn:E.
  - apply Nat.ltb_lt in E.
    change (filter (withConfidence c) (x :: y :: l))
      with (if withConfidence c x
            then x :: filter (withConfidence c) (y :: l)
            else filter (withConfidence c) (y :: l)).
    change (filter (withConfidence c) [x])
      with (if withConfidence c x then [x] else []).
    destruct (withConfidence c x) eqn:Ex; [|rewrite app_nil_r; reflexivity].
    unfold withConfidence in Ex. apply Nat.eqb_eq in Ex.
    assert (Hall : filter (withConfidence c) (y :: l) = []).
    { assert (Hlow : Forall (fun z => confidence z < c) (y :: l)).
      { constructor; [lia|]. rewrite Forall_forall in *. intros z Hz.
        specialize (Hy z Hz). unfold moreConfident in Hy. lia. }
      clear - Hlow. induction Hlow as [|z l' Hz _ IHl]; [reflexivity|].
      simpl. assert (Hz0 : withConfidence c z = false)
        by (unfold withConfidence; apply Nat.eqb_neq; lia).
      rewrite Hz0. exact IHl. }
    rewrite Hall. reflexivity.
  - cbn [filter]. rewrite IH.
    destruct (withConfidence c y); reflexivity.
Qed.

Lemma sortByConfidence_stable (c : nat) (l : list usageAnalysis) :
  filter (withConfidence c) (sortByConfidence l) = filter (withConfidence c) l.
Proof.
  unfold sortByConfidence.
  assert (G : forall acc, StronglySorted moreConfident acc ->
            filter (withConfidence c)
              (fold_left (fun acc x => insertByConfidence x acc) l acc)
            = filter (withConfidence c) acc ++ filter (withConfidence c) l).
  { induction l as [|x l IH]; intros acc Hacc; simpl.
    - rewrite app_nil_r. reflexivity.
    - rewrite IH by (apply insertByConfidence_sorted; exact Hacc).
      rewrite insertByConfidence_stable by exact Hacc.
      rewrite <- app_assoc. f_equal. cbn [filter].
      destruct (withConfidence c x); reflexivity. }
  apply (G []). constructor.
Qed.

Lemma usageOver_counts (l : list usageAnalysis) :
  forall mu,
  serverFiles (fold_left addAnalysis l mu)
  = serverFiles mu + length (filter (fun a => negb (isClientFile a)) l) /\
  clientFiles (fold_left addAnalysis l mu)
  = clientFiles mu + length (filter isClientFile l) /\
  usedModel (fold_left addAnalysis l mu) = usedModel mu.
Proof.
  induction l as [|a l IH]; intros mu; simpl.
  - rewrite !Nat.add_0_r. auto.
  - destruct (IH (addAnalysis mu a)) as (H1 & H2 & H3).
    rewrite H1, H2, H3. simpl.
    destruct (isClientFile a); simpl; repeat split; lia.
Qed.

Lemma assessRisk_frame (mu : modelUsageT) :
  totalFiles (assessRisk mu) = totalFiles mu /\
  serverFiles (assessRisk mu) = serverFiles mu /\
  clientFiles (assessRisk mu) = clientFiles mu /\
  usedModel (assessRisk mu) = usedModel mu /\
  (isReallyUsed (assessRisk mu) = true <->
   riskLevel (assessRisk mu) = SAFE
   \/ riskLevel (assessRisk mu) = PROBABLY_SAFE).
Proof.
  unfold assessRisk.
  repeat match goal with
         | |- context [if ?b then _ else _] => destruct b
         end; simpl; repeat split; auto;
    try (intros H; discriminate H);
    try (intros [H|H]; discriminate H).
Qed.

(** What [analyzeAllModels] stores for a model, field by field. *)
Lemma entryOf_fields (fs : filesystem) (sp cp : text) (files : list text)
  (e : text * modelInfo) :
  let mu := entryOf fs sp cp files e in
  let l := analysesOf fs sp cp (fst e) files in
  fileAnalyses mu = sortByConfidence l /\
  totalFiles mu = length l /\
  serverFiles mu = length (filter (fun a => negb (isClientFile a)) l) /\
  clientFiles mu = length (filter isClientFile l) /\
  usedModel mu = snd e /\
  (isReallyUsed mu = true <->
   riskLevel mu = SAFE \/ riskLevel mu = PROBABLY_SAFE).
Proof.
  unfold entryOf, usageOver. cbn zeta.
  set (l := analysesOf fs sp cp (fst e) files).
  set (u := fold_left addAnalysis l (newModelUsage (snd e))).
  destruct (assessRisk_frame u) as (A1 & A2 & A3 & A4 & A5).
  destruct (assessRisk_rule u) as (_ & _ & _ & A6).
  destruct (usageOver_totals l (newModelUsage (snd e)))
    as (_ & _ & _ & T4 & T5).
  destruct (usageOver_counts l (newModelUsage (snd e))) as (K1 & K2 & K3).
  fold u in T4, T5, K1, K2, K3.
  cbn [sortAnalyses fileAnalyses totalFiles serverFiles clientFiles usedModel
       isReallyUsed riskLevel].
  rewrite A6, T4, A1, T5, A2, K1, A3, K2, A4, K3. simpl.
  repeat split; try reflexivity; apply A5.
Qed.

Lemma filter_perm {A : Type} (h : A -> bool) (l l' : list A) :
  Permutation l l' -> Permutation (filter h l) (filter h l').
Proof.
  induction 1 as [|x l l' _ IH|x y l|l l' l'' _ IH1 _ IH2]; simpl.
  - constructor.
  - destruct (h x); [constructor|]; exact IH.
  - destruct (h x), (h y); try apply Permutation_refl. apply perm_swap.
  - eapply perm_trans; eauto.
Qed.

Lemma filter_split_length {A : Type} (h : A -> bool) (l : list A) :
  length (filter (fun a => negb (h a)) l) + length (filter h l) = length l.
Proof.
  induction l as [|x l IH]; simpl; [reflexivity|].
  destruct (h x); simpl; lia.
Qed.

Lemma existsb_perm {A : Type} (h : A -> bool) (l l' : list A) :
  Permutation l l' -> existsb h l = existsb h l'.
Proof.
  induction 1 as [|x l l' _ IH|x y l|l l' l'' _ IH1 _ IH2]; simpl.
  - reflexivity.
  - rewrite IH. reflexivity.
  - destruct (h x), (h y); reflexivity.
  - congruence.
Qed.

Lemma list_sum_perm (l l' : list nat) :
  Permutation l l' -> list_sum l = list_sum l'.
Proof.
  induction 1 as [|x l l' _ IH|x y l|l l' l'' _ IH1 _ IH2]; simpl; lia.
Qed.

(** X1.  In the record stored for a model, the counters agree with the
    list of analyses: the number of files is the length of the list and
    the sum of the server and client counters, the client counter counts
    the analyses of client files, and the model kept is the one of the
    schema. *)
Theorem X1_file_counters
  (sp cp : text) (fs : filesystem) (parsed : list modelInfo)
  (files : list text) (modelName : text) (mu : modelUsageT) :
  map_get modelName (modelUsage (analysed sp cp fs parsed files)) = Some mu ->
  totalFiles mu = length (fileAnalyses mu) /\
  totalFiles mu = serverFiles mu + clientFiles mu /\
  clientFiles mu = length (filter isClientFile (fileAnalyses mu)) /\
  map_get modelName (models (analysed sp cp fs parsed files))
  = Some (usedModel mu).
Proof.
  intros H. apply analysed_entry in H. destruct H as (info & Hinfo & ->).
  destruct (entryOf_fields fs sp cp files (modelName, info))
    as (F1 & F2 & F3 & F4 & F5 & _).
  cbn [fst snd] in *.
  pose proof (sortByConfidence_perm (analysesOf fs sp cp modelName files))
    as Hp.
  rewrite F1, F2, F3, F4, F5. split; [|split; [|split]].
  - symmetry. apply Permutation_length. exact Hp.
  - symmetry. apply filter_split_length.
  - symmetry. apply Permutation_length. apply filter_perm. exact Hp.
  - exact Hinfo.
Qed.

Lemma X1_witness :
  exists mu,
    map_get (T "OrderItem") (modelUsage Sample.result) = Some mu /\
    totalFiles mu = length (fileAnalyses mu) /\
    totalFiles mu = serverFiles mu + clientFiles mu /\
    totalFiles mu = 1.
Proof.
  eexists. split; [vm_compute; reflexivity|].
  match goal with
  | |- totalFiles ?u = _ /\ _ =>
      destruct (X1_file_counters Sample.server Sample.client Sample.fs
                  Sample.schema Sample.files (T "OrderItem") u)
        as (H1 & H2 & _); [vm_compute; reflexivity|]
  end.
  split; [exact H1|]. split; [exact H2|]. reflexivity.
Defined.

(** X2.  The analyses stored for a model are in the order of
    decreasing confidence; they are the analyses of the files that
    mention the model, and those of equal confidence keep the order of
    the files. *)
Theorem X2_analyses_sorted_by_confidence
  (sp cp : text) (fs : filesystem) (parsed : list modelInfo)
  (files : list text) (modelName : text) (mu : modelUsageT) :
  map_get modelName (modelUsage (analysed sp cp fs parsed files)) = Some mu ->
  StronglySorted moreConfident (fileAnalyses mu) /\
  Permutation (fileAnalyses mu) (analysesOf fs sp cp modelName files) /\
  (forall c, filter (withConfidence c) (fileAnalyses mu)
             = filter (withConfidence c) (analysesOf fs sp cp modelName files)).
Proof.
  intros H. apply analysed_entry in H. destruct H as (info & _ & ->).
  destruct (entryOf_fields fs sp cp files (modelName, info)) as (F1 & _).
  cbn [fst snd] in F1. rewrite F1. split; [|split].
  - apply sortByConfidence_sorted.
  - apply sortByConfidence_perm.
  - intros c. apply sortByConfidence_stable.
Qed.

(** X3.  A stored record says the model is really used exactly when its
    level is SAFE or PROBABLY_SAFE. *)
Theorem X3_really_used_iff_safe
  (sp cp : text) (fs : filesystem) (parsed : list modelInfo)
  (files : list text) (modelName : text) (mu : modelUsageT) :
  map_get modelName (modelUsage (analysed sp cp fs parsed files)) = Some mu ->
  (isReallyUsed mu = true <->
   riskLevel mu = SAFE \/ riskLevel mu = PROBABLY_SAFE).
Proof.
  intros H. apply analysed_entry in H. destruct H as (info & _ & ->).
  apply (entryOf_fields fs sp cp files (modelName, info)).
Qed.

(** ** The level and the files *)

Lemma in_analysesOf (fs : filesystem) (sp cp modelName : text)
  (files : list text) (a : usageAnalysis) :
  In a (analysesOf fs sp cp modelName files) <->
  exists p, In p files /\ analysisOf fs sp cp modelName p = Some a.
Proof.
  unfold analysesOf. rewrite in_flat_map. split.
  - intros (p & Hp & Ha). exists p. split; [exact Hp|].
    destruct (analysisOf fs sp cp modelName p) as [a'|]; [|contradiction].
    destruct Ha as [<-|[]]. reflexivity.
  - intros (p & Hp & Ha). exists p. split; [exact Hp|]. rewrite Ha.
    left. reflexivity.
Qed.

Lemma decision_rule_ext (T1 T2 : list usageType) (c : nat) :
  (forall t, has T1 t = has T2 t) ->
  decision_rule T1 c = decision_rule T2 c.
Proof.
  intros H. unfold decision_rule, containsAny, existsb. rewrite !H.
  reflexivity.
Qed.

Lemma decision_rule_mono (T1 T2 : list usageType) (c1 c2 : nat) :
  (forall t, has T1 t = true -> has T2 t = true) -> c1 <= c2 ->
  rank (decision_rule T1 c1) <= rank (decision_rule T2 c2).
Proof.
  intros H Hc. unfold decision_rule, containsAny, existsb.
  rewrite !orb_false_r.
  set (s1 := has T1 DATABASE_OPERATION || has T1 API_ENDPOINT).
  set (s2 := has T2 DATABASE_OPERATION || has T2 API_ENDPOINT).
  set (m1 := has T1 TYPE_DEFINITION
             || (has T1 BUSINESS_LOGIC || has T1 CLIENT_OPERATION)).
  set (m2 := has T2 TYPE_DEFINITION
             || (has T2 BUSINESS_LOGIC || has T2 CLIENT_OPERATION)).
  set (w1 := has T1 WEAK_INDICATOR || has T1 SCHEMA_REFERENCE).
  set (w2 := has T2 WEAK_INDICATOR || has T2 SCHEMA_REFERENCE).
  assert (Hs : s1 = true -> s2 = true).
  { unfold s1, s2. rewrite !orb_true_iff. intros [E|E]; auto. }
  assert (Hm : m1 = true -> m2 = true).
  { unfold m1, m2. rewrite !orb_true_iff. intros [E|[E|E]]; auto. }
  assert (Hw : w1 = true -> w2 = true).
  { unfold w1, w2. rewrite !orb_true_iff. intros [E|E]; auto. }
  clearbody s1 s2 m1 m2 w1 w2.
  destruct (30 <=? c1) eqn:A1, (30 <=? c2) eqn:A2,
           (20 <=? c1) eqn:B1, (20 <=? c2) eqn:B2;
    repeat match goal with
           | Hx : (_ <=? _) = true |- _ => apply Nat.leb_le in Hx
           | Hx : (_ <=? _) = false |- _ => apply Nat.leb_gt in Hx
           end;
    try lia;
    destruct s1, s2, m1, m2, w1, w2;
    try discriminate (Hs eq_refl); try discriminate (Hm eq_refl);
    try discriminate (Hw eq_refl);
    cbn [orb andb rank]; lia.
Qed.

Lemma decision_rule_strong (T1 : list usageType) (c : nat) (t : usageType) :
  strongType t = true -> has T1 t = true -> decision_rule T1 c = SAFE.
Proof.
  intros Hs Ht. unfold decision_rule, containsAny, existsb.
  destruct t; try discriminate; rewrite Ht; rewrite ?orb_true_r; reflexivity.
Qed.

Lemma decision_rule_weak (T1 : list usageType) (c : nat) :
  (forall t, has T1 t = true -> weakType t = true) ->
  atRisk (decision_rule T1 c).
Proof.
  intros H. unfold decision_rule, containsAny, existsb, atRisk.
  assert (N : forall t, weakType t = false -> has T1 t = false).
  { intros t Ht. destruct (has T1 t) eqn:E; [|reflexivity].
    apply H in E. congruence. }
  rewrite (N DATABASE_OPERATION), (N API_ENDPOINT), (N TYPE_DEFINITION),
    (N BUSINESS_LOGIC), (N CLIENT_OPERATION) by reflexivity.
  cbn [orb andb].
  repeat match goal with
         | |- context [if ?b then _ else _] => destruct b
         end; auto.
Qed.

Lemma analysed_models_fixed (sp cp : text) (fs : filesystem)
  (parsed : list modelInfo) (files files' : list text) :
  models (analysed sp cp fs parsed files)
  = models (analysed sp cp fs parsed files').
Proof.
  destruct (analysed_usage sp cp fs parsed files) as (_ & -> & _).
  destruct (analysed_usage sp cp fs parsed files') as (_ & -> & _).
  reflexivity.
Qed.

Lemma really_used_by_level (mu mu' : modelUsageT) :
  (isReallyUsed mu = true <->
   riskLevel mu = SAFE \/ riskLevel mu = PROBABLY_SAFE) ->
  (isReallyUsed mu' = true <->
   riskLevel mu' = SAFE \/ riskLevel mu' = PROBABLY_SAFE) ->
  riskLevel mu' = riskLevel mu -> isReallyUsed mu' = isReallyUsed mu.
Proof.
  intros H H' E. rewrite E in H'.
  destruct (isReallyUsed mu), (isReallyUsed mu'); try reflexivity.
  - apply (proj2 H'). apply (proj1 H). reflexivity.
  - symmetry. apply (proj2 H). apply (proj1 H'). reflexivity.
Qed.

(** X4.  The order in which the files are listed does not matter for
    the verdict: with the files in another order the level, the
    really-used flag, the total confidence, the three file counters and
    the usage types of a model are the same. *)
Theorem X4_file_order_is_irrelevant
  (sp cp : text) (fs : filesystem) (parsed : list modelInfo)
  (files files' : list text) (modelName : text) (mu mu' : modelUsageT) :
  Permutation files files' ->
  map_get modelName (modelUsage (analysed sp cp fs parsed files)) = Some mu ->
  map_get modelName (modelUsage (analysed sp cp fs parsed files'))
  = Some mu' ->
  riskLevel mu' = riskLevel mu /\
  isReallyUsed mu' = isReallyUsed mu /\
  totalConfidence mu' = totalConfidence mu /\
  totalFiles mu' = totalFiles mu /\
  serverFiles mu' = serverFiles mu /\
  clientFiles mu' = clientFiles mu /\
  (forall t, has (allUsageTypes mu') t = has (allUsageTypes mu) t).
Proof.
  intros Hperm H H'.
  apply analysed_entry in H. destruct H as (info & _ & ->).
  apply analysed_entry in H'. destruct H' as (info' & _ & ->).
  assert (Hl : Permutation (analysesOf fs sp cp modelName files)
                           (analysesOf fs sp cp modelName files')).
  { unfold analysesOf. apply Permutation_flat_map. exact Hperm. }
  destruct (entryOf_spec fs sp cp files (modelName, info)) as (R1 & C1 & T1).
  destruct (entryOf_spec fs sp cp files' (modelName, info')) as (R2 & C2 & T2).
  destruct (entryOf_fields fs sp cp files (modelName, info))
    as (_ & F2 & F3 & F4 & _ & F6).
  destruct (entryOf_fields fs sp cp files' (modelName, info'))
    as (_ & G2 & G3 & G4 & _ & G6).
  cbn [fst snd] in *.
  assert (Hc : totalConfidence (entryOf fs sp cp files' (modelName, info'))
               = totalConfidence (entryOf fs sp cp files (modelName, info))).
  { rewrite C1, C2. symmetry. apply list_sum_perm.
    apply Permutation_map. exact Hl. }
  assert (Ht : forall t,
            has (allUsageTypes (entryOf fs sp cp files' (modelName, info'))) t
            = has (allUsageTypes (entryOf fs sp cp files (modelName, info))) t).
  { intros t. rewrite T1, T2. symmetry. apply existsb_perm. exact Hl. }
  assert (Hr : riskLevel (entryOf fs sp cp files' (modelName, info'))
               = riskLevel (entryOf fs sp cp files (modelName, info))).
  { rewrite R1, R2, Hc. apply decision_rule_ext. exact Ht. }
  split; [exact Hr|]. split; [apply really_used_by_level; assumption|].
  split; [exact Hc|]. split; [|split; [|split; [|exact Ht]]].
  - rewrite F2, G2. symmetry. apply Permutation_length. exact Hl.
  - rewrite F3, G3. symmetry. apply Permutation_length. apply filter_perm.
    exact Hl.
  - rewrite F4, G4. symmetry. apply Permutation_length. apply filter_perm.
    exact Hl.
Qed.

(** X5.  Scanning more files never lowers the level of a model: with
    files added, the level is the same or nearer to SAFE. *)
Theorem X5_more_files_never_lower_the_level
  (sp cp : text) (fs : filesystem) (parsed : list modelInfo)
  (files more : list text) (modelName : text) (mu mu' : modelUsageT) :
  map_get modelName (modelUsage (analysed sp cp fs parsed files)) = Some mu ->
  map_get modelName (modelUsage (analysed sp cp fs parsed (files ++ more)))
  = Some mu' ->
  rank (riskLevel mu) <= rank (riskLevel mu') /\
  totalConfidence mu <= totalConfidence mu' /\
  totalFiles mu <= totalFiles mu'.
Proof.
  intros H H'.
  apply analysed_entry in H. destruct H as (info & _ & ->).
  apply analysed_entry in H'. destruct H' as (info' & _ & ->).
  destruct (entryOf_spec fs sp cp files (modelName, info)) as (R1 & C1 & T1).
  destruct (entryOf_spec fs sp cp (files ++ more) (modelName, info'))
    as (R2 & C2 & T2).
  destruct (entryOf_fields fs sp cp files (modelName, info)) as (_ & F2 & _).
  destruct (entryOf_fields fs sp cp (files ++ more) (modelName, info'))
    as (_ & G2 & _).
  cbn [fst snd] in *.
  assert (Happ : analysesOf fs sp cp modelName (files ++ more)
                 = analysesOf fs sp cp modelName files
                   ++ analysesOf fs sp cp modelName more).
  { unfold analysesOf. apply flat_map_app. }
  assert (Hc : totalConfidence (entryOf fs sp cp files (modelName, info))
               <= totalConfidence
                    (entryOf fs sp cp (files ++ more) (modelName, info'))).
  { rewrite C1, C2, Happ, map_app, list_sum_app. lia. }
  split; [|split; [exact Hc|]].
  - rewrite R1, R2. apply decision_rule_mono; [|exact Hc].
    intros t. rewrite T1, T2, Happ, existsb_app. intros ->. reflexivity.
  - rewrite F2, G2, Happ, length_app. lia.
Qed.

(** X6.  A match of the tier DATABASE_OPERATION or API_ENDPOINT in one
    file is enough: the model is SAFE and really used, whatever the
    other files give. *)
Theorem X6_strong_usage_is_safe
  (sp cp : text) (fs : filesystem) (parsed : list modelInfo)
  (files : list text) (modelName p : text) (a : usageAnalysis)
  (t : usageType) (mu : modelUsageT) :
  map_get modelName (modelUsage (analysed sp cp fs parsed files)) = Some mu ->
  In p files -> analysisOf fs sp cp modelName p = Some a ->
  strongType t = true -> has (usageTypes a) t = true ->
  riskLevel mu = SAFE /\ isReallyUsed mu = true.
Proof.
  intros H Hp Ha Hs Ht.
  apply analysed_entry in H. destruct H as (info & _ & ->).
  destruct (entryOf_spec fs sp cp files (modelName, info)) as (R1 & _ & T1).
  destruct (entryOf_fields fs sp cp files (modelName, info))
    as (_ & _ & _ & _ & _ & F6).
  cbn [fst snd] in *.
  assert (Hsafe : riskLevel (entryOf fs sp cp files (modelName, info)) = SAFE).
  { rewrite R1. apply (decision_rule_strong _ _ t Hs). rewrite T1.
    apply existsb_exists. exists a. split; [|exact Ht].
    apply in_analysesOf. eauto. }
  split; [exact Hsafe|]. apply F6. left. exact Hsafe.
Qed.

(** X7.  Weak evidence never makes a model used: when the files give
    only the usage types WEAK_INDICATOR and SCHEMA_REFERENCE, the model
    is at risk and not really used, however many files mention it and
    whatever the total confidence. *)
Theorem X7_weak_usage_is_never_enough
  (sp cp : text) (fs : filesystem) (parsed : list modelInfo)
  (files : list text) (modelName : text) (mu : modelUsageT) :
  map_get modelName (modelUsage (analysed sp cp fs parsed files)) = Some mu ->
  (forall p a t, In p files -> analysisOf fs sp cp modelName p = Some a ->
                 has (usageTypes a) t = true -> weakType t = true) ->
  atRisk (riskLevel mu) /\ isReallyUsed mu = false.
Proof.
  intros H Hweak.
  apply analysed_entry in H. destruct H as (info & _ & ->).
  destruct (entryOf_spec fs sp cp files (modelName, info)) as (R1 & _ & T1).
  destruct (entryOf_fields fs sp cp files (modelName, info))
    as (_ & _ & _ & _ & _ & F6).
  cbn [fst snd] in *.
  assert (Hrisk : atRisk (riskLevel
                            (entryOf fs sp cp files (modelName, info)))).
  { rewrite R1. apply decision_rule_weak. intros t Ht. rewrite T1 in Ht.
    apply existsb_exists in Ht. destruct Ht as (a & Ha & Ht).
    apply in_analysesOf in Ha. destruct Ha as (p & Hp & Ha). eauto. }
  split; [exact Hrisk|].
  apply not_true_is_false. intros Hu. apply F6 in Hu.
  unfold atRisk in Hrisk.
  destruct Hu as [E|E]; rewrite E in Hrisk;
    destruct Hrisk as [E'|[E'|E']]; discriminate.
Qed.

(** ** The analysis of one file *)

Lemma matching_le (ps : list pattern) (s : text) : matching ps s <= length ps.
Proof. unfold matching. apply filter_length_le. Qed.

Lemma matching_pos (ps : list pattern) (s : text) :
  existsb (matched s) ps = true <-> 1 <= matching ps s.
Proof.
  unfold matching. induction ps as [|p ps IH]; simpl.
  - split; [discriminate | lia].
  - destruct (matched s p); simpl; [split; [lia | reflexivity]|exact IH].
Qed.

Lemma matching_zero (ps : list pattern) (s : text) :
  existsb (matched s) ps = false <-> matching ps s = 0.
Proof.
  pose proof (matching_pos ps s) as H.
  destruct (existsb (matched s) ps).
  - split; [discriminate|]. intros E. destruct H as [H _].
    specialize (H eq_refl). lia.
  - split; [|reflexivity]. intros _.
    destruct (matching ps s) eqn:E; [reflexivity|].
    destruct H as [_ H]. discriminate H. lia.
Qed.

Lemma matches_counted (ps : list pattern) (s : text) :
  list_sum (map (fun p => length (allMatches p s)) ps) = 0 <->
  existsb (matched s) ps = false.
Proof.
  induction ps as [|p ps IH]; simpl; [tauto|].
  unfold matched at 1.
  destruct (length (allMatches p s)) as [|n]; simpl; [exact IH|].
  split; [lia | discriminate].
Qed.

(** The usage types after the seven loops, tier by tier. *)
Lemma runTiers_has (modelName filePath : text) (isClient : bool)
  (c : fileContent) (t : usageType) :
  has (usageTypes (runTiers modelName filePath isClient c)) t
  = match t with
    | DATABASE_OPERATION =>
        negb isClient
        && existsb (matched (clean c)) (prismaPatterns modelName)
    | API_ENDPOINT => existsb (matched (clean c)) (apiPatterns modelName)
    | TYPE_DEFINITION => existsb (matched (clean c)) (typePatterns modelName)
    | BUSINESS_LOGIC =>
        existsb (matched (clean c)) (businessLogicPatterns modelName)
    | CLIENT_OPERATION =>
        isClient && existsb (matched (clean c)) (clientPatterns modelName)
    | SCHEMA_REFERENCE =>
        existsb (matched (raw c)) (configPatterns modelName)
    | WEAK_INDICATOR => existsb (matched (clean c)) (weakPatterns modelName)
    end.
Proof.
  unfold runTiers.
  destruct isClient; cbn [negb]; rewrite !fe_has;
    cbn [usageTypes has existsb];
    destruct t; cbn [usageType_eqb andb orb];
    rewrite ?orb_false_r; reflexivity.
Qed.

Lemma runTiers_frame (modelName filePath : text) (isClient : bool)
  (c : fileContent) :
  file (runTiers modelName filePath isClient c) = filePath /\
  isClientFile (runTiers modelName filePath isClient c) = isClient.
Proof.
  unfold runTiers.
  destruct isClient; cbn [negb];
    repeat match goal with
           | |- context [forEachPattern ?ty ?w ?n ?s ?ps ?ua] =>
               let H := fresh in
               destruct (forEachPattern_spec ty w n s ps ua)
                 as (_ & _ & _ & _ & H & ?);
               rewrite H; clear H
           end; split; try reflexivity;
    repeat match goal with
           | H : isClientFile _ = isClientFile _ |- _ => rewrite H; clear H
           end; reflexivity.
Qed.

(** X8.  The analysis of a file is [null] exactly when no pattern of the
    tiers that apply to the file matches; an analysis that is not
    [null] counts one match at least, has a confidence of 2 at least and
    a usage type at least. *)
Theorem X8_analysis_is_null_iff_nothing_matches
  (modelName filePath : text) (isClient : bool) (c : fileContent) :
  (analyzeContent modelName filePath isClient c = None <->
   existsb (matched (clean c)) (cleanTextPatterns modelName isClient) = false
   /\ existsb (matched (raw c)) (configPatterns modelName) = false) /\
  (forall a, analyzeContent modelName filePath isClient c = Some a ->
             1 <= usageCount a /\ 2 <= confidence a /\ usageTypes a <> []
             /\ details a <> []).
Proof.
  assert (Hcount : usageCount (runTiers modelName filePath isClient c) = 0 <->
            existsb (matched (clean c))
                    (cleanTextPatterns modelName isClient) = false
            /\ existsb (matched (raw c)) (configPatterns modelName) = false).
  { rewrite runTiers_usageCount, <- !matches_counted. lia. }
  unfold analyzeContent. cbn zeta.
  destruct (0 <? usageCount (runTiers modelName filePath isClient c)) eqn:E.
  - apply Nat.ltb_lt in E. split.
    + split; [discriminate|]. intros H. apply Hcount in H. lia.
    + intros a Ha. injection Ha as <-. split; [lia|].
      destruct (runTiers_confidence modelName filePath isClient c)
        as (Hconf & Hsum).
      assert (Hsome : exists t,
                has (usageTypes (runTiers modelName filePath isClient c)) t
                = true).
      { destruct (existsb (matched (raw c)) (configPatterns modelName))
          eqn:Ecfg.
        - exists SCHEMA_REFERENCE. rewrite runTiers_has. exact Ecfg.
        - destruct (existsb (matched (clean c))
                            (cleanTextPatterns modelName isClient)) eqn:Ecl.
          2:{ exfalso. assert (Hz := proj2 Hcount (conj eq_refl eq_refl)).
              lia. }
          unfold cleanTextPatterns in Ecl. rewrite !existsb_app in Ecl.
          rewrite !orb_true_iff in Ecl.
          destruct Ecl as [H|[H|[H|[H|[H|H]]]]].
          + exists DATABASE_OPERATION. rewrite runTiers_has.
            destruct isClient; [discriminate H | exact H].
          + exists API_ENDPOINT. rewrite runTiers_has. exact H.
          + exists TYPE_DEFINITION. rewrite runTiers_has. exact H.
          + exists BUSINESS_LOGIC. rewrite runTiers_has. exact H.
          + exists CLIENT_OPERATION. rewrite runTiers_has.
            destruct isClient; [exact H | discriminate H].
          + exists WEAK_INDICATOR. rewrite runTiers_has. exact H. }
      destruct Hsome as (t & Ht).
      assert (Htypes : usageTypes (runTiers modelName filePath isClient c)
                       <> []).
      { intros Hnil. rewrite Hnil in Ht. discriminate Ht. }
      assert (Hc2 : 2 <= confidence (runTiers modelName filePath isClient c)).
      { rewrite Hconf. rewrite runTiers_has in Ht.
        destruct t;
          repeat match type of Ht with
                 | _ && _ = true =>
                     apply andb_true_iff in Ht; destruct Ht as [Hb Ht]
                 end;
          apply matching_pos in Ht;
          try (destruct isClient; [discriminate Hb || idtac
                                  | discriminate Hb || idtac]);
          lia. }
      split; [exact Hc2|]. split; [exact Htypes|].
      intros Hnil. rewrite Hsum, Hnil in Hc2. simpl in Hc2. lia.
  - apply Nat.ltb_ge in E. split.
    + split; [|reflexivity]. intros _. apply Hcount. lia.
    + intros a Ha. discriminate Ha.
Qed.

(** The segments of a path and of what is put after a separator. *)
Lemma segmentsFrom_app (a b : text) :
  forall cur,
  Path.segmentsFrom cur (a ++ Path.sep :: b)
  = Path.segmentsFrom cur a ++ Path.segments b.
Proof.
  unfold Path.segments.
  induction a as [|c a IH]; intros cur; cbn [app Path.segmentsFrom].
  - rewrite Ascii.eqb_refl. destruct cur; reflexivity.
  - destruct (Ascii.eqb c Path.sep).
    + destruct cur; rewrite IH; reflexivity.
    + apply IH.
Qed.

Lemma difference_app (l r : list text) :
  Path.difference l (l ++ r) = ([], r).
Proof.
  induction l as [|x l IH]; cbn [app Path.difference].
  - destruct r; reflexivity.
  - rewrite text_eqb_refl. exact IH.
Qed.

(** The path of a file below a root, relative to the root, is what
    follows the root. *)
Lemma relative_below (root rest : text) :
  Path.relative root (root ++ Path.sep :: rest)
  = Path.joinSegments (Path.segments rest).
Proof.
  unfold Path.relative, Path.segments at 1 2.
  rewrite segmentsFrom_app. fold (Path.segments root).
  rewrite difference_app. reflexivity.
Qed.

(** X9.  The record of a file carries the path of the file relative to
    the client path for a client file and to the server path for any
    other (for a file below its root, what follows the root), and the
    client flag, which is the test that the path starts with the client
    path; a client file never gets the usage type DATABASE_OPERATION and
    a file that is not a client file never gets CLIENT_OPERATION. *)
Theorem X9_tiers_respect_the_file_area
  (fs : filesystem) (st : analyzer) (modelName filePath : text)
  (a : usageAnalysis) :
  fst (analyzeModelUsage fs st modelName filePath) = Some a ->
  file a
  = Path.relative (if isClientFile a then clientPath st else serverPath st)
      filePath /\
  (forall rest,
     filePath
     = (if isClientFile a then clientPath st else serverPath st)
       ++ Path.sep :: rest ->
     file a = Path.joinSegments (Path.segments rest)) /\
  isClientFile a = startsWith filePath (clientPath st) /\
  (isClientFile a = true -> has (usageTypes a) DATABASE_OPERATION = false) /\
  (isClientFile a = false -> has (usageTypes a) CLIENT_OPERATION = false).
Proof.
  unfold analyzeModelUsage.
  destruct (getFileContent fs st filePath) as [c st']. cbn [fst].
  unfold analyzeContent. cbn zeta.
  destruct (0 <? usageCount _); [|discriminate].
  intros H. injection H as <-.
  destruct (runTiers_frame modelName
              (fileOf (serverPath st) (clientPath st) filePath)
              (startsWith filePath (clientPath st)) c) as (-> & ->).
  assert (Hfile : fileOf (serverPath st) (clientPath st) filePath
                  = Path.relative
                      (if startsWith filePath (clientPath st)
                       then clientPath st else serverPath st) filePath).
  { unfold fileOf. cbv zeta.
    destruct (startsWith filePath (clientPath st)); reflexivity. }
  split; [exact Hfile|]. split.
  - intros rest Hrest. rewrite Hfile.
    rewrite Hrest at 2. apply relative_below.
  - split; [reflexivity|].
    rewrite !runTiers_has. split; intros ->; reflexivity.
Qed.

(** X11.  The confidence of one file is bounded: at most 1065 for a
    server file and 985 for a client file, whatever the text. *)
Theorem X11_file_confidence_is_bounded
  (modelName filePath : text) (isClient : bool) (c : fileContent)
  (a : usageAnalysis) :
  analyzeContent modelName filePath isClient c = Some a ->
  confidence a <= if isClient then 985 else 1065.
Proof.
  unfold analyzeContent. cbn zeta.
  destruct (0 <? usageCount _); [|discriminate].
  intros H. injection H as <-.
  destruct (runTiers_confidence modelName filePath isClient c) as (-> & _).
  pose proof (matching_le (prismaPatterns modelName) (clean c)) as H1.
  pose proof (matching_le (apiPatterns modelName) (clean c)) as H2.
  pose proof (matching_le (typePatterns modelName) (clean c)) as H3.
  pose proof (matching_le (businessLogicPatterns modelName) (clean c)) as H4.
  pose proof (matching_le (clientPatterns modelName) (clean c)) as H5.
  pose proof (matching_le (configPatterns modelName) (raw c)) as H6.
  pose proof (matching_le (weakPatterns modelName) (clean c)) as H7.
  cbn [prismaPatterns apiPatterns typePatterns businessLogicPatterns
       clientPatterns configPatterns weakPatterns length] in *.
  destruct isClient; lia.
Qed.

(** ** Details, counters and usage types *)

Lemma usageType_eqb_eq (a b : usageType) : usageType_eqb a b = true <-> a = b.
Proof. destruct a, b; simpl; split; intros H; try discriminate; reflexivity. Qed.

Lemma has_In (s : list usageType) (t : usageType) : has s t = true <-> In t s.
Proof.
  unfold has. rewrite existsb_exists. split.
  - intros (x & Hx & E). apply usageType_eqb_eq in E. subst. exact Hx.
  - intros H. exists t. split; [exact H|]. apply usageType_eqb_eq. reflexivity.
Qed.

Lemma add_NoDup (s : list usageType) (t : usageType) :
  NoDup s -> NoDup (add s t).
Proof.
  intros H. unfold add. destruct (has s t) eqn:E; [exact H|].
  apply NoDup_app; [exact H | repeat constructor; intros [] |].
  intros x Hx [<-|[]]. apply has_In in Hx. congruence.
Qed.

Lemma forEachPattern_NoDup (ty : usageType) (weight : nat) (nex : option nat)
  (content : text) (ps : list pattern) :
  forall ua, NoDup (usageTypes ua) ->
  NoDup (usageTypes (forEachPattern ty weight nex content ps ua)).
Proof.
  unfold forEachPattern. induction ps as [|p ps IH]; intros ua H; simpl;
    [exact H|].
  apply IH. rewrite tierStep_eq. destruct (matched content p); [|exact H].
  simpl. apply add_NoDup. exact H.
Qed.

Lemma forEachPattern_consistent (ty : usageType) (weight : nat)
  (nex : option nat) (content : text) (ps : list pattern)
  (ua : usageAnalysis) :
  (forall k, nex = Some k -> 1 <= k <= 3) ->
  consistent ua ->
  consistent (forEachPattern ty weight nex content ps ua).
Proof.
  intros Hk (Hnd & Hhas & Hcount & Hgood).
  destruct (forEachPattern_spec ty weight nex content ps ua)
    as (_ & Hd & Hc & Ht & _).
  split; [apply forEachPattern_NoDup; exact Hnd|].
  split; [|split].
  - intros t. rewrite Ht, Hd, existsb_app, Hhas. f_equal.
    clear. induction ps as [|p ps IH]; simpl.
    + rewrite andb_false_r. reflexivity.
    + destruct (matched content p); simpl.
      * rewrite <- IH. unfold detailOfType at 1. simpl.
        destruct (usageType_eqb t ty); reflexivity.
      * exact IH.
  - rewrite Hc, Hd, map_app, list_sum_app, Hcount. f_equal.
    clear. induction ps as [|p ps IH]; simpl; [reflexivity|].
    destruct (matched content p) eqn:E; simpl.
    + rewrite IH. reflexivity.
    + rewrite (unmatched_length content p E). exact IH.
  - rewrite Hd. apply Forall_app. split; [exact Hgood|].
    apply Forall_forall. intros d Hin. apply in_map_iff in Hin.
    destruct Hin as (p & <- & Hp). apply filter_In in Hp.
    destruct Hp as (_ & Hm). unfold matched in Hm. apply Nat.ltb_lt in Hm.
    split; [simpl; lia|]. intros ex Hex. simpl in Hex.
    destruct nex as [k|]; [|discriminate]. simpl in Hex.
    injection Hex as <-. specialize (Hk k eq_refl).
    rewrite length_firstn. cbn [matches detailOf].
    destruct (Nat.min_spec k (length (allMatches p content))) as [[? ->]|[? ->]];
      lia.
Qed.

Lemma runTiers_consistent (modelName filePath : text) (isClient : bool)
  (c : fileContent) :
  consistent (runTiers modelName filePath isClient c).
Proof.
  assert (H0 : consistent {| file := filePath; isClientFile := isClient;
                             usageTypes := []; usageCount := 0;
                             confidence := 0; details := [] |}).
  { split; [constructor|]. split; [reflexivity|]. split; [reflexivity|].
    constructor. }
  assert (K3 : forall k, Some 3 = Some k -> 1 <= k <= 3)
    by (intros k E; injection E as <-; lia).
  assert (K2 : forall k, Some 2 = Some k -> 1 <= k <= 3)
    by (intros k E; injection E as <-; lia).
  assert (K0 : forall k, @None nat = Some k -> 1 <= k <= 3)
    by (intros k E; discriminate E).
  unfold runTiers.
  destruct isClient; cbn [negb];
    repeat (apply forEachPattern_consistent; [assumption|]); exact H0.
Qed.

(** X10.  In the analysis of a file, the usage types hold no type twice
    and are the types of the details; the number of usages is the sum of
    the matches of the details; every detail counts a match at least,
    and the examples it keeps are at least one and at most three of
    them. *)
Theorem X10_details_agree_with_counters
  (modelName filePath : text) (isClient : bool) (c : fileContent)
  (a : usageAnalysis) :
  analyzeContent modelName filePath isClient c = Some a ->
  NoDup (usageTypes a) /\
  (forall t, has (usageTypes a) t = existsb (detailOfType t) (details a)) /\
  usageCount a = list_sum (map matches (details a)) /\
  Forall goodDetail (details a).
Proof.
  unfold analyzeContent. cbn zeta.
  destruct (0 <? usageCount _); [|discriminate].
  intros H. injection H as <-. apply runTiers_consistent.
Qed.

(** ** The same properties on the sample project *)


Lemma X3_witness :
  exists mu,
    map_get (T "OrderItem") (modelUsage Sample.result) = Some mu /\
    (isReallyUsed mu = true <->
     riskLevel mu = SAFE \/ riskLevel mu = PROBABLY_SAFE) /\
    riskLevel mu = SAFE.
Proof.
  eexists. split; [vm_compute; reflexivity|].
  split; [|reflexivity].
  match goal with
  | |- isReallyUsed ?u = true <-> _ =>
      apply (X3_really_used_iff_safe Sample.server Sample.client
               Sample.fs Sample.schema Sample.files (T "OrderItem") u)
  end.
  vm_compute; reflexivity.
Defined.

Lemma X4_witness :
  exists mu mu',
    map_get (T "OrderItem") (modelUsage Sample.result) = Some mu /\
    map_get (T "OrderItem")
      (modelUsage (analysed Sample.server Sample.client Sample.fs
                     Sample.schema (rev Sample.files))) = Some mu' /\
    riskLevel mu' = riskLevel mu /\ totalConfidence mu' = totalConfidence mu.
Proof.
  eexists. eexists. split; [vm_compute; reflexivity|].
  split; [vm_compute; reflexivity|].
  match goal with
  | |- riskLevel ?u' = riskLevel ?u /\ _ =>
      destruct (X4_file_order_is_irrelevant Sample.server Sample.client
                  Sample.fs Sample.schema Sample.files (rev Sample.files)
                  (T "OrderItem") u u')
        as (H1 & _ & H3 & _);
      [apply Permutation_rev | vm_compute; reflexivity
      | vm_compute; reflexivity |]
  end.
  split; [exact H1 | exact H3].
Defined.

Lemma X5_witness :
  exists mu mu',
    map_get (T "Widget")
      (modelUsage (analysed Sample.server Sample.client Sample.fsReferences
                     Sample.schema [Sample.ordersFile])) = Some mu /\
    map_get (T "Widget")
      (modelUsage (analysed Sample.server Sample.client Sample.fsReferences
                     Sample.schema
                     ([Sample.ordersFile]
                      ++ [Sample.legacyFile; Sample.lostFile]))) = Some mu' /\
    rank (riskLevel mu) <= rank (riskLevel mu') /\
    riskLevel mu = DEFINITELY_UNUSED /\ riskLevel mu' = LIKELY_UNUSED.
Proof.
  eexists. eexists. split; [vm_compute; reflexivity|].
  split; [vm_compute; reflexivity|].
  match goal with
  | |- rank (riskLevel ?u) <= rank (riskLevel ?u') /\ _ =>
      destruct (X5_more_files_never_lower_the_level Sample.server
                  Sample.client Sample.fsReferences Sample.schema
                  [Sample.ordersFile] [Sample.legacyFile; Sample.lostFile]
                  (T "Widget") u u')
        as (H1 & _); [vm_compute; reflexivity | vm_compute; reflexivity |]
  end.
  split; [exact H1|]. split; reflexivity.
Defined.

Lemma X6_witness :
  exists mu a,
    map_get (T "OrderItem") (modelUsage Sample.result) = Some mu /\
    analysisOf Sample.fs Sample.server Sample.client (T "OrderItem")
      Sample.ordersFile
    = Some a /\
    has (usageTypes a) DATABASE_OPERATION = true /\
    riskLevel mu = SAFE /\ isReallyUsed mu = true.
Proof.
  eexists. eexists. split; [vm_compute; reflexivity|].
  split; [vm_compute; reflexivity|].
  match goal with
  | |- has (usageTypes ?a) _ = true /\ riskLevel ?u = SAFE /\ _ =>
      split; [vm_compute; reflexivity|];
      apply (X6_strong_usage_is_safe Sample.server Sample.client Sample.fs
               Sample.schema Sample.files (T "OrderItem") Sample.ordersFile
               a DATABASE_OPERATION u);
      [vm_compute; reflexivity | left; reflexivity | vm_compute; reflexivity
      | reflexivity | vm_compute; reflexivity]
  end.
Defined.

Lemma X7_witness :
  exists mu,
    map_get (T "Widget")
      (modelUsage (analysed Sample.server Sample.client Sample.fsReferences
                     Sample.schema Sample.files)) = Some mu /\
    totalFiles mu = 1 /\ atRisk (riskLevel mu) /\ isReallyUsed mu = false.
Proof.
  eexists. split; [vm_compute; reflexivity|].
  split; [reflexivity|].
  match goal with
  | |- atRisk (riskLevel ?u) /\ _ =>
      apply (X7_weak_usage_is_never_enough Sample.server Sample.client
               Sample.fsReferences Sample.schema Sample.files (T "Widget") u);
      [vm_compute; reflexivity|]
  end.
  intros p a t [<-|[<-|[<-|[]]]] Ha Ht; vm_compute in Ha;
    try discriminate Ha.
  injection Ha as <-.
  destruct t; try reflexivity; vm_compute in Ht; discriminate Ht.
Defined.

Lemma X8_witness :
  analyzeContent (T "Order") Sample.widgetFile false Sample.widgetCall = None
  /\ exists a,
       analyzeContent (T "Widget") Sample.widgetFile false Sample.widgetCall
       = Some a /\ 1 <= usageCount a /\ 2 <= confidence a.
Proof.
  split.
  - apply (proj1 (X8_analysis_is_null_iff_nothing_matches (T "Order")
                    Sample.widgetFile false Sample.widgetCall)).
    split; vm_compute; reflexivity.
  - eexists. split; [vm_compute; reflexivity|].
    match goal with
    | |- 1 <= usageCount ?u /\ _ =>
        destruct (proj2 (X8_analysis_is_null_iff_nothing_matches (T "Widget")
                           Sample.widgetFile false Sample.widgetCall) u)
          as (H1 & H2 & _); [vm_compute; reflexivity|]
    end.
    split; [exact H1 | exact H2].
Defined.

Lemma X9_witness :
  exists a,
    fst (analyzeModelUsage Sample.fs
           (create Sample.server Sample.client) (T "OrderItem")
           Sample.ordersFile) = Some a /\
    file a = T "src/orders.ts" /\
    isClientFile a = false /\ has (usageTypes a) CLIENT_OPERATION = false.
Proof.
  eexists. split; [vm_compute; reflexivity|].
  match goal with
  | |- file ?u = _ /\ _ =>
      destruct (X9_tiers_respect_the_file_area Sample.fs
                  (create Sample.server Sample.client) (T "OrderItem")
                  Sample.ordersFile u)
        as (_ & H2 & _ & _ & H4); [vm_compute; reflexivity|]
  end.
  split; [|split; [reflexivity | apply H4; reflexivity]].
  apply (H2 (T "src/orders.ts")). vm_compute. reflexivity.
Defined.

Lemma X10_witness :
  exists a,
    analyzeContent (T "Widget") Sample.widgetFile false Sample.widgetCall
    = Some a /\
    NoDup (usageTypes a) /\
    usageCount a = list_sum (map matches (details a)) /\ usageCount a = 3.
Proof.
  eexists. split; [vm_compute; reflexivity|].
  match goal with
  | |- NoDup (usageTypes ?u) /\ _ =>
      destruct (X10_details_agree_with_counters (T "Widget")
                  Sample.widgetFile false Sample.widgetCall u)
        as (H1 & _ & H3 & _); [vm_compute; reflexivity|]
  end.
  split; [exact H1|]. split; [exact H3 | reflexivity].
Defined.

Lemma X11_witness :
  exists a,
    analyzeContent (T "Widget") Sample.widgetFile false Sample.widgetCall
    = Some a /\ confidence a <= 1065 /\ confidence a = 82.
Proof.
  eexists. split; [vm_compute; reflexivity|].
  split; [|reflexivity].
  match goal with
  | |- confidence ?u <= _ =>
      apply (X11_file_confidence_is_bounded (T "Widget") Sample.widgetFile
               false Sample.widgetCall u)
  end.
  vm_compute; reflexivity.
Defined.

(** ** The summary, the export and the recommendations *)

Lemma level_eqb_eq (a b : riskLevelT) : level_eqb a b = true <-> a = b.
Proof. destruct a, b; simpl; split; intros H; try discriminate; reflexivity. Qed.

Lemma level_eqb_refl (a : riskLevelT) : level_eqb a a = true.
Proof. destruct a; reflexivity. Qed.

Lemma pushByRisk_filter (b : modelsByRiskT) (e : text * modelUsageT) :
  riskLevel (snd e) <> UNKNOWN ->
  exists b', pushByRisk b e = Some b' /\
    forall r, bucket r b' = bucket r b ++ filter (ofLevel r) [e].
Proof.
  intros H. unfold pushByRisk, ofLevel.
  destruct (riskLevel (snd e)) eqn:E; [contradiction| | | | |];
    (eexists; split; [reflexivity|]);
    intros r; destruct r; simpl; rewrite ?E; simpl;
      rewrite ?app_nil_r; reflexivity.
Qed.

Lemma groupFrom_filter (m : jsmap modelUsageT) :
  forall b,
  (forall e, In e m -> riskLevel (snd e) <> UNKNOWN) ->
  exists b', groupFrom b m = Some b' /\
    forall r, bucket r b' = bucket r b ++ filter (ofLevel r) m.
Proof.
  induction m as [|e m IH]; intros b H.
  - exists b. split; [reflexivity|]. intros r. simpl.
    rewrite app_nil_r. reflexivity.
  - destruct (pushByRisk_filter b e) as (b1 & E1 & H1).
    { apply H. left. reflexivity. }
    destruct (IH b1) as (b' & E2 & H2).
    { intros x Hx. apply H. right. exact Hx. }
    exists b'. split.
    + cbn [groupFrom]. rewrite E1. exact E2.
    + intros r. rewrite H2, H1, <- app_assoc.
      change (e :: m) with ([e] ++ m). rewrite filter_app. reflexivity.
Qed.

Lemma levels_partition (m : jsmap modelUsageT) :
  (forall e, In e m -> riskLevel (snd e) <> UNKNOWN) ->
  length (filter (ofLevel SAFE) m) + length (filter (ofLevel PROBABLY_SAFE) m)
  + (length (filter (ofLevel SUSPICIOUS) m)
     + length (filter (ofLevel LIKELY_UNUSED) m))
  + length (filter (ofLevel DEFINITELY_UNUSED) m) = length m.
Proof.
  induction m as [|e m IH]; intros H; [reflexivity|].
  assert (He := H e (or_introl eq_refl)).
  specialize (IH (fun x Hx => H x (or_intror Hx))).
  assert (F : forall r, filter (ofLevel r) (e :: m)
                        = if level_eqb (riskLevel (snd e)) r
                          then e :: filter (ofLevel r) m
                          else filter (ofLevel r) m) by reflexivity.
  rewrite !F.
  destruct (riskLevel (snd e)); [contradiction| | | | |];
    cbn [level_eqb length]; lia.
Qed.

Lemma filter_values {A B : Type} (h : B -> bool) (m : list (A * B)) :
  length (filter h (map snd m)) = length (filter (fun e => h (snd e)) m).
Proof.
  induction m as [|e m IH]; simpl; [reflexivity|].
  destruct (h (snd e)); simpl; rewrite IH; reflexivity.
Qed.

Lemma filter_or_length {A : Type} (h k : A -> bool) (l : list A) :
  (forall x, In x l -> h x = true -> k x = false) ->
  length (filter (fun x => h x || k x) l)
  = length (filter h l) + length (filter k l).
Proof.
  induction l as [|x l IH]; intros H; [reflexivity|].
  cbn [filter].
  assert (IH' := IH (fun y Hy => H y (or_intror Hy))).
  specialize (H x (or_introl eq_refl)).
  destruct (h x); cbn [orb length].
  - rewrite (H eq_refl). cbn [length]. rewrite IH'. reflexivity.
  - destruct (k x); cbn [length]; rewrite IH'; lia.
Qed.

Lemma filter_all_length {A : Type} (h : A -> bool) (l : list A) :
  length (filter h l) = length l <-> forall x, In x l -> h x = true.
Proof.
  induction l as [|x l IH]; simpl.
  - split; [intros _ y []|reflexivity].
  - pose proof (filter_length_le h l) as Hle.
    destruct (h x) eqn:E; simpl.
    + split.
      * intros H y [<-|Hy]; [exact E|]. apply IH; [lia|exact Hy].
      * intros H. f_equal. apply IH. intros y Hy. apply H. right. exact Hy.
    + split; [lia|]. intros H. specialize (H x (or_introl eq_refl)).
      congruence.
Qed.

Lemma level_disjoint (r r' : riskLevelT) (u : modelUsageT) :
  r <> r' -> level_eqb (riskLevel u) r = true ->
  level_eqb (riskLevel u) r' = false.
Proof.
  intros Hn H. apply level_eqb_eq in H. subst r.
  destruct (level_eqb (riskLevel u) r') eqn:E; [|reflexivity].
  apply level_eqb_eq in E. contradiction.
Qed.

Lemma summary_by_levels (st : analyzer) :
  Results.safeModels (Results.summary st)
  = length (filter (ofLevel SAFE) (modelUsage st))
    + length (filter (ofLevel PROBABLY_SAFE) (modelUsage st)) /\
  Results.riskyModels (Results.summary st)
  = length (filter (ofLevel SUSPICIOUS) (modelUsage st))
    + length (filter (ofLevel LIKELY_UNUSED) (modelUsage st)) /\
  Results.unusedModels (Results.summary st)
  = length (filter (ofLevel DEFINITELY_UNUSED) (modelUsage st)).
Proof.
  unfold Results.summary. cbn [Results.safeModels Results.riskyModels
                               Results.unusedModels].
  rewrite !filter_values. split; [|split].
  - apply (filter_or_length (ofLevel SAFE) (ofLevel PROBABLY_SAFE)).
    intros x _. apply level_disjoint. discriminate.
  - apply (filter_or_length (ofLevel SUSPICIOUS) (ofLevel LIKELY_UNUSED)).
    intros x _. apply level_disjoint. discriminate.
  - reflexivity.
Qed.

(** X12.  After a run the report can be grouped, the summary printed
    and the summary exported hold the same counts, the safe, the risky
    and the unused models add up to the number of models, and all the
    models count as safe exactly when every stored record says the model
    is really used. *)
Theorem X12_summary_counts
  (sp cp : text) (fs : filesystem) (parsed : list modelInfo)
  (files : list text) :
  let st := analysed sp cp fs parsed files in
  let s := Results.summary st in
  exists modelsByRisk,
    groupByRisk st = Some modelsByRisk /\
    Results.reportSummary st modelsByRisk = s /\
    Results.safeModels s + Results.riskyModels s + Results.unusedModels s
    = Results.totalModels s /\
    (Results.safeModels s = Results.totalModels s <->
     forall k mu, map_get k (modelUsage st) = Some mu ->
                  isReallyUsed mu = true).
Proof.
  intros st s.
  assert (Hknown : forall e, In e (modelUsage st) ->
                             riskLevel (snd e) <> UNKNOWN)
    by apply analysed_usage_known.
  assert (Hlen : length (modelUsage st) = length (models st)).
  { unfold st. destruct (analysed_usage sp cp fs parsed files)
      as (-> & -> & _). apply length_map. }
  destruct (groupFrom_filter (modelUsage st) noModels Hknown)
    as (b & Hb & Hbucket).
  destruct (summary_by_levels st) as (Hsafe & Hrisky & Hunused).
  fold s in Hsafe, Hrisky, Hunused.
  pose proof (levels_partition (modelUsage st) Hknown) as Hpart.
  exists b. split; [exact Hb|]. split; [|split].
  - unfold Results.reportSummary.
    pose proof (Hbucket SAFE) as H1. pose proof (Hbucket PROBABLY_SAFE) as H2.
    pose proof (Hbucket SUSPICIOUS) as H3.
    pose proof (Hbucket LIKELY_UNUSED) as H4.
    pose proof (Hbucket DEFINITELY_UNUSED) as H5.
    cbn [bucket noModels bySAFE byPROBABLY_SAFE bySUSPICIOUS byLIKELY_UNUSED
         byDEFINITELY_UNUSED app] in H1, H2, H3, H4, H5.
    rewrite H1, H2, H3, H4, H5, <- Hsafe, <- Hrisky, <- Hunused.
    reflexivity.
  - rewrite Hsafe, Hrisky, Hunused.
    change (Results.totalModels s) with (length (models st)).
    rewrite <- Hlen. exact Hpart.
  - change (Results.totalModels s) with (length (models st)).
    rewrite <- Hlen.
    assert (Hs : Results.safeModels s
                 = length (filter (fun e => ofLevel SAFE e
                                            || ofLevel PROBABLY_SAFE e)
                                  (modelUsage st))).
    { unfold s, Results.summary. cbn [Results.safeModels].
      apply (filter_values
               (fun u => level_eqb (riskLevel u) SAFE
                         || level_eqb (riskLevel u) PROBABLY_SAFE)). }
    rewrite Hs, filter_all_length. split.
    + intros H k mu Hk.
      specialize (H (k, mu) (map_get_in k mu _ Hk)).
      apply orb_true_iff in H. unfold ofLevel in H. cbn [snd] in H.
      rewrite !level_eqb_eq in H.
      apply analysed_entry in Hk. destruct Hk as (info & _ & ->).
      apply (entryOf_fields fs sp cp files (k, info)). exact H.
    + intros H [k mu] Hin.
      assert (Hk : map_get k (modelUsage st) = Some mu).
      { apply in_map_get; [apply analysed_usage_NoDup | exact Hin]. }
      specialize (H k mu Hk).
      apply analysed_entry in Hk. destruct Hk as (info & _ & ->).
      apply (entryOf_fields fs sp cp files (k, info)) in H.
      apply orb_true_iff. unfold ofLevel. cbn [snd].
      rewrite !level_eqb_eq. exact H.
Qed.

Lemma recommend_spec (e : text * modelUsageT) (r : Results.recommendation) :
  In r (Results.recommend e) ->
  Results.recModel r = fst e /\ atRisk (riskLevel (snd e)) /\
  (Results.action r = T "REMOVE" <-> riskLevel (snd e) = DEFINITELY_UNUSED) /\
  (Results.action r = T "REVIEW_AND_LIKELY_REMOVE"
   <-> riskLevel (snd e) = LIKELY_UNUSED) /\
  (Results.action r = T "MANUAL_REVIEW" <-> riskLevel (snd e) = SUSPICIOUS).
Proof.
  unfold Results.recommend, atRisk.
  destruct (riskLevel (snd e)); try contradiction;
    (intros [<-|[]]; cbn [Results.recModel Results.action];
     split; [reflexivity|]; split; [tauto|];
     repeat split; intros H; try reflexivity; try discriminate H).
Qed.

Lemma recommend_length (e : text * modelUsageT) :
  length (Results.recommend e)
  = if ofLevel SUSPICIOUS e || ofLevel LIKELY_UNUSED e
       || ofLevel DEFINITELY_UNUSED e then 1 else 0.
Proof.
  unfold Results.recommend, ofLevel.
  destruct (riskLevel (snd e)); reflexivity.
Qed.

Lemma recommend_models (e : text * modelUsageT) :
  map Results.recModel (Results.recommend e)
  = if ofLevel SUSPICIOUS e || ofLevel LIKELY_UNUSED e
       || ofLevel DEFINITELY_UNUSED e then [fst e] else [].
Proof.
  unfold Results.recommend, ofLevel.
  destruct (riskLevel (snd e)); reflexivity.
Qed.

Lemma recommended_models (m : jsmap modelUsageT) :
  map Results.recModel (flat_map Results.recommend m)
  = map fst (filter (fun e => ofLevel SUSPICIOUS e || ofLevel LIKELY_UNUSED e
                              || ofLevel DEFINITELY_UNUSED e) m).
Proof.
  induction m as [|e m IH]; [reflexivity|].
  cbn [flat_map filter]. rewrite map_app, IH, recommend_models.
  destruct (ofLevel SUSPICIOUS e || ofLevel LIKELY_UNUSED e
            || ofLevel DEFINITELY_UNUSED e); reflexivity.
Qed.

Lemma NoDup_map_filter {A B : Type} (f : A -> B) (h : A -> bool) (l : list A) :
  NoDup (map f l) -> NoDup (map f (filter h l)).
Proof.
  induction l as [|x l IH]; simpl; intros H; [constructor|].
  inversion H as [|? ? Hx Hl]; subst.
  destruct (h x); simpl; [|apply IH; exact Hl].
  constructor; [|apply IH; exact Hl].
  intros Hin. apply Hx. apply in_map_iff in Hin.
  destruct Hin as (y & E & Hy). apply filter_In in Hy.
  apply in_map_iff. exists y. split; [exact E | apply Hy].
Qed.

(** X13.  After a run, the recommendations name each model at most once
    and exactly the models whose level is SUSPICIOUS, LIKELY_UNUSED or
    DEFINITELY_UNUSED: there are as many as risky and unused models in
    the summary.  The action follows the level, and no model that is
    really used is named. *)
Theorem X13_recommendations
  (sp cp : text) (fs : filesystem) (parsed : list modelInfo)
  (files : list text) :
  let st := analysed sp cp fs parsed files in
  let recs := Results.generateRecommendations st in
  NoDup (map Results.recModel recs) /\
  length recs = Results.riskyModels (Results.summary st)
                + Results.unusedModels (Results.summary st) /\
  (forall k mu, map_get k (modelUsage st) = Some mu ->
     (atRisk (riskLevel mu) <-> In k (map Results.recModel recs))) /\
  (forall r, In r recs ->
     exists mu, map_get (Results.recModel r) (modelUsage st) = Some mu /\
       isReallyUsed mu = false /\
       (Results.action r = T "REMOVE"
        <-> riskLevel mu = DEFINITELY_UNUSED) /\
       (Results.action r = T "REVIEW_AND_LIKELY_REMOVE"
        <-> riskLevel mu = LIKELY_UNUSED) /\
       (Results.action r = T "MANUAL_REVIEW"
        <-> riskLevel mu = SUSPICIOUS)).
Proof.
  intros st recs.
  pose proof (analysed_usage_NoDup sp cp fs parsed files) as Hnd.
  fold st in Hnd.
  assert (Hmodels := recommended_models (modelUsage st)).
  fold (Results.generateRecommendations st) in Hmodels. fold recs in Hmodels.
  split; [|split; [|split]].
  - rewrite Hmodels. apply NoDup_map_filter. exact Hnd.
  - destruct (summary_by_levels st) as (_ & -> & ->).
    unfold recs, Results.generateRecommendations.
    clear. induction (modelUsage st) as [|e m IH]; [reflexivity|].
    cbn [flat_map]. rewrite length_app, IH, recommend_length.
    assert (F : forall r, filter (ofLevel r) (e :: m)
                          = if ofLevel r e then e :: filter (ofLevel r) m
                            else filter (ofLevel r) m) by reflexivity.
    rewrite !F. unfold ofLevel.
    destruct (riskLevel (snd e)); cbn [level_eqb orb length]; lia.
  - intros k mu Hk. rewrite Hmodels, in_map_iff. split.
    + intros H. exists (k, mu). split; [reflexivity|].
      apply filter_In. split; [apply map_get_in; exact Hk|].
      unfold ofLevel, atRisk in *. cbn [snd].
      destruct H as [->|[->| ->]]; reflexivity.
    + intros ([k' mu'] & E & Hin). cbn [fst] in E. subst k'.
      apply filter_In in Hin. destruct Hin as (Hin & Hl).
      apply (in_map_get k mu' _ Hnd) in Hin.
      rewrite Hk in Hin. injection Hin as <-.
      unfold ofLevel, atRisk in *. cbn [snd] in Hl.
      destruct (riskLevel mu); try discriminate Hl; tauto.
  - intros r Hr. unfold recs, Results.generateRecommendations in Hr.
    apply in_flat_map in Hr. destruct Hr as ([k mu] & Hin & Hr).
    apply recommend_spec in Hr. cbn [fst snd] in Hr.
    destruct Hr as (-> & Hrisk & Ha).
    apply (in_map_get k mu _ Hnd) in Hin.
    exists mu. split; [exact Hin|]. split; [|exact Ha].
    apply analysed_entry in Hin. destruct Hin as (info & _ & ->).
    destruct (isReallyUsed (entryOf fs sp cp files (k, info))) eqn:E;
      [|reflexivity].
    apply (entryOf_fields fs sp cp files (k, info)) in E.
    unfold atRisk in Hrisk.
    destruct E as [E|E]; rewrite E in Hrisk;
      destruct Hrisk as [H|[H|H]]; discriminate H.
Qed.

Lemma insertByConfidence_last (x : usageAnalysis) (l : list usageAnalysis) :
  Forall (fun y => confidence x <= confidence y) l ->
  insertByConfidence x l = l ++ [x].
Proof.
  induction 1 as [|y l Hy _ IH]; [reflexivity|].
  cbn [insertByConfidence app].
  destruct (confidence y <? confidence x) eqn:E.
  - apply Nat.ltb_lt in E. lia.
  - rewrite IH. reflexivity.
Qed.

Lemma sortByConfidence_sorted_id (l : list usageAnalysis) :
  StronglySorted moreConfident l -> sortByConfidence l = l.
Proof.
  unfold sortByConfidence.
  assert (G : forall acc,
             StronglySorted moreConfident (acc ++ l) ->
             fold_left (fun acc x => insertByConfidence x acc) l acc
             = acc ++ l).
  { induction l as [|x l IH]; intros acc H; cbn [fold_left].
    - rewrite app_nil_r. reflexivity.
    - assert (Hx : Forall (fun y => confidence x <= confidence y) acc).
      { clear IH. induction acc as [|y acc IHa]; [constructor|].
        cbn [app] in H. inversion H as [|? ? Hs Hf]; subst.
        constructor; [|apply IHa; exact Hs].
        rewrite Forall_forall in Hf. apply (Hf x).
        apply in_or_app. right. left. reflexivity. }
      rewrite (insertByConfidence_last x acc Hx).
      rewrite IH; rewrite <- app_assoc; [reflexivity | exact H]. }
  intros H. apply (G [] H).
Qed.

Lemma StronglySorted_firstn {A : Type} (R : A -> A -> Prop) (n : nat)
  (l : list A) :
  StronglySorted R l -> StronglySorted R (firstn n l).
Proof.
  revert n. induction l as [|x l IH]; intros [|n] H; simpl;
    try constructor.
  - inversion H; subst. apply IH. assumption.
  - inversion H as [|? ? _ Hf]; subst.
    rewrite Forall_forall in *. intros y Hy. apply Hf.
    rewrite <- (firstn_skipn n l). apply in_or_app. left. exact Hy.
Qed.

Lemma StronglySorted_split {A : Type} (R : A -> A -> Prop) (n : nat)
  (l : list A) (x y : A) :
  StronglySorted R l -> In x (firstn n l) -> In y (skipn n l) -> R x y.
Proof.
  revert n. induction l as [|z l IH]; intros [|n] H Hx Hy; simpl in *;
    try contradiction.
  inversion H as [|? ? Hs Hf]; subst. destruct Hx as [<-|Hx].
  - rewrite Forall_forall in Hf. apply Hf.
    rewrite <- (firstn_skipn n l). apply in_or_app. right. exact Hy.
  - apply (IH n Hs Hx Hy).
Qed.

Lemma exportModel_spec
  (sp cp : text) (fs : filesystem) (parsed : list modelInfo)
  (files : list text) (modelName : text) (mu : modelUsageT) :
  map_get modelName (modelUsage (analysed sp cp fs parsed files)) = Some mu ->
  let e := fst (Results.exportModel mu) in
  snd (Results.exportModel mu) = mu /\
  Results.topUsageFiles e = map Results.topOf (firstn 5 (fileAnalyses mu)) /\
  length (Results.topUsageFiles e) = Nat.min 5 (totalFiles mu) /\
  (forall a b, In a (firstn 5 (fileAnalyses mu)) ->
               In b (skipn 5 (fileAnalyses mu)) ->
               confidence b <= confidence a) /\
  StronglySorted (fun x y => Results.topConfidence y <= Results.topConfidence x)
                 (Results.topUsageFiles e) /\
  Results.eTotalFiles e = Results.eServerFiles e + Results.eClientFiles e /\
  Results.eRelationships e = map model (relationships (usedModel mu)).
Proof.
  intros H e.
  apply analysed_entry in H. destruct H as (info & _ & Hmu).
  destruct (entryOf_fields fs sp cp files (modelName, info))
    as (Hfa & Htot & Hsrv & Hcli & _).
  rewrite <- Hmu in Hfa, Htot, Hsrv, Hcli. cbn [fst] in *.
  set (l := analysesOf fs sp cp modelName files) in *.
  assert (Hsorted : StronglySorted moreConfident (fileAnalyses mu)).
  { rewrite Hfa. apply sortByConfidence_sorted. }
  assert (Hid : sortAnalyses mu = mu).
  { unfold sortAnalyses. rewrite (sortByConfidence_sorted_id _ Hsorted).
    destruct mu; reflexivity. }
  assert (Htop : Results.topUsageFiles e
                 = map Results.topOf (firstn 5 (fileAnalyses mu))).
  { unfold e, Results.exportModel. cbn [fst Results.topUsageFiles].
    rewrite Hid. reflexivity. }
  split; [exact Hid|]. split; [exact Htop|].
  split; [|split; [|split; [|split]]].
  - rewrite Htop, length_map, length_firstn, Htot, Hfa.
    rewrite (Permutation_length (sortByConfidence_perm l)). reflexivity.
  - intros a b Ha Hb.
    apply (StronglySorted_split moreConfident 5 _ a b Hsorted Ha Hb).
  - rewrite Htop.
    apply (StronglySorted_firstn moreConfident 5) in Hsorted.
    clear Htop.
    induction Hsorted as [|x t Hs IH Hf]; cbn [map]; constructor.
    + exact IH.
    + rewrite Forall_forall in *. intros y Hy. apply in_map_iff in Hy.
      destruct Hy as (z & <- & Hz). apply (Hf z Hz).
  - unfold e, Results.exportModel.
    cbn [fst Results.eTotalFiles Results.eServerFiles Results.eClientFiles].
    rewrite Htot, Hsrv, Hcli.
    clear. induction l as [|a l IH]; [reflexivity|].
    cbn [filter length]. destruct (isClientFile a); cbn [negb length]; lia.
  - reflexivity.
Qed.

Lemma map_get_map {A B : Type} (h : A -> B) (k : text) (m : jsmap A) :
  map_get k (map (fun e => (fst e, h (snd e))) m)
  = option_map h (map_get k m).
Proof.
  induction m as [|[k0 v0] m IH]; [reflexivity|].
  cbn [map map_get fst snd]. destruct (text_eqb k k0); [reflexivity|exact IH].
Qed.

(** X14.  The export leaves the analyzer as it is, its sort included.
    In the exported entry of a model, the top usage files are the first
    five stored analyses, or all of them when there are fewer: they are
    in the order of the confidence and no analysis left out has more
    confidence than one of them.  The entry carries the counters of the
    record, server and client files adding up to the total, and the
    models its relationships point at. *)
Theorem X14_export_entries
  (sp cp : text) (fs : filesystem) (parsed : list modelInfo)
  (files : list text) (modelName : text) (e : Results.exportedModel) :
  let st := analysed sp cp fs parsed files in
  map_get modelName (Results.rModels (fst (Results.exportResults st)))
  = Some e ->
  snd (Results.exportResults st) = st /\
  exists mu,
    map_get modelName (modelUsage st) = Some mu /\
    Results.eRiskLevel e = riskLevel mu /\
    Results.eConfidence e = totalConfidence mu /\
    Results.eTotalFiles e = totalFiles mu /\
    Results.eTotalFiles e = Results.eServerFiles e + Results.eClientFiles e /\
    Results.eRelationships e = map model (relationships (usedModel mu)) /\
    Results.topUsageFiles e = map Results.topOf (firstn 5 (fileAnalyses mu)) /\
    length (Results.topUsageFiles e) = Nat.min 5 (totalFiles mu) /\
    (forall a b, In a (firstn 5 (fileAnalyses mu)) ->
                 In b (skipn 5 (fileAnalyses mu)) ->
                 confidence b <= confidence a) /\
    StronglySorted
      (fun x y => Results.topConfidence y <= Results.topConfidence x)
      (Results.topUsageFiles e).
Proof.
  intros st H.
  pose proof (analysed_usage_NoDup sp cp fs parsed files) as Hnd.
  fold st in Hnd.
  assert (Hspec := exportModel_spec sp cp fs parsed files). fold st in Hspec.
  split.
  - unfold Results.exportResults. cbn [snd]. rewrite map_map. cbn [fst snd].
    assert (E : map (fun x : text * modelUsageT =>
                       (fst x, snd (Results.exportModel (snd x))))
                    (modelUsage st) = modelUsage st).
    { rewrite <- (map_id (modelUsage st)) at 2. apply map_ext_in.
      intros [k mu] Hin. cbn [fst snd].
      apply (in_map_get k mu _ Hnd) in Hin.
      destruct (Hspec k mu Hin) as (-> & _). reflexivity. }
    rewrite E. clear. destruct st; reflexivity.
  - unfold Results.exportResults in H. cbn [fst Results.rModels] in H.
    rewrite map_map in H. cbn [fst snd] in H.
    rewrite (map_get_map (fun u => fst (Results.exportModel u))) in H.
    destruct (map_get modelName (modelUsage st)) as [mu|] eqn:Hmu;
      [|discriminate H].
    cbn [option_map] in H. injection H as <-.
    exists mu. split; [reflexivity|].
    destruct (Hspec modelName mu Hmu) as (_ & H2 & H3 & H4 & H5 & H6 & H7).
    repeat (split; [first [reflexivity | assumption]|]). assumption.
Qed.

(** ** The strict analyzer: records and verdicts *)

Lemma strict_fold_usages (fs : Strict.filesystem) (st : Strict.analyzer)
  (model : text) (files : list text) :
  forall mu,
  let l := strictUsagesOf fs st model files in
  let mu' := fold_left (Strict.fileStep fs st model) files mu in
  Strict.realUsages mu'
  = Strict.realUsages mu ++ filter Strict.isRealUsage l /\
  Strict.suspiciousUsages mu'
  = Strict.suspiciousUsages mu
    ++ filter (fun u => negb (Strict.isRealUsage u)) l /\
  Strict.serverUsages mu'
  = Strict.serverUsages mu
    ++ filter (fun u => negb (Strict.isClientFile u)) l /\
  Strict.clientUsages mu'
  = Strict.clientUsages mu ++ filter Strict.isClientFile l /\
  Strict.totalFiles mu' = Strict.totalFiles mu + length l /\
  Strict.isReallyUsed mu'
  = Strict.isReallyUsed mu || existsb Strict.isRealUsage l.
Proof.
  induction files as [|p files IH]; intros mu; cbn zeta.
  - cbn [fold_left strictUsagesOf flat_map filter existsb length].
    rewrite !app_nil_r, Nat.add_0_r, orb_false_r. repeat split.
  - cbn [fold_left strictUsagesOf flat_map].
    specialize (IH (Strict.fileStep fs st model mu p)). cbn zeta in IH.
    fold (strictUsagesOf fs st model files).
    destruct IH as (H1 & H2 & H3 & H4 & H5 & H6).
    rewrite H1, H2, H3, H4, H5, H6. clear H1 H2 H3 H4 H5 H6.
    unfold Strict.fileStep.
    destruct (Strict.analyzeModelUsageInFile fs st p model) as [u|];
      [|cbn [app]; repeat split].
    cbn [app filter existsb length Strict.addUsage Strict.realUsages
         Strict.suspiciousUsages Strict.serverUsages Strict.clientUsages
         Strict.totalFiles Strict.isReallyUsed].
    destruct (Strict.isRealUsage u), (Strict.isClientFile u);
      cbn [negb orb]; rewrite <- ?app_assoc; cbn [app];
      rewrite ?orb_true_r; repeat split; try lia;
      destruct (Strict.isReallyUsed mu); reflexivity.
Qed.

Lemma filter_split_negb {A : Type} (h : A -> bool) (l : list A) :
  length l = length (filter h l) + length (filter (fun x => negb (h x)) l).
Proof.
  induction l as [|x l IH]; [reflexivity|]. cbn [filter].
  destruct (h x); cbn [negb length]; lia.
Qed.

(** X15.  The record the strict analyzer builds for a model sorts the
    usages found in the files: real or suspicious, and server or client.
    The total counts each file once, either way; the model is really
    used exactly when one usage at least is real. *)
Theorem X15_strict_record
  (fs : Strict.filesystem) (st : Strict.analyzer) (model : text)
  (files : list text) :
  let l := strictUsagesOf fs st model files in
  let mu := Strict.scanFiles fs files st model in
  Strict.realUsages mu = filter Strict.isRealUsage l /\
  Strict.suspiciousUsages mu = filter (fun u => negb (Strict.isRealUsage u)) l
  /\
  Strict.serverUsages mu = filter (fun u => negb (Strict.isClientFile u)) l /\
  Strict.clientUsages mu = filter Strict.isClientFile l /\
  Strict.totalFiles mu
  = length (Strict.realUsages mu) + length (Strict.suspiciousUsages mu) /\
  Strict.totalFiles mu
  = length (Strict.clientUsages mu) + length (Strict.serverUsages mu) /\
  (Strict.isReallyUsed mu = true <-> Strict.realUsages mu <> []).
Proof.
  intros l mu.
  destruct (strict_fold_usages fs st model files Strict.newModelUsage)
    as (H1 & H2 & H3 & H4 & H5 & H6).
  cbn zeta in H1, H2, H3, H4, H5, H6.
  fold (Strict.scanFiles fs files st model) in H1, H2, H3, H4, H5, H6.
  fold mu in H1, H2, H3, H4, H5, H6. fold l in H1, H2, H3, H4, H5, H6.
  cbn [Strict.newModelUsage Strict.realUsages Strict.suspiciousUsages
       Strict.serverUsages Strict.clientUsages Strict.totalFiles
       Strict.isReallyUsed app orb Nat.add] in H1, H2, H3, H4, H5, H6.
  rewrite H1, H2, H3, H4, H5, H6.
  repeat (split; [reflexivity|]).
  split; [apply filter_split_negb|].
  split; [apply filter_split_negb|].
  clear. induction l as [|u l IH]; cbn [existsb filter].
  - split; [discriminate | intros H; contradiction H; reflexivity].
  - destruct (Strict.isRealUsage u); cbn [orb].
    + split; [discriminate | reflexivity].
    + exact IH.
Qed.

Lemma strict_scanFiles_ext (fs : Strict.filesystem) (files : list text)
  (st st' : Strict.analyzer) (model : text) :
  Strict.serverPath st = Strict.serverPath st' /\
  Strict.clientPath st = Strict.clientPath st' ->
  Strict.scanFiles fs files st model = Strict.scanFiles fs files st' model.
Proof.
  intros (Hs & H). unfold Strict.scanFiles. apply fold_left_ext.
  intros mu p. unfold Strict.fileStep, Strict.analyzeModelUsageInFile.
  rewrite H, Hs. reflexivity.
Qed.

Lemma addName_has (s : list text) (n k : text) :
  inNames (Strict.addName s n) k = inNames s k || text_eqb k n.
Proof.
  unfold Strict.addName. fold (inNames s n).
  destruct (inNames s n) eqn:E.
  - destruct (text_eqb k n) eqn:Ek; [|rewrite orb_false_r; reflexivity].
    apply text_eqb_eq in Ek. subst k. rewrite E. reflexivity.
  - unfold inNames. rewrite existsb_app. cbn [existsb].
    rewrite orb_false_r. reflexivity.
Qed.

Lemma addName_NoDup (s : list text) (n : text) :
  NoDup s -> NoDup (Strict.addName s n).
Proof.
  intros H. unfold Strict.addName. fold (inNames s n).
  destruct (inNames s n) eqn:E; [exact H|].
  apply NoDup_app; [exact H | repeat constructor; intros [] |].
  intros x Hx [<-|[]]. apply inNames_In in Hx. congruence.
Qed.

Lemma fold_addName (names : list text) :
  forall s, NoDup s ->
  NoDup (fold_left Strict.addName names s) /\
  forall k, In k (fold_left Strict.addName names s) <-> In k s \/ In k names.
Proof.
  induction names as [|n names IH]; intros s Hs; cbn [fold_left].
  - split; [exact Hs|]. intros k. simpl. tauto.
  - destruct (IH (Strict.addName s n) (addName_NoDup s n Hs)) as (H1 & H2).
    split; [exact H1|]. intros k. rewrite H2.
    rewrite <- !inNames_In, addName_has, orb_true_iff, !inNames_In.
    rewrite text_eqb_eq. simpl. intuition auto.
Qed.

(** What the loop over the models leaves in the three collections. *)
Lemma strict_models_loop (fs : Strict.filesystem) (files : list text)
  (st0 : Strict.analyzer) (ms : list text) :
  forall st,
  Strict.serverPath st = Strict.serverPath st0 /\
  Strict.clientPath st = Strict.clientPath st0 ->
  let st' := fold_left (Strict.modelStep fs files) ms st in
  let scan := Strict.scanFiles fs files st0 in
  (Strict.serverPath st' = Strict.serverPath st0 /\
   Strict.clientPath st' = Strict.clientPath st0) /\
  Strict.models st' = Strict.models st /\
  (forall k, map_get k (Strict.usedModels st')
             = if inNames ms k && strictUsed (scan k) then Some (scan k)
               else map_get k (Strict.usedModels st)) /\
  (forall k, map_get k (Strict.suspiciousModels st')
             = if inNames ms k && strictSuspicious (scan k)
               then Some (scan k)
               else map_get k (Strict.suspiciousModels st)) /\
  (forall k, inNames (Strict.unusedModels st') k
             = inNames (Strict.unusedModels st) k
               || inNames ms k && strictUnused (scan k)) /\
  (NoDup (keys (Strict.usedModels st)) ->
   NoDup (keys (Strict.usedModels st'))) /\
  (NoDup (keys (Strict.suspiciousModels st)) ->
   NoDup (keys (Strict.suspiciousModels st'))) /\
  (NoDup (Strict.unusedModels st) -> NoDup (Strict.unusedModels st')).
Proof.
  induction ms as [|m ms IH]; intros st Hcp; cbn zeta.
  - cbn [fold_left inNames existsb andb]. split; [exact Hcp|].
    split; [reflexivity|]. split; [reflexivity|]. split; [reflexivity|].
    split; [intros k; rewrite orb_false_r; reflexivity|]. tauto.
  - cbn [fold_left].
    set (st1 := Strict.modelStep fs files st m).
    assert (Hscan : Strict.scanFiles fs files st m
                    = Strict.scanFiles fs files st0 m)
      by (apply strict_scanFiles_ext; exact Hcp).
    assert (H1 : Strict.serverPath st1 = Strict.serverPath st0 /\
                 Strict.clientPath st1 = Strict.clientPath st0).
    { unfold st1, Strict.modelStep. cbn zeta.
      destruct (Strict.isReallyUsed _); [exact Hcp|].
      destruct (0 <? _); exact Hcp. }
    specialize (IH st1 H1). cbn zeta in IH.
    destruct IH as (I1 & I2 & I3 & I4 & I5 & I6 & I7 & I8).
    set (mu := Strict.scanFiles fs files st0 m) in *.
    assert (Hin : forall k, inNames (m :: ms) k
                            = text_eqb k m || inNames ms k) by reflexivity.
    assert (Hst1 :
      Strict.models st1 = Strict.models st /\
      Strict.usedModels st1
      = (if strictUsed mu then map_set m mu (Strict.usedModels st)
         else Strict.usedModels st) /\
      Strict.suspiciousModels st1
      = (if strictSuspicious mu
         then map_set m mu (Strict.suspiciousModels st)
         else Strict.suspiciousModels st) /\
      Strict.unusedModels st1
      = (if strictUnused mu then Strict.addName (Strict.unusedModels st) m
         else Strict.unusedModels st)).
    { unfold st1, Strict.modelStep. cbn zeta. rewrite Hscan. fold mu.
      unfold strictUsed, strictSuspicious, strictUnused.
      destruct (Strict.isReallyUsed mu); [repeat split|].
      destruct (0 <? Strict.totalFiles mu); repeat split. }
    destruct Hst1 as (S1 & S2 & S3 & S4).
    split; [exact I1|]. split; [rewrite I2; exact S1|].
    split; [|split; [|split; [|split; [|split]]]].
    + intros k. rewrite I3, Hin, S2.
      destruct (text_eqb k m) eqn:E.
      * apply text_eqb_eq in E. subst k. fold mu. cbn [orb andb].
        destruct (strictUsed mu) eqn:U.
        -- rewrite map_get_set, text_eqb_refl.
           destruct (inNames ms m); reflexivity.
        -- rewrite andb_false_r. reflexivity.
      * cbn [orb].
        destruct (inNames ms k && strictUsed (Strict.scanFiles fs files st0 k));
          [reflexivity|].
        destruct (strictUsed mu); [|reflexivity].
        rewrite map_get_set, E. reflexivity.
    + intros k. rewrite I4, Hin, S3.
      destruct (text_eqb k m) eqn:E.
      * apply text_eqb_eq in E. subst k. fold mu. cbn [orb andb].
        destruct (strictSuspicious mu) eqn:U.
        -- rewrite map_get_set, text_eqb_refl.
           destruct (inNames ms m); reflexivity.
        -- rewrite andb_false_r. reflexivity.
      * cbn [orb].
        destruct (inNames ms k
                  && strictSuspicious (Strict.scanFiles fs files st0 k));
          [reflexivity|].
        destruct (strictSuspicious mu); [|reflexivity].
        rewrite map_get_set, E. reflexivity.
    + intros k. rewrite I5, Hin, S4.
      destruct (text_eqb k m) eqn:E.
      * apply text_eqb_eq in E. subst k. fold mu. cbn [orb andb].
        destruct (strictUnused mu) eqn:U.
        -- rewrite addName_has, text_eqb_refl, !orb_true_r. reflexivity.
        -- rewrite andb_false_r, orb_false_r. reflexivity.
      * cbn [orb]. destruct (strictUnused mu); [|reflexivity].
        rewrite addName_has, E, orb_false_r. reflexivity.
    + intros H. apply I6. rewrite S2.
      destruct (strictUsed mu); [apply NoDup_keys_map_set|]; exact H.
    + intros H. apply I7. rewrite S3.
      destruct (strictSuspicious mu); [apply NoDup_keys_map_set|]; exact H.
    + intros H. apply I8. rewrite S4.
      destruct (strictUnused mu); [apply addName_NoDup|]; exact H.
Qed.

Lemma strict_verdict_one (mu : Strict.modelUsageT) :
  (strictUsed mu = true /\ strictSuspicious mu = false
   /\ strictUnused mu = false) \/
  (strictUsed mu = false /\ strictSuspicious mu = true
   /\ strictUnused mu = false) \/
  (strictUsed mu = false /\ strictSuspicious mu = false
   /\ strictUnused mu = true).
Proof.
  unfold strictUsed, strictSuspicious, strictUnused.
  destruct (Strict.isReallyUsed mu), (0 <? Strict.totalFiles mu);
    cbn [negb andb]; tauto.
Qed.

(** The three collections of the strict analyzer after a run. *)
Lemma strict_collections
  (sp cp : text) (fs : Strict.filesystem) (names files : list text) :
  let st0 := strictParsed sp cp names in
  let st := strictAnalysed sp cp fs names files in
  (forall k, inNames (Strict.models st0) k = true <-> In k names) /\
  (forall k, map_get k (Strict.usedModels st)
             = if inNames (Strict.models st0) k
                  && strictUsed (Strict.scanFiles fs files st0 k)
               then Some (Strict.scanFiles fs files st0 k) else None) /\
  (forall k, map_get k (Strict.suspiciousModels st)
             = if inNames (Strict.models st0) k
                  && strictSuspicious (Strict.scanFiles fs files st0 k)
               then Some (Strict.scanFiles fs files st0 k) else None) /\
  (forall k, inNames (Strict.unusedModels st) k
             = inNames (Strict.models st0) k
               && strictUnused (Strict.scanFiles fs files st0 k)) /\
  Permutation (keys (Strict.usedModels st)
               ++ keys (Strict.suspiciousModels st)
               ++ Strict.unusedModels st)
              (Strict.models st).
Proof.
  intros st0 st.
  destruct (fold_addName names [] (NoDup_nil _)) as (Hnd & Hmem).
  change (fold_left Strict.addName names []) with (Strict.models st0)
    in Hnd, Hmem.
  destruct (strict_models_loop fs files st0 (Strict.models st0) st0
              (conj eq_refl eq_refl))
    as (_ & Hm & Hu & Hs & Hn & Nu & Ns & Nn).
  cbn zeta in Hm, Hu, Hs, Hn, Nu, Ns, Nn.
  change (fold_left (Strict.modelStep fs files) (Strict.models st0) st0)
    with st in Hm, Hu, Hs, Hn, Nu, Ns, Nn.
  specialize (Nu (NoDup_nil _)). specialize (Ns (NoDup_nil _)).
  specialize (Nn (NoDup_nil _)).
  cbn [strictParsed Strict.usedModels Strict.suspiciousModels
       Strict.unusedModels map_get inNames existsb orb] in Hu, Hs, Hn.
  fold (inNames (Strict.models st0)) in Hu, Hs, Hn.
  assert (Hknown : forall k, inNames (Strict.models st0) k = true
                             <-> In k names).
  { intros k. rewrite inNames_In, Hmem. simpl. tauto. }
  assert (Hperm : Permutation (keys (Strict.usedModels st)
                               ++ keys (Strict.suspiciousModels st)
                               ++ Strict.unusedModels st)
                              (Strict.models st)).
  { assert (Ku : forall k, In k (keys (Strict.usedModels st)) <->
                inNames (Strict.models st0) k
                && strictUsed (Strict.scanFiles fs files st0 k) = true).
    { intros k. specialize (Hu k).
      destruct (inNames (Strict.models st0) k
                && strictUsed (Strict.scanFiles fs files st0 k)).
      - split; [reflexivity|]. intros _. apply map_get_in in Hu.
        apply (in_map fst) in Hu. exact Hu.
      - apply map_get_none in Hu. split; [contradiction | discriminate]. }
    assert (Ks : forall k, In k (keys (Strict.suspiciousModels st)) <->
                inNames (Strict.models st0) k
                && strictSuspicious (Strict.scanFiles fs files st0 k) = true).
    { intros k. specialize (Hs k).
      destruct (inNames (Strict.models st0) k
                && strictSuspicious (Strict.scanFiles fs files st0 k)).
      - split; [reflexivity|]. intros _. apply map_get_in in Hs.
        apply (in_map fst) in Hs. exact Hs.
      - apply map_get_none in Hs. split; [contradiction | discriminate]. }
    assert (Kn : forall k, In k (Strict.unusedModels st) <->
                inNames (Strict.models st0) k
                && strictUnused (Strict.scanFiles fs files st0 k) = true).
    { intros k. rewrite <- inNames_In, Hn. reflexivity. }
    apply NoDup_Permutation.
    - apply NoDup_app; [exact Nu | |].
      + apply NoDup_app; [exact Ns | exact Nn |].
        intros k H1 H2. apply Ks in H1. apply Kn in H2.
        destruct (strict_verdict_one (Strict.scanFiles fs files st0 k))
          as [(A & B & C)|[(A & B & C)|(A & B & C)]];
          rewrite ?A, ?B, ?C, ?andb_false_r in H1;
          rewrite ?A, ?B, ?C, ?andb_false_r in H2; congruence.
      + intros k H1 H2. apply Ku in H1. apply in_app_or in H2.
        rewrite Ks, Kn in H2.
        destruct (strict_verdict_one (Strict.scanFiles fs files st0 k))
          as [(A & B & C)|[(A & B & C)|(A & B & C)]];
          rewrite ?A, ?B, ?C, ?andb_false_r in H1;
          rewrite ?A, ?B, ?C, ?andb_false_r in H2;
          try congruence; destruct H2; congruence.
    - rewrite Hm. exact Hnd.
    - intros k. rewrite !in_app_iff, Ku, Ks, Kn, Hm, <- inNames_In.
      destruct (inNames (Strict.models st0) k); cbn [andb].
      + destruct (strict_verdict_one (Strict.scanFiles fs files st0 k))
          as [(A & B & C)|[(A & B & C)|(A & B & C)]];
          rewrite A, B, C; tauto.
      + split; [intros [H|[H|H]]; discriminate H | discriminate]. }
  split; [exact Hknown|]. split; [exact Hu|]. split; [exact Hs|].
  split; [exact Hn | exact Hperm].
Qed.

(** X16.  The strict analyzer puts every model of the schema in exactly
    one of its three collections: the used models when a file holds a
    real usage, the suspicious ones when files mention the model without
    a real usage, the unused ones when no file gives a usage; the used
    and suspicious models are stored with their record.  Nothing else is
    in the collections, so their sizes add up to the number of models. *)
Theorem X16_strict_verdicts
  (sp cp : text) (fs : Strict.filesystem) (names files : list text) :
  let st0 := strictParsed sp cp names in
  let st := strictAnalysed sp cp fs names files in
  (forall model,
     In model names ->
     let mu := Strict.scanFiles fs files st0 model in
     map_get model (Strict.usedModels st)
     = (if Strict.isReallyUsed mu then Some mu else None) /\
     map_get model (Strict.suspiciousModels st)
     = (if negb (Strict.isReallyUsed mu) && (0 <? Strict.totalFiles mu)
        then Some mu else None) /\
     (In model (Strict.unusedModels st) <->
      Strict.isReallyUsed mu = false /\ Strict.totalFiles mu = 0)) /\
  Permutation (keys (Strict.usedModels st)
               ++ keys (Strict.suspiciousModels st)
               ++ Strict.unusedModels st)
              (Strict.models st) /\
  length (Strict.usedModels st) + length (Strict.suspiciousModels st)
  + length (Strict.unusedModels st) = length (Strict.models st).
Proof.
  intros st0 st.
  destruct (strict_collections sp cp fs names files)
    as (Hknown & Hu & Hs & Hn & Hperm).
  fold st0 in Hknown, Hu, Hs, Hn. fold st in Hu, Hs, Hn, Hperm.
  split; [|split; [exact Hperm|]].
  - intros model Hin mu. apply Hknown in Hin.
    rewrite Hu, Hs, <- inNames_In, Hn, Hin. cbn [andb]. fold mu.
    unfold strictUsed, strictSuspicious, strictUnused.
    split; [reflexivity|]. split; [reflexivity|].
    destruct (Strict.isReallyUsed mu); cbn [negb andb].
    + split; [discriminate | intros [H _]; discriminate H].
    + destruct (Strict.totalFiles mu) as [|n]; cbn [Nat.ltb Nat.leb negb].
      * split; [intros _; split; reflexivity | reflexivity].
      * split; [discriminate | intros [_ H]; discriminate H].
  - apply Permutation_length in Hperm.
    rewrite !length_app in Hperm. unfold keys in Hperm.
    rewrite !length_map in Hperm. lia.
Qed.

(** ** Reading the files once *)

Section Reads.
Variable fs : filesystem.

Lemma countOf_app (q : text) (l l' : list text) :
  countOf q (l ++ l') = countOf q l + countOf q l'.
Proof. unfold countOf. rewrite filter_app, length_app. reflexivity. Qed.

Lemma getFileContent_trace (st : analyzer) (p : text) :
  let st' := snd (getFileContent fs st p) in
  (forall q, cached st' q = cached st q || (text_eqb q p && readable fs p)) /\
  (forall q, countOf q (reads st')
             = countOf q (reads st)
               + if text_eqb q p && negb (cached st p) then 1 else 0).
Proof.
  unfold getFileContent, cached, map_has, readable.
  destruct (map_get p (fileCache st)) as [c|] eqn:E; cbn [snd negb].
  - split; intros q.
    + destruct (text_eqb q p) eqn:Eq; cbn [andb];
        [|rewrite orb_false_r; reflexivity].
      apply text_eqb_eq in Eq. subst q. rewrite E. reflexivity.
    + rewrite andb_false_r, Nat.add_0_r. reflexivity.
  - destruct (fs p) as [content|]; cbn [snd setCache logRead fileCache reads];
      split; intros q; rewrite ?countOf_app, ?map_get_set, ?andb_true_r,
                         ?andb_false_r, ?orb_false_r; try reflexivity.
    + destruct (text_eqb q p); [|rewrite orb_false_r; reflexivity].
      rewrite orb_true_r. reflexivity.
    + unfold countOf. cbn [filter]. destruct (text_eqb q p); reflexivity.
    + unfold countOf. cbn [filter]. destruct (text_eqb q p); reflexivity.
Qed.

Lemma fileStep_state (modelName : text) (acc : modelUsageT * analyzer)
  (p : text) :
  snd (fileStep fs modelName acc p) = snd (getFileContent fs (snd acc) p).
Proof.
  unfold fileStep, analyzeModelUsage.
  destruct (getFileContent fs (snd acc) p) as [c st'].
  destruct (analyzeContent _ _ _ c); reflexivity.
Qed.

(** One pass over the files: a readable file that is not in the cache is
    read at its first place in the list and cached; a file that cannot
    be read is read at each of its places. *)
Lemma pass_trace (modelName : text) (files : list text) :
  forall (acc : modelUsageT * analyzer),
  (forall q, cached (snd acc) q = true -> readable fs q = true) ->
  let st' := snd (fold_left (fileStep fs modelName) files acc) in
  (forall q, cached st' q
             = cached (snd acc) q || (inNames files q && readable fs q)) /\
  (forall q, countOf q (reads st')
             = countOf q (reads (snd acc))
               + if readable fs q
                 then if cached (snd acc) q then 0
                      else if inNames files q then 1 else 0
                 else countOf q files).
Proof.
  induction files as [|p files IH]; intros acc Hc; cbn zeta.
  - cbn [fold_left inNames existsb andb]. split; intros q.
    + rewrite orb_false_r. reflexivity.
    + unfold countOf at 3. cbn [filter length].
      destruct (readable fs q), (cached (snd acc) q); lia.
  - cbn [fold_left].
    destruct (getFileContent_trace (snd acc) p) as (G1 & G2).
    cbn zeta in G1, G2. rewrite <- (fileStep_state modelName) in G1, G2.
    set (acc1 := fileStep fs modelName acc p) in *.
    assert (Hc1 : forall q, cached (snd acc1) q = true ->
                            readable fs q = true).
    { intros q. rewrite G1, orb_true_iff, andb_true_iff.
      intros [H|[H1 H2]]; [apply Hc; exact H|].
      apply text_eqb_eq in H1. subst q. exact H2. }
    destruct (IH acc1 Hc1) as (I1 & I2). cbn zeta in I1, I2.
    assert (Hin : forall q, inNames (p :: files) q
                            = text_eqb q p || inNames files q) by reflexivity.
    assert (Hcount : forall q, countOf q (p :: files)
                               = (if text_eqb q p then 1 else 0)
                                 + countOf q files).
    { intros q. unfold countOf. cbn [filter].
      destruct (text_eqb q p); reflexivity. }
    split; intros q.
    + rewrite I1, G1, Hin.
      destruct (text_eqb q p) eqn:E; cbn [andb orb].
      * apply text_eqb_eq in E. subst q.
        destruct (cached (snd acc) p), (readable fs p), (inNames files p);
          reflexivity.
      * rewrite orb_false_r. reflexivity.
    + rewrite I2, G2, G1, Hin, Hcount.
      destruct (text_eqb q p) eqn:E; cbn [andb orb].
      * apply text_eqb_eq in E. subst q.
        specialize (Hc p).
        destruct (cached (snd acc) p) eqn:C, (readable fs p) eqn:R;
          cbn [negb orb andb];
          first [ lia
                | specialize (Hc eq_refl); discriminate Hc
                | destruct (inNames files p); lia ].
      * rewrite orb_false_r.
        destruct (readable fs q), (cached (snd acc) q), (inNames files q);
          lia.
Qed.

Lemma modelStep_state (files : list text) (st : analyzer)
  (e : text * modelInfo) :
  let st1 := snd (scanFiles fs files st (fst e) (snd e)) in
  fileCache (modelStep fs files st e) = fileCache st1 /\
  reads (modelStep fs files st e) = reads st1.
Proof.
  unfold modelStep.
  destruct (scanFiles fs files st (fst e) (snd e)) as [mu st1].
  split; reflexivity.
Qed.

(** The passes of [analyzeAllModels], one for each model. *)
Lemma passes_trace (files : list text) (l : list (text * modelInfo)) :
  forall st,
  (forall q, cached st q = true -> readable fs q = true) ->
  let st' := fold_left (modelStep fs files) l st in
  (forall q, cached st' q
             = cached st q
               || (inNames files q && readable fs q && (0 <? length l))) /\
  (forall q, countOf q (reads st')
             = countOf q (reads st)
               + if readable fs q
                 then if cached st q then 0
                      else if inNames files q && (0 <? length l) then 1 else 0
                 else length l * countOf q files).
Proof.
  induction l as [|e l IH]; intros st Hc; cbn zeta.
  - cbn [fold_left length Nat.ltb Nat.leb Nat.mul]. split; intros q.
    + rewrite andb_false_r, orb_false_r. reflexivity.
    + rewrite andb_false_r.
      destruct (readable fs q), (cached st q); lia.
  - cbn [fold_left].
    destruct (modelStep_state files st e) as (M1 & M2). cbn zeta in M1, M2.
    destruct (pass_trace (fst e) files (newModelUsage (snd e), st) Hc)
      as (P1 & P2).
    cbn zeta in P1, P2. cbn [snd] in P1, P2.
    fold (scanFiles fs files st (fst e) (snd e)) in P1, P2.
    set (st1 := modelStep fs files st e) in *.
    assert (C1 : forall q, cached st1 q
                           = cached st q || (inNames files q && readable fs q)).
    { intros q. unfold cached at 1. rewrite M1. apply P1. }
    assert (R1 : forall q, countOf q (reads st1)
                 = countOf q (reads st)
                   + if readable fs q
                     then if cached st q then 0
                          else if inNames files q then 1 else 0
                     else countOf q files).
    { intros q. rewrite M2. apply P2. }
    assert (Hc1 : forall q, cached st1 q = true -> readable fs q = true).
    { intros q. rewrite C1, orb_true_iff, andb_true_iff.
      intros [H|[_ H]]; [apply Hc; exact H | exact H]. }
    destruct (IH st1 Hc1) as (I1 & I2). cbn zeta in I1, I2.
    split; intros q.
    + rewrite I1, C1. cbn [length Nat.ltb Nat.leb]. rewrite andb_true_r.
      destruct (cached st q), (inNames files q), (readable fs q),
               (0 <? length l); reflexivity.
    + rewrite I2, R1, C1. cbn [length Nat.ltb Nat.leb]. rewrite andb_true_r.
      destruct (readable fs q), (cached st q), (inNames files q),
               (0 <? length l); cbn [orb andb]; lia.
Qed.
End Reads.

(** X17.  In a run, a file that can be read is read from the disk once
    at most, however many models and however often it is listed: once
    when it is listed and the schema has a model, and it is then in the
    cache with its text and clean text.  A file that cannot be read is
    never cached and is read again for every model, at each of its
    places in the list. *)
Theorem X17_files_are_read_once
  (sp cp : text) (fs : filesystem) (parsed : list modelInfo)
  (files : list text) (q : text) :
  let st := analysed sp cp fs parsed files in
  (fs q <> None ->
   countOf q (reads st)
   = (if inNames files q && (0 <? length (models st)) then 1 else 0) /\
   map_get q (fileCache st)
   = (if inNames files q && (0 <? length (models st))
      then Some (contentOf fs q) else None)) /\
  (fs q = None ->
   countOf q (reads st) = length (models st) * countOf q files /\
   map_get q (fileCache st) = None).
Proof.
  intros st.
  set (st0 := parsePrismaSchema parsed (create sp cp)).
  destruct (parsePrismaSchema_ok parsed (create sp cp))
    as (_ & _ & Hcache & _); [constructor|].
  fold st0 in Hcache. cbn [create fileCache] in Hcache.
  assert (Hreads : reads st0 = []).
  { unfold st0, parsePrismaSchema.
    assert (G : forall l st1, reads (fold_left (fun st m =>
                 setModels st (map_set (name m) m (models st))) l st1)
               = reads st1).
    { induction l as [|m l IH]; intros st1; cbn [fold_left];
        [reflexivity|]. rewrite IH. reflexivity. }
    rewrite G. reflexivity. }
  assert (Hc0 : forall p, cached st0 p = false).
  { intros p. unfold cached, map_has. rewrite Hcache. reflexivity. }
  destruct (passes_trace fs files (models st0) st0) as (P1 & P2).
  { intros p. rewrite Hc0. discriminate. }
  cbn zeta in P1, P2.
  change (fold_left (modelStep fs files) (models st0) st0) with st in P1, P2.
  assert (Hm : models st = models st0).
  { unfold st. destruct (analysed_usage sp cp fs parsed files) as (_ & H & _).
    exact H. }
  assert (Hok : cacheOk fs st).
  { unfold st, analysed.
    destruct (analyzeAllModels_ok fs files st0 (cacheOk_create sp cp fs parsed))
      as (_ & H & _). exact H. }
  specialize (P1 q). specialize (P2 q).
  rewrite Hc0, Hreads in *. rewrite <- Hm in P1, P2.
  unfold countOf at 2 in P2. cbn [filter length Nat.add orb] in P1, P2.
  unfold readable in P1, P2. unfold cached, map_has in P1.
  split; intros Hq.
  - destruct (fs q) as [content|] eqn:F; [|contradiction Hq; reflexivity].
    rewrite andb_true_r in P1. split; [exact P2|].
    destruct (map_get q (fileCache st)) as [c|] eqn:E.
    + destruct (Hok q c E) as (_ & ->). rewrite <- P1. reflexivity.
    + rewrite <- P1. reflexivity.
  - rewrite Hq in P1, P2. split; [exact P2|].
    rewrite andb_false_r in P1.
    destruct (map_get q (fileCache st)); [discriminate P1 | reflexivity].
Qed.

(** ** The report and the strict analyzer on the sample project *)

Lemma X12_witness :
  exists modelsByRisk,
    groupByRisk (analysed Sample.server Sample.client Sample.fs
                   Sample.schema Sample.files) = Some modelsByRisk /\
    Results.safeModels (Results.summary Sample.result) = 1 /\
    Results.unusedModels (Results.summary Sample.result) = 2.
Proof.
  destruct (X12_summary_counts Sample.server Sample.client Sample.fs
              Sample.schema Sample.files) as (b & H1 & _).
  exists b. split; [exact H1|].
  split; vm_compute; reflexivity.
Defined.

Lemma X13_witness :
  NoDup (map Results.recModel
           (Results.generateRecommendations
              (analysed Sample.server Sample.client Sample.fs
                 Sample.schema Sample.files))) /\
  map Results.recModel (Results.generateRecommendations Sample.result)
  = [T "Order"; T "Widget"].
Proof.
  split; [|vm_compute; reflexivity].
  destruct (X13_recommendations Sample.server Sample.client Sample.fs
              Sample.schema Sample.files) as (H1 & _).
  exact H1.
Defined.

Lemma X14_witness :
  exists e,
    map_get (T "OrderItem")
      (Results.rModels
         (fst (Results.exportResults
                 (analysed Sample.server Sample.client Sample.fs
                    Sample.schema Sample.files)))) = Some e /\
    length (Results.topUsageFiles e) = 1 /\
    snd (Results.exportResults
           (analysed Sample.server Sample.client Sample.fs
              Sample.schema Sample.files))
    = analysed Sample.server Sample.client Sample.fs
        Sample.schema Sample.files.
Proof.
  eexists. split; [vm_compute; reflexivity|].
  match goal with
  | |- length (Results.topUsageFiles ?e) = 1 /\ _ =>
      destruct (X14_export_entries Sample.server Sample.client Sample.fs
                  Sample.schema Sample.files (T "OrderItem") e)
        as (H1 & _); [vm_compute; reflexivity|]
  end.
  split; [vm_compute; reflexivity | exact H1].
Defined.

Lemma X15_witness :
  Strict.totalFiles
    (Strict.scanFiles Sample.fs Sample.files
       (strictParsed Sample.server Sample.client [T "OrderItem"])
       (T "OrderItem")) = 1 /\
  (Strict.isReallyUsed
     (Strict.scanFiles Sample.fs Sample.files
        (strictParsed Sample.server Sample.client [T "OrderItem"])
        (T "OrderItem")) = true <->
   Strict.realUsages
     (Strict.scanFiles Sample.fs Sample.files
        (strictParsed Sample.server Sample.client [T "OrderItem"])
        (T "OrderItem")) <> []).
Proof.
  split; [vm_compute; reflexivity|].
  destruct (X15_strict_record Sample.fs
              (strictParsed Sample.server Sample.client [T "OrderItem"])
              (T "OrderItem") Sample.files) as (_ & _ & _ & _ & _ & _ & H).
  exact H.
Defined.

Lemma X16_witness :
  length (Strict.usedModels
            (strictAnalysed Sample.server Sample.client Sample.fs
               [T "Order"; T "OrderItem"; T "Widget"] Sample.files))
  + length (Strict.suspiciousModels
              (strictAnalysed Sample.server Sample.client Sample.fs
                 [T "Order"; T "OrderItem"; T "Widget"] Sample.files))
  + length (Strict.unusedModels
              (strictAnalysed Sample.server Sample.client Sample.fs
                 [T "Order"; T "OrderItem"; T "Widget"] Sample.files))
  = length (Strict.models
              (strictAnalysed Sample.server Sample.client Sample.fs
                 [T "Order"; T "OrderItem"; T "Widget"] Sample.files)) /\
  keys (Strict.usedModels
          (strictAnalysed Sample.server Sample.client Sample.fs
             [T "Order"; T "OrderItem"; T "Widget"] Sample.files))
  = [T "OrderItem"].
Proof.
  split; [|vm_compute; reflexivity].
  destruct (X16_strict_verdicts Sample.server Sample.client Sample.fs
              [T "Order"; T "OrderItem"; T "Widget"] Sample.files)
    as (_ & _ & H).
  exact H.
Defined.

Lemma X17_witness :
  (countOf Sample.lostFile
     (reads (analysed Sample.server Sample.client Sample.fs
               Sample.schema Sample.files))
   = length (models (analysed Sample.server Sample.client Sample.fs
                       Sample.schema Sample.files))
     * countOf Sample.lostFile Sample.files /\
   map_get Sample.lostFile
     (fileCache (analysed Sample.server Sample.client Sample.fs
                   Sample.schema Sample.files)) = None) /\
  countOf Sample.lostFile (reads Sample.result) = 3 /\
  countOf Sample.ordersFile (reads Sample.result) = 1.
Proof.
  split; [|split; vm_compute; reflexivity].
  destruct (X17_files_are_read_once Sample.server Sample.client
              Sample.fs Sample.schema Sample.files Sample.lostFile)
    as (_ & H).
  apply H. vm_compute. reflexivity.
Defined.

(** ** Walking the directories *)

Section WalkLemmas.
Variables (excluded fileExtensions : list text).

Lemma getAllFiles_Dir (dirPath : text) (items : list (text * Walk.node)) :
  Walk.getAllFiles excluded fileExtensions dirPath (Walk.Dir items)
  = Walk.visitAll excluded fileExtensions dirPath items.
Proof.
  cbn [Walk.getAllFiles].
  induction items as [|[item child] rest IH]; [reflexivity|].
  cbn [Walk.visitAll]. rewrite <- IH. unfold Walk.visit. cbn [fst snd].
  destruct child; reflexivity.
Qed.

Lemma both_Some (a b : option (list text)) (l : list text) :
  Walk.both a b = Some l <->
  exists x y, a = Some x /\ b = Some y /\ l = x ++ y.
Proof.
  unfold Walk.both. destruct a as [x|], b as [y|]; split;
    try discriminate;
    try (intros (x' & y' & H1 & H2 & _); discriminate).
  - intros H. injection H as <-. exists x, y. auto.
  - intros (x' & y' & H1 & H2 & ->). injection H1 as <-. injection H2 as <-.
    reflexivity.
Qed.

Lemma both_None (a b : option (list text)) :
  Walk.both a b = None <-> a = None \/ b = None.
Proof.
  unfold Walk.both. destruct a, b; split; try discriminate; auto;
    intros [H|H]; discriminate H.
Qed.

Lemma visitAll_Some (dirPath : text) (items : list (text * Walk.node))
  (l : list text) :
  Walk.visitAll excluded fileExtensions dirPath items = Some l ->
  (forall e, In e items ->
     exists le, Walk.visit excluded fileExtensions dirPath e = Some le) /\
  (forall p, In p l <->
     exists e le, In e items /\
       Walk.visit excluded fileExtensions dirPath e = Some le /\ In p le).
Proof.
  revert l. induction items as [|e rest IH]; intros l H.
  - cbn [Walk.visitAll] in H. injection H as <-. split.
    + intros e [].
    + intros p. split; [intros [] | intros (e & le & [] & _)].
  - cbn [Walk.visitAll] in H. apply both_Some in H.
    destruct H as (x & y & Hx & Hy & ->).
    destruct (IH y Hy) as (I1 & I2). split.
    + intros e' [<-|He]; [exists x; exact Hx | apply I1; exact He].
    + intros p. rewrite in_app_iff, I2. split.
      * intros [Hp|(e' & le & He & Hv & Hp)].
        -- exists e, x. split; [left; reflexivity|]. auto.
        -- exists e', le. split; [right; exact He|]. auto.
      * intros (e' & le & [<-|He] & Hv & Hp).
        -- left. rewrite Hx in Hv. injection Hv as <-. exact Hp.
        -- right. exists e', le. auto.
Qed.

Lemma visitAll_None (dirPath : text) (items : list (text * Walk.node)) :
  Walk.visitAll excluded fileExtensions dirPath items = None <->
  exists e, In e items /\
            Walk.visit excluded fileExtensions dirPath e = None.
Proof.
  induction items as [|e rest IH]; cbn [Walk.visitAll].
  - split; [discriminate | intros (e & [] & _)].
  - rewrite both_None, IH. split.
    + intros [H|(e' & He & Hv)].
      * exists e. split; [left; reflexivity | exact H].
      * exists e'. split; [right; exact He | exact Hv].
    + intros (e' & [<-|He] & Hv); [left; exact Hv|].
      right. exists e'. auto.
Qed.

Lemma listed_is_Dir (n : Walk.node) (dirs : list text) (item : text) :
  Walk.listed excluded fileExtensions n dirs item ->
  exists items, n = Walk.Dir items.
Proof. intros H. destruct H; eexists; reflexivity. Qed.

(** The files [getAllFiles] returns. *)
Lemma getAllFiles_listed (n : Walk.node) :
  forall (dirPath : text) (l : list text),
  Walk.getAllFiles excluded fileExtensions dirPath n = Some l ->
  forall p, In p l <->
    exists dirs item,
      Walk.listed excluded fileExtensions n dirs item /\
      p = fold_left Walk.join (dirs ++ [item]) dirPath.
Proof.
  induction n as [| | |items IH] using Walk.node_induction;
    intros dirPath l H p.
  - discriminate H.
  - discriminate H.
  - cbn [Walk.getAllFiles] in H. injection H as <-. split; [intros []|].
    intros (dirs & item & Hl & _). apply listed_is_Dir in Hl.
    destruct Hl as (items & Hl). discriminate Hl.
  - rewrite getAllFiles_Dir in H.
    destruct (visitAll_Some dirPath items l H) as (Hall & Hin).
    rewrite Hin. rewrite Forall_forall in IH. split.
    + intros ([item child] & le & He & Hv & Hp).
      unfold Walk.visit in Hv. cbn [fst snd] in Hv.
      destruct child as [|sub| |].
      * destruct (existsb (Walk.endsWith item) fileExtensions) eqn:Ext;
          injection Hv as <-; [|contradiction].
        destruct Hp as [<-|[]]. exists [], item.
        split; [apply Walk.listed_here; assumption | reflexivity].
      * destruct (Walk.includes excluded item) eqn:Ex;
          [injection Hv as <-; contradiction|].
        apply (proj1 (IH (item, Walk.Dir sub) He _ _ Hv p)) in Hp.
        destruct Hp as (dirs & item' & Hl & ->).
        exists (item :: dirs), item'. split; [|reflexivity].
        eapply Walk.listed_below; eassumption.
      * destruct (Walk.includes excluded item);
          [injection Hv as <-; contradiction | discriminate Hv].
      * injection Hv as <-. contradiction.
    + intros (dirs & item & Hl & ->).
      inversion Hl as [items' item' Hi Hext|
                       items' dir child dirs' item' Hi Hex Hl']; subst.
      * exists (item, Walk.File), [Walk.join dirPath item].
        split; [exact Hi|]. split; [|left; reflexivity].
        unfold Walk.visit. cbn [fst snd]. rewrite Hext. reflexivity.
      * destruct (Hall _ Hi) as (le & Hv).
        exists (dir, child), le. split; [exact Hi|]. split; [exact Hv|].
        destruct (listed_is_Dir _ _ _ Hl') as (sub & ->).
        unfold Walk.visit in Hv. cbn [fst snd] in Hv. rewrite Hex in Hv.
        apply (proj2 (IH (dir, Walk.Dir sub) Hi _ _ Hv _)).
        exists dirs', item. split; [exact Hl'|]. reflexivity.
Qed.

(** When [getAllFiles] throws. *)
Lemma getAllFiles_blocked (n : Walk.node) :
  forall dirPath,
  Walk.getAllFiles excluded fileExtensions dirPath n = None <->
  Walk.blocked excluded n.
Proof.
  induction n as [| | |items IH] using Walk.node_induction; intros dirPath.
  - split; [intros _; constructor | reflexivity].
  - split; [intros _; constructor | reflexivity].
  - split; [discriminate | intros H; inversion H].
  - rewrite getAllFiles_Dir, visitAll_None. rewrite Forall_forall in IH.
    split.
    + intros ([item child] & He & Hv). unfold Walk.visit in Hv.
      cbn [fst snd] in Hv.
      destruct child as [|sub| |].
      * destruct (existsb (Walk.endsWith item) fileExtensions);
          discriminate Hv.
      * destruct (Walk.includes excluded item) eqn:Ex; [discriminate Hv|].
        apply (proj1 (IH (item, Walk.Dir sub) He _)) in Hv.
        eapply Walk.blocked_below; [exact He | exact Ex | discriminate
                                   | exact Hv].
      * destruct (Walk.includes excluded item) eqn:Ex; [discriminate Hv|].
        eapply Walk.blocked_below; [exact He | exact Ex | discriminate
                                   | constructor].
      * discriminate Hv.
    + intros H. inversion H as [| |items' dir child Hi Hex Hnf Hb]; subst.
      exists (dir, child). split; [exact Hi|].
      unfold Walk.visit. cbn [fst snd]. rewrite Hex.
      destruct child as [|sub| |]; [contradiction Hnf; reflexivity | |
                                    reflexivity | inversion Hb].
      apply (proj2 (IH (dir, Walk.Dir sub) Hi _)). exact Hb.
Qed.
End WalkLemmas.

(** X18.  [getAllFiles] throws exactly when a directory that cannot be
    listed is reached without going through a skipped directory, or
    when it is asked for something that is not a directory.  Otherwise
    it returns the files with a wanted ending that are reached through
    directories none of which is skipped, each under its path joined
    from the start; nothing below a skipped directory is returned. *)
Theorem X18_getAllFiles_walk
  (excluded fileExtensions : list text) (dirPath : text) (n : Walk.node) :
  (Walk.getAllFiles excluded fileExtensions dirPath n = None <->
   Walk.blocked excluded n) /\
  (forall l,
     Walk.getAllFiles excluded fileExtensions dirPath n = Some l ->
     forall p, In p l <->
       exists dirs item,
         Walk.listed excluded fileExtensions n dirs item /\
         p = fold_left Walk.join (dirs ++ [item]) dirPath) /\
  (forall dirs item,
     Walk.listed excluded fileExtensions n dirs item ->
     Forall (fun d => Walk.includes excluded d = false) dirs /\
     existsb (Walk.endsWith item) fileExtensions = true).
Proof.
  split; [apply getAllFiles_blocked|].
  split; [intros l H; apply (getAllFiles_listed _ _ n dirPath l H)|].
  intros dirs item H. induction H as [items item Hi Hext|
                                      items dir child dirs item Hi Hex _ IH].
  - split; [constructor | exact Hext].
  - destruct IH as (IH1 & IH2). split; [|exact IH2].
    constructor; assumption.
Qed.

Lemma startsWith_app (d x : text) : startsWith (d ++ x) d = true.
Proof.
  induction d as [|c d IH]; [destruct x; reflexivity|].
  cbn [app startsWith]. rewrite IH, andb_true_r. apply Ascii.eqb_refl.
Qed.

Lemma startsWith_more (s p t : text) :
  startsWith s p = true -> startsWith (s ++ t) p = true.
Proof.
  revert s. induction p as [|c p IH]; intros s H;
    [destruct (s ++ t); reflexivity|].
  destruct s as [|x s]; [discriminate H|].
  cbn [app startsWith] in *. apply andb_true_iff in H. destruct H as (H1 & H2).
  rewrite H1, (IH s H2). reflexivity.
Qed.

Lemma endsWith_more (s suffix t : text) :
  Walk.endsWith s suffix = true -> Walk.endsWith (t ++ s) suffix = true.
Proof.
  unfold Walk.endsWith. rewrite rev_app_distr. apply startsWith_more.
Qed.

Lemma join_parts (dirPath item : text) :
  exists sep, Walk.join dirPath item = dirPath ++ sep ++ item.
Proof. unfold Walk.join. eexists. reflexivity. Qed.

Lemma joined_parts (names : list text) :
  forall dirPath item,
  exists mid,
    fold_left Walk.join (names ++ [item]) dirPath = dirPath ++ mid ++ item.
Proof.
  induction names as [|n names IH]; intros dirPath item.
  - cbn [app fold_left]. apply join_parts.
  - cbn [app fold_left]. destruct (IH (Walk.join dirPath n) item) as (mid & ->).
    destruct (join_parts dirPath n) as (sep & ->).
    exists (sep ++ n ++ mid). rewrite <- !app_assoc. reflexivity.
Qed.

(** A file returned by the walk is under the directory asked for and
    has one of the endings. *)
Lemma getAllFilesAt_paths (excluded fileExtensions : list text)
  (w : Walk.world) (dirPath : text) (l : list text) (p : text) :
  Walk.getAllFilesAt excluded fileExtensions w dirPath = Some l ->
  In p l ->
  (exists rest, p = dirPath ++ rest) /\
  existsb (Walk.endsWith p) fileExtensions = true.
Proof.
  unfold Walk.getAllFilesAt. destruct (w dirPath) as [n|];
    [|intros H; injection H as <-; contradiction].
  intros H Hp.
  apply (getAllFiles_listed excluded fileExtensions n dirPath l H) in Hp.
  destruct Hp as (dirs & item & Hl & ->).
  destruct (joined_parts dirs dirPath item) as (mid & ->).
  split; [eexists; reflexivity|].
  assert (Hext : existsb (Walk.endsWith item) fileExtensions = true).
  { clear - Hl. induction Hl; assumption. }
  apply existsb_exists in Hext. destruct Hext as (ext & He & Hext).
  apply existsb_exists. exists ext. split; [exact He|].
  rewrite app_assoc. apply endsWith_more. exact Hext.
Qed.

Lemma pushFrom_None (w : Walk.world) (paths : list text) :
  fold_left (Walk.pushFrom w) paths None = None.
Proof. induction paths as [|x ps IH]; [reflexivity | exact IH]. Qed.

Lemma pushFrom_Some (w : Walk.world) (files : list text) (sp : text) :
  Walk.pushFrom w (Some files) sp
  = if Walk.existsSync w sp
    then Walk.both (Some files) (Walk.getAllFilesOf w sp)
    else Some files.
Proof. reflexivity. Qed.

Lemma pushFrom_acc (w : Walk.world) (paths : list text) :
  forall acc,
  fold_left (Walk.pushFrom w) paths (Some acc)
  = Walk.both (Some acc) (Walk.gather w paths).
Proof.
  unfold Walk.gather.
  induction paths as [|sp paths IH]; intros acc; cbn [fold_left].
  - unfold Walk.both. rewrite app_nil_r. reflexivity.
  - rewrite !pushFrom_Some.
    destruct (Walk.existsSync w sp); [|apply IH].
    destruct (Walk.getAllFilesOf w sp) as [l|].
    + change (Walk.both (Some acc) (Some l)) with (Some (acc ++ l)).
      change (Walk.both (Some []) (Some l)) with (Some l).
      rewrite (IH (acc ++ l)), (IH l).
      destruct (fold_left _ paths (Some [])) as [r|];
        unfold Walk.both; [|reflexivity].
      rewrite app_assoc. reflexivity.
    + change (Walk.both (Some acc) None) with (@None (list text)).
      change (Walk.both (Some []) None) with (@None (list text)).
      rewrite !pushFrom_None. reflexivity.
Qed.

Lemma gather_paths (w : Walk.world) (paths : list text) :
  forall l p,
  Walk.gather w paths = Some l -> In p l ->
  exists sp rest, In sp paths /\ p = sp ++ rest /\
    existsb (Walk.endsWith p) Walk.fileExtensions = true.
Proof.
  induction paths as [|sp paths IH]; intros l p H Hp.
  - injection H as <-. contradiction.
  - unfold Walk.gather in H. cbn [fold_left] in H.
    rewrite pushFrom_Some in H.
    destruct (Walk.existsSync w sp).
    + destruct (Walk.getAllFilesOf w sp) as [l0|] eqn:E.
      * change (Walk.both (Some []) (Some l0)) with (Some l0) in H.
        rewrite pushFrom_acc in H. apply both_Some in H.
        destruct H as (x & y & Hx & Hy & ->). injection Hx as <-.
        apply in_app_or in Hp. destruct Hp as [Hp|Hp].
        -- destruct (getAllFilesAt_paths _ _ w sp l0 p E Hp)
             as ((rest & ->) & Hext).
           exists sp, rest. split; [left; reflexivity|]. auto.
        -- destruct (IH y p Hy Hp) as (sp' & rest & Hin & -> & Hext).
           exists sp', rest. split; [right; exact Hin|]. auto.
      * change (Walk.both (Some []) None) with (@None (list text)) in H.
        rewrite pushFrom_None in H. discriminate H.
    + destruct (IH l p H Hp) as (sp' & rest & Hin & -> & Hext).
      exists sp', rest. split; [right; exact Hin|]. auto.
Qed.

Lemma analysis_flag (fs : filesystem) (st : analyzer)
  (modelName filePath : text) (a : usageAnalysis) :
  fst (analyzeModelUsage fs st modelName filePath) = Some a ->
  isClientFile a = startsWith filePath (clientPath st).
Proof.
  unfold analyzeModelUsage.
  destruct (getFileContent fs st filePath) as [c st']. cbn [fst].
  unfold analyzeContent. cbn zeta.
  destruct (0 <? usageCount _); [|discriminate].
  intros H. injection H as <-. apply runTiers_frame.
Qed.

(** X19.  The list of files of [analyzeAllModels] is what the walks of
    the server search paths return, then what those of the client search
    paths return.  Every file has one of the six endings; the files of
    the server walks are under the server path; those of the client
    walks are under the client path, so that an analysis of one of them
    is flagged as a client file. *)
Theorem X19_gathered_files
  (w : Walk.world) (st : analyzer) (files : list text) :
  Walk.allFiles w st = Some files ->
  exists serverFiles clientFiles,
    files = serverFiles ++ clientFiles /\
    Walk.gather w (Walk.serverSearchPaths (serverPath st)) = Some serverFiles
    /\
    Walk.gather w (Walk.clientSearchPaths (clientPath st)) = Some clientFiles
    /\
    (forall p, In p files ->
       existsb (Walk.endsWith p) Walk.fileExtensions = true) /\
    (forall p, In p serverFiles -> startsWith p (serverPath st) = true) /\
    (forall p, In p clientFiles ->
       startsWith p (clientPath st) = true /\
       forall fs modelName a,
         fst (analyzeModelUsage fs st modelName p) = Some a ->
         isClientFile a = true).
Proof.
  unfold Walk.allFiles. intros H.
  fold (Walk.gather w (Walk.serverSearchPaths (serverPath st))) in H.
  destruct (Walk.gather w (Walk.serverSearchPaths (serverPath st)))
    as [sf|] eqn:Es.
  - rewrite pushFrom_acc in H. apply both_Some in H.
    destruct H as (x & cf & Hx & Ec & ->). injection Hx as <-.
    assert (Under : forall root names l p,
              Walk.gather w (map (fun d => Walk.join root (T d)) names)
              = Some l ->
              In p l -> startsWith p root = true).
    { intros root names l p Hg Hp.
      destruct (gather_paths w _ l p Hg Hp) as (sp & rest & Hin & -> & _).
      apply in_map_iff in Hin. destruct Hin as (d & <- & _).
      destruct (join_parts root (T d)) as (sep & ->).
      rewrite <- !app_assoc. apply startsWith_app. }
    exists sf, cf. split; [reflexivity|]. split; [reflexivity|].
    split; [exact Ec|]. split; [|split].
    + intros p Hp. apply in_app_or in Hp. destruct Hp as [Hp|Hp].
      * destruct (gather_paths w _ sf p Es Hp) as (_ & _ & _ & _ & Hext).
        exact Hext.
      * destruct (gather_paths w _ cf p Ec Hp) as (_ & _ & _ & _ & Hext).
        exact Hext.
    + intros p Hp. apply (Under _ _ sf p Es Hp).
    + intros p Hp. pose proof (Under _ _ cf p Ec Hp) as Hc.
      split; [exact Hc|]. intros fs modelName a Ha.
      rewrite (analysis_flag fs st modelName p a Ha). exact Hc.
  - rewrite pushFrom_None in H. discriminate H.
Qed.

Lemma unique_spec (l : list text) :
  NoDup (Walk.unique l) /\ forall p, In p (Walk.unique l) <-> In p l.
Proof.
  unfold Walk.unique.
  destruct (fold_addName l [] (NoDup_nil _)) as (H1 & H2).
  split; [exact H1|]. intros p. rewrite H2. simpl. tauto.
Qed.

Lemma concatAll_Some (f : text -> option (list text)) (paths : list text) :
  forall l,
  Walk.concatAll (map f paths) = Some l ->
  forall p, In p l <-> exists sp l', In sp paths /\ f sp = Some l' /\ In p l'.
Proof.
  induction paths as [|sp paths IH]; intros l H p.
  - injection H as <-. split; [intros [] | intros (sp & l' & [] & _)].
  - cbn [map Walk.concatAll fold_right] in H.
    fold (Walk.concatAll (map f paths)) in H. apply both_Some in H.
    destruct H as (x & y & Hx & Hy & ->).
    rewrite in_app_iff, (IH y Hy p). split.
    + intros [Hp|(sp' & l' & Hin & Hf & Hp)].
      * exists sp, x. split; [left; reflexivity|]. auto.
      * exists sp', l'. split; [right; exact Hin|]. auto.
    + intros (sp' & l' & [<-|Hin] & Hf & Hp).
      * left. rewrite Hx in Hf. injection Hf as <-. exact Hp.
      * right. exists sp', l'. auto.
Qed.

Lemma strict_names_kept (d : string) :
  In d [ "routes"; "services"; "controllers"; "middleware"; "utils" ] ->
  Walk.includes Walk.strictExcludedDirs (T d) = false.
Proof.
  intros [<-|[<-|[<-|[<-|[<-|[]]]]]]; vm_compute; reflexivity.
Qed.

(** X20.  The list of files the strict analyzer scans has no path twice
    and holds the paths of the server walks, of the client walk and the
    key client files added, and nothing else; a key client file is added
    only when it exists and the client walk did not return it.  The
    server files are under [src] and the client files under the client
    path.  When the five directories walked again are the entries of
    [src] of those names, their walks return nothing the walk of [src]
    has not returned: the server files are those of [src], some listed
    twice. *)
Theorem X20_strict_files
  (w : Walk.world) (st : Strict.analyzer) (g : Walk.gathered) :
  Walk.strictFiles w st = Some g ->
  NoDup (Walk.scanned g) /\
  (forall p, In p (Walk.scanned g) <->
     In p (Walk.serverFiles g) \/ In p (Walk.clientFiles g)
     \/ In p (Walk.clientSpecificFiles g)) /\
  (forall p, In p (Walk.clientSpecificFiles g) ->
     In p (Walk.keyClientFiles st) /\ ~ In p (Walk.clientFiles g)
     /\ Walk.existsSync w p = true) /\
  (forall p, In p (Walk.serverFiles g) ->
     startsWith p (Strict.serverPath st) = true) /\
  (forall p, In p (Walk.clientFiles g) ->
     startsWith p (Strict.clientPath st) = true) /\
  (Walk.nested w st ->
   exists l0 more,
     Walk.strictGetAllFiles w (Walk.srcPath st) = Some l0 /\
     Walk.serverFiles g = l0 ++ more /\
     forall p, In p more -> In p l0).
Proof.
  unfold Walk.strictFiles.
  destruct (Walk.concatAll _) as [sf|] eqn:Es; [|discriminate].
  destruct (if Walk.existsSync w (Strict.clientPath st) then _ else _)
    as [cf|] eqn:Ec; [|discriminate].
  cbv zeta.
  set (cs := if Walk.existsSync w (Strict.clientPath st)
             then filter _ _ else []).
  intros H.
  apply (f_equal (fun o => match o with Some x => x | None => g end)) in H.
  cbv beta iota in H. subst g.
  cbn [Walk.scanned Walk.serverFiles Walk.clientFiles
       Walk.clientSpecificFiles].
  destruct (unique_spec (sf ++ cf ++ cs)) as (U1 & U2).
  split; [exact U1|]. split; [|split; [|split; [|split]]].
  - intros p. rewrite U2, !in_app_iff. reflexivity.
  - intros p Hp. unfold cs in Hp.
    destruct (Walk.existsSync w (Strict.clientPath st)); [|contradiction].
    apply filter_In in Hp. destruct Hp as (Hk & Hb).
    apply andb_true_iff in Hb. destruct Hb as (He & Hn).
    split; [exact Hk|]. split; [|exact He].
    intros Hin. apply negb_true_iff in Hn.
    assert (Hi : Walk.includes cf p = true).
    { unfold Walk.includes. apply existsb_exists. exists p.
      split; [exact Hin | apply text_eqb_refl]. }
    congruence.
  - intros p Hp.
    apply (concatAll_Some (Walk.strictGetAllFiles w) _ sf Es) in Hp.
    destruct Hp as (sp & l' & Hin & Hf & Hp).
    destruct (getAllFilesAt_paths _ _ w sp l' p Hf Hp) as ((rest & ->) & _).
    assert (Hsp : exists r, sp = Strict.serverPath st ++ r).
    { destruct Hin as [<-|Hin].
      - unfold Walk.srcPath.
        destruct (join_parts (Strict.serverPath st) (T "src")) as (s1 & ->).
        eexists. reflexivity.
      - unfold Walk.subPaths in Hin. apply in_map_iff in Hin.
        destruct Hin as (d & <- & _). unfold Walk.srcPath.
        destruct (join_parts (Strict.serverPath st) (T "src")) as (s1 & ->).
        destruct (join_parts (Strict.serverPath st ++ s1 ++ T "src") (T d))
          as (s2 & ->).
        eexists. rewrite <- !app_assoc. reflexivity. }
    destruct Hsp as (r & ->). rewrite <- app_assoc. apply startsWith_app.
  - intros p Hp.
    destruct (Walk.existsSync w (Strict.clientPath st));
      [|injection Ec as <-; contradiction].
    destruct (getAllFilesAt_paths _ _ w _ cf p Ec Hp) as ((rest & ->) & _).
    unfold Walk.clientSrcPath.
    destruct (join_parts (Strict.clientPath st) (T "src")) as (s1 & ->).
    rewrite <- !app_assoc. apply startsWith_app.
  - intros Hnested.
    cbn [map Walk.concatAll fold_right] in Es.
    fold (Walk.concatAll (map (Walk.strictGetAllFiles w) (Walk.subPaths st)))
      in Es.
    apply both_Some in Es. destruct Es as (l0 & more & H0 & Hmore & ->).
    exists l0, more. split; [exact H0|]. split; [reflexivity|].
    intros p Hp.
    apply (concatAll_Some (Walk.strictGetAllFiles w) _ more Hmore) in Hp.
    destruct Hp as (sp & l' & Hin & Hf & Hp).
    unfold Walk.subPaths in Hin. apply in_map_iff in Hin.
    destruct Hin as (d & <- & Hd).
    unfold Walk.strictGetAllFiles, Walk.getAllFilesAt in Hf, H0.
    destruct (w (Walk.join (Walk.srcPath st) (T d))) as [child|] eqn:Ew;
      [|injection Hf as <-; contradiction].
    destruct (Hnested d child Hd Ew) as (items & Hsrc & Hitem).
    rewrite Hsrc in H0.
    apply (getAllFiles_listed _ _ _ _ _ Hf) in Hp.
    destruct Hp as (dirs & item & Hl & ->).
    apply (getAllFiles_listed _ _ _ _ _ H0).
    exists (T d :: dirs), item. split; [|reflexivity].
    eapply Walk.listed_below; [exact Hitem | | exact Hl].
    apply strict_names_kept. exact Hd.
Qed.

(** ** The walks on the sample tree *)

Lemma X18_witness :
  exists l,
    Walk.getAllFiles Walk.excludedDirs Walk.fileExtensions
      (T "/app/server/src") SampleTree.serverSrc = Some l /\
    (forall p, In p l <->
       exists dirs item,
         Walk.listed Walk.excludedDirs Walk.fileExtensions
           SampleTree.serverSrc dirs item /\
         p = fold_left Walk.join (dirs ++ [item]) (T "/app/server/src")) /\
    l = [ T "/app/server/src/orders.ts"; T "/app/server/src/legacy.ts";
          T "/app/server/src/routes/orders.route.ts" ].
Proof.
  eexists. split; [vm_compute; reflexivity|]. split; [|reflexivity].
  destruct (X18_getAllFiles_walk Walk.excludedDirs Walk.fileExtensions
              (T "/app/server/src") SampleTree.serverSrc) as (_ & H & _).
  apply H. vm_compute. reflexivity.
Defined.

Lemma X19_witness :
  exists files serverFiles clientFiles,
    Walk.allFiles SampleTree.w SampleTree.st = Some files /\
    files = serverFiles ++ clientFiles /\
    (forall p, In p clientFiles ->
       startsWith p (clientPath SampleTree.st) = true /\
       forall fs modelName a,
         fst (analyzeModelUsage fs SampleTree.st modelName p) = Some a ->
         isClientFile a = true) /\
    length files = 5.
Proof.
  eexists.
  assert (E : Walk.allFiles SampleTree.w SampleTree.st = Some ?[files])
    by (vm_compute; reflexivity).
  destruct (X19_gathered_files SampleTree.w SampleTree.st _ E)
    as (sf & cf & H1 & _ & _ & _ & _ & H6).
  exists sf, cf. split; [exact E|]. split; [exact H1|].
  split; [exact H6 | reflexivity].
Defined.

Lemma X20_witness :
  exists g l0 more,
    Walk.strictFiles SampleTree.w SampleTree.sst = Some g /\
    NoDup (Walk.scanned g) /\
    Walk.serverFiles g = l0 ++ more /\
    (forall p, In p more -> In p l0) /\
    length (Walk.serverFiles g) = 4 /\ length (Walk.scanned g) = 5.
Proof.
  eexists.
  assert (E : Walk.strictFiles SampleTree.w SampleTree.sst = Some ?[g])
    by (vm_compute; reflexivity).
  assert (N : Walk.nested SampleTree.w SampleTree.sst).
  { intros d child [<-|[<-|[<-|[<-|[<-|[]]]]]] H; vm_compute in H;
      try discriminate H.
    injection H as <-. eexists. split; [vm_compute; reflexivity|].
    right. right. left. reflexivity. }
  destruct (X20_strict_files SampleTree.w SampleTree.sst _ E)
    as (H1 & _ & _ & _ & _ & H6).
  destruct (H6 N) as (l0 & more & _ & H7 & H8).
  exists l0, more. split; [exact E|]. split; [exact H1|].
  split; [exact H7|]. split; [exact H8|]. split; reflexivity.
Defined.

(** ** Reading the schema *)

Section Parts.
Variable f : flags.

Lemma mt_parts_follows (rs : list re) :
  forall p ends, In ends (Schema.mt_parts f rs p) <-> Schema.follows f p rs ends.
Proof.
  induction rs as [|r rs IH]; intros p ends; cbn [Schema.mt_parts Schema.follows].
  - destruct ends as [|q ends].
    + split; [intros _; exact I | intros _; left; reflexivity].
    + split; [intros [H|[]]; discriminate H | intros []].
  - rewrite in_flat_map. split.
    + intros (q & Hq & Hin). apply in_map_iff in Hin.
      destruct Hin as (ends' & <- & Hin). split; [exact Hq|].
      apply IH. exact Hin.
    + destruct ends as [|q ends']; [contradiction|]. intros (Hq & Hf).
      exists q. split; [exact Hq|]. apply in_map. apply IH. exact Hf.
Qed.

Lemma follows_length (rs : list re) :
  forall p ends, Schema.follows f p rs ends ->
  length (snd (last ends p)) <= length (snd p) /\
  (existsb consumes rs = true ->
   length (snd (last ends p)) < length (snd p)).
Proof.
  induction rs as [|r rs IH]; intros p ends H; destruct ends as [|q ends];
    cbn [Schema.follows] in H; try contradiction.
  - cbn [last existsb]. split; [lia | discriminate].
  - destruct H as (Hq & Hf). destruct (IH q ends Hf) as (I1 & I2).
    assert (Hl : forall d q0, last (q0 :: ends) d = last ends q0).
    { clear. induction ends as [|x ends IHe]; intros d q0; [reflexivity|].
      change (last (q0 :: x :: ends) d) with (last (x :: ends) d).
      rewrite (IHe d x), (IHe q0 x). reflexivity. }
    rewrite Hl. pose proof (mt_length f r p q Hq) as Hle.
    split; [lia|]. cbn [existsb]. intros Hc. apply orb_true_iff in Hc.
    destruct Hc as [Hc|Hc].
    + pose proof (mt_consumes f r p q Hc Hq). lia.
    + specialize (I2 Hc). lia.
Qed.

Lemma exec_parts_follows (rs : list re) (p : pos) (ends : list pos) :
  Schema.exec_parts f rs p = Some ends ->
  Schema.at_bol f p = true /\ Schema.follows f p rs ends.
Proof.
  unfold Schema.exec_parts. destruct (Schema.at_bol f p); [|discriminate].
  destruct (Schema.mt_parts f rs p) as [|e l] eqn:E; [discriminate|].
  intros H. injection H as <-. split; [reflexivity|].
  apply mt_parts_follows. rewrite E. left. reflexivity.
Qed.

(** The loop ends when no match is empty. *)
Lemma execAll_ends (rs : list re) :
  existsb consumes rs = true ->
  forall s prev skip, exists ms, Schema.execAll f rs prev s skip = Some ms.
Proof.
  intros Hc. induction s as [|c t IH]; intros prev skip.
  - destruct skip; cbn [Schema.execAll]; [|eexists; reflexivity].
    destruct (Schema.exec_parts f rs (prev, [])) as [ends|] eqn:E;
      [|eexists; reflexivity].
    apply exec_parts_follows in E. destruct E as (_ & E).
    apply follows_length in E. destruct E as (_ & E). specialize (E Hc).
    cbn [snd length] in E. lia.
  - destruct skip as [|k]; cbn [Schema.execAll]; [|apply IH].
    destruct (Schema.exec_parts f rs (prev, c :: t)) as [ends|] eqn:E;
      [|apply IH].
    apply exec_parts_follows in E. destruct E as (_ & E).
    apply follows_length in E. destruct E as (_ & E). specialize (E Hc).
    cbn [snd] in E.
    destruct (length (c :: t) - length (snd (last ends (prev, c :: t))))
      as [|k] eqn:D; [lia|].
    destruct (IH (Some c) k) as (ms & ->). eexists. reflexivity.
Qed.

(** Every match of the loop is the first way the parts match at a start
    of line of the subject. *)
Lemma execAll_matches (rs : list re) :
  forall s prev skip ms m,
  Schema.execAll f rs prev s skip = Some ms -> In m ms ->
  exists p ends, Schema.exec_parts f rs p = Some ends /\
                 m = Schema.spans p ends /\
                 exists before, s = before ++ snd p.
Proof.
  induction s as [|c t IH]; intros prev skip ms m H Hm.
  - destruct skip; cbn [Schema.execAll] in H;
      [|injection H as <-; contradiction].
    destruct (Schema.exec_parts f rs (prev, [])) as [ends|] eqn:E;
      [|injection H as <-; contradiction].
    destruct (_ - _); [discriminate H|]. cbn [option_map] in H.
    injection H as <-. destruct Hm as [<-|[]].
    exists (prev, []), ends. split; [exact E|].
    split; [reflexivity|]. exists []. reflexivity.
  - assert (Hrec : forall k ms', Schema.execAll f rs (Some c) t k = Some ms' ->
                   In m ms' ->
                   exists p ends, Schema.exec_parts f rs p = Some ends /\
                     m = Schema.spans p ends /\
                     exists before, c :: t = before ++ snd p).
    { intros k ms' H' Hm'. destruct (IH _ _ _ _ H' Hm')
        as (p & ends & H1 & H3 & before & H4).
      exists p, ends. split; [exact H1|].
      split; [exact H3|]. exists (c :: before). rewrite H4. reflexivity. }
    destruct skip as [|k]; cbn [Schema.execAll] in H;
      [|apply (Hrec _ _ H Hm)].
    destruct (Schema.exec_parts f rs (prev, c :: t)) as [ends|] eqn:E;
      [|apply (Hrec _ _ H Hm)].
    destruct (_ - _) as [|k]; [discriminate H|].
    destruct (Schema.execAll f rs (Some c) t k) as [ms'|] eqn:E';
      [|discriminate H].
    cbn [option_map] in H. injection H as <-. destruct Hm as [<-|Hm].
    + exists (prev, c :: t), ends. split; [exact E|].
      split; [reflexivity|]. exists []. reflexivity.
    + apply (Hrec _ _ E' Hm).
Qed.

(** What a part has matched is the span between its ends. *)
Lemma follows_span (rs : list re) :
  forall p ends i r,
  Schema.follows f p rs ends -> nth_error rs i = Some r ->
  exists p' q', In q' (mt f r p') /\
                Schema.group i (Schema.spans p ends) = Schema.taken p' q' /\
                exists pre, snd p = pre ++ snd p'.
Proof.
  induction rs as [|r0 rs IH]; intros p ends i r H Hi.
  - destruct i; discriminate Hi.
  - destruct ends as [|q ends]; [contradiction H|].
    cbn [Schema.follows] in H. destruct H as (Hq & Hf).
    destruct i as [|i].
    + injection Hi as <-. exists p, q. split; [exact Hq|].
      split; [reflexivity|]. exists []. reflexivity.
    + cbn [nth_error] in Hi. destruct (IH q ends i r Hf Hi)
        as (p' & q' & H1 & H2 & pre & H3).
      exists p', q'. split; [exact H1|]. split; [exact H2|].
      destruct (mt_suffix f r0 p q Hq) as (w & Hw).
      exists (w ++ pre). rewrite Hw, H3, app_assoc. reflexivity.
Qed.

Lemma taken_suffix (p q : pos) (w : text) :
  snd p = w ++ snd q -> Schema.taken p q = w.
Proof.
  intros H. unfold Schema.taken.
  rewrite H, length_app, Nat.add_sub, firstn_app, firstn_all, Nat.sub_diag.
  cbn [firstn]. apply app_nil_r.
Qed.

(** A class repeated once or more takes characters of the class, one at
    least. *)
Lemma mt_plus_class (neg : bool) (l : list catom) (p q : pos) :
  In q (mt f (plus (Cls neg l)) p) ->
  exists w, snd p = w ++ snd q /\ w <> [] /\
            forallb (fun c => xorb neg (in_class f l c)) w = true.
Proof.
  unfold plus. rewrite mt_seq. intros H. apply in_flat_map in H.
  destruct H as (q1 & H1 & H2).
  cbn [mt] in H1. apply one_char_spec in H1. destruct H1 as (x & Hx & Hok).
  rewrite mt_star in H2.
  assert (G : exists w, snd q1 = w ++ snd q /\
                        forallb (fun c => xorb neg (in_class f l c)) w = true).
  { revert H2.
    apply iterate_ind with
      (R := fun a b => exists w, snd a = w ++ snd b /\
              forallb (fun c => xorb neg (in_class f l c)) w = true).
    - intros a. exists []. split; reflexivity.
    - intros a b c Hb (w & Hw & Hall). cbn [mt] in Hb.
      apply one_char_spec in Hb. destruct Hb as (y & Hy & Hoky).
      exists (y :: w). split; [rewrite Hy, Hw; reflexivity|].
      cbn [forallb]. rewrite Hoky, Hall. reflexivity. }
  destruct G as (w & Hw & Hall). exists (x :: w).
  split; [rewrite Hx, Hw; reflexivity|]. split; [discriminate|].
  cbn [forallb]. rewrite Hok, Hall. reflexivity.
Qed.
End Parts.

Lemma word_class (f : flags) (c : ascii) :
  xorb false (in_class f [CWord] c) = is_word c.
Proof. cbn [in_class existsb in_atom xorb]. apply orb_false_r. Qed.

Lemma plus_wd_word (f : flags) (p q : pos) :
  In q (mt f (plus wd) p) -> Schema.word (Schema.taken p q).
Proof.
  intros H. unfold wd in H. apply mt_plus_class in H.
  destruct H as (w & Hw & Hne & Hall).
  rewrite (taken_suffix p q w Hw). split; [exact Hne|].
  rewrite <- Hall. clear. induction w as [|c w IH]; [reflexivity|].
  cbn [forallb]. rewrite IH, word_class. reflexivity.
Qed.

Lemma word_no_comment (w : text) :
  Schema.word w ->
  startsWith w (T "//") = false /\ startsWith w (T "@@") = false.
Proof.
  intros (Hne & Hall). destruct w as [|c w]; [contradiction Hne; reflexivity|].
  cbn [forallb] in Hall. apply andb_true_iff in Hall. destruct Hall as (Hc & _).
  cbn [startsWith T list_ascii_of_string].
  split.
  - destruct (Ascii.eqb "/" c) eqn:E; [|reflexivity].
    apply Ascii.eqb_eq in E. subst c. discriminate Hc.
  - destruct (Ascii.eqb "@" c) eqn:E; [|reflexivity].
    apply Ascii.eqb_eq in E. subst c. discriminate Hc.
Qed.

Lemma parseModels_Some (ms : list (list text)) :
  (forall g, In g ms -> exists m, Schema.parseModel g = Some m) ->
  exists parsed, Schema.parseModels ms = Some parsed.
Proof.
  induction ms as [|g ms IH]; intros H; cbn [Schema.parseModels];
    [eexists; reflexivity|].
  destruct (H g (or_introl eq_refl)) as (m & ->).
  destruct (IH (fun x Hx => H x (or_intror Hx))) as (parsed & ->).
  eexists. reflexivity.
Qed.

Lemma parseModels_In (ms : list (list text)) :
  forall parsed m,
  Schema.parseModels ms = Some parsed -> In m parsed ->
  exists g, In g ms /\ Schema.parseModel g = Some m.
Proof.
  induction ms as [|g ms IH]; intros parsed m H Hm;
    cbn [Schema.parseModels] in H.
  - injection H as <-. contradiction.
  - destruct (Schema.parseModel g) as [info|] eqn:E; [|discriminate H].
    destruct (Schema.parseModels ms) as [infos|]; [|discriminate H].
    injection H as <-. destruct Hm as [<-|Hm].
    + exists g. split; [left; reflexivity | exact E].
    + destruct (IH infos m eq_refl Hm) as (g' & Hg & Hp).
      exists g'. split; [right; exact Hg | exact Hp].
Qed.

Lemma schemaModels_ends (schemaContent : text) :
  exists parsed, Schema.schemaModels schemaContent = Some parsed.
Proof.
  unfold Schema.schemaModels.
  destruct (execAll_ends gm Schema.modelRegex eq_refl schemaContent None 0)
    as (ms & ->).
  apply parseModels_Some. intros g _. unfold Schema.parseModel. cbv zeta.
  unfold Schema.parseFields, Schema.parseRelations.
  destruct (execAll_ends gm Schema.fieldRegex eq_refl
              (Schema.group 5 g) None 0) as (fm & ->).
  destruct (execAll_ends gm Schema.relationRegex eq_refl
              (Schema.group 5 g) None 0) as (rm & ->).
  eexists. reflexivity.
Qed.

Lemma schemaNames_ends (schemaContent : text) :
  exists names, Schema.schemaNames schemaContent = Some names.
Proof.
  unfold Schema.schemaNames.
  destruct (execAll_ends gm Schema.strictModelRegex eq_refl
              schemaContent None 0) as (ms & ->).
  eexists. reflexivity.
Qed.

(** X21.  Reading the schema always ends: none of the patterns that cut
    it matches the empty text, so each [while (regex.exec(...))] loop
    moves on; this holds for the models, for the fields and the
    relationships of every body, and for the names read by the strict
    analyzer.  [parsePrismaSchema] exits exactly when the schema file
    cannot be read, and otherwise stores the models found. *)
Theorem X21_schema_parsing_ends
  (fs : filesystem) (st : analyzer) (sst : Strict.analyzer) :
  (forall schemaContent,
     exists parsed, Schema.schemaModels schemaContent = Some parsed) /\
  (forall schemaContent,
     exists names, Schema.schemaNames schemaContent = Some names) /\
  Schema.parsePrismaSchema fs st <> Schema.Loops /\
  Schema.strictParsePrismaSchema fs sst <> Schema.Loops /\
  (Schema.parsePrismaSchema fs st = Schema.Exits <->
   fs (Schema.prismaSchemaPath (serverPath st)) = None) /\
  (forall schemaContent,
     fs (Schema.prismaSchemaPath (serverPath st)) = Some schemaContent ->
     exists parsed,
       Schema.schemaModels schemaContent = Some parsed /\
       Schema.parsePrismaSchema fs st
       = Schema.Done (parsePrismaSchema parsed st)).
Proof.
  split; [exact schemaModels_ends|]. split; [exact schemaNames_ends|].
  unfold Schema.parsePrismaSchema, Schema.strictParsePrismaSchema.
  split; [|split; [|split]].
  - destruct (fs _) as [c|]; [|discriminate].
    destruct (schemaModels_ends c) as (parsed & ->). discriminate.
  - destruct (fs _) as [c|]; [|discriminate].
    destruct (schemaNames_ends c) as (names & ->). discriminate.
  - destruct (fs _) as [c|]; [|split; reflexivity].
    destruct (schemaModels_ends c) as (parsed & ->).
    split; discriminate.
  - intros c Hc. rewrite Hc.
    destruct (schemaModels_ends c) as (parsed & E). rewrite E.
    exists parsed. split; reflexivity.
Qed.

Lemma notSpace_class (f : flags) (c : ascii) :
  xorb true (in_class f [CSpace] c) = negb (is_space c).
Proof.
  cbn [in_class existsb in_atom xorb]. rewrite orb_false_r. reflexivity.
Qed.

(** A match of the loop, part by part. *)
Lemma execAll_part (f : flags) (rs : list re) (s : text) (ms : list (list text))
  (m : list text) (i : nat) (r : re) :
  Schema.execAll f rs None s 0 = Some ms -> In m ms ->
  nth_error rs i = Some r ->
  exists p' q', In q' (mt f r p') /\ Schema.group i m = Schema.taken p' q'.
Proof.
  intros H Hm Hi.
  destruct (execAll_matches f rs s None 0 ms m H Hm) as (p & ends & E & -> & _).
  apply exec_parts_follows in E. destruct E as (_ & E).
  destruct (follows_span f rs p ends i r E Hi) as (p' & q' & H1 & H2 & _).
  exists p', q'. split; assumption.
Qed.

Lemma fields_kept (ms : list (list text)) :
  (forall m, In m ms -> Schema.word (Schema.group 1 m)) ->
  flat_map Schema.fieldOf ms
  = map (fun m => (Schema.group 1 m, Schema.group 3 m)) ms.
Proof.
  induction ms as [|m ms IH]; intros H; [reflexivity|].
  cbn [flat_map map]. rewrite IH by (intros x Hx; apply H; right; exact Hx).
  unfold Schema.fieldOf.
  destruct (word_no_comment _ (H m (or_introl eq_refl))) as (-> & ->).
  reflexivity.
Qed.

(** X22.  Every model of the schema has a word for name: one character
    at least, letters, digits and underscores only.  So have its
    fields and the fields and models of its relationships; the type of
    a field is a run of characters without white space, one at least.
    The test that drops fields whose name starts with two slashes or two
    at signs never drops one: each match of the field pattern gives a
    field.  The names read by the strict analyzer are words too. *)
Theorem X22_schema_names_are_words (schemaContent : text) :
  (forall parsed m,
     Schema.schemaModels schemaContent = Some parsed -> In m parsed ->
     Schema.word (name m) /\
     (forall fld, In fld (fields m) ->
        Schema.word (fst fld) /\ snd fld <> [] /\
        forallb (fun c => negb (is_space c)) (snd fld) = true) /\
     (forall rel, In rel (relationships m) ->
        Schema.word (field rel) /\ Schema.word (model rel)) /\
     (forall matches,
        Schema.execAll gm Schema.fieldRegex None (rawBody m) 0 = Some matches ->
        fields m
        = map (fun g => (Schema.group 1 g, Schema.group 3 g)) matches)) /\
  (forall names n,
     Schema.schemaNames schemaContent = Some names -> In n names ->
     Schema.word n).
Proof.
  split.
  - intros parsed m H Hm. unfold Schema.schemaModels in H.
    destruct (Schema.execAll gm Schema.modelRegex None schemaContent 0)
      as [ms|] eqn:E; [|discriminate H].
    destruct (parseModels_In ms parsed m H Hm) as (g & Hg & Hp).
    unfold Schema.parseModel in Hp. cbv zeta in Hp.
    unfold Schema.parseFields, Schema.parseRelations in Hp.
    destruct (Schema.execAll gm Schema.fieldRegex None (Schema.group 5 g) 0)
      as [fm|] eqn:Ef; [|discriminate Hp].
    destruct (Schema.execAll gm Schema.relationRegex None (Schema.group 5 g) 0)
      as [rm|] eqn:Er; [|discriminate Hp].
    cbn [option_map] in Hp. injection Hp as <-.
    cbn [name fields relationships rawBody].
    assert (Hfw : forall x, In x fm -> Schema.word (Schema.group 1 x)).
    { intros x Hx.
      destruct (execAll_part gm Schema.fieldRegex _ fm x 1 (plus wd) Ef Hx
                  eq_refl) as (p' & q' & H1 & ->).
      apply (plus_wd_word gm p' q' H1). }
    rewrite (fields_kept fm Hfw).
    split; [|split; [|split]].
    + destruct (execAll_part gm Schema.modelRegex _ ms g 2 (plus wd) E Hg
                  eq_refl) as (p' & q' & H1 & ->).
      apply (plus_wd_word gm p' q' H1).
    + intros fld Hfld. apply in_map_iff in Hfld.
      destruct Hfld as (x & <- & Hx). cbn [fst snd].
      split; [apply Hfw; exact Hx|].
      destruct (execAll_part gm Schema.fieldRegex _ fm x 3
                  (plus Schema.notSpace) Ef Hx eq_refl)
        as (p' & q' & H1 & ->).
      unfold Schema.notSpace in H1. apply mt_plus_class in H1.
      destruct H1 as (w & Hw & Hne & Hall).
      rewrite (taken_suffix p' q' w Hw). split; [exact Hne|].
      rewrite <- Hall. clear. induction w as [|c w IH]; [reflexivity|].
      cbn [forallb]. rewrite IH, notSpace_class. reflexivity.
    + intros rel Hrel. apply in_map_iff in Hrel.
      destruct Hrel as (x & <- & Hx). cbn [Schema.relationOf field model].
      split.
      * destruct (execAll_part gm Schema.relationRegex _ rm x 1 (plus wd)
                    Er Hx eq_refl) as (p' & q' & H1 & ->).
        apply (plus_wd_word gm p' q' H1).
      * destruct (execAll_part gm Schema.relationRegex _ rm x 3 (plus wd)
                    Er Hx eq_refl) as (p' & q' & H1 & ->).
        apply (plus_wd_word gm p' q' H1).
    + intros matches Hmatches. rewrite Ef in Hmatches.
      injection Hmatches as <-. reflexivity.
  - intros names n H Hn. unfold Schema.schemaNames in H.
    destruct (Schema.execAll gm Schema.strictModelRegex None schemaContent 0)
      as [ms|] eqn:E; [|discriminate H].
    cbn [option_map] in H. injection H as <-.
    apply in_map_iff in Hn. destruct Hn as (g & <- & Hg).
    destruct (execAll_part gm Schema.strictModelRegex _ ms g 2 (plus wd) E Hg
                eq_refl) as (p' & q' & H1 & ->).
    apply (plus_wd_word gm p' q' H1).
Qed.

Lemma last_cons {A : Type} (l : list A) :
  forall (d q : A), last (q :: l) d = last l q.
Proof.
  induction l as [|x l IH]; intros d q; [reflexivity|].
  change (last (q :: x :: l) d) with (last (x :: l) d).
  rewrite (IH d x), (IH q x). reflexivity.
Qed.

Lemma hd_flat_map {A B : Type} (g : A -> list B) (l : list A) (x : B) :
  hd_error (flat_map g l) = Some x ->
  exists y, In y l /\ hd_error (g y) = Some x.
Proof.
  induction l as [|y l IH]; cbn [flat_map]; [discriminate|].
  destruct (g y) as [|b bs] eqn:E; cbn [app hd_error].
  - intros H. destruct (IH H) as (z & Hz & Hx).
    exists z. split; [right; exact Hz | exact Hx].
  - intros H. injection H as <-. exists y.
    split; [left; reflexivity|]. rewrite E. reflexivity.
Qed.

Section Heads.
Variable f : flags.

Lemma follows_suffix (rs : list re) :
  forall p ends, Schema.follows f p rs ends ->
  exists w, snd p = w ++ snd (last ends p).
Proof.
  induction rs as [|r rs IH]; intros p ends H; destruct ends as [|q ends];
    cbn [Schema.follows] in H; try contradiction.
  - exists []. reflexivity.
  - destruct H as (Hq & Hf). rewrite last_cons.
    destruct (IH q ends Hf) as (w2 & E2).
    destruct (mt_suffix f r p q Hq) as (w1 & E1).
    exists (w1 ++ w2). rewrite E1, E2 at 1. rewrite app_assoc. reflexivity.
Qed.

Lemma follows_count (rs : list re) :
  forall p ends, Schema.follows f p rs ends -> length ends = length rs.
Proof.
  induction rs as [|r rs IH]; intros p ends H; destruct ends as [|q ends];
    cbn [Schema.follows] in H; try contradiction; [reflexivity|].
  destruct H as (_ & Hf). cbn [length]. rewrite (IH q ends Hf). reflexivity.
Qed.

Lemma follows_app (rs1 rs2 : list re) :
  forall p ends,
  Schema.follows f p (rs1 ++ rs2) ends ->
  exists e1 e2, ends = e1 ++ e2 /\ Schema.follows f p rs1 e1 /\
                Schema.follows f (last e1 p) rs2 e2.
Proof.
  induction rs1 as [|r rs1 IH]; intros p ends H.
  - exists [], ends. split; [reflexivity|]. split; [exact I | exact H].
  - destruct ends as [|q ends]; [contradiction H|].
    cbn [app Schema.follows] in H. destruct H as (Hq & Hf).
    destruct (IH q ends Hf) as (e1 & e2 & -> & H1 & H2).
    exists (q :: e1), e2. split; [reflexivity|].
    split; [split; assumption|]. rewrite last_cons. exact H2.
Qed.

(** The first way a sequence matches: some way for its first parts, and
    from there the first way for the others. *)
Lemma hd_parts_split (rs1 rs2 : list re) :
  forall p ends,
  hd_error (Schema.mt_parts f (rs1 ++ rs2) p) = Some ends ->
  exists e1 e2, ends = e1 ++ e2 /\ Schema.follows f p rs1 e1 /\
                hd_error (Schema.mt_parts f rs2 (last e1 p)) = Some e2.
Proof.
  induction rs1 as [|r rs1 IH]; intros p ends H.
  - exists [], ends. split; [reflexivity|]. split; [exact I | exact H].
  - cbn [app Schema.mt_parts] in H. apply hd_flat_map in H.
    destruct H as (q & Hq & H).
    destruct (Schema.mt_parts f (rs1 ++ rs2) q) as [|e l] eqn:E;
      [discriminate H|].
    cbn [map hd_error] in H. injection H as <-.
    destruct (IH q e) as (e1 & e2 & -> & H1 & H2);
      [rewrite E; reflexivity|].
    exists (q :: e1), e2. split; [reflexivity|].
    split; [split; assumption|]. rewrite last_cons. exact H2.
Qed.

Lemma anyChar_step (prev : option ascii) (c : ascii) (t : text) :
  mt f Schema.anyChar (prev, c :: t) = [(Some c, t)].
Proof.
  unfold Schema.anyChar. cbn [mt one_char snd in_class existsb in_atom xorb].
  destruct (is_space c); reflexivity.
Qed.

(** A lazy [[\s\S]*?] stops at each position in turn, the nearest
    first. *)
Lemma lazy_positions (s : text) :
  forall n prev, length s <= n ->
  iterate false (mt f Schema.anyChar) n (prev, s) = Schema.positions prev s.
Proof.
  induction s as [|c t IH]; intros n prev Hn.
  - destruct n; reflexivity.
  - destruct n as [|n]; [cbn [length] in Hn; lia|].
    cbn [iterate Schema.positions]. rewrite anyChar_step.
    cbn [flat_map snd length].
    assert (Hlt : (length t <? S (length t)) = true)
      by (apply Nat.ltb_lt; lia).
    rewrite Hlt, app_nil_r, IH by (cbn [length] in Hn; lia).
    reflexivity.
Qed.

Lemma first_position {A : Type} (g : pos -> list A) (s : text) :
  forall prev x,
  hd_error (flat_map g (Schema.positions prev s)) = Some x ->
  exists a s', s = a ++ s' /\ hd_error (g (lastc prev a, s')) = Some x /\
    forall a1 a2, a = a1 ++ a2 -> a2 <> [] ->
                  g (lastc prev a1, a2 ++ s') = [].
Proof.
  induction s as [|c t IH]; intros prev x H.
  - cbn [Schema.positions flat_map] in H. rewrite app_nil_r in H.
    exists [], []. split; [reflexivity|]. split; [exact H|].
    intros a1 a2 E Hne. symmetry in E. apply app_eq_nil in E.
    destruct E as (_ & E). contradiction.
  - cbn [Schema.positions flat_map] in H.
    destruct (g (prev, c :: t)) as [|b bs] eqn:E.
    + cbn [app] in H. destruct (IH (Some c) x H) as (a & s' & -> & H1 & H2).
      exists (c :: a), s'. split; [reflexivity|]. split; [exact H1|].
      intros a1 a2 Ea Hne. destruct a1 as [|c1 a1].
      * cbn [app] in Ea. subst a2. exact E.
      * cbn [app] in Ea. injection Ea as <- Ea.
        apply (H2 a1 a2 Ea Hne).
    + cbn [app hd_error] in H. injection H as <-.
      exists [], (c :: t). split; [reflexivity|].
      split; [cbn [lastc fold_left]; rewrite E; reflexivity|].
      intros a1 a2 Ea Hne. symmetry in Ea. apply app_eq_nil in Ea.
      destruct Ea as (_ & Ea). contradiction.
Qed.

Lemma chr_eq_refl (c : ascii) : chr_eq f c c = true.
Proof. unfold chr_eq. destruct (ignoreCase f); apply Ascii.eqb_refl. Qed.

Lemma mt_lit_prefix (l : text) :
  forall pv r, mt_lit f l (pv, l ++ r) <> [].
Proof.
  induction l as [|c l IH]; intros pv r; cbn [mt_lit app snd].
  - discriminate.
  - rewrite chr_eq_refl. apply IH.
Qed.
End Heads.

Lemma lit_exact (l : text) (p q : pos) :
  In q (mt gm (Lit l) p) -> snd p = l ++ snd q.
Proof.
  intros H. cbn [mt] in H. apply mt_lit_spec in H.
  destruct H as (w & Hw & Hall). rewrite Hw. f_equal.
  clear - Hall. induction Hall as [|c x l w Hc _ IH]; [reflexivity|].
  unfold chr_eq in Hc. cbn [gm ignoreCase] in Hc.
  apply Ascii.eqb_eq in Hc. subst x. rewrite IH. reflexivity.
Qed.

Lemma spans_app (e1 e2 : list pos) :
  forall p, Schema.spans p (e1 ++ e2)
            = Schema.spans p e1 ++ Schema.spans (last e1 p) e2.
Proof.
  induction e1 as [|q e1 IH]; intros p; [reflexivity|].
  cbn [app Schema.spans]. rewrite IH, last_cons. reflexivity.
Qed.

Lemma spans_length (e : list pos) :
  forall p, length (Schema.spans p e) = length e.
Proof.
  induction e as [|q e IH]; intros p; [reflexivity|].
  cbn [Schema.spans length]. rewrite IH. reflexivity.
Qed.

Lemma group_next (e1 e2 : list pos) (q p : pos) (n : nat) :
  length e1 = n ->
  Schema.group n (Schema.spans p (e1 ++ q :: e2)) = Schema.taken (last e1 p) q.
Proof.
  intros H. rewrite spans_app. unfold Schema.group.
  rewrite app_nth2; rewrite spans_length, H; [|lia].
  rewrite Nat.sub_diag. reflexivity.
Qed.

(** The body of a model block: what stands between the brace that
    opens it and the first line break followed by a closing brace. *)
Lemma model_body (p : pos) (ends : list pos) :
  Schema.exec_parts gm Schema.modelRegex p = Some ends ->
  exists before after,
    snd p = before ++ T "{" ++ Schema.group 5 (Schema.spans p ends)
            ++ [Schema.newline; Schema.closing] ++ after /\
    ~ Schema.occursIn [Schema.newline; Schema.closing]
        (Schema.group 5 (Schema.spans p ends)).
Proof.
  intros H. unfold Schema.exec_parts in H.
  destruct (Schema.at_bol gm p); [|discriminate H].
  change Schema.modelRegex
    with ([L "model"; plus ws; plus wd; star ws; L "{"]
          ++ [lazy Schema.anyChar; Lit [Schema.newline; Schema.closing]]) in H.
  apply hd_parts_split in H. destruct H as (e1 & e2 & -> & H1 & H2).
  pose proof (follows_count gm _ p e1 H1) as Hlen. cbn [length] in Hlen.
  change [L "model"; plus ws; plus wd; star ws; L "{"]
    with ([L "model"; plus ws; plus wd; star ws] ++ [L "{"]) in H1.
  apply follows_app in H1. destruct H1 as (e0 & eb & -> & H0 & Hb).
  destruct eb as [|q4 [|? ?]]; cbn [Schema.follows] in Hb;
    try contradiction; try (destruct Hb as (_ & []); fail).
  destruct Hb as (Hq4 & _).
  destruct (follows_suffix gm _ p e0 H0) as (pre & Hpre).
  unfold L in Hq4. apply lit_exact in Hq4.
  set (q3 := last e0 p) in *.
  assert (Hlast : last (e0 ++ [q4]) p = q4).
  { clear. induction e0 as [|x e0 IH]; [reflexivity|].
    cbn [app]. rewrite last_cons.
    destruct e0 as [|y e0]; [reflexivity|].
    cbn [app] in *. rewrite last_cons in IH. rewrite last_cons. exact IH. }
  rewrite Hlast in H2.
  cbn [Schema.mt_parts] in H2. unfold lazy in H2. rewrite mt_star in H2.
  destruct q4 as [pv4 s4]. cbn [snd] in H2, Hq4.
  rewrite (lazy_positions gm s4 (length s4) pv4 (le_n _)) in H2.
  apply first_position in H2.
  destruct H2 as (body & s5 & Hs4 & Hhd & Hfirst).
  destruct (mt gm (Lit [Schema.newline; Schema.closing]) (lastc pv4 body, s5))
    as [|q6 l6] eqn:E6; [discriminate Hhd|].
  cbn [flat_map map app hd_error] in Hhd. injection Hhd as <-.
  assert (Hq6 : In q6 (mt gm (Lit [Schema.newline; Schema.closing])
                          (lastc pv4 body, s5)))
    by (rewrite E6; left; reflexivity).
  apply lit_exact in Hq6. cbn [snd] in Hq6.
  assert (Hbody : Schema.group 5
                    (Schema.spans p ((e0 ++ [(pv4, s4)])
                                     ++ [(lastc pv4 body, s5); q6]))
                  = body).
  { etransitivity; [apply group_next; exact Hlen|].
    apply taken_suffix.
    transitivity (snd (pv4, s4)); [apply (f_equal snd Hlast) | exact Hs4]. }
  cut (forall G : text, G = body ->
         exists before after,
           snd p = before ++ T "{" ++ G
                   ++ [Schema.newline; Schema.closing] ++ after /\
           ~ Schema.occursIn [Schema.newline; Schema.closing] G);
    [intros C; apply (C _ Hbody)|].
  clear Hbody. intros G ->. exists pre, (snd q6). split.
  - rewrite Hpre, Hq4, Hs4, Hq6. rewrite <- ?app_assoc. reflexivity.
  - intros (a & b & Hocc).
    assert (Hne : [Schema.newline; Schema.closing] ++ b <> [])
      by discriminate.
    specialize (Hfirst a ([Schema.newline; Schema.closing] ++ b) Hocc Hne).
    destruct (mt gm (Lit [Schema.newline; Schema.closing])
                 (lastc pv4 a, ([Schema.newline; Schema.closing] ++ b) ++ s5))
      as [|x l] eqn:Ex.
    + cbn [mt] in Ex. rewrite <- app_assoc in Ex.
      apply (mt_lit_prefix gm _ _ _ Ex).
    + discriminate Hfirst.
Qed.

(** X23.  The body kept for a model is the text between the brace that
    opens the block and the first line break followed by a closing
    brace: the body itself holds no line break followed by a closing
    brace, whatever the block holds after it. *)
Theorem X23_model_body_ends_at_first_brace
  (schemaContent : text) (parsed : list modelInfo) (m : modelInfo) :
  Schema.schemaModels schemaContent = Some parsed -> In m parsed ->
  ~ Schema.occursIn [Schema.newline; Schema.closing] (rawBody m) /\
  exists before after,
    schemaContent
    = before ++ T "{" ++ rawBody m ++ [Schema.newline; Schema.closing]
      ++ after.
Proof.
  intros H Hm. unfold Schema.schemaModels in H.
  destruct (Schema.execAll gm Schema.modelRegex None schemaContent 0)
    as [ms|] eqn:E; [|discriminate H].
  destruct (parseModels_In ms parsed m H Hm) as (g & Hg & Hp).
  destruct (execAll_matches gm _ _ _ _ _ g E Hg)
    as (p & ends & Hexec & -> & pre & Hpre).
  destruct (model_body p ends Hexec) as (before & after & Hs & Hno).
  unfold Schema.parseModel in Hp. cbv zeta in Hp.
  destruct (Schema.parseFields _); [|discriminate Hp].
  destruct (Schema.parseRelations _); [|discriminate Hp].
  injection Hp as <-. cbn [rawBody].
  split; [exact Hno|].
  exists (pre ++ before), after. rewrite Hpre, Hs, <- app_assoc. reflexivity.
Qed.

(** ** The sample schema *)

Lemma X21_witness :
  exists parsed,
    Schema.schemaModels SampleSchema.content = Some parsed /\
    Schema.parsePrismaSchema SampleSchema.fs SampleSchema.st
    = Schema.Done (parsePrismaSchema parsed SampleSchema.st) /\
    map name parsed = [T "Order"; T "OrderItem"].
Proof.
  destruct (X21_schema_parsing_ends SampleSchema.fs SampleSchema.st
              (strictParsed Sample.server Sample.client []))
    as (_ & _ & _ & _ & _ & H).
  destruct (H SampleSchema.content) as (parsed & H1 & H2);
    [vm_compute; reflexivity|].
  exists parsed. split; [exact H1|]. split; [exact H2|].
  let v := eval vm_compute in (Schema.schemaModels SampleSchema.content) in
  assert (E : Schema.schemaModels SampleSchema.content = v)
    by (vm_compute; reflexivity).
  rewrite E in H1. injection H1 as <-. reflexivity.
Defined.

Lemma X22_witness :
  exists parsed m,
    Schema.schemaModels SampleSchema.content = Some parsed /\
    In m parsed /\ Schema.word (name m) /\
    name m = T "OrderItem" /\
    map fst (fields m) = [T "id"; T "order"].
Proof.
  let v := eval vm_compute in (Schema.schemaModels SampleSchema.content) in
  match v with
  | Some (?m1 :: ?m2 :: ?rest) =>
      assert (E : Schema.schemaModels SampleSchema.content
                  = Some (m1 :: m2 :: rest)) by (vm_compute; reflexivity);
      assert (Hin : In m2 (m1 :: m2 :: rest)) by (right; left; reflexivity);
      destruct (X22_schema_names_are_words SampleSchema.content) as (H & _);
      destruct (H _ _ E Hin) as (Hw & _);
      exists (m1 :: m2 :: rest), m2
  end.
  split; [exact E|]. split; [exact Hin|]. split; [exact Hw|].
  split; reflexivity.
Defined.

Lemma X23_witness :
  exists parsed m,
    Schema.schemaModels SampleSchema.content = Some parsed /\
    In m parsed /\
    ~ Schema.occursIn [Schema.newline; Schema.closing] (rawBody m) /\
    name m = T "Order" /\ length (rawBody m) = 47.
Proof.
  let v := eval vm_compute in (Schema.schemaModels SampleSchema.content) in
  match v with
  | Some (?m1 :: ?rest) =>
      assert (E : Schema.schemaModels SampleSchema.content
                  = Some (m1 :: rest)) by (vm_compute; reflexivity);
      assert (Hin : In m1 (m1 :: rest)) by (left; reflexivity);
      destruct (X23_model_body_ends_at_first_brace SampleSchema.content
                  _ _ E Hin) as (Hno & _);
      exists (m1 :: rest), m1
  end.
  split; [exact E|]. split; [exact Hin|]. split; [exact Hno|].
  split; reflexivity.
Defined.

(** ** The clean text *)

Lemma lit_exact_plain (f : flags) (l : text) (p q : pos) :
  ignoreCase f = false -> In q (mt_lit f l p) -> snd p = l ++ snd q.
Proof.
  intros Hf H. apply mt_lit_spec in H.
  destruct H as (w & Hw & Hall). rewrite Hw. f_equal.
  clear - Hall Hf. induction Hall as [|c x l w Hc _ IH]; [reflexivity|].
  unfold chr_eq in Hc. rewrite Hf in Hc.
  apply Ascii.eqb_eq in Hc. subst x. rewrite IH. reflexivity.
Qed.

Lemma mt_opening (f : flags) (r : re) (p q : pos) :
  ignoreCase f = false -> In q (mt f r p) ->
  exists rest, snd p = opening r ++ rest.
Proof.
  intros Hf H.
  destruct r as [l| |neg l|a b|a b|gr a| |];
    try (exists (snd p); reflexivity).
  - cbn [mt] in H. exists (snd q). apply (lit_exact_plain f l p q Hf H).
  - destruct a as [l| |neg l|a1 a2|a1 a2|gr a| |];
      try (exists (snd p); reflexivity).
    rewrite mt_seq in H. apply in_flat_map in H.
    destruct H as (q1 & H1 & _). cbn [mt] in H1.
    exists (snd q1). apply (lit_exact_plain f l p q1 Hf H1).
Qed.

Lemma Replaced_same (by_ : text) (f : flags) (r : re)
  (prev : option ascii) (s s' : text) :
  ignoreCase f = false ->
  Replaced by_ f r prev s s' ->
  ~ Schema.occursIn (opening r) s -> s' = s.
Proof.
  intros Hf H.
  induction H as [prev _|prev c s s' _ _ IH|prev c m s s' q others Hq _ _ _];
    intros Hno.
  - reflexivity.
  - f_equal. apply IH. intros (a & b & E). apply Hno.
    exists (c :: a), b. rewrite E. reflexivity.
  - exfalso. apply Hno.
    assert (Hin : In q (mt f r (prev, (c :: m) ++ s)))
      by (rewrite Hq; left; reflexivity).
    destruct (mt_opening f r _ q Hf Hin) as (rest & E).
    cbn [snd] in E. exists [], rest. exact E.
Qed.

Lemma Replaced_length (by_ : text) (f : flags) (r : re)
  (prev : option ascii) (s s' : text) :
  length by_ <= 1 ->
  Replaced by_ f r prev s s' -> length s' <= length s.
Proof.
  intros Hb H.
  induction H as [prev _|prev c s s' _ _ IH|prev c m s s' q others _ _ _ IH].
  - apply le_n.
  - cbn [length]. lia.
  - rewrite !length_app. cbn [length]. lia.
Qed.

Lemma replaceBy_steps (by_ : text) (ps : list pattern) :
  Forall plain ps -> length by_ <= 1 ->
  forall s,
  length (fold_left (replaceBy by_) ps s) <= length s /\
  ((forall p, In p ps -> ~ Schema.occursIn (opening (source p)) s) ->
   fold_left (replaceBy by_) ps s = s).
Proof.
  intros Hall Hb. induction Hall as [|p ps (Hc & Hf) _ IH]; intros s.
  - split; [apply le_n | reflexivity].
  - cbn [fold_left].
    pose proof (replace_Replaced (pflags p) (source p) by_ Hc s) as Hr.
    fold (replaceBy by_ s p) in Hr.
    destruct (IH (replaceBy by_ s p)) as (I1 & I2). split.
    + pose proof (Replaced_length _ _ _ _ _ _ Hb Hr). lia.
    + intros Hno.
      assert (E : replaceBy by_ s p = s).
      { apply (Replaced_same _ _ _ _ _ _ Hf Hr). apply Hno. left. reflexivity. }
      rewrite E in *. apply I2. intros p' Hp'. apply Hno. right. exact Hp'.
Qed.

(** X26.  Cleaning never makes a text longer, in either analyzer.  A
    text that holds none of the openings of the steps (slash star, two
    slashes, the opening of a markup comment, a hash sign, or a quote
    character for the comprehensive analyzer) is left as it is: the
    patterns then run on the text of the file. *)
Theorem X26_clean_text (content : text) :
  length (cleanContent content) <= length content /\
  length (Strict.contentWithoutComments content) <= length content /\
  ((forall p, In p cleanSteps ->
      ~ Schema.occursIn (opening (source p)) content) ->
   cleanContent content = content) /\
  ((forall p, In p Strict.commentSteps ->
      ~ Schema.occursIn (opening (source p)) content) ->
   Strict.contentWithoutComments content = content).
Proof.
  assert (H1 : Forall plain cleanSteps)
    by (repeat constructor).
  assert (H2 : Forall plain Strict.commentSteps)
    by (repeat constructor).
  destruct (replaceBy_steps space cleanSteps H1 (le_n 1) content) as (A & B).
  destruct (replaceBy_steps [] Strict.commentSteps H2 (le_0_n 1) content)
    as (C & D).
  split; [exact A|]. split; [exact C|]. split; [exact B | exact D].
Qed.

Lemma X26_witness :
  cleanContent (T "const ratio = a / b;") = T "const ratio = a / b;" /\
  length (cleanContent (T "let s = 'abc'; // note"))
  <= length (T "let s = 'abc'; // note").
Proof.
  split.
  - destruct (X26_clean_text (T "const ratio = a / b;")) as (_ & _ & H & _).
    apply H. clear H. intros p Hp (a & b & E).
    assert (F : forall (l s : text), (exists a b, s = a ++ l ++ b) ->
                existsb (fun t => startsWith t l)
                        (map (fun n => skipn n s) (seq 0 (S (length s))))
                = true).
    { clear. intros l s (a & b & ->). apply existsb_exists.
      exists (l ++ b). split.
      - apply in_map_iff. exists (length a). split.
        + rewrite skipn_app, skipn_all, Nat.sub_diag. reflexivity.
        + apply in_seq. rewrite !length_app. lia.
      - clear. induction l as [|c l IH]; [destruct b; reflexivity|].
        cbn [app startsWith]. rewrite Ascii.eqb_refl. exact IH. }
    specialize (F _ _ (ex_intro _ a (ex_intro _ b E))).
    unfold cleanSteps in Hp. cbn [In] in Hp.
    destruct Hp as [<-|[<-|[<-|[<-|[<-|[<-|[<-|[]]]]]]]];
      vm_compute in F; discriminate F.
  - destruct (X26_clean_text (T "let s = 'abc'; // note")) as (H & _).
    exact H.
Defined.

(** ** The whole run *)

Lemma getAllFilesAt_None (excluded fileExtensions : list text)
  (w : Walk.world) (dirPath : text) :
  Walk.getAllFilesAt excluded fileExtensions w dirPath = None <->
  Run.throwsAt excluded w dirPath.
Proof.
  unfold Walk.getAllFilesAt, Run.throwsAt.
  destruct (w dirPath) as [n|].
  - rewrite getAllFiles_blocked. split.
    + intros H. exists n. split; [reflexivity | exact H].
    + intros (n' & E & H). injection E as <-. exact H.
  - split; [discriminate | intros (n & E & _); discriminate E].
Qed.

Lemma blocked_exists (excluded : list text) (w : Walk.world) (p : text) :
  Run.throwsAt excluded w p -> Walk.existsSync w p = true.
Proof.
  intros (n & E & H). unfold Walk.existsSync. rewrite E.
  destruct H; reflexivity.
Qed.

Lemma pushFrom_fails (w : Walk.world) (paths : list text) :
  forall acc,
  fold_left (Walk.pushFrom w) paths (Some acc) = None <->
  exists sp, In sp paths /\ Run.throwsAt Walk.excludedDirs w sp.
Proof.
  induction paths as [|sp paths IH]; intros acc; cbn [fold_left].
  - split; [discriminate | intros (sp & [] & _)].
  - rewrite pushFrom_Some.
    destruct (Walk.getAllFilesOf w sp) as [l|] eqn:E.
    + assert (Hno : ~ Run.throwsAt Walk.excludedDirs w sp).
      { intros H. apply (getAllFilesAt_None Walk.excludedDirs Walk.fileExtensions) in H.
        unfold Walk.getAllFilesOf in E. congruence. }
      assert (Hnext : forall acc',
                fold_left (Walk.pushFrom w) paths (Some acc') = None <->
                exists sp0, In sp0 (sp :: paths)
                            /\ Run.throwsAt Walk.excludedDirs w sp0).
      { intros acc'. rewrite IH. split.
        - intros (sp0 & Hin & H). exists sp0. split; [right; exact Hin|exact H].
        - intros (sp0 & [<-|Hin] & H); [contradiction|]. exists sp0. auto. }
      destruct (Walk.existsSync w sp); [|apply Hnext].
      change (Walk.both (Some acc) (Some l)) with (Some (acc ++ l)).
      apply Hnext.
    + assert (Hthrows : Run.throwsAt Walk.excludedDirs w sp)
        by (apply (getAllFilesAt_None Walk.excludedDirs Walk.fileExtensions);
            exact E).
      rewrite (blocked_exists _ _ _ Hthrows).
      change (Walk.both (Some acc) None) with (@None (list text)).
      rewrite pushFrom_None. split; [|reflexivity].
      intros _. exists sp. split; [left; reflexivity | exact Hthrows].
Qed.

Lemma allFiles_fails (w : Walk.world) (st : analyzer) :
  Walk.allFiles w st = None <->
  exists sp, In sp (Walk.serverSearchPaths (serverPath st)
                    ++ Walk.clientSearchPaths (clientPath st)) /\
             Run.throwsAt Walk.excludedDirs w sp.
Proof.
  unfold Walk.allFiles.
  destruct (fold_left (Walk.pushFrom w)
              (Walk.serverSearchPaths (serverPath st)) (Some []))
    as [sf|] eqn:E.
  - rewrite pushFrom_fails. split.
    + intros (sp & Hin & H). exists sp. split; [|exact H].
      apply in_or_app. right. exact Hin.
    + intros (sp & Hin & H). apply in_app_or in Hin.
      destruct Hin as [Hin|Hin]; [|exists sp; auto].
      assert (N : fold_left (Walk.pushFrom w)
                    (Walk.serverSearchPaths (serverPath st)) (Some []) = None)
        by (apply pushFrom_fails; exists sp; auto).
      congruence.
  - rewrite pushFrom_None. split; [|reflexivity]. intros _.
    apply pushFrom_fails in E. destruct E as (sp & Hin & H).
    exists sp. split; [apply in_or_app; left; exact Hin | exact H].
Qed.

Lemma concatAll_None (f : text -> option (list text)) (paths : list text) :
  Walk.concatAll (map f paths) = None <-> exists sp, In sp paths /\ f sp = None.
Proof.
  induction paths as [|sp paths IH].
  - split; [discriminate | intros (sp & [] & _)].
  - cbn [map Walk.concatAll fold_right].
    fold (Walk.concatAll (map f paths)). rewrite both_None, IH. split.
    + intros [H|(sp0 & Hin & H)].
      * exists sp. split; [left; reflexivity | exact H].
      * exists sp0. split; [right; exact Hin | exact H].
    + intros (sp0 & [<-|Hin] & H); [left; exact H|].
      right. exists sp0. auto.
Qed.

Lemma strictFiles_fails (w : Walk.world) (st : Strict.analyzer) :
  Walk.strictFiles w st = None <->
  exists sp, In sp (Run.strictWalked w st)
             /\ Run.throwsAt Walk.strictExcludedDirs w sp.
Proof.
  unfold Walk.strictFiles, Run.strictWalked.
  destruct (Walk.concatAll _) as [sf|] eqn:Es.
  - assert (Hs : ~ exists sp, In sp (Walk.srcPath st :: Walk.subPaths st)
                      /\ Walk.strictGetAllFiles w sp = None).
    { intros H. apply concatAll_None in H. congruence. }
    destruct (Walk.existsSync w (Strict.clientPath st)).
    + destruct (Walk.strictGetAllFiles w (Walk.clientSrcPath st))
        as [cf|] eqn:Ec.
      * split; [discriminate|]. intros (sp & Hin & H).
        apply (getAllFilesAt_None Walk.strictExcludedDirs
                 Walk.strictFileExtensions) in H. apply in_app_or in Hin.
        destruct Hin as [Hin|[<-|[]]].
        -- exfalso. apply Hs. exists sp. auto.
        -- unfold Walk.strictGetAllFiles in Ec. congruence.
      * split; [|reflexivity]. intros _. exists (Walk.clientSrcPath st).
        split; [apply in_or_app; right; left; reflexivity|].
        apply (getAllFilesAt_None Walk.strictExcludedDirs
                 Walk.strictFileExtensions). exact Ec.
    + split; [discriminate|]. intros (sp & Hin & H).
      apply (getAllFilesAt_None Walk.strictExcludedDirs
                 Walk.strictFileExtensions) in H. rewrite app_nil_r in Hin.
      exfalso. apply Hs. exists sp. auto.
  - split; [|reflexivity]. intros _. apply concatAll_None in Es.
    destruct Es as (sp & Hin & H). exists sp.
    split; [apply in_or_app; left; exact Hin|].
    apply (getAllFilesAt_None Walk.strictExcludedDirs
                 Walk.strictFileExtensions). exact H.
Qed.

Lemma parsePrismaSchema_paths (parsed : list modelInfo) :
  forall st, serverPath (parsePrismaSchema parsed st) = serverPath st /\
             clientPath (parsePrismaSchema parsed st) = clientPath st.
Proof.
  unfold parsePrismaSchema.
  induction parsed as [|m parsed IH]; intros st; cbn [fold_left];
    [split; reflexivity|].
  destruct (IH (setModels st (map_set (name m) m (models st)))) as (-> & ->).
  split; reflexivity.
Qed.

Lemma allFiles_paths (w : Walk.world) (st st' : analyzer) :
  serverPath st = serverPath st' -> clientPath st = clientPath st' ->
  Walk.allFiles w st = Walk.allFiles w st'.
Proof. unfold Walk.allFiles. intros -> ->. reflexivity. Qed.

Lemma strictFiles_paths (w : Walk.world) (st st' : Strict.analyzer) :
  Strict.serverPath st = Strict.serverPath st' ->
  Strict.clientPath st = Strict.clientPath st' ->
  Walk.strictFiles w st = Walk.strictFiles w st'.
Proof.
  unfold Walk.strictFiles, Walk.srcPath, Walk.subPaths, Walk.keyClientFiles,
    Walk.clientStorePath, Walk.clientSrcPath, Walk.srcPath.
  intros -> ->. reflexivity.
Qed.

Lemma exportResults_keeps (sp cp : text) (fs : filesystem)
  (parsed : list modelInfo) (files : list text) :
  snd (Results.exportResults (analysed sp cp fs parsed files))
  = analysed sp cp fs parsed files.
Proof.
  set (st := analysed sp cp fs parsed files).
  pose proof (analysed_usage_NoDup sp cp fs parsed files) as Hnd.
  fold st in Hnd.
  assert (Hspec := exportModel_spec sp cp fs parsed files). fold st in Hspec.
  unfold Results.exportResults. cbn [snd]. rewrite map_map. cbn [fst snd].
  assert (E : map (fun x : text * modelUsageT =>
                     (fst x, snd (Results.exportModel (snd x))))
                  (modelUsage st) = modelUsage st).
  { rewrite <- (map_id (modelUsage st)) at 2. apply map_ext_in.
    intros [k mu] Hin. cbn [fst snd].
    apply (in_map_get k mu _ Hnd) in Hin.
    destruct (Hspec k mu Hin) as (-> & _). reflexivity. }
  rewrite E. clear. destruct st; reflexivity.
Qed.

(** X24.  Both analyzers end their run.  A run exits with a failure
    exactly when the schema file cannot be read or when one of the walks
    throws, that is when a directory that cannot be listed is reached
    from one of the directories walked.  Otherwise the run ends on the
    analyzer a fresh analysis gives for the models read in the schema
    and the files gathered by the walks; the comprehensive analyzer
    exports its report from there and is not changed by the export. *)
Theorem X24_the_whole_run
  (w : Walk.world) (fs : filesystem) (sp cp : text) :
  let schemaPath := Schema.prismaSchemaPath sp in
  (Run.analyze w fs sp cp <> Schema.Loops /\
   (Run.analyze w fs sp cp = Schema.Exits <->
    fs schemaPath = None \/
    exists dir, In dir (Walk.serverSearchPaths sp ++ Walk.clientSearchPaths cp)
                /\ Run.throwsAt Walk.excludedDirs w dir) /\
   (forall out,
      Run.analyze w fs sp cp = Schema.Done out ->
      exists schemaContent parsed files,
        fs schemaPath = Some schemaContent /\
        Schema.schemaModels schemaContent = Some parsed /\
        Walk.allFiles w (create sp cp) = Some files /\
        Run.final out = analysed sp cp fs parsed files /\
        Run.exported out
        = fst (Results.exportResults (analysed sp cp fs parsed files)) /\
        groupByRisk (Run.final out) <> None)) /\
  (Run.strictAnalyze w fs sp cp <> Schema.Loops /\
   (Run.strictAnalyze w fs sp cp = Schema.Exits <->
    fs schemaPath = None \/
    exists dir, In dir (Run.strictWalked w (Run.strictCreate sp cp))
                /\ Run.throwsAt Walk.strictExcludedDirs w dir) /\
   (forall st,
      Run.strictAnalyze w fs sp cp = Schema.Done st ->
      exists schemaContent names files,
        fs schemaPath = Some schemaContent /\
        Schema.schemaNames schemaContent = Some names /\
        Walk.strictFiles w (Run.strictCreate sp cp) = Some files /\
        st = strictAnalysed sp cp fs names (Walk.scanned files))).
Proof.
  intros schemaPath. split.
  - unfold Run.analyze, Schema.parsePrismaSchema.
    change (serverPath (create sp cp)) with sp. fold schemaPath.
    destruct (fs schemaPath) as [content|];
      [|split; [discriminate|]; split;
        [split; [intros _; left; reflexivity | reflexivity]
        |intros out H; discriminate H]].
    destruct (schemaModels_ends content) as (parsed & Hparsed).
    rewrite Hparsed.
    set (st1 := parsePrismaSchema parsed (create sp cp)).
    destruct (parsePrismaSchema_paths parsed (create sp cp)) as (Hs & Hc).
    fold st1 in Hs, Hc.
    assert (Hfiles : Walk.allFiles w st1 = Walk.allFiles w (create sp cp))
      by (apply allFiles_paths; assumption).
    unfold Walk.analyzeAllModels. rewrite Hfiles.
    pose proof (allFiles_fails w (create sp cp)) as Hfail.
    change (serverPath (create sp cp)) with sp in Hfail.
    change (clientPath (create sp cp)) with cp in Hfail.
    destruct (Walk.allFiles w (create sp cp)) as [files|].
    + change (Comprehensive.analyzeAllModels fs files st1)
        with (analysed sp cp fs parsed files).
      destruct (analysed_groups sp cp fs parsed files) as (mbr & Hg & _).
      rewrite Hg. split; [discriminate|]. split.
      * split; [discriminate|]. intros [H|H]; [discriminate H|].
        apply Hfail in H. discriminate H.
      * intros out H.
        apply (f_equal (fun o => match o with
                                 | Schema.Done x => x
                                 | _ => out
                                 end)) in H.
        cbv beta iota in H. subst out.
        cbn [Run.final Run.exported].
        exists content, parsed, files. split; [reflexivity|].
        split; [exact Hparsed|]. split; [reflexivity|].
        rewrite exportResults_keeps. split; [reflexivity|].
        split; [reflexivity|]. rewrite Hg. discriminate.
    + split; [discriminate|]. split.
      * split; [|reflexivity]. intros _. right. apply Hfail. reflexivity.
      * intros out H. discriminate H.
  - unfold Run.strictAnalyze, Schema.strictParsePrismaSchema.
    change (Strict.serverPath (Run.strictCreate sp cp)) with sp.
    fold schemaPath.
    destruct (fs schemaPath) as [content|];
      [|split; [discriminate|]; split;
        [split; [intros _; left; reflexivity | reflexivity]
        |intros out H; discriminate H]].
    destruct (schemaNames_ends content) as (names & Hnames).
    rewrite Hnames.
    assert (Hfiles : Walk.strictFiles w
                       (Schema.addModels (Run.strictCreate sp cp) names)
                     = Walk.strictFiles w (Run.strictCreate sp cp))
      by (apply strictFiles_paths; reflexivity).
    rewrite Hfiles.
    pose proof (strictFiles_fails w (Run.strictCreate sp cp)) as Hfail.
    destruct (Walk.strictFiles w (Run.strictCreate sp cp)) as [files|].
    + split; [discriminate|]. split.
      * split; [discriminate|]. intros [H|H]; [discriminate H|].
        apply Hfail in H. discriminate H.
      * intros st H. injection H as <-.
        exists content, names, files. split; [reflexivity|].
        split; [exact Hnames|]. split; reflexivity.
    + split; [discriminate|]. split.
      * split; [|reflexivity]. intros _. right. apply Hfail. reflexivity.
      * intros st H. discriminate H.
Qed.

Lemma follows_spans (f : flags) (rs : list re) :
  forall p ends, Schema.follows f p rs ends ->
  snd p = concat (Schema.spans p ends) ++ snd (last ends p) /\
  Forall2 (fun r w => exists p' q', In q' (mt f r p') /\ snd p' = w ++ snd q')
          rs (Schema.spans p ends).
Proof.
  induction rs as [|r rs IH]; intros p ends H; destruct ends as [|q ends];
    cbn [Schema.follows] in H; try contradiction.
  - split; [reflexivity | constructor].
  - destruct H as (Hq & Hf). destruct (IH q ends Hf) as (I1 & I2).
    destruct (mt_suffix f r p q Hq) as (w & Hw).
    cbn [Schema.spans concat]. rewrite last_cons.
    rewrite (taken_suffix p q w Hw). split.
    + rewrite <- app_assoc, <- I1. exact Hw.
    + constructor; [|exact I2]. exists p, q. split; [exact Hq | exact Hw].
Qed.

Lemma space_class (f : flags) (c : ascii) :
  xorb false (in_class f [CSpace] c) = is_space c.
Proof. cbn [in_class existsb in_atom xorb]. apply orb_false_r. Qed.

Lemma plus_ws_spaces (f : flags) (p q : pos) (w : text) :
  In q (mt f (plus ws) p) -> snd p = w ++ snd q ->
  w <> [] /\ forallb is_space w = true.
Proof.
  intros H Hw. unfold ws in H. apply mt_plus_class in H.
  destruct H as (w' & Hw' & Hne & Hall).
  assert (E : w = w').
  { rewrite Hw' in Hw. apply app_inv_tail in Hw. congruence. }
  subst w'. split; [exact Hne|].
  rewrite <- Hall. clear. induction w as [|c w IH]; [reflexivity|].
  cbn [forallb]. rewrite IH, space_class. reflexivity.
Qed.

Lemma plus_wd_taken (f : flags) (p q : pos) (w : text) :
  In q (mt f (plus wd) p) -> snd p = w ++ snd q -> Schema.word w.
Proof.
  intros H Hw. pose proof (plus_wd_word f p q H) as Hword.
  rewrite (taken_suffix p q w Hw) in Hword. exact Hword.
Qed.


(** ** A whole run on the sample project *)

Lemma X24_witness :
  exists out parsed files,
    Run.analyze SampleTree.w SampleSchema.fs Sample.server Sample.client
    = Schema.Done out /\
    Run.final out
    = analysed Sample.server Sample.client SampleSchema.fs parsed files /\
    map name parsed = [T "Order"; T "OrderItem"] /\ length files = 5.
Proof.
  destruct (X24_the_whole_run SampleTree.w SampleSchema.fs
              Sample.server Sample.client) as ((_ & _ & H) & _).
  let v := eval vm_compute in
             (Run.analyze SampleTree.w SampleSchema.fs
                Sample.server Sample.client) in
  match v with
  | Schema.Done ?o =>
      assert (E : Run.analyze SampleTree.w SampleSchema.fs
                    Sample.server Sample.client = Schema.Done o)
        by (vm_compute; reflexivity);
      destruct (H o E) as (content & parsed & files & H1 & H2 & H3 & H4 & _);
      exists o, parsed, files
  end.
  split; [exact E|]. split; [exact H4|].
  assert (Ec : SampleSchema.fs (Schema.prismaSchemaPath Sample.server)
               = Some SampleSchema.content) by (vm_compute; reflexivity).
  rewrite Ec in H1. injection H1 as <-.
  let v := eval vm_compute in (Schema.schemaModels SampleSchema.content) in
  assert (Ep : Schema.schemaModels SampleSchema.content = v)
    by (vm_compute; reflexivity).
  rewrite Ep in H2. injection H2 as <-.
  let v := eval vm_compute in
             (Walk.allFiles SampleTree.w
                (create Sample.server Sample.client)) in
  assert (Ef : Walk.allFiles SampleTree.w (create Sample.server Sample.client)
               = v) by (vm_compute; reflexivity).
  rewrite Ef in H3. injection H3 as <-.
  split; reflexivity.
Defined.


(** ** The test runner *)

(** X25.  Whatever the five scripts do, the suite counts each of them
    once as passed or failed.  The results are stored under the name of
    the suite in lower case without its first space, not under the five
    keys the constructor declares: these still hold [null] at the end,
    and the results printed are the five stored under the other keys, in
    the order of the suites.  The assessment is the best one exactly
    when no script failed. *)
Theorem X25_test_runner (runs : text -> list text -> bool) :
  let st := TestRunner.runAllTests runs in
  TestRunner.totalPassed st + TestRunner.totalFailed st
  = length TestRunner.testSequence /\
  TestRunner.totalFailed st
  = length (filter (fun t => negb (runs (TestRunner.script t)
                                        (TestRunner.args t)))
                   TestRunner.testSequence) /\
  (forall k, In k (keys TestRunner.initial) ->
             map_get k (TestRunner.results st) = Some None) /\
  TestRunner.individual (TestRunner.results st)
  = map (fun t => (TestRunner.key t,
                   runs (TestRunner.script t) (TestRunner.args t)))
        TestRunner.testSequence /\
  (TestRunner.assessment (TestRunner.totalFailed st) = TestRunner.EXCELLENT
   <-> forall t, In t TestRunner.testSequence ->
                 runs (TestRunner.script t) (TestRunner.args t) = true).
Proof.
  intros st.
  assert (Hres : TestRunner.results st
                 = TestRunner.initial
                   ++ map (fun t => (TestRunner.key t,
                                     Some (TestRunner.runScript runs t)))
                          TestRunner.testSequence)
    by (vm_compute; reflexivity).
  assert (Hkeys : forall k, In k (keys TestRunner.initial) ->
                            map_get k (TestRunner.results st) = Some None).
  { rewrite Hres. intros k [<-|[<-|[<-|[<-|[<-|[]]]]]];
      vm_compute; reflexivity. }
  assert (Hind : TestRunner.individual (TestRunner.results st)
                 = map (fun t => (TestRunner.key t,
                                  runs (TestRunner.script t)
                                       (TestRunner.args t)))
                       TestRunner.testSequence)
    by (rewrite Hres; vm_compute; reflexivity).
  assert (Hcount :
    TestRunner.totalPassed st + TestRunner.totalFailed st
    = length TestRunner.testSequence /\
    TestRunner.totalFailed st
    = length (filter (fun t => negb (runs (TestRunner.script t)
                                          (TestRunner.args t)))
                     TestRunner.testSequence) /\
    (TestRunner.assessment (TestRunner.totalFailed st) = TestRunner.EXCELLENT
     <-> forall t, In t TestRunner.testSequence ->
                   runs (TestRunner.script t) (TestRunner.args t) = true)).
  { clear Hres Hkeys Hind.
    unfold st, TestRunner.runAllTests, TestRunner.testSequence.
    cbn [fold_left]. unfold TestRunner.step, TestRunner.runScript.
    cbn [TestRunner.success TestRunner.script TestRunner.args
         TestRunner.results TestRunner.totalPassed TestRunner.totalFailed
         filter length map].
    destruct (runs (T "test-database.js") [T "../server"]) eqn:R1,
             (runs (T "test-server.js") [T "http://localhost:5000"]) eqn:R2,
             (runs (T "test-client.js") [T "../client"]) eqn:R3,
             (runs (T "enhanced-prisma-analyzer.js")
                   [T "../server"; T "../client"]) eqn:R4,
             (runs (T "test-integration.js")
                   [T "http://localhost:5000"; T "../client"]) eqn:R5;
      (split; [reflexivity|]; split; [reflexivity|]; split;
       [ intros H;
         first [ discriminate H
               | intros t [<-|[<-|[<-|[<-|[<-|[]]]]]]; assumption ]
       | intros H;
         first [ reflexivity
               | pose proof (H _ (or_introl eq_refl)) as H1;
                 pose proof (H _ (or_intror (or_introl eq_refl))) as H2;
                 pose proof (H _ (or_intror (or_intror (or_introl eq_refl))))
                   as H3;
                 pose proof (H _ (or_intror (or_intror (or_intror
                                   (or_introl eq_refl))))) as H4;
                 pose proof (H _ (or_intror (or_intror (or_intror (or_intror
                                   (or_introl eq_refl)))))) as H5;
                 cbn [TestRunner.script TestRunner.args]
                   in H1, H2, H3, H4, H5;
                 congruence ] ]). }
  destruct Hcount as (C1 & C2 & C3).
  split; [exact C1|]. split; [exact C2|]. split; [exact Hkeys|].
  split; [exact Hind | exact C3].
Qed.

Lemma X25_witness :
  TestRunner.totalFailed
    (TestRunner.runAllTests
       (fun script _ => negb (text_eqb script (T "test-server.js")))) = 1 /\
  map fst (TestRunner.individual
             (TestRunner.results
                (TestRunner.runAllTests
                   (fun script _ =>
                      negb (text_eqb script (T "test-server.js"))))))
  = [ T "databasetests"; T "servertests"; T "clienttests";
      T "prismaanalysis"; T "integrationtests" ] /\
  forall k, In k (keys TestRunner.initial) ->
    map_get k (TestRunner.results
                 (TestRunner.runAllTests
                    (fun script _ =>
                       negb (text_eqb script (T "test-server.js")))))
    = Some None.
Proof.
  split; [vm_compute; reflexivity|]. split; [vm_compute; reflexivity|].
  destruct (X25_test_runner
              (fun script _ => negb (text_eqb script (T "test-server.js"))))
    as (_ & _ & H & _).
  exact H.
Defined.

(** ** The export of the strict analyzer *)

Lemma text_leb_total (a b : text) :
  StrictResults.text_leb a b = false -> StrictResults.text_leb b a = true.
Proof.
  revert b. induction a as [|x a IH]; intros [|y b]; cbn [StrictResults.text_leb];
    try discriminate; try reflexivity.
  destruct (code x <? code y) eqn:E1; [discriminate|].
  destruct (code y <? code x) eqn:E2; [reflexivity|]. apply IH.
Qed.

Lemma insert_perm (x : text) (l : list text) :
  Permutation (StrictResults.insert x l) (x :: l).
Proof.
  induction l as [|y l IH]; cbn [StrictResults.insert];
    [apply Permutation_refl|].
  destruct (StrictResults.text_leb x y); [apply Permutation_refl|].
  eapply perm_trans; [apply perm_skip; exact IH | apply perm_swap].
Qed.

Lemma sort_perm (l : list text) : Permutation (StrictResults.sort l) l.
Proof.
  induction l as [|x l IH]; [apply Permutation_refl|].
  cbn [StrictResults.sort fold_right].
  eapply perm_trans; [apply insert_perm|]. apply perm_skip. exact IH.
Qed.

Lemma insert_sorted (x : text) (l : list text) :
  Sorted StrictResults.text_le l ->
  Sorted StrictResults.text_le (StrictResults.insert x l).
Proof.
  induction 1 as [|y l Hs IH Hy]; cbn [StrictResults.insert].
  - constructor; constructor.
  - destruct (StrictResults.text_leb x y) eqn:E.
    + constructor; [constructor; assumption|]. constructor. exact E.
    + constructor; [exact IH|].
      apply text_leb_total in E.
      destruct l as [|z l]; cbn [StrictResults.insert].
      * constructor. exact E.
      * destruct (StrictResults.text_leb x z); constructor;
          [exact E | inversion Hy; assumption].
Qed.

Lemma sort_sorted (l : list text) :
  Sorted StrictResults.text_le (StrictResults.sort l).
Proof.
  induction l as [|x l IH]; [constructor|].
  cbn [StrictResults.sort fold_right]. apply insert_sorted. exact IH.
Qed.

(** A usage that counts as real shows a usage that is not a weak
    indicator. *)
Lemma strict_real_shows (modelName filePath : text) (isClient : bool)
  (content : text) :
  let ud := Strict.runTiers modelName filePath isClient content in
  Strict.isRealUsage ud = true ->
  exists us, In us (Strict.usages ud) /\ StrictResults.notWeak us = true.
Proof.
  unfold Strict.runTiers. cbv zeta.
  set (s := Strict.contentWithoutComments content).
  set (ud0 := {| Strict.file := filePath; Strict.isClientFile := isClient;
                 Strict.usages := []; Strict.isRealUsage := false |}).
  assert (Strong : forall ty ps ud,
            StrictResults.notWeak (usageOf ty s (rx g Any)) = true ->
            (Strict.isRealUsage ud = true ->
             exists us, In us (Strict.usages ud)
                        /\ StrictResults.notWeak us = true) ->
            Strict.isRealUsage (fold_left (Strict.strongStep ty s) ps ud)
            = true ->
            exists us,
              In us (Strict.usages (fold_left (Strict.strongStep ty s) ps ud))
              /\ StrictResults.notWeak us = true).
  { intros ty ps ud Hty Hinv.
    destruct (strongLoop_spec s ty ps ud) as (H1 & H2). cbv zeta in H1, H2.
    rewrite H1, H2. intros H. apply orb_true_iff in H. destruct H as [H|H].
    - destruct (Hinv H) as (us & Hin & Hw). exists us.
      split; [apply in_or_app; left; exact Hin | exact Hw].
    - apply existsb_exists in H. destruct H as (p & Hp & Hm).
      exists (usageOf ty s p). split; [|exact Hty].
      apply in_or_app. right. apply in_map. apply filter_In. auto. }
  set (ud1 := if negb isClient then _ else ud0).
  assert (I1 : Strict.isRealUsage ud1 = true ->
               exists us, In us (Strict.usages ud1)
                          /\ StrictResults.notWeak us = true).
  { unfold ud1. destruct (negb isClient); [|discriminate].
    apply Strong; [reflexivity | discriminate]. }
  set (ud2 := fold_left (Strict.strongStep API_ENDPOINT s) _ ud1).
  assert (I2 : Strict.isRealUsage ud2 = true ->
               exists us, In us (Strict.usages ud2)
                          /\ StrictResults.notWeak us = true)
    by (apply Strong; [reflexivity | exact I1]).
  set (ud3 := if isClient then _ else ud2).
  assert (I3 : Strict.isRealUsage ud3 = true ->
               exists us, In us (Strict.usages ud3)
                          /\ StrictResults.notWeak us = true).
  { unfold ud3. destruct isClient; [|exact I2].
    apply Strong; [reflexivity | exact I2]. }
  destruct (businessLoop_spec s (Strict.businessLogicPatterns modelName) ud3)
    as (B1 & B2). cbv zeta in B1, B2.
  set (ud4 := fold_left (Strict.businessStep s) _ ud3) in *.
  assert (I4 : Strict.isRealUsage ud4 = true ->
               exists us, In us (Strict.usages ud4)
                          /\ StrictResults.notWeak us = true).
  { rewrite B1, B2. intros H. apply orb_true_iff in H. destruct H as [H|H].
    - destruct (I3 H) as (us & Hin & Hw). exists us.
      split; [apply in_or_app; left; exact Hin | exact Hw].
    - apply existsb_exists in H. destruct H as (p & Hp & Hm).
      exists (usageOf BUSINESS_LOGIC s p). split; [|reflexivity].
      apply in_or_app. right. apply in_map. apply filter_In.
      split; [exact Hp|]. unfold twice in Hm. unfold matched.
      apply Nat.leb_le in Hm. apply Nat.ltb_lt. lia. }
  destruct (weakLoop_spec s (Strict.weakPatterns modelName) ud4) as (W1 & W2).
  cbv zeta in W1, W2. rewrite W1, W2. intros H.
  destruct (I4 H) as (us & Hin & Hw). exists us.
  split; [apply in_or_app; left; exact Hin | exact Hw].
Qed.

Lemma strict_usage_from_file (fs : Strict.filesystem) (st : Strict.analyzer)
  (model : text) (files : list text) (u : Strict.usageDetails) :
  In u (strictUsagesOf fs st model files) ->
  Strict.isRealUsage u = true ->
  exists us, In us (Strict.usages u) /\ StrictResults.notWeak us = true.
Proof.
  unfold strictUsagesOf. intros H Hreal. apply in_flat_map in H.
  destruct H as (p & _ & H).
  unfold Strict.analyzeModelUsageInFile in H.
  destruct (fs p) as [content|]; [|contradiction].
  unfold Strict.analyzeText in H. cbv zeta in H.
  destruct (0 <? length _); [|contradiction].
  destruct H as [<-|[]]. apply strict_real_shows. exact Hreal.
Qed.

(** X28.  In the report the strict analyzer exports, the models used
    and those that can likely be removed add up to all the models; the
    three lists of names are sorted and together are the list of all the
    models.  A model listed as used has one file with real usage at
    least and no more than files that mention it, and each of these
    files shows one usage type at least, none of them WEAK_INDICATOR.
    A suspicious model is mentioned in one file at least, and all the
    files that mention it are listed. *)
Theorem X28_strict_export
  (sp cp : text) (fs : Strict.filesystem) (names files : list text) :
  let st := strictAnalysed sp cp fs names files in
  let r := StrictResults.exportResults st in
  StrictResults.activelyUsedModels (StrictResults.summary r)
  + StrictResults.canLikelyBeRemoved (StrictResults.summary r)
  = StrictResults.totalModels (StrictResults.summary r) /\
  Permutation (StrictResults.activelyUsed r ++ StrictResults.suspicious r
               ++ StrictResults.completelyUnused r)
              (StrictResults.all r) /\
  Sorted StrictResults.text_le (StrictResults.all r) /\
  Sorted StrictResults.text_le (StrictResults.activelyUsed r) /\
  Sorted StrictResults.text_le (StrictResults.suspicious r) /\
  Sorted StrictResults.text_le (StrictResults.completelyUnused r) /\
  (forall model e,
     map_get model (StrictResults.detailedUsed r) = Some e ->
     1 <= StrictResults.filesWithRealUsage e /\
     StrictResults.filesWithRealUsage e <= StrictResults.totalFilesMentioned e
     /\
     length (StrictResults.usageFiles e) = StrictResults.filesWithRealUsage e
     /\
     forall uf, In uf (StrictResults.usageFiles e) ->
       StrictResults.ufUsageTypes uf <> [] /\
       ~ In WEAK_INDICATOR (StrictResults.ufUsageTypes uf)) /\
  (forall model e,
     map_get model (StrictResults.detailedSuspicious r) = Some e ->
     1 <= StrictResults.suspiciousFilesMentioned e /\
     length (StrictResults.mentionedInFiles e)
     = StrictResults.suspiciousFilesMentioned e).
Proof.
  intros st r.
  destruct (strict_collections sp cp fs names files)
    as (_ & Hu & Hs & _ & Hperm).
  cbv zeta in Hu, Hs, Hperm. fold st in Hu, Hs, Hperm.
  set (st0 := strictParsed sp cp names) in *.
  unfold r, StrictResults.exportResults.
  cbn [StrictResults.summary StrictResults.all StrictResults.activelyUsed
       StrictResults.suspicious StrictResults.completelyUnused
       StrictResults.detailedUsed StrictResults.detailedSuspicious
       StrictResults.activelyUsedModels StrictResults.canLikelyBeRemoved
       StrictResults.totalModels].
  split; [|split; [|split; [|split; [|split; [|split; [|split]]]]]];
    try apply sort_sorted.
  - pose proof (Permutation_length Hperm) as Hl.
    rewrite !length_app in Hl. unfold keys in Hl.
    rewrite !length_map in Hl. lia.
  - eapply perm_trans; [|apply Permutation_sym; apply sort_perm].
    eapply perm_trans; [|exact Hperm].
    apply Permutation_app; [apply sort_perm|].
    apply Permutation_app; apply sort_perm.
  - intros model e H. rewrite (map_get_map StrictResults.usedEntryOf) in H.
    rewrite Hu in H.
    destruct (inNames (Strict.models st0) model
              && strictUsed (Strict.scanFiles fs files st0 model)) eqn:E;
      [|discriminate H].
    cbn [option_map] in H. injection H as <-.
    apply andb_true_iff in E. destruct E as (_ & E). unfold strictUsed in E.
    destruct (strict_fold_usages fs st0 model files Strict.newModelUsage)
      as (H1 & _ & _ & _ & H5 & H6).
    cbv zeta in H1, H5, H6.
    fold (Strict.scanFiles fs files st0 model) in H1, H5, H6.
    cbn [Strict.newModelUsage Strict.realUsages Strict.totalFiles
         Strict.isReallyUsed app orb Nat.add] in H1, H5, H6.
    set (mu := Strict.scanFiles fs files st0 model) in *.
    set (l := strictUsagesOf fs st0 model files) in *.
    cbn [StrictResults.usedEntryOf StrictResults.filesWithRealUsage
         StrictResults.totalFilesMentioned StrictResults.usageFiles].
    rewrite H1, H5, length_map.
    split; [|split; [apply filter_length_le|split; [reflexivity|]]].
    + rewrite H6 in E. apply existsb_exists in E.
      destruct E as (u & Hin & Hreal).
      assert (Hf : In u (filter Strict.isRealUsage l))
        by (apply filter_In; auto).
      destruct (filter Strict.isRealUsage l); [contradiction|].
      cbn [length]. lia.
    + intros uf Huf. apply in_map_iff in Huf.
      destruct Huf as (u & <- & Hin). apply filter_In in Hin.
      destruct Hin as (Hin & Hreal).
      destruct (strict_usage_from_file fs st0 model files u Hin Hreal)
        as (us & Hus & Hw).
      cbn [StrictResults.usageFileOf StrictResults.ufUsageTypes]. split.
      * assert (Hf : In us (filter StrictResults.notWeak (Strict.usages u)))
          by (apply filter_In; auto).
        destruct (filter StrictResults.notWeak (Strict.usages u));
          [contradiction | discriminate].
      * intros Hweak. apply in_map_iff in Hweak.
        destruct Hweak as (x & Hx & Hxin). apply filter_In in Hxin.
        destruct Hxin as (_ & Hxw). unfold StrictResults.notWeak in Hxw.
        rewrite Hx in Hxw. discriminate Hxw.
  - intros model e H.
    rewrite (map_get_map StrictResults.suspiciousEntryOf) in H.
    rewrite Hs in H.
    destruct (inNames (Strict.models st0) model
              && strictSuspicious (Strict.scanFiles fs files st0 model)) eqn:E;
      [|discriminate H].
    cbn [option_map] in H. injection H as <-.
    apply andb_true_iff in E. destruct E as (_ & E).
    unfold strictSuspicious in E. apply andb_true_iff in E.
    destruct E as (Enot & Epos). apply negb_true_iff in Enot.
    apply Nat.ltb_lt in Epos.
    destruct (strict_fold_usages fs st0 model files Strict.newModelUsage)
      as (_ & H2 & _ & _ & H5 & H6).
    cbv zeta in H2, H5, H6.
    fold (Strict.scanFiles fs files st0 model) in H2, H5, H6.
    cbn [Strict.newModelUsage Strict.suspiciousUsages Strict.totalFiles
         Strict.isReallyUsed app orb Nat.add] in H2, H5, H6.
    cbn [StrictResults.suspiciousEntryOf StrictResults.suspiciousFilesMentioned
         StrictResults.mentionedInFiles].
    split; [lia|]. rewrite length_map, H2, H5.
    rewrite H6 in Enot. clear - Enot.
    induction (strictUsagesOf fs st0 model files) as [|u l IH];
      [reflexivity|].
    cbn [existsb] in Enot. apply orb_false_iff in Enot.
    destruct Enot as (E1 & E2). cbn [filter]. rewrite E1. cbn [negb length].
    rewrite (IH E2). reflexivity.
Qed.

Lemma X28_witness :
  exists e,
    map_get (T "OrderItem")
      (StrictResults.detailedUsed
         (StrictResults.exportResults
            (strictAnalysed Sample.server Sample.client Sample.fs
               [T "Order"; T "OrderItem"; T "Widget"] Sample.files)))
    = Some e /\
    StrictResults.filesWithRealUsage e = 1 /\
    (1 <= StrictResults.filesWithRealUsage e /\
     StrictResults.filesWithRealUsage e <= StrictResults.totalFilesMentioned e
     /\
     length (StrictResults.usageFiles e) = StrictResults.filesWithRealUsage e
     /\
     forall uf, In uf (StrictResults.usageFiles e) ->
       StrictResults.ufUsageTypes uf <> [] /\
       ~ In WEAK_INDICATOR (StrictResults.ufUsageTypes uf)).
Proof.
  eexists. split; [vm_compute; reflexivity|].
  split; [vm_compute; reflexivity|].
  match goal with
  | |- 1 <= StrictResults.filesWithRealUsage ?e /\ _ =>
      destruct (X28_strict_export Sample.server Sample.client Sample.fs
                  [T "Order"; T "OrderItem"; T "Widget"] Sample.files)
        as (_ & _ & _ & _ & _ & _ & H & _);
      apply (H (T "OrderItem") e)
  end.
  vm_compute; reflexivity.
Defined.

(** ** Every match gives way to a space *)

(** The replacement of every match is determined by the text. *)
Lemma Replaced_functional (by_ : text) (f : flags) (r : re)
  (prev : option ascii) (s s1 : text) :
  Replaced by_ f r prev s s1 ->
  forall s2, Replaced by_ f r prev s s2 -> s1 = s2.
Proof.
  induction 1 as [prev Hn|prev c s s' Hn _ IH|prev c m s s' q others Hq Hs _ IH];
    intros s2 H2.
  - inversion H2; subst; reflexivity.
  - inversion H2 as [|prev' c' t t' Hn' Ht
                    |prev' c' m' t t' q' others' Hq' Hs' Ht [E1 E2]];
      subst.
    + f_equal. apply IH. exact Ht.
    + cbn [app] in Hq'. rewrite Hn in Hq'. discriminate Hq'.
  - remember ((c :: m) ++ s) as whole eqn:Ew.
    destruct H2 as [prev Hn'|prev c' t t' Hn' Ht
                   |prev c' m' t t' q' others' Hq' Hs' Ht].
    + discriminate Ew.
    + rewrite Hn' in Hq. discriminate Hq.
    + rewrite Hq' in Hq. injection Hq as -> _.
      rewrite Hs in Hs'. subst t.
      assert (Em : c' :: m' = c :: m).
      { apply (app_inv_tail s). exact Ew. }
      injection Em as -> ->. f_equal. apply IH. exact Ht.
Qed.

(** The steps of a list, each with matches of one character at least:
    their chain has one result, the text the replacements give. *)
Lemma Chain_fold (by_ : text) (ps : list pattern) :
  Forall (fun p => consumes (source p) = true) ps ->
  forall s out,
  Chain by_ ps s out <-> out = fold_left (replaceBy by_) ps s.
Proof.
  induction 1 as [|p ps Hc _ IH]; intros s out; cbn [fold_left].
  - split.
    + intros H. inversion H; subst. reflexivity.
    + intros ->. constructor.
  - pose proof (replace_Replaced (pflags p) (source p) by_ Hc s) as Hr.
    fold (replaceBy by_ s p) in Hr. split.
    + intros H. inversion H as [|p' ps' s0 s' s'' Hr' Hch]; subst.
      rewrite <- (Replaced_functional _ _ _ _ _ _ Hr _ Hr') in Hch.
      apply IH. exact Hch.
    + intros ->. eapply Chain_step; [exact Hr|]. apply IH. reflexivity.
Qed.

Lemma upper_space (c : ascii) :
  upper c = ascii_of_nat 32 -> c = ascii_of_nat 32.
Proof.
  destruct c as [[] [] [] [] [] [] [] []]; vm_compute; congruence.
Qed.

Lemma noSpace_prefix (n s : text) :
  noSpace n = true -> n <> [] ->
  prefix_ci n (ascii_of_nat 32 :: s) = false.
Proof.
  destruct n as [|c n]; intros Hn Hne; [contradiction Hne; reflexivity|].
  cbn [prefix_ci]. cbn [noSpace forallb] in Hn.
  apply andb_true_iff in Hn. destruct Hn as (Hc & _).
  apply negb_true_iff in Hc. apply Ascii.eqb_neq in Hc.
  destruct (Ascii.eqb (upper c) (upper (ascii_of_nat 32))) eqn:E;
    [|reflexivity].
  apply Ascii.eqb_eq in E. change (upper (ascii_of_nat 32))
    with (ascii_of_nat 32) in E.
  apply upper_space in E. contradiction.
Qed.

(** Where one space stands for each match, a text without space that
    starts the result started the subject: the characters of the result
    that are not the space of a match are characters of the subject,
    next to each other there as well. *)
Lemma Replaced_prefix (f : flags) (r : re) (n : text) :
  noSpace n = true ->
  forall prev s s', Replaced space f r prev s s' ->
  prefix_ci n s' = true -> prefix_ci n s = true.
Proof.
  intros Hn. induction n as [|x n IH]; intros prev s s' H Hp;
    [reflexivity|].
  cbn [noSpace forallb] in Hn. apply andb_true_iff in Hn.
  destruct Hn as (Hx & Hn).
  destruct H as [prev _|prev c s s' _ H|prev c m s s' q others _ _ _].
  - discriminate Hp.
  - cbn [prefix_ci] in *. apply andb_true_iff in Hp. destruct Hp as (-> & Hp).
    cbn [andb]. apply (IH Hn _ _ _ H Hp).
  - change (space ++ s') with (ascii_of_nat 32 :: s') in Hp.
    rewrite noSpace_prefix in Hp; [discriminate Hp| |discriminate].
    cbn [noSpace forallb]. rewrite Hx. exact Hn.
Qed.

Lemma Replaced_occurs (f : flags) (r : re) (n : text) :
  noSpace n = true ->
  forall prev s s', Replaced space f r prev s s' ->
  occurs_ci n s' = true -> occurs_ci n s = true.
Proof.
  intros Hn prev s s' H.
  induction H as [prev _|prev c s s' Hm H IH|prev c m s s' q others Hq Hs H IH];
    intros Ho.
  - exact Ho.
  - cbn [occurs_ci] in Ho. apply orb_true_iff in Ho. destruct Ho as [Ho|Ho].
    + apply prefix_occurs.
      apply (Replaced_prefix f r n Hn prev (c :: s) (c :: s'));
        [apply Replaced_keep; assumption | exact Ho].
    + cbn [occurs_ci]. rewrite (IH Ho). apply orb_true_r.
  - apply occurs_app_r. apply IH.
    change (space ++ s') with (ascii_of_nat 32 :: s') in Ho.
    cbn [occurs_ci] in Ho. apply orb_true_iff in Ho. destruct Ho as [Ho|Ho];
      [|exact Ho].
    destruct n as [|x n]; [destruct s'; reflexivity|].
    rewrite noSpace_prefix in Ho; [discriminate Ho | exact Hn | discriminate].
Qed.

(** The clean text holds no text without space that the file did not
    hold. *)
Lemma clean_occurs (n : text) (ps : list pattern) :
  noSpace n = true ->
  Forall (fun p => consumes (source p) = true) ps ->
  forall s, occurs_ci n (fold_left (replaceBy space) ps s) = true ->
            occurs_ci n s = true.
Proof.
  intros Hn. induction 1 as [|p ps Hc _ IH]; intros s Ho; [exact Ho|].
  cbn [fold_left] in Ho. apply IH in Ho.
  pose proof (replace_Replaced (pflags p) (source p) space Hc s) as Hr.
  apply (Replaced_occurs _ _ n Hn _ _ _ Hr). exact Ho.
Qed.

(** C5, amended.  In the comprehensive analyzer, for every text, the
    clean text is the one result of the seven steps in their order
    (block comments, line comments, markup comments, shell comments,
    strings in single quotes, strings in double quotes, template
    literals), where a step puts one space in the place of every match
    it finds, a match holding a character at least, and keeps a
    character only where it finds no match.  So the clean text holds no
    text without space that the file did not hold: the two sides of a
    match are not joined.  The strict analyzer applies the four comment
    steps only and puts nothing in the place of a match. *)
Theorem C5_clean_puts_a_space_for_each_match (content : text) :
  space = [ascii_of_nat 32] /\
  (forall out,
     Chain space
       [ rx g blockComment; rx gm lineComment; rx g htmlComment;
         rx gm shellComment; rx g singleQuoted; rx g doubleQuoted;
         rx g templateLiteral ]
       content out
     <-> out = cleanContent content) /\
  (forall n,
     noSpace n = true -> occurs_ci n (cleanContent content) = true ->
     occurs_ci n content = true) /\
  (forall out,
     Chain []
       [ rx g blockComment; rx gm lineComment; rx g htmlComment;
         rx gm shellComment ]
       content out
     <-> out = Strict.contentWithoutComments content).
Proof.
  assert (H7 : Forall (fun p => consumes (source p) = true) cleanSteps)
    by (repeat constructor).
  assert (H4 : Forall (fun p => consumes (source p) = true)
                 Strict.commentSteps)
    by (repeat constructor).
  split; [reflexivity|]. split; [|split].
  - intros out. apply (Chain_fold space cleanSteps H7).
  - intros n Hn Ho. apply (clean_occurs n cleanSteps Hn H7). exact Ho.
  - intros out. apply (Chain_fold [] Strict.commentSteps H4).
Qed.

Lemma C5_witness :
  (Chain space
     [ rx g blockComment; rx gm lineComment; rx g htmlComment;
       rx gm shellComment; rx g singleQuoted; rx g doubleQuoted;
       rx g templateLiteral ]
     (T "foo/* c */bar") (T "foo bar")) /\
  occurs_ci (T "bar") (T "foo/* c */bar") = true /\
  occurs_ci (T "foobar") (cleanContent (T "foo/* c */bar")) = false.
Proof.
  destruct (C5_clean_puts_a_space_for_each_match (T "foo/* c */bar"))
    as (_ & H1 & H2 & _).
  split; [apply H1; vm_compute; reflexivity|].
  split; [|vm_compute; reflexivity].
  apply (H2 (T "bar")); vm_compute; reflexivity.
Defined.

(** ** Mentions in line comments *)




















(** ** A file that cannot be read among the others *)

Lemma strictUsagesOf_skip (fs : Strict.filesystem) (sst : Strict.analyzer)
  (model : text) (files1 files2 : list text) (p : text) :
  fs p = None ->
  strictUsagesOf fs sst model (files1 ++ p :: files2)
  = strictUsagesOf fs sst model (files1 ++ files2).
Proof.
  intros H. unfold strictUsagesOf. rewrite !flat_map_app. f_equal.
  cbn [flat_map]. unfold Strict.analyzeModelUsageInFile at 1. rewrite H.
  reflexivity.
Qed.

(** C8.  When the read of a file fails, [getFileContent] gives the empty
    content and goes on, and this content yields no analysis for any
    model.  The analysis goes on with the other files: after the run the
    record of every model holds the analyses of the files listed before
    and behind the one that cannot be read, each of them, and counts
    them; the usage map is the one of the run without the file.  In the
    strict analyzer the failed read gives no usage either, and the
    record of a model holds the usages of the other files. *)
Theorem C8_unreadable_file_is_skipped
  (fs : filesystem) (st : analyzer) (p : text) (files1 files2 : list text) :
  cacheOk fs st -> NoDup (keys (models st)) -> fs p = None ->
  let st' := analyzeAllModels fs (files1 ++ p :: files2) st in
  getFileContent fs st p = (emptyContent, logRead st p) /\
  (forall modelName, fst (analyzeModelUsage fs st modelName p) = None) /\
  (forall k info,
     In (k, info) (models st) ->
     exists mu,
       map_get k (modelUsage st') = Some mu /\
       totalFiles mu
       = length (analysesOf fs (serverPath st) (clientPath st) k
                   (files1 ++ files2)) /\
       Permutation (fileAnalyses mu)
         (analysesOf fs (serverPath st) (clientPath st) k
            (files1 ++ files2)) /\
       (forall q a,
          In q (files1 ++ files2) ->
          analysisOf fs (serverPath st) (clientPath st) k q = Some a ->
          In a (fileAnalyses mu))) /\
  modelUsage st' = modelUsage (analyzeAllModels fs (files1 ++ files2) st) /\
  (forall sst modelName,
     Strict.analyzeModelUsageInFile fs sst p modelName = None) /\
  (forall sst model,
     let mu := Strict.scanFiles fs (files1 ++ p :: files2) sst model in
     let l := strictUsagesOf fs sst model (files1 ++ files2) in
     Strict.totalFiles mu = length l /\
     Strict.realUsages mu = filter Strict.isRealUsage l /\
     Strict.suspiciousUsages mu
     = filter (fun u => negb (Strict.isRealUsage u)) l) /\
  (forall sst,
     Strict.analyzeUsage fs (files1 ++ p :: files2) sst
     = Strict.analyzeUsage fs (files1 ++ files2) sst).
Proof.
  intros Hok Hnd Hfail st'.
  assert (Hnc : map_get p (fileCache st) = None).
  { destruct (map_get p (fileCache st)) as [c|] eqn:E; [|reflexivity].
    destruct (Hok _ _ E) as [Hno _]. contradiction. }
  assert (Hskip : forall k,
            analysesOf fs (serverPath st) (clientPath st) k
              (files1 ++ p :: files2)
            = analysesOf fs (serverPath st) (clientPath st) k
                (files1 ++ files2))
    by (intros k; apply analysesOf_skip; exact Hfail).
  destruct (analyzeAllModels_ok fs (files1 ++ p :: files2) st Hok)
    as (Hu & _).
  fold st' in Hu.
  split; [|split; [|split; [|split; [|split; [|split]]]]].
  - unfold getFileContent. rewrite Hnc, Hfail. reflexivity.
  - intros modelName.
    destruct (analyzeModelUsage_ok fs st modelName p Hok) as (-> & _).
    unfold analysisOf, contentOf. rewrite Hfail.
    apply empty_content_no_analysis.
  - intros k info Hin.
    exists (entryOf fs (serverPath st) (clientPath st)
              (files1 ++ p :: files2) (k, info)).
    split.
    + rewrite Hu.
      apply (setAll_get (entryOf fs (serverPath st) (clientPath st)
                           (files1 ++ p :: files2))
               (models st) (modelUsage st) (k, info) Hnd Hin).
    + destruct (entryOf_fields fs (serverPath st) (clientPath st)
                  (files1 ++ p :: files2) (k, info)) as (F1 & F2 & _).
      cbn [fst] in F1, F2. rewrite Hskip in F1, F2.
      split; [exact F2|]. split.
      * rewrite F1. apply sortByConfidence_perm.
      * intros q a Hq Ha. rewrite F1.
        apply (Permutation_in a
                 (Permutation_sym (sortByConfidence_perm _))).
        apply in_analysesOf. exists q. split; assumption.
  - destruct (analyzeAllModels_ok fs (files1 ++ files2) st Hok) as (-> & _).
    rewrite Hu. apply setAll_ext. intros e. unfold entryOf.
    rewrite Hskip. reflexivity.
  - intros sst modelName. unfold Strict.analyzeModelUsageInFile.
    rewrite Hfail. reflexivity.
  - intros sst model mu l.
    destruct (strict_fold_usages fs sst model (files1 ++ p :: files2)
                Strict.newModelUsage) as (H1 & H2 & _ & _ & H5 & _).
    cbv zeta in H1, H2, H5.
    rewrite (strictUsagesOf_skip fs sst model files1 files2 p Hfail)
      in H1, H2, H5.
    fold (Strict.scanFiles fs (files1 ++ p :: files2) sst model)
      in H1, H2, H5.
    fold mu in H1, H2, H5. fold l in H1, H2, H5.
    split; [exact H5|]. split; [exact H1 | exact H2].
  - intros sst. unfold Strict.analyzeUsage.
    apply fold_left_ext. intros a model. unfold Strict.modelStep.
    assert (Hscan : Strict.scanFiles fs (files1 ++ p :: files2) a model
                    = Strict.scanFiles fs (files1 ++ files2) a model).
    { unfold Strict.scanFiles. rewrite !fold_left_app. simpl.
      unfold Strict.fileStep at 2. unfold Strict.analyzeModelUsageInFile.
      rewrite Hfail. reflexivity. }
    rewrite Hscan. reflexivity.
Qed.

(** [lostFile] stands between the files of the second project; the
    analysis of [notesFile], listed behind it, is in the record. *)
Lemma C8_witness :
  exists mu a,
    map_get (T "Widget")
      (modelUsage
         (analyzeAllModels SampleStore.fs
            ([SampleStore.widgetsFile]
             ++ SampleStore.lostFile
                :: [SampleStore.notesFile; SampleStore.moreFile])
            (parsePrismaSchema SampleStore.schema
               (create SampleStore.server SampleStore.client))))
    = Some mu /\
    analysisOf SampleStore.fs SampleStore.server SampleStore.client
      (T "Widget") SampleStore.notesFile = Some a /\
    In a (fileAnalyses mu) /\ totalFiles mu = 3.
Proof.
  assert (Hok : cacheOk SampleStore.fs
                  (parsePrismaSchema SampleStore.schema
                     (create SampleStore.server SampleStore.client))).
  { intros q c H. vm_compute in H. discriminate. }
  assert (Hnd : NoDup (keys (models
                  (parsePrismaSchema SampleStore.schema
                     (create SampleStore.server SampleStore.client))))).
  { vm_compute. repeat constructor; simpl; intuition discriminate. }
  destruct (C8_unreadable_file_is_skipped SampleStore.fs _
              SampleStore.lostFile [SampleStore.widgetsFile]
              [SampleStore.notesFile; SampleStore.moreFile] Hok Hnd)
    as (_ & _ & H3 & _); [vm_compute; reflexivity|].
  destruct (H3 (T "Widget") SampleStore.Widget)
    as (mu & Hget & Htot & _ & Hall);
    [left; reflexivity|].
  exists mu.
  let v := eval vm_compute in
    (analysisOf SampleStore.fs SampleStore.server SampleStore.client
       (T "Widget") SampleStore.notesFile) in
  match v with
  | Some ?a =>
      assert (Ha : analysisOf SampleStore.fs SampleStore.server
                     SampleStore.client (T "Widget") SampleStore.notesFile
                   = Some a) by (vm_compute; reflexivity);
      exists a
  end.
  split; [exact Hget|]. split; [exact Ha|]. split.
  - apply (Hall SampleStore.notesFile); [right; left; reflexivity | exact Ha].
  - rewrite Htot. vm_compute. reflexivity.
Defined.

Lemma X2_witness :
  exists mu,
    map_get (T "Widget")
      (modelUsage (analysed SampleStore.server SampleStore.client
                     SampleStore.fs SampleStore.schema SampleStore.files))
    = Some mu /\
    (StronglySorted moreConfident (fileAnalyses mu) /\
     Permutation (fileAnalyses mu)
       (analysesOf SampleStore.fs SampleStore.server SampleStore.client
          (T "Widget") SampleStore.files) /\
     (forall c,
        filter (withConfidence c) (fileAnalyses mu)
        = filter (withConfidence c)
            (analysesOf SampleStore.fs SampleStore.server SampleStore.client
               (T "Widget") SampleStore.files))) /\
    map file (analysesOf SampleStore.fs SampleStore.server SampleStore.client
                (T "Widget") SampleStore.files)
    = [T "src/widgets.ts"; T "src/notes.ts"; T "src/more.ts"] /\
    map file (fileAnalyses mu)
    = [T "src/notes.ts"; T "src/more.ts"; T "src/widgets.ts"] /\
    map confidence (fileAnalyses mu) = [52; 52; 40].
Proof.
  eexists. split; [vm_compute; reflexivity|]. split.
  - match goal with
    | |- StronglySorted _ (fileAnalyses ?u) /\ _ =>
        apply (X2_analyses_sorted_by_confidence SampleStore.server
                 SampleStore.client SampleStore.fs SampleStore.schema
                 SampleStore.files (T "Widget") u)
    end.
    vm_compute; reflexivity.
  - split; [vm_compute; reflexivity|]. split; vm_compute; reflexivity.
Defined.

(** ** Where a relationship is read *)

(** A match of the pattern of the relationships, part by part. *)
Lemma relation_match (p : pos) (ends : list pos) :
  Schema.exec_parts gm Schema.relationRegex p = Some ends ->
  Schema.at_bol gm p = true /\
  exists lead fld gap mdl brackets gap',
    Schema.spans p ends
    = [lead; fld; gap; mdl; brackets; gap'; T "@relation"] /\
    snd p = relationText lead fld gap mdl brackets gap'
            ++ snd (last ends p) /\
    relationShape lead fld gap mdl brackets gap'.
Proof.
  intros Hexec. apply exec_parts_follows in Hexec.
  destruct Hexec as (Hbol & Hf). split; [exact Hbol|].
  destruct (follows_spans gm _ p ends Hf) as (Hcat & Hall).
  unfold Schema.relationRegex in Hall.
  inversion Hall as [|r0 s0 l0 l0' (p0 & q0 & M0 & W0) Hall1]; subst.
  inversion Hall1 as [|r1 s1 l1 l1' (p1 & q1 & M1 & W1) Hall2]; subst.
  inversion Hall2 as [|r2 s2 l2 l2' (p2 & q2 & M2 & W2) Hall3]; subst.
  inversion Hall3 as [|r3 s3 l3 l3' (p3 & q3 & M3 & W3) Hall4]; subst.
  inversion Hall4 as [|r4 s4 l4 l4' (p4 & q4 & M4 & W4) Hall5]; subst.
  inversion Hall5 as [|r5 s5 l5 l5' (p5 & q5 & M5 & W5) Hall6]; subst.
  inversion Hall6 as [|r6 s6 l6 l6' (p6 & q6 & M6 & W6) Hall7]; subst.
  inversion Hall7; subst.
  match goal with
  | Hs : _ = Schema.spans p ends |- _ => rewrite <- Hs in *
  end.
  cbn [concat app] in Hcat. rewrite app_nil_r in Hcat.
  assert (Hlead : forallb is_space s0 = true).
  { unfold star, ws in M0. rewrite mt_star in M0. revert M0 W0.
    generalize (length (snd p0)). intros n M0 W0.
    assert (G : exists w, snd p0 = w ++ snd q0 /\ forallb is_space w = true).
    { revert M0.
      apply iterate_ind with
        (R := fun a b => exists w, snd a = w ++ snd b
                                   /\ forallb is_space w = true).
      - intros a. exists []. split; reflexivity.
      - intros a b c Hb (w & Hw & Hsp). cbn [mt] in Hb.
        apply one_char_spec in Hb. destruct Hb as (y & Hy & Hoky).
        rewrite space_class in Hoky.
        exists (y :: w). split; [rewrite Hy, Hw; reflexivity|].
        cbn [forallb]. rewrite Hoky, Hsp. reflexivity. }
    destruct G as (w & Hw & Hsp). rewrite Hw in W0.
    apply app_inv_tail in W0. subst w. exact Hsp. }
  destruct (plus_ws_spaces gm p2 q2 s2 M2 W2) as (G1 & G2).
  destruct (plus_ws_spaces gm p5 q5 s5 M5 W5) as (G3 & G4).
  pose proof (plus_wd_taken gm p1 q1 s1 M1 W1) as Hw1.
  pose proof (plus_wd_taken gm p3 q3 s3 M3 W3) as Hw3.
  unfold L in M6. apply lit_exact in M6. rewrite M6 in W6.
  apply app_inv_tail in W6. subst s6.
  assert (Hb : s4 = T "[]" \/ s4 = []).
  { cbn [mt] in M4.
    apply in_app_or in M4. destruct M4 as [M4|M4].
    - left. apply (lit_exact (T "[]") p4 q4) in M4. rewrite M4 in W4.
      apply app_inv_tail in W4. symmetry. exact W4.
    - right. apply (lit_exact [] p4 q4) in M4. rewrite M4 in W4.
      change ([] ++ snd q4) with ([] ++ [] ++ snd q4) in W4 at 1.
      apply app_inv_tail in W4. symmetry. exact W4. }
  exists s0, s1, s2, s3, s4, s5. split; [reflexivity|]. split.
  - unfold relationText. rewrite Hcat. rewrite <- ?app_assoc. reflexivity.
  - unfold relationShape. auto 10.
Qed.

Lemma lastc_cons (prev : option ascii) (c : ascii) (w : text) :
  lastc prev (c :: w) = lastc (Some c) w.
Proof. reflexivity. Qed.

Lemma lastc_app (prev : option ascii) (a b : text) :
  lastc prev (a ++ b) = lastc (lastc prev a) b.
Proof. unfold lastc. apply fold_left_app. Qed.

(** A greedy star over a class first takes the whole run. *)
Lemma star_class_run (f : flags) (neg : bool) (l : list catom)
  (w rest : text) :
  forallb (fun c => xorb neg (in_class f l c)) w = true ->
  stops (fun c => xorb neg (in_class f l c)) rest ->
  forall n prev, length (w ++ rest) <= n ->
  exists tl,
    iterate true (mt f (Cls neg l)) n (prev, w ++ rest)
    = (lastc prev w, rest) :: tl.
Proof.
  intros Hw Hrest. induction w as [|y w IH]; intros n prev Hn.
  - cbn [app lastc fold_left]. destruct n as [|n]; [simpl; eauto|].
    assert (Hs0 : mt f (Cls neg l) (prev, rest) = []).
    { cbn [mt]. unfold one_char. cbn [snd].
      destruct rest as [|x t]; [reflexivity|].
      cbn [stops] in Hrest. cbv beta in Hrest. rewrite Hrest. reflexivity. }
    cbn [iterate]. rewrite Hs0. cbn [flat_map app]. eauto.
  - destruct n as [|n]; [simpl in Hn; lia|].
    cbn [forallb] in Hw. apply andb_true_iff in Hw. destruct Hw as [Hy Hw].
    destruct (IH Hw n (Some y)) as (tl & Hl); [simpl in Hn; lia|].
    set (step := mt f (Cls neg l)) in *.
    assert (Hs : step (prev, (y :: w) ++ rest) = [(Some y, w ++ rest)]).
    { unfold step. cbn [app mt]. unfold one_char. cbn [snd].
      rewrite Hy. reflexivity. }
    assert (Hlt : (length (w ++ rest) <? length ((y :: w) ++ rest)) = true)
      by (apply Nat.ltb_lt; simpl; lia).
    cbn [iterate]. rewrite Hs. cbn [flat_map snd]. rewrite Hlt, Hl.
    simpl. eauto.
Qed.

Lemma plus_class_run (f : flags) (neg : bool) (l : list catom)
  (w rest : text) (prev : option ascii) :
  w <> [] ->
  forallb (fun c => xorb neg (in_class f l c)) w = true ->
  stops (fun c => xorb neg (in_class f l c)) rest ->
  exists tl,
    mt f (plus (Cls neg l)) (prev, w ++ rest) = (lastc prev w, rest) :: tl.
Proof.
  intros Hne Hw Hrest. destruct w as [|y w]; [contradiction Hne; reflexivity|].
  cbn [forallb] in Hw. apply andb_true_iff in Hw. destruct Hw as [Hy Hw].
  unfold plus. rewrite mt_seq.
  assert (Hs : mt f (Cls neg l) (prev, (y :: w) ++ rest)
               = [(Some y, w ++ rest)]).
  { cbn [app mt]. unfold one_char. cbn [snd]. rewrite Hy. reflexivity. }
  rewrite Hs. cbn [flat_map]. rewrite app_nil_r, mt_star. cbn [snd].
  destruct (star_class_run f neg l w rest Hw Hrest (length (w ++ rest))
              (Some y) (le_n _)) as (tl & ->).
  eauto.
Qed.

Lemma lit_run (f : flags) (l rest : text) :
  forall prev, mt_lit f l (prev, l ++ rest) = [(lastc prev l, rest)].
Proof.
  induction l as [|c l IH]; intros prev; [reflexivity|].
  cbn [app mt_lit snd]. rewrite chr_eq_refl. apply IH.
Qed.

Lemma word_not_space (c : ascii) : is_word c = true -> is_space c = false.
Proof.
  destruct c as [[] [] [] [] [] [] [] []]; vm_compute; intros H;
    try discriminate H; reflexivity.
Qed.

Lemma space_not_word (c : ascii) : is_space c = true -> is_word c = false.
Proof.
  intros H. destruct (is_word c) eqn:E; [|reflexivity].
  apply word_not_space in E. congruence.
Qed.

Lemma space_not_bracket (c : ascii) :
  is_space c = true -> Ascii.eqb "["%char c = false.
Proof.
  destruct c as [[] [] [] [] [] [] [] []]; vm_compute; intros H;
    try discriminate H; reflexivity.
Qed.

Lemma stops_word (w rest : text) :
  Schema.word w -> stops is_space (w ++ rest).
Proof.
  intros (Hne & Hw). destruct w as [|c w]; [contradiction Hne; reflexivity|].
  cbn [forallb] in Hw. apply andb_true_iff in Hw. destruct Hw as (Hc & _).
  cbn [app stops]. apply word_not_space. exact Hc.
Qed.

Lemma stops_spaces (w rest : text) :
  w <> [] -> forallb is_space w = true -> stops is_word (w ++ rest).
Proof.
  intros Hne Hw. destruct w as [|c w]; [contradiction Hne; reflexivity|].
  cbn [forallb] in Hw. apply andb_true_iff in Hw. destruct Hw as (Hc & _).
  cbn [app stops]. apply space_not_word. exact Hc.
Qed.

Lemma forallb_class_space (f : flags) (w : text) :
  forallb is_space w = true ->
  forallb (fun c => xorb false (in_class f [CSpace] c)) w = true.
Proof.
  induction w as [|c w IH]; intros H; [reflexivity|].
  cbn [forallb] in *. apply andb_true_iff in H. destruct H as (Hc & H).
  rewrite space_class, Hc, (IH H). reflexivity.
Qed.

Lemma forallb_class_word (f : flags) (w : text) :
  forallb is_word w = true ->
  forallb (fun c => xorb false (in_class f [CWord] c)) w = true.
Proof.
  induction w as [|c w IH]; intros H; [reflexivity|].
  cbn [forallb] in *. apply andb_true_iff in H. destruct H as (Hc & H).
  rewrite word_class, Hc, (IH H). reflexivity.
Qed.

Lemma stops_class_space (f : flags) (rest : text) :
  stops is_space rest ->
  stops (fun c => xorb false (in_class f [CSpace] c)) rest.
Proof.
  destruct rest; [exact id|]. cbn [stops]. rewrite space_class. exact id.
Qed.

Lemma stops_class_word (f : flags) (rest : text) :
  stops is_word rest ->
  stops (fun c => xorb false (in_class f [CWord] c)) rest.
Proof.
  destruct rest; [exact id|]. cbn [stops]. rewrite word_class. exact id.
Qed.

Lemma mt_alt (f : flags) (a b : re) (p : pos) :
  mt f (Alt a b) p = mt f a p ++ mt f b p.
Proof. reflexivity. Qed.

Lemma mt_Lit (f : flags) (l : text) (p : pos) :
  mt f (Lit l) p = mt_lit f l p.
Proof. reflexivity. Qed.

(** The first way a sequence of parts matches: the first way of the
    first part, when the others match behind it. *)
Lemma mt_parts_head (f : flags) (r : re) (rs : list re) (p q : pos)
  (tl : list pos) (e : list pos) (tl' : list (list pos)) :
  mt f r p = q :: tl -> Schema.mt_parts f rs q = e :: tl' ->
  exists tl'', Schema.mt_parts f (r :: rs) p = (q :: e) :: tl''.
Proof.
  intros H1 H2. cbn [Schema.mt_parts]. rewrite H1. cbn [flat_map].
  rewrite H2. cbn [map app]. eauto.
Qed.

(** At a start of line where a relationship is written, the pattern
    matches, and its parts are the parts written. *)
Lemma relation_attempt (prev : option ascii)
  (lead fld gap mdl brackets gap' after : text) :
  Schema.at_bol gm
    (prev, relationText lead fld gap mdl brackets gap' ++ after) = true ->
  relationShape lead fld gap mdl brackets gap' ->
  exists ends,
    Schema.exec_parts gm Schema.relationRegex
      (prev, relationText lead fld gap mdl brackets gap' ++ after)
    = Some ends /\
    Schema.spans (prev, relationText lead fld gap mdl brackets gap' ++ after)
      ends
    = [lead; fld; gap; mdl; brackets; gap'; T "@relation"] /\
    snd (last ends
           (prev, relationText lead fld gap mdl brackets gap' ++ after))
    = after.
Proof.
  intros Hbol (Hlead & Hfld & Hgne & Hgap & Hmdl & Hbr & Hgne' & Hgap').
  unfold relationText. rewrite <- !app_assoc.
  unfold relationText in Hbol. rewrite <- !app_assoc in Hbol.
  set (s6 := T "@relation" ++ after).
  set (s5 := gap' ++ s6). set (s4 := brackets ++ s5).
  set (s3 := mdl ++ s4). set (s2 := gap ++ s3). set (s1 := fld ++ s2).
  fold s6 s5 s4 s3 s2 s1 in Hbol.
  set (q1 := (lastc prev lead, s1)).
  set (q2 := (lastc (fst q1) fld, s2)).
  set (q3 := (lastc (fst q2) gap, s3)).
  set (q4 := (lastc (fst q3) mdl, s4)).
  set (q5 := (lastc (fst q4) brackets, s5)).
  set (q6 := (lastc (fst q5) gap', s6)).
  set (q7 := (lastc (fst q6) (T "@relation"), after)).
  assert (M1 : exists tl, mt gm (star ws) (prev, lead ++ s1) = q1 :: tl).
  { unfold star, ws. rewrite mt_star. cbn [snd].
    apply star_class_run; [apply forallb_class_space; exact Hlead| |apply le_n].
    apply stops_class_space. unfold s1. apply stops_word. exact Hfld. }
  assert (M2 : exists tl, mt gm (plus wd) q1 = q2 :: tl).
  { unfold wd, q1, s1. apply plus_class_run; [apply Hfld| |].
    - apply forallb_class_word. apply Hfld.
    - apply stops_class_word. unfold s2. apply stops_spaces; assumption. }
  assert (M3 : exists tl, mt gm (plus ws) q2 = q3 :: tl).
  { unfold ws, q2, s2. apply plus_class_run; [exact Hgne| |].
    - apply forallb_class_space. exact Hgap.
    - apply stops_class_space. unfold s3. apply stops_word. exact Hmdl. }
  assert (Hs4 : stops is_word s4).
  { unfold s4. destruct Hbr as [-> | ->].
    - reflexivity.
    - unfold s5. cbn [app]. apply stops_spaces; assumption. }
  assert (M4 : exists tl, mt gm (plus wd) q3 = q4 :: tl).
  { unfold wd, q3, s3. apply plus_class_run; [apply Hmdl| |].
    - apply forallb_class_word. apply Hmdl.
    - apply stops_class_word. exact Hs4. }
  assert (M5 : exists tl, mt gm (Alt (L "[]") (Lit [])) q4 = q5 :: tl).
  { unfold q4, q5, s4. rewrite mt_alt. unfold L. rewrite !mt_Lit.
    cbn [fst]. destruct Hbr as [-> | ->].
    - rewrite (lit_run gm (T "[]") s5). cbn [app]. eauto.
    - cbn [app lastc fold_left]. unfold s5.
      destruct gap' as [|x g]; [contradiction Hgne'; reflexivity|].
      cbn [forallb] in Hgap'. apply andb_true_iff in Hgap'.
      destruct Hgap' as (Hx & _).
      assert (E : mt_lit gm (T "[]") (lastc (fst q3) mdl, (x :: g) ++ s6)
                  = []).
      { cbn [app mt_lit snd T list_ascii_of_string].
        unfold chr_eq. cbn [ignoreCase gm].
        rewrite (space_not_bracket x Hx). reflexivity. }
      rewrite E. cbn [app mt_lit]. eauto. }
  assert (M6 : exists tl, mt gm (plus ws) q5 = q6 :: tl).
  { unfold ws, q5, s5. apply plus_class_run; [exact Hgne'| |].
    - apply forallb_class_space. exact Hgap'.
    - apply stops_class_space. reflexivity. }
  assert (M7 : exists tl, mt gm (L "@relation") q6 = q7 :: tl).
  { unfold q6, q7, s6, L. rewrite mt_Lit. cbn [fst].
    rewrite (lit_run gm (T "@relation") after). eauto. }
  destruct M1 as (t1 & M1). destruct M2 as (t2 & M2).
  destruct M3 as (t3 & M3). destruct M4 as (t4 & M4).
  destruct M5 as (t5 & M5). destruct M6 as (t6 & M6).
  destruct M7 as (t7 & M7).
  assert (P7 : exists tl, Schema.mt_parts gm [L "@relation"] q6
                          = [q7] :: tl).
  { apply (mt_parts_head gm _ [] q6 q7 t7 [] []); [exact M7|reflexivity]. }
  destruct P7 as (u7 & P7).
  destruct (mt_parts_head gm _ _ q5 q6 t6 _ _ M6 P7) as (u6 & P6).
  destruct (mt_parts_head gm _ _ q4 q5 t5 _ _ M5 P6) as (u5 & P5).
  destruct (mt_parts_head gm _ _ q3 q4 t4 _ _ M4 P5) as (u4 & P4).
  destruct (mt_parts_head gm _ _ q2 q3 t3 _ _ M3 P4) as (u3 & P3).
  destruct (mt_parts_head gm _ _ q1 q2 t2 _ _ M2 P3) as (u2 & P2).
  destruct (mt_parts_head gm _ _ (prev, lead ++ s1) q1 t1 _ _ M1 P2)
    as (u1 & P1).
  exists [q1; q2; q3; q4; q5; q6; q7]. split; [|split].
  - unfold Schema.exec_parts. rewrite Hbol.
    unfold Schema.relationRegex. rewrite P1. reflexivity.
  - cbn [Schema.spans].
    rewrite (taken_suffix (prev, lead ++ s1) q1 lead) by reflexivity.
    rewrite (taken_suffix q1 q2 fld) by reflexivity.
    rewrite (taken_suffix q2 q3 gap) by reflexivity.
    rewrite (taken_suffix q3 q4 mdl) by reflexivity.
    rewrite (taken_suffix q4 q5 brackets) by reflexivity.
    rewrite (taken_suffix q5 q6 gap') by reflexivity.
    rewrite (taken_suffix q6 q7 (T "@relation")) by reflexivity.
    reflexivity.
  - reflexivity.
Qed.

(** Two runs that start the same text are the same run. *)
Lemma run_unique (ok : ascii -> bool) (w1 : text) :
  forall w2 r1 r2,
  forallb ok w1 = true -> forallb ok w2 = true ->
  stops ok r1 -> stops ok r2 ->
  w1 ++ r1 = w2 ++ r2 -> w1 = w2 /\ r1 = r2.
Proof.
  induction w1 as [|c w1 IH]; intros [|d w2] r1 r2 H1 H2 S1 S2 E;
    cbn [app] in E.
  - split; [reflexivity | exact E].
  - subst r1. cbn [stops] in S1. cbn [forallb] in H2.
    apply andb_true_iff in H2. destruct H2 as (H2 & _). congruence.
  - subst r2. cbn [stops] in S2. cbn [forallb] in H1.
    apply andb_true_iff in H1. destruct H1 as (H1 & _). congruence.
  - injection E as -> E. cbn [forallb] in H1, H2.
    apply andb_true_iff in H1, H2. destruct H1 as (_ & H1).
    destruct H2 as (_ & H2).
    destruct (IH w2 r1 r2 H1 H2 S1 S2 E) as (-> & ->). auto.
Qed.

Lemma stops_after_model (brackets gap' rest : text) :
  (brackets = T "[]" \/ brackets = []) ->
  gap' <> [] -> forallb is_space gap' = true ->
  stops is_word (brackets ++ gap' ++ rest).
Proof.
  intros [-> | ->] Hne Hsp; [reflexivity|].
  cbn [app]. apply stops_spaces; assumption.
Qed.

(** The parts of a relationship are determined by the text. *)
Lemma shape_unique
  (lead fld gap mdl brackets gap' after : text)
  (lead0 fld0 gap0 mdl0 brackets0 gap0' after0 : text) :
  relationShape lead fld gap mdl brackets gap' ->
  relationShape lead0 fld0 gap0 mdl0 brackets0 gap0' ->
  relationText lead fld gap mdl brackets gap' ++ after
  = relationText lead0 fld0 gap0 mdl0 brackets0 gap0' ++ after0 ->
  fld = fld0 /\ mdl = mdl0 /\ brackets = brackets0.
Proof.
  intros (Hlead & Hfld & Hgne & Hgap & Hmdl & Hbr & Hgne' & Hgap')
         (Hlead0 & Hfld0 & Hgne0 & Hgap0 & Hmdl0 & Hbr0 & Hgne0' & Hgap0') E.
  unfold relationText in E. rewrite <- !app_assoc in E.
  apply (run_unique is_space) in E;
    [|assumption|assumption|apply stops_word; assumption
     |apply stops_word; assumption].
  destruct E as (_ & E).
  apply (run_unique is_word) in E;
    [|apply Hfld|apply Hfld0|apply stops_spaces; assumption
     |apply stops_spaces; assumption].
  destruct E as (-> & E).
  apply (run_unique is_space) in E;
    [|assumption|assumption|apply stops_word; assumption
     |apply stops_word; assumption].
  destruct E as (_ & E).
  apply (run_unique is_word) in E;
    [|apply Hmdl|apply Hmdl0|apply stops_after_model; assumption
     |apply stops_after_model; assumption].
  destruct E as (-> & E).
  split; [reflexivity|]. split; [reflexivity|].
  destruct Hbr as [-> | ->]; destruct Hbr0 as [-> | ->]; try reflexivity;
    exfalso.
  - destruct gap0' as [|x g]; [contradiction Hgne0'; reflexivity|].
    cbn [forallb] in Hgap0'. apply andb_true_iff in Hgap0'.
    destruct Hgap0' as (Hx & _). cbn [app T list_ascii_of_string] in E.
    injection E as <- _. discriminate Hx.
  - destruct gap' as [|x g]; [contradiction Hgne'; reflexivity|].
    cbn [forallb] in Hgap'. apply andb_true_iff in Hgap'.
    destruct Hgap' as (Hx & _). cbn [app T list_ascii_of_string] in E.
    injection E as -> _. discriminate Hx.
Qed.

(** No relationship is written behind white space where a word and the
    attribute, or the attribute alone, follow. *)
Lemma no_shape_behind_field
  (g2 mdl0 brackets0 gap0' after0 : text)
  (lead fld gap mdl brackets gap' after : text) :
  forallb is_space g2 = true -> Schema.word mdl0 ->
  (brackets0 = T "[]" \/ brackets0 = []) ->
  gap0' <> [] -> forallb is_space gap0' = true ->
  relationShape lead fld gap mdl brackets gap' ->
  g2 ++ mdl0 ++ brackets0 ++ gap0' ++ T "@relation" ++ after0
  = relationText lead fld gap mdl brackets gap' ++ after ->
  False.
Proof.
  intros Hg2 Hmdl0 Hbr0 Hgne0' Hgap0'
         (Hlead & Hfld & Hgne & Hgap & Hmdl & Hbr & Hgne' & Hgap') E.
  unfold relationText in E. rewrite <- !app_assoc in E.
  apply (run_unique is_space) in E;
    [|assumption|assumption|apply stops_word; assumption
     |apply stops_word; assumption].
  destruct E as (_ & E).
  apply (run_unique is_word) in E;
    [|apply Hmdl0|apply Hfld|apply stops_after_model; assumption
     |apply stops_spaces; assumption].
  destruct E as (_ & E).
  destruct gap as [|y gap]; [contradiction Hgne; reflexivity|].
  pose proof Hgap as Hy. cbn [forallb] in Hy. apply andb_true_iff in Hy.
  destruct Hy as (Hy & _).
  destruct Hbr0 as [-> | ->].
  - cbn [app T list_ascii_of_string] in E. injection E as <- _.
    discriminate Hy.
  - cbn [app] in E.
    apply (run_unique is_space gap0' (y :: gap)) in E;
      [|assumption|assumption|reflexivity|apply stops_word; assumption].
    destruct E as (_ & E).
    destruct Hmdl as (Hne & Hw).
    destruct mdl as [|c mdl]; [contradiction Hne; reflexivity|].
    cbn [forallb] in Hw. apply andb_true_iff in Hw. destruct Hw as (Hc & _).
    cbn [app T list_ascii_of_string] in E. injection E as <- _.
    discriminate Hc.
Qed.

Lemma no_shape_behind_model
  (g2 after0 : text) (lead fld gap mdl brackets gap' after : text) :
  forallb is_space g2 = true ->
  relationShape lead fld gap mdl brackets gap' ->
  g2 ++ T "@relation" ++ after0
  = relationText lead fld gap mdl brackets gap' ++ after ->
  False.
Proof.
  intros Hg2 (Hlead & Hfld & _) E.
  unfold relationText in E. rewrite <- !app_assoc in E.
  apply (run_unique is_space) in E;
    [|assumption|assumption|reflexivity|apply stops_word; assumption].
  destruct E as (_ & E).
  destruct Hfld as (Hne & Hw).
  destruct fld as [|c fld]; [contradiction Hne; reflexivity|].
  cbn [forallb] in Hw. apply andb_true_iff in Hw. destruct Hw as (Hc & _).
  cbn [app T list_ascii_of_string] in E. injection E as <- _.
  discriminate Hc.
Qed.

Lemma endsLine_app (a l : text) :
  endsLine (a ++ l) -> (l = [] /\ endsLine a) \/ endsLine l.
Proof.
  intros H. destruct l as [|c l].
  - left. rewrite app_nil_r in H. auto.
  - right. destruct H as (x & t & E & Ht).
    destruct (@exists_last _ (c :: l)) as (l' & d & El); [discriminate|].
    rewrite El in *. rewrite app_assoc in E. apply app_inj_tail in E.
    destruct E as (_ & ->). exists l', t. auto.
Qed.

Lemma endsLine_in (x : text) :
  endsLine x -> exists t, In t x /\ is_line_terminator t = true.
Proof.
  intros (x' & t & -> & Ht). exists t. split; [|exact Ht].
  apply in_or_app. right. left. reflexivity.
Qed.

Lemma word_not_terminator (c : ascii) :
  is_word c = true -> is_line_terminator c = false.
Proof.
  destruct c as [[] [] [] [] [] [] [] []]; vm_compute; intros H;
    try discriminate H; reflexivity.
Qed.

(** No line ends inside a text without line terminator. *)
Lemma no_line_end (w z : text) :
  forallb notTerminator (w ++ z) = true -> endsLine w -> False.
Proof.
  intros H Hw. apply endsLine_in in Hw. destruct Hw as (t & Hin & Ht).
  rewrite forallb_forall in H.
  specialize (H t (in_or_app _ _ _ (or_introl Hin))).
  unfold notTerminator in H. rewrite Ht in H. discriminate H.
Qed.

Lemma word_notTerminator (w : text) :
  forallb is_word w = true -> forallb notTerminator w = true.
Proof.
  induction w as [|c w IH]; intros H; [reflexivity|].
  cbn [forallb] in *. apply andb_true_iff in H. destruct H as (Hc & H).
  unfold notTerminator at 1. rewrite (word_not_terminator c Hc), (IH H).
  reflexivity.
Qed.

(** A relationship written at a start of line inside another one, after
    its first character, is the same relationship: the line starts in
    the white space before the field. *)
Lemma overlap
  (lead0 fld0 gap0 mdl0 brackets0 gap0' after0 : text)
  (pre lead fld gap mdl brackets gap' after : text) :
  relationShape lead0 fld0 gap0 mdl0 brackets0 gap0' ->
  relationShape lead fld gap mdl brackets gap' ->
  relationText lead0 fld0 gap0 mdl0 brackets0 gap0' ++ after0
  = pre ++ relationText lead fld gap mdl brackets gap' ++ after ->
  endsLine pre ->
  length pre < length (relationText lead0 fld0 gap0 mdl0 brackets0 gap0') ->
  fld = fld0 /\ mdl = mdl0 /\ brackets = brackets0.
Proof.
  intros S0 S1 E Hpre Hlen.
  pose proof S0 as (Hlead0 & Hfld0 & Hgne0 & Hgap0 & Hmdl0 & Hbr0 & Hgne0'
                    & Hgap0').
  set (rest := relationText lead fld gap mdl brackets gap' ++ after) in *.
  unfold relationText in E, Hlen. rewrite <- !app_assoc in E.
  (* the white space in front *)
  apply app_eq_app in E. destruct E as (l & [(E1 & E2) | (E1 & E2)]).
  { (* the line starts in it *)
    assert (Hl : forallb is_space l = true).
    { rewrite E1, forallb_app in Hlead0. apply andb_true_iff in Hlead0.
      apply Hlead0. }
    apply (shape_unique lead fld gap mdl brackets gap' after
             l fld0 gap0 mdl0 brackets0 gap0' after0 S1).
    - unfold relationShape. auto 10.
    - fold rest. rewrite E2. unfold relationText. rewrite <- !app_assoc.
      reflexivity. }
  destruct l as [|c0 l0].
  { apply (shape_unique lead fld gap mdl brackets gap' after
             [] fld0 gap0 mdl0 brackets0 gap0' after0 S1).
    - unfold relationShape. auto 10.
    - fold rest. cbn [app] in E2. rewrite <- E2. unfold relationText.
      rewrite <- !app_assoc. reflexivity. }
  exfalso. rewrite E1 in Hpre, Hlen.
  apply endsLine_app in Hpre. destruct Hpre as [(Hnil & _) | Hl];
    [discriminate Hnil|].
  revert Hl E2 Hlen. generalize (c0 :: l0). clear c0 l0 E1. intros l Hl E Hlen.
  (* the field *)
  apply app_eq_app in E. destruct E as (z & [(E1 & E2) | (E1 & E2)]).
  { apply (no_line_end l z); [|exact Hl]. rewrite <- E1.
    apply word_notTerminator. apply Hfld0. }
  rewrite E1 in Hl, Hlen. apply endsLine_app in Hl.
  destruct Hl as [(_ & Hl) | Hl].
  { apply (no_line_end fld0 []); [|exact Hl]. rewrite app_nil_r.
    apply word_notTerminator. apply Hfld0. }
  clear l E1. rename z into l. rename E2 into E.
  (* the white space behind the field *)
  apply app_eq_app in E. destruct E as (z & [(E1 & E2) | (E1 & E2)]).
  { assert (Hz : forallb is_space z = true).
    { rewrite E1, forallb_app in Hgap0. apply andb_true_iff in Hgap0.
      apply Hgap0. }
    apply (no_shape_behind_field z mdl0 brackets0 gap0' after0
             lead fld gap mdl brackets gap' after Hz Hmdl0 Hbr0 Hgne0' Hgap0'
             S1).
    fold rest. rewrite E2. reflexivity. }
  destruct z as [|c0 z0].
  { apply (no_shape_behind_field [] mdl0 brackets0 gap0' after0
             lead fld gap mdl brackets gap' after eq_refl Hmdl0 Hbr0 Hgne0'
             Hgap0' S1).
    fold rest. cbn [app] in *. rewrite <- E2. reflexivity. }
  rewrite E1 in Hl, Hlen. apply endsLine_app in Hl.
  destruct Hl as [(Hnil & _) | Hl]; [discriminate Hnil|].
  revert Hl E2 Hlen. generalize (c0 :: z0). clear c0 z0 l E1.
  intros l Hl E Hlen.
  (* the model *)
  apply app_eq_app in E. destruct E as (z & [(E1 & E2) | (E1 & E2)]).
  { apply (no_line_end l z); [|exact Hl]. rewrite <- E1.
    apply word_notTerminator. apply Hmdl0. }
  rewrite E1 in Hl, Hlen. apply endsLine_app in Hl.
  destruct Hl as [(_ & Hl) | Hl].
  { apply (no_line_end mdl0 []); [|exact Hl]. rewrite app_nil_r.
    apply word_notTerminator. apply Hmdl0. }
  clear l E1. rename z into l. rename E2 into E.
  (* the brackets *)
  apply app_eq_app in E. destruct E as (z & [(E1 & E2) | (E1 & E2)]).
  { apply (no_line_end l z); [|exact Hl]. rewrite <- E1.
    destruct Hbr0 as [-> | ->]; reflexivity. }
  rewrite E1 in Hl, Hlen. apply endsLine_app in Hl.
  destruct Hl as [(_ & Hl) | Hl].
  { apply (no_line_end brackets0 []); [|exact Hl]. rewrite app_nil_r.
    destruct Hbr0 as [-> | ->]; reflexivity. }
  clear l E1. rename z into l. rename E2 into E.
  (* the white space behind the model *)
  apply app_eq_app in E. destruct E as (z & [(E1 & E2) | (E1 & E2)]).
  { assert (Hz : forallb is_space z = true).
    { rewrite E1, forallb_app in Hgap0'. apply andb_true_iff in Hgap0'.
      apply Hgap0'. }
    apply (no_shape_behind_model z after0
             lead fld gap mdl brackets gap' after Hz S1).
    fold rest. rewrite E2. reflexivity. }
  destruct z as [|c0 z0].
  { apply (no_shape_behind_model [] after0
             lead fld gap mdl brackets gap' after eq_refl S1).
    fold rest. cbn [app] in *. rewrite <- E2. reflexivity. }
  rewrite E1 in Hl, Hlen. apply endsLine_app in Hl.
  destruct Hl as [(Hnil & _) | Hl]; [discriminate Hnil|].
  revert Hl E2 Hlen. generalize (c0 :: z0). clear c0 z0 l E1.
  intros l Hl E Hlen.
  (* the attribute *)
  apply app_eq_app in E. destruct E as (z & [(E1 & E2) | (E1 & E2)]).
  { apply (no_line_end l z); [|exact Hl]. rewrite <- E1. reflexivity. }
  rewrite E1 in Hlen. rewrite !length_app in Hlen. lia.
Qed.

(** Every match of the loop is the first way the parts match at a place
    of the subject, at a start of line. *)
Lemma execAll_matches_at (f : flags) (rs : list re) :
  forall s prev skip ms m,
  Schema.execAll f rs prev s skip = Some ms -> In m ms ->
  exists before rest ends,
    s = before ++ rest /\
    Schema.exec_parts f rs (lastc prev before, rest) = Some ends /\
    m = Schema.spans (lastc prev before, rest) ends.
Proof.
  induction s as [|c t IH]; intros prev skip ms m H Hm.
  - destruct skip; cbn [Schema.execAll] in H;
      [|injection H as <-; contradiction].
    destruct (Schema.exec_parts f rs (prev, [])) as [ends|] eqn:E;
      [|injection H as <-; contradiction].
    destruct (_ - _); [discriminate H|]. cbn [option_map] in H.
    injection H as <-. destruct Hm as [<-|[]].
    exists [], [], ends. split; [reflexivity|]. split; [exact E|reflexivity].
  - assert (Hrec : forall k ms', Schema.execAll f rs (Some c) t k = Some ms' ->
                   In m ms' ->
                   exists before rest ends,
                     c :: t = before ++ rest /\
                     Schema.exec_parts f rs (lastc prev before, rest)
                     = Some ends /\
                     m = Schema.spans (lastc prev before, rest) ends).
    { intros k ms' H' Hm'. destruct (IH _ _ _ _ H' Hm')
        as (before & rest & ends & H1 & H2 & H3).
      exists (c :: before), rest, ends. split; [rewrite H1; reflexivity|].
      rewrite lastc_cons. split; assumption. }
    destruct skip as [|k]; cbn [Schema.execAll] in H;
      [|apply (Hrec _ _ H Hm)].
    destruct (Schema.exec_parts f rs (prev, c :: t)) as [ends|] eqn:E;
      [|apply (Hrec _ _ H Hm)].
    destruct (_ - _) as [|k]; [discriminate H|].
    destruct (Schema.execAll f rs (Some c) t k) as [ms'|] eqn:E';
      [|discriminate H].
    cbn [option_map] in H. injection H as <-. destruct Hm as [<-|Hm].
    + exists [], (c :: t), ends. split; [reflexivity|].
      split; [exact E|reflexivity].
    + apply (Hrec _ _ E' Hm).
Qed.

Lemma bol_endsLine (prev : option ascii) (pre rest : text) :
  pre <> [] -> Schema.at_bol gm (lastc prev pre, rest) = true ->
  endsLine pre.
Proof.
  intros Hne H. destruct (@exists_last _ pre Hne) as (pre' & t & ->).
  rewrite lastc_app in H. cbn [lastc fold_left] in H.
  unfold Schema.at_bol in H. cbn [fst multiline gm andb] in H.
  exists pre', t. auto.
Qed.

Lemma relationText_length (lead fld gap mdl brackets gap' : text) :
  0 < length (relationText lead fld gap mdl brackets gap').
Proof.
  unfold relationText. rewrite !length_app. cbn [length T list_ascii_of_string].
  lia.
Qed.

(** A relationship written at a start of line is read, by the match
    that starts there or by one that starts before on white space. *)
Lemma execAll_covers :
  forall s prev skip ms pre lead fld gap mdl brackets gap' after,
  Schema.execAll gm Schema.relationRegex prev s skip = Some ms ->
  s = pre ++ relationText lead fld gap mdl brackets gap' ++ after ->
  skip <= length pre ->
  Schema.at_bol gm
    (lastc prev pre, relationText lead fld gap mdl brackets gap' ++ after)
  = true ->
  relationShape lead fld gap mdl brackets gap' ->
  exists m, In m ms /\ Schema.relationOf m = relationRead fld mdl brackets.
Proof.
  induction s as [|c t IH];
    intros prev skip ms pre lead fld gap mdl brackets gap' after H Hs Hskip
      Hbol Hshape.
  - exfalso. pose proof (relationText_length lead fld gap mdl brackets gap').
    apply (f_equal (@length _)) in Hs. rewrite !length_app in Hs.
    cbn [length] in Hs. lia.
  - destruct skip as [|k].
    + destruct pre as [|c' pre'].
      * cbn [app lastc fold_left] in Hbol, Hs.
        destruct (relation_attempt prev lead fld gap mdl brackets gap' after
                    Hbol Hshape) as (ends & He & Hsp & Hlast).
        rewrite <- Hs in He, Hsp, Hlast.
        cbn [Schema.execAll] in H. rewrite He in H.
        destruct (_ - _); [discriminate H|].
        destruct (Schema.execAll gm Schema.relationRegex (Some c) t n)
          as [ms'|]; [|discriminate H].
        cbn [option_map] in H. injection H as <-.
        eexists. split; [left; reflexivity|]. rewrite Hsp. reflexivity.
      * cbn [app] in Hs. injection Hs as <- Ht.
        rewrite lastc_cons in Hbol.
        cbn [Schema.execAll] in H.
        destruct (Schema.exec_parts gm Schema.relationRegex (prev, c :: t))
          as [ends|] eqn:E.
        2:{ apply (IH _ _ _ pre' lead fld gap mdl brackets gap' after H Ht);
              [apply Nat.le_0_l | exact Hbol | exact Hshape]. }
        destruct (relation_match _ _ E)
          as (_ & lead0 & fld0 & gap0 & mdl0 & br0 & gap0' & Hsp0 & Hp0 & S0).
        cbn [snd] in Hp0.
        set (after0 := snd (last ends (prev, c :: t))) in *.
        assert (Hn : length (c :: t) - length after0
                     = length (relationText lead0 fld0 gap0 mdl0 br0 gap0')).
        { rewrite Hp0, length_app. lia. }
        rewrite Hn in H.
        destruct (length (relationText lead0 fld0 gap0 mdl0 br0 gap0'))
          as [|k] eqn:Ek; [discriminate H|].
        destruct (Schema.execAll gm Schema.relationRegex (Some c) t k)
          as [ms'|] eqn:E'; [|discriminate H].
        cbn [option_map] in H. injection H as <-.
        destruct (Nat.le_gt_cases k (length pre')) as [Hle | Hgt].
        { destruct (IH _ _ _ pre' lead fld gap mdl brackets gap' after E' Ht
                      Hle Hbol Hshape) as (m & Hm & Hr).
          exists m. split; [right; exact Hm | exact Hr]. }
        assert (Hbol' : Schema.at_bol gm
                  (lastc prev (c :: pre'),
                   relationText lead fld gap mdl brackets gap' ++ after)
                  = true) by (rewrite lastc_cons; exact Hbol).
        apply bol_endsLine in Hbol'; [|discriminate].
        destruct (overlap lead0 fld0 gap0 mdl0 br0 gap0' after0
                    (c :: pre') lead fld gap mdl brackets gap' after S0 Hshape)
          as (-> & -> & ->).
        { rewrite <- Hp0. cbn [app]. rewrite Ht. reflexivity. }
        { exact Hbol'. }
        { rewrite Ek. cbn [length]. lia. }
        eexists. split; [left; reflexivity|]. rewrite Hsp0. reflexivity.
    + destruct pre as [|c' pre']; [cbn [length] in Hskip; lia|].
      cbn [app] in Hs. injection Hs as <- Ht. rewrite lastc_cons in Hbol.
      cbn [Schema.execAll] in H.
      apply (IH _ _ _ pre' lead fld gap mdl brackets gap' after H Ht);
        [cbn [length] in Hskip; lia | exact Hbol | exact Hshape].
Qed.

(** X27.  A relationship is read exactly where, at a start of line in
    the body of a model, stand white space or nothing, a word, white
    space, a word, the two brackets or nothing, white space and the text
    of the attribute: the first word is the field, the second the model,
    and the relationship is an array exactly when the brackets are
    there.  A body without the attribute gives no relationship. *)
Theorem X27_what_a_relationship_is
  (schemaContent : text) (parsed : list modelInfo) (m : modelInfo)
  (rel : relationship) :
  Schema.schemaModels schemaContent = Some parsed -> In m parsed ->
  (In rel (relationships m) <->
   exists before lead gap brackets gap' after,
     rawBody m = before ++ lead ++ field rel ++ gap ++ model rel ++ brackets
                 ++ gap' ++ T "@relation" ++ after /\
     lineStart before = true /\
     forallb is_space lead = true /\
     Schema.word (field rel) /\ Schema.word (model rel) /\
     gap <> [] /\ forallb is_space gap = true /\
     gap' <> [] /\ forallb is_space gap' = true /\
     (isArray rel = true /\ brackets = T "[]"
      \/ isArray rel = false /\ brackets = [])) /\
  (In rel (relationships m) ->
   Schema.occursIn (T "@relation") (rawBody m)).
Proof.
  intros H Hm. unfold Schema.schemaModels in H.
  destruct (Schema.execAll gm Schema.modelRegex None schemaContent 0)
    as [ms|] eqn:E; [|discriminate H].
  destruct (parseModels_In ms parsed m H Hm) as (g & Hg & Hp).
  unfold Schema.parseModel in Hp. cbv zeta in Hp.
  unfold Schema.parseFields, Schema.parseRelations in Hp.
  destruct (Schema.execAll gm Schema.fieldRegex None (Schema.group 5 g) 0)
    as [fm|]; [|discriminate Hp].
  destruct (Schema.execAll gm Schema.relationRegex None (Schema.group 5 g) 0)
    as [rm|] eqn:Er; [|discriminate Hp].
  cbn [option_map] in Hp.
  apply (f_equal (fun o => match o with Some x => x | None => m end)) in Hp.
  cbv beta iota in Hp. subst m. cbn [relationships rawBody].
  set (body := Schema.group 5 g) in *.
  assert (Hto : In rel (map Schema.relationOf rm) ->
            exists before lead gap brackets gap' after,
              body = before ++ lead ++ field rel ++ gap ++ model rel
                     ++ brackets ++ gap' ++ T "@relation" ++ after /\
              lineStart before = true /\
              forallb is_space lead = true /\
              Schema.word (field rel) /\ Schema.word (model rel) /\
              gap <> [] /\ forallb is_space gap = true /\
              gap' <> [] /\ forallb is_space gap' = true /\
              (isArray rel = true /\ brackets = T "[]"
               \/ isArray rel = false /\ brackets = [])).
  { intros Hrel. apply in_map_iff in Hrel. destruct Hrel as (x & <- & Hx).
    destruct (execAll_matches_at gm _ _ _ _ _ x Er Hx)
      as (before & rest & ends & Hbody & Hexec & ->).
    destruct (relation_match _ _ Hexec)
      as (Hbol & lead & fld & gap & mdl & br & gap' & Hsp & Hp
          & (S1 & S2 & S3 & S4 & S5 & S6 & S7 & S8)).
    cbn [snd] in Hp. rewrite Hsp.
    unfold Schema.relationOf. cbn [field model isArray Schema.group nth].
    set (after := snd (last ends (lastc None before, rest))) in *.
    exists before, lead, gap, br, gap', after.
    split.
    { rewrite Hbody, Hp. unfold relationText. rewrite <- !app_assoc.
      reflexivity. }
    split.
    { unfold lineStart. unfold Schema.at_bol in Hbol.
      cbn [fst multiline gm andb] in Hbol. exact Hbol. }
    repeat (split; [assumption|]).
    destruct S6 as [-> | ->]; [left | right]; split; reflexivity. }
  split; [split|].
  - exact Hto.
  - intros (before & lead & gap & br & gap' & after & Hbody & Hbol & S1 & S2
            & S3 & S4 & S5 & S6 & S7 & Harr).
    assert (Hshape : relationShape lead (field rel) gap (model rel) br gap').
    { unfold relationShape. destruct Harr as [(_ & ->) | (_ & ->)]; auto 10. }
    destruct (execAll_covers body None 0 rm before lead (field rel) gap
                (model rel) br gap' after Er) as (x & Hx & Hr).
    + rewrite Hbody. unfold relationText. rewrite <- !app_assoc. reflexivity.
    + apply Nat.le_0_l.
    + unfold Schema.at_bol. cbn [fst multiline gm andb].
      unfold lineStart in Hbol. exact Hbol.
    + exact Hshape.
    + apply in_map_iff. exists x. split; [|exact Hx]. rewrite Hr.
      unfold relationRead. destruct rel as [fl md arr]. cbn [field model].
      cbn [isArray] in Harr.
      destruct Harr as [(-> & ->) | (-> & ->)]; reflexivity.
  - intros Hrel. destruct (Hto Hrel)
      as (before & lead & gap & br & gap' & after & Hbody & _).
    exists (before ++ lead ++ field rel ++ gap ++ model rel ++ br ++ gap'),
      after.
    rewrite Hbody. rewrite <- !app_assoc. reflexivity.
Qed.

(** In the sample schema the relationship of Order is written on the
    third line of the body, behind two spaces. *)
Lemma X27_witness :
  exists parsed m,
    Schema.schemaModels SampleSchema.content = Some parsed /\
    In m parsed /\
    In {| field := T "items"; model := T "OrderItem"; isArray := true |}
       (relationships m) /\
    Schema.occursIn (T "@relation") (rawBody m).
Proof.
  let v := eval vm_compute in (Schema.schemaModels SampleSchema.content) in
  match v with
  | Some (?m1 :: ?rest) =>
      assert (E : Schema.schemaModels SampleSchema.content
                  = Some (m1 :: rest)) by (vm_compute; reflexivity);
      assert (Hin : In m1 (m1 :: rest)) by (left; reflexivity);
      destruct (X27_what_a_relationship_is SampleSchema.content _ _
                  {| field := T "items"; model := T "OrderItem";
                     isArray := true |} E Hin)
        as ((_ & Hread) & Hocc);
      exists (m1 :: rest), m1
  end.
  split; [exact E|]. split; [exact Hin|].
  match goal with
  | |- In ?r (relationships ?m) /\ _ =>
      assert (Hrel : In r (relationships m))
  end.
  { apply Hread.
    exists (T (SampleSchema.nl ++ "  id    Int @id" ++ SampleSchema.nl)),
      (T "  "), (T " "), (T "[]"), (T " "), (T "(").
    split; [vm_compute; reflexivity|].
    split; [vm_compute; reflexivity|].
    split; [vm_compute; reflexivity|].
    split; [split; [discriminate | vm_compute; reflexivity]|].
    split; [split; [discriminate | vm_compute; reflexivity]|].
    split; [discriminate|]. split; [vm_compute; reflexivity|].
    split; [discriminate|]. split; [vm_compute; reflexivity|].
    left. split; reflexivity. }
  split; [exact Hrel | exact (Hocc Hrel)].
Defined.
